(** * Opinion formation with in-group bias: a shallow embedding

    The development follows the two source modules of the simulation:

    - [create_network.py]: the small-world network with two identity groups
      ([watts_strogatz_graph_UnevenK], [create_withinAndBetweenGroup_network]);
    - [model.py]: the belief space, the diffusion operator, the agents and
      the simulation engine ([OpinionModel], [Agent]).

    Python floats are read as real numbers, so arithmetic is exact.  Python
    exceptions are the [Raise] outcomes of the type [res]; the [while] loops
    of the source take a fuel argument and answer [OutOfFuel] when it is used
    up.  The random generators of Python and numpy are streams of draws with a
    cursor; seeding a generator is an unknown function of the seed. *)

From Stdlib Require Import String.
From Stdlib Require Import Reals Lra Lia ZArith Bool Arith List.
From Stdlib Require Import Permutation ClassicalEpsilon.
From Stdlib Require DecimalString.
Import ListNotations.

Local Open Scope Z_scope.

(* ------------------------------------------------------------------ *)
(** * Outcomes of Python code *)

Inductive exn : Set :=
| AssertionError | AttributeError | IndexError | KeyError
| LinAlgError | NetworkXError | TypeError | ValueError | ZeroDivisionError.

Inductive res (A : Type) : Type :=
| Ok (a : A)
| Raise (e : exn)
| OutOfFuel.

Arguments Ok {A} a.
Arguments Raise {A} e.
Arguments OutOfFuel {A}.

Definition bind {A B : Type} (c : res A) (k : A -> res B) : res B :=
  match c with
  | Ok a => k a
  | Raise e => Raise e
  | OutOfFuel => OutOfFuel
  end.

Notation "x <- c ;; k" := (bind c (fun x => k))
  (at level 61, c at next level, right associativity).
Notation "' p <- c ;; k" := (bind c (fun x => let p := x in k))
  (at level 61, p pattern, c at next level, right associativity).

Definition returns {A : Type} (c : res A) : Prop := exists a, c = Ok a.

(** Real comparisons as booleans, for the [if] tests of the source. *)
Definition Rltb (x y : R) : bool := if Rlt_dec x y then true else false.

(* ------------------------------------------------------------------ *)
(** * Random generators

    A generator is a stream of draws and a cursor into it.  Every call
    consumes one position: [random] reads a float of [0, 1), [choice] an
    index into the sequence it is given, [permutation] an ordering of
    [0 .. n-1]. *)

Record gen : Type := mkGen {
  gfloat : nat -> R;
  gindex : nat -> nat;
  gperm : nat -> nat -> list nat;
  gpos : nat
}.

Definition advance (g : gen) : gen :=
  mkGen (gfloat g) (gindex g) (gperm g) (S (gpos g)).

Definition random (g : gen) : R * gen := (gfloat g (gpos g), advance g).

(** [random.choice(seq)] and [np.random.choice(seq)]. Python raises
    IndexError and numpy ValueError on an empty sequence. *)
Definition choice {A : Type} (e : exn) (l : list A) (g : gen) : res (A * gen) :=
  match nth_error l (Nat.modulo (gindex g (gpos g)) (length l)) with
  | Some a => Ok (a, advance g)
  | None => Raise e
  end.

Definition permutation (n : nat) (g : gen) : list nat * gen :=
  (gperm g (gpos g) n, advance g).

(** What a real generator guarantees about its draws. *)
Definition gen_ok (g : gen) : Prop :=
  (forall i, (0 <= gfloat g i < 1)%R) /\
  (forall i n, Permutation (gperm g i n) (seq 0 n)).

(* ------------------------------------------------------------------ *)
(** * Graphs ([networkx.Graph])

    A graph keeps its nodes in insertion order, each with its neighbours in
    insertion order, as the dictionaries of networkx do. *)

Module Graph.

Definition t : Type := list (Z * list Z).

Definition empty : t := [].

Definition nodes (G : t) : list Z := map fst G.

Definition has_node (G : t) (u : Z) : bool := existsb (Z.eqb u) (nodes G).

Definition neighbors (G : t) (u : Z) : list Z :=
  match find (fun e => Z.eqb u (fst e)) G with
  | Some e => snd e
  | None => []
  end.

Definition has_edge (G : t) (u v : Z) : bool := existsb (Z.eqb v) (neighbors G u).

(** A self-loop counts twice in the degree. *)
Definition degree (G : t) (u : Z) : Z :=
  Z.of_nat (length (neighbors G u)) + (if has_edge G u u then 1 else 0).

Definition add_node (G : t) (u : Z) : t :=
  if has_node G u then G else G ++ [(u, [])].

Definition add_nodes_from (G : t) (us : list Z) : t := fold_left add_node us G.

Definition add_neighbor (G : t) (u v : Z) : t :=
  map (fun e => if Z.eqb u (fst e)
                then (fst e, if existsb (Z.eqb v) (snd e) then snd e else snd e ++ [v])
                else e) G.

Definition add_edge (G : t) (u v : Z) : t :=
  add_neighbor (add_neighbor (add_node (add_node G u) v) u v) v u.

Definition add_edges_from (G : t) (es : list (Z * Z)) : t :=
  fold_left (fun H e => add_edge H (fst e) (snd e)) es G.

Definition del_neighbor (G : t) (u v : Z) : t :=
  map (fun e => if Z.eqb u (fst e)
                then (fst e, filter (fun w => negb (Z.eqb v w)) (snd e))
                else e) G.

Definition remove_edge (G : t) (u v : Z) : res t :=
  if has_edge G u v then Ok (del_neighbor (del_neighbor G u v) v u)
  else Raise NetworkXError.

(** [G.edges()]: every edge once, from the endpoint that comes first. *)
Fixpoint edges_from (seen : list Z) (G : t) : list (Z * Z) :=
  match G with
  | [] => []
  | (u, nbrs) :: G' =>
      map (fun v => (u, v)) (filter (fun v => negb (existsb (Z.eqb v) seen)) nbrs)
      ++ edges_from (u :: seen) G'
  end.

Definition edges (G : t) : list (Z * Z) := edges_from [] G.

(** [nx.relabel_nodes(G, dict(zip(G.nodes, np.arange(len(G.nodes)) + off)))]. *)
Definition relabel_shift (G : t) (off : Z) : t :=
  let mapping := combine (nodes G) (map (fun i => Z.of_nat i + off) (seq 0 (length G))) in
  let f := fun u => match find (fun e => Z.eqb u (fst e)) mapping with
                    | Some e => snd e
                    | None => u
                    end in
  add_edges_from (add_nodes_from empty (map f (nodes G)))
                 (map (fun e => (f (fst e), f (snd e))) (edges G)).

End Graph.

(* ------------------------------------------------------------------ *)
(** * Python sequences *)

Definition range (n : Z) : list Z := map Z.of_nat (seq 0 (Z.to_nat n)).

(** [range(a, b)] *)
Definition range2 (a b : Z) : list Z := map (fun i => a + Z.of_nat i) (seq 0 (Z.to_nat (b - a))).

(** [l[:k]], with Python's reading of a negative bound. *)
Definition slice_to {A : Type} (l : list A) (k : Z) : list A :=
  if 0 <=? k then firstn (Z.to_nat k) l
  else firstn (length l - Z.to_nat (- k)) l.

(** [l[j:] + l[0:j]] for [0 <= j]. *)
Definition rotate {A : Type} (l : list A) (j : Z) : list A :=
  skipn (Z.to_nat j) l ++ firstn (Z.to_nat j) l.

(* ------------------------------------------------------------------ *)
(** * Network generation ([create_network.py]) *)

(** The two global generators: Python's [random] and [numpy.random]. *)
Record world : Type := mkWorld { py : gen; np : gen }.

(** A node attribute [social_identity] is an integer in the network module;
    the model later also stores lists under that name. *)
Inductive pyid : Type :=
| IdInt (z : Z)
| IdList (l : list Z).

Definition pyid_eqb (a b : pyid) : bool :=
  match a, b with
  | IdInt x, IdInt y => Z.eqb x y
  | IdList x, IdList y => if list_eq_dec Z.eq_dec x y then true else false
  | _, _ => false
  end.

Definition attrs : Type := list (Z * pyid).

Definition get_attr (a : attrs) (u : Z) : option pyid :=
  option_map snd (find (fun e => Z.eqb u (fst e)) a).

Definition set_attr (a : attrs) (u : Z) (v : pyid) : attrs :=
  (u, v) :: filter (fun e => negb (Z.eqb u (fst e))) a.

(** [nx.set_node_attributes(G, values, name)]: keys that are no node of [G]
    are skipped. *)
Definition set_node_attributes (G : Graph.t) (values : list (Z * pyid)) (a : attrs) : attrs :=
  fold_left (fun acc e => if Graph.has_node G (fst e) then set_attr acc (fst e) (snd e) else acc)
            values a.

Definition enumerate {A : Type} (l : list A) : list (Z * A) :=
  combine (map Z.of_nat (seq 0 (length l))) l.

Definition layout : Type := Z -> R * R.

Section Network.

(** What is not code of this repository: the seeding of Python's generator,
    the Watts-Strogatz generator of networkx and its spring layout (which
    draws from numpy's generator). *)
Variable py_seed : Z -> gen.
Variable nx_watts_strogatz_graph : Z -> Z -> R -> Z -> res Graph.t.
Variable nx_spring_layout : Graph.t -> gen -> layout * gen.

(** Fuel of every [while] loop. *)
Variable fuel : nat.

(** The retry loop of the rewiring,
    [while w == u or G.has_edge(u, w): ...].  [Some w] is the normal exit of
    the loop (its [else] clause runs), [None] is the exit by [break]. *)
Fixpoint rewire_retry (f : nat) (G : Graph.t) (nodes : list Z) (n u w : Z) (g : gen)
  : res (option Z * gen) :=
  if Z.eqb w u || Graph.has_edge G u w then
    match f with
    | O => OutOfFuel
    | S f' =>
        '(w', g') <- choice IndexError nodes g ;;
        if n - 1 <=? Graph.degree G u then Ok (None, g')
        else rewire_retry f' G nodes n u w' g'
    end
  else Ok (Some w, g).

(** One rewiring attempt of the edge [(u, v)]. *)
Definition rewire (G : Graph.t) (nodes : list Z) (n u v : Z) (g : gen)
  : res (Graph.t * gen) :=
  '(w, g1) <- choice IndexError nodes g ;;
  '(r, g2) <- rewire_retry fuel G nodes n u w g1 ;;
  match r with
  | Some w' => G' <- Graph.remove_edge G u v ;; Ok (Graph.add_edge G' u w', g2)
  | None => Ok (G, g2)
  end.

Fixpoint for_each {A S : Type} (l : list A) (body : A -> S -> res S) (s : S) : res S :=
  match l with
  | [] => Ok s
  | a :: l' => s' <- body a s ;; for_each l' body s'
  end.

(** The block between NEW and END NEW: for odd [k], node [m] gets an edge to
    its neighbour at distance [k//2+1] with probability one half. *)
Definition odd_edge (n k : Z) (p : R) (nodes : list Z) (m : Z) (s : Graph.t * world)
  : res (Graph.t * world) :=
  let '(G, w) := s in
  let '(r, py1) := random (py w) in
  if Rltb r (1 / 2) then
    match nth_error nodes (Z.to_nat ((m + k / 2 + 1) mod n)) with
    | None => Raise IndexError
    | Some oddtarget =>
        let G1 := Graph.add_edge G m oddtarget in
        let '(r2, np1) := random (np w) in
        if Rltb r2 p then
          '(G2, py2) <- rewire G1 nodes n m oddtarget py1 ;;
          Ok (G2, mkWorld py2 np1)
        else Ok (G1, mkWorld py1 np1)
    end
  else Ok (G, mkWorld py1 (np w)).

Definition rewire_edge (n : Z) (p : R) (nodes : list Z) (e : Z * Z) (s : Graph.t * world)
  : res (Graph.t * world) :=
  let '(G, w) := s in
  let '(r, py1) := random (py w) in
  if Rltb r p then
    '(G1, py2) <- rewire G nodes n (fst e) (snd e) py1 ;;
    Ok (G1, mkWorld py2 (np w))
  else Ok (G, mkWorld py1 (np w)).

Definition watts_strogatz_graph_UnevenK (n k : Z) (p : R) (seed : Z) (w : world)
  : res (Graph.t * world) :=
  if n <=? k then Raise NetworkXError
  else
    let w0 := mkWorld (py_seed seed) (np w) in
    let nodes := range n in
    let G0 := fold_left (fun G j => Graph.add_edges_from G (combine nodes (rotate nodes j)))
                        (range2 1 (k / 2 + 1)) Graph.empty in
    s1 <- (if k mod 2 =? 1 then for_each nodes (odd_edge n k p nodes) (G0, w0)
           else Ok (G0, w0)) ;;
    for_each (range2 1 (k / 2 + 1))
      (fun j => for_each (combine nodes (rotate nodes j)) (rewire_edge n p nodes)) s1.

(** The retry loop of the links between the groups, [while True: ...]. *)
Fixpoint between_retry (f : nat) (G : Graph.t) (nodes1 nodes2 : list Z)
    (edgefrom edgeto : Z) (g : gen) : res (Graph.t * gen) :=
  match f with
  | O => OutOfFuel
  | S f' =>
      let '(r, g1) := random g in
      '(edgefromNew, edgetoNew, g2) <-
        (if Rltb r (1 / 2)
         then '(x, g2) <- choice ValueError nodes2 g1 ;; Ok (edgefrom, x, g2)
         else '(x, g2) <- choice ValueError nodes1 g1 ;; Ok (x, edgeto, g2)) ;;
      if negb (Z.eqb edgefromNew edgetoNew) && negb (Graph.has_edge G edgefromNew edgetoNew)
      then Ok (Graph.add_edge G edgefromNew edgetoNew, g2)
      else between_retry f' G nodes1 nodes2 edgefrom edgeto g2
  end.

Definition which_betweengroup_nodes_to_connect (k_out : Z) : list Z :=
  slice_to [0; 1; -1; 2; -2; 3; -3; 4; -4] k_out.

(** The index arithmetic that keeps the far end of a link in the second
    group; [len1] is [len(G1.nodes)]. *)
Definition edgeto_of (n len1 edgefrom i : Z) : Z :=
  let edgeto := edgefrom + len1 + i in
  let edgeto := if n <=? edgeto then edgeto - len1 else edgeto in
  if edgeto <? len1 then edgeto + len1 else edgeto.

Definition connect (n : Z) (p : R) (nodes1 nodes2 : list Z) (edgefrom i : Z)
    (s : Graph.t * gen) : res (Graph.t * gen) :=
  let '(G, g) := s in
  let edgeto := edgeto_of n (Z.of_nat (length nodes1)) edgefrom i in
  let G1 := Graph.add_edge G edgefrom edgeto in
  let '(r, g1) := random g in
  if Rltb r p then
    G2 <- Graph.remove_edge G1 edgefrom edgeto ;;
    between_retry fuel G2 nodes1 nodes2 edgefrom edgeto g1
  else Ok (G1, g1).

(** The two nested [for] loops that link the first group to the second. *)
Definition connect_groups (n k_out : Z) (p : R) (nodes1 nodes2 : list Z)
    (s : Graph.t * gen) : res (Graph.t * gen) :=
  for_each (range (Z.of_nat (length nodes1)))
    (fun edgefrom =>
       for_each (which_betweengroup_nodes_to_connect k_out)
         (connect n p nodes1 nodes2 edgefrom)) s.

Record network : Type := mkNetwork {
  graph : Graph.t;
  social_identity : attrs;
  pos : layout
}.

Definition create_withinAndBetweenGroup_network (n k_in k_out : Z) (p : R) (seed : Z)
    (w : world) : res (network * world) :=
  if negb (n mod 2 =? 0) then Raise AssertionError
  else
    '(G1, G2, w2) <-
      (if (k_in mod 2 =? 0) && (k_out mod 2 =? 0) then
         G1 <- nx_watts_strogatz_graph (n / 2) k_in p seed ;;
         G2 <- nx_watts_strogatz_graph (n / 2) k_in p (seed + 100) ;;
         Ok (G1, G2, w)
       else
         '(G1, w1) <- watts_strogatz_graph_UnevenK (n / 2) k_in p seed w ;;
         '(G2, w2) <- watts_strogatz_graph_UnevenK (n / 2) k_in p (seed + 100) w1 ;;
         Ok (G1, G2, w2)) ;;
    let G2 := Graph.relabel_shift G2 (Z.of_nat (length (Graph.nodes G1))) in
    let G := Graph.add_edges_from Graph.empty (Graph.edges G1 ++ Graph.edges G2) in
    let G := Graph.add_nodes_from G (Graph.nodes G1 ++ Graph.nodes G2) in
    '(G, g) <- connect_groups n k_out p (Graph.nodes G1) (Graph.nodes G2) (G, np w2) ;;
    let social_id_affiliations :=
      enumerate (map (fun _ => IdInt 0) (Graph.nodes G1)
                 ++ map (fun _ => IdInt 1) (Graph.nodes G2)) in
    let a := set_node_attributes G social_id_affiliations [] in
    let '(pos, g') := nx_spring_layout G g in
    Ok (mkNetwork G a pos, mkWorld (py w2) g').

End Network.

(* ------------------------------------------------------------------ *)
(** * Arrays ([numpy]) *)

Local Open Scope R_scope.

Definition vec : Type := list R.
Definition matrix : Type := list (list R).

Definition np_sum (v : vec) : R := fold_right Rplus 0 v.

(** Elementwise operations on arrays of one shape. *)
Definition vmul (u v : vec) : vec := map (fun p => fst p * snd p) (combine u v).
Definition vadd (u v : vec) : vec := map (fun p => fst p + snd p) (combine u v).
Definition vscale (c : R) (v : vec) : vec := map (fun x => c * x) v.
Definition vdiv (v : vec) (c : R) : vec := map (fun x => x / c) v.

Definition np_dot (u v : vec) : R := np_sum (vmul u v).
Definition np_mean (v : vec) : R := np_sum v / INR (length v).
Definition np_std (v : vec) : R :=
  sqrt (np_mean (map (fun x => (x - np_mean v) ^ 2) v)).

Definition np_ones (n : nat) : vec := repeat 1 n.

Definition np_linspace (a b : R) (num : nat) : vec :=
  map (fun i => a + INR i * ((b - a) / INR (num - 1))) (seq 0 num).

Definition np_diff (v : vec) : vec :=
  map (fun p => snd p - fst p) (combine v (tl v)).

(** [np.diag(v, k)]: the square matrix with [v] on its [k]-th diagonal. *)
Definition np_diag (v : vec) (k : Z) : matrix :=
  let n := (length v + Z.abs_nat k)%nat in
  map (fun i => map (fun j => if (Z.of_nat j - Z.of_nat i =? k)%Z
                              then nth (Nat.min i j) v 0 else 0) (seq 0 n)) (seq 0 n).

Definition mat_map (f : R -> R) (M : matrix) : matrix := map (map f) M.
Definition mat_add (A B : matrix) : matrix := map (fun p => vadd (fst p) (snd p)) (combine A B).

(** [np.dot(M, v)] for a matrix and a vector. *)
Definition mat_vec (M : matrix) (v : vec) : vec := map (fun row => np_dot row v) M.

(** [np.linalg.inv]: the inverse of a square matrix, LinAlgError when there
    is none.  The inverse is characterised, not computed. *)
Definition is_inverse (A B : matrix) : Prop :=
  length B = length A /\
  Forall (fun row => length row = length A) B /\
  forall x, length x = length A -> mat_vec A (mat_vec B x) = x.

Definition linalg_inv (A : matrix) : res matrix :=
  match excluded_middle_informative (exists B, is_inverse A B) with
  | left H => Ok (proj1_sig (constructive_indefinite_description _ H))
  | right _ => Raise LinAlgError
  end.

(** [sys.float_info.epsilon], 2^-52. *)
Definition float_epsilon : R := / 4503599627370496.

(** [scipy.stats.norm(loc, scale).pdf(x)] *)
Definition norm_pdf (loc scale x : R) : R :=
  exp (- ((x - loc) / scale) ^ 2 / 2) / (sqrt (2 * PI) * scale).

(** Python indexing [l[i]], where a negative index counts from the end. *)
Definition py_index {A : Type} (l : list A) (i : Z) : res A :=
  match (if (0 <=? i)%Z then nth_error l (Z.to_nat i)
         else if (- Z.of_nat (length l) <=? i)%Z
              then nth_error l (Z.to_nat (Z.of_nat (length l) + i))
              else None) with
  | Some a => Ok a
  | None => Raise IndexError
  end.

(* ------------------------------------------------------------------ *)
(** * The opinion space

    Two hundred statements between -1 and 1; the same for every model. *)

Definition n_beliefs : nat := 200.

Definition belief_space_bounds : vec := np_linspace (-1) 1 (n_beliefs + 1).

Definition belief_space : vec :=
  vadd (removelast belief_space_bounds) (vdiv (np_diff belief_space_bounds) 2).

Definition db : R :=
  (last belief_space_bounds 0 - hd 0 belief_space_bounds) / INR n_beliefs.

Definition uniform : vec := vdiv (np_ones n_beliefs) (INR n_beliefs * db).

(** The matrix of the backward-time, central-difference scheme of the heat
    equation, with time step [dt = 1]. *)
Definition mat_heat_equation (kappa : R) : matrix :=
  let dt := 1 in
  mat_add
    (mat_add
       (mat_map (fun x => x * (1 + 2 * dt * kappa / db ^ 2)) (np_diag (np_ones n_beliefs) 0))
       (mat_map (fun x => x * (-1) * dt * kappa / db ^ 2) (np_diag (np_ones (n_beliefs - 1)) 1)))
    (mat_map (fun x => x * (-1) * dt * kappa / db ^ 2) (np_diag (np_ones (n_beliefs - 1)) (-1))).

(* ------------------------------------------------------------------ *)
(** * Agents *)

Module Agent.

Record t : Type := mk {
  unique_id : Z;
  pos : R * R;
  social_identity : pyid;
  op : vec;
  mean_op : R;
  sig : R;
  alpha_in : R;
  alpha_out : R;
  kappa : R;
  communication_frequency : R;
  nbs : list Z
}.

(** The three lines that follow every assignment to [self.op]:
    the mean opinion and the opinion uncertainty of a distribution. *)
Definition mean_of (o : vec) : R := np_dot o belief_space / np_sum o.

Definition sig_of (o : vec) : R :=
  let var := np_dot o (map (fun b => b ^ 2) belief_space) / np_sum o - mean_of o ^ 2 in
  if Rltb 0 var then sqrt var else float_epsilon.

Definition set_op (a : t) (o : vec) : t :=
  mk (unique_id a) (pos a) (social_identity a) o (mean_of o) (sig_of o)
     (alpha_in a) (alpha_out a) (kappa a) (communication_frequency a) (nbs a).

(** [Agent.__init__]; the parameters are those of the model, the neighbours
    those of the node in the network. *)
Definition init (m_alpha_in m_alpha_out m_kappa m_communication_frequency : R)
    (G : Graph.t) (unique_id : Z) (social_identity : pyid) (xy : R * R) (op_dist : vec)
  : res t :=
  if Graph.has_node G unique_id then
    Ok (mk unique_id xy social_identity op_dist (mean_of op_dist) (sig_of op_dist)
           m_alpha_in m_alpha_out m_kappa m_communication_frequency
           (Graph.neighbors G unique_id))
  else Raise NetworkXError.

(** [posterior / (posterior.sum() * db)] *)
Definition normalise (o : vec) : vec := vdiv o (np_sum o * db).

(** The opinion an agent adopts after it heard [message] through a filter
    of transparency [alpha]. *)
Definition bayes (o message : vec) (alpha : R) : vec :=
  let perceived_message := vadd (vscale alpha message) (vscale (1 - alpha) uniform) in
  let posterior_op := vmul o perceived_message in
  let posterior_op := if Rltb (np_sum posterior_op) float_epsilon then o else posterior_op in
  normalise posterior_op.

(** The methods act on the schedule of the model, where the agent sits at
    position [i]; they return the schedule with that agent updated. *)
Definition put (schedule : list t) (i : nat) (a : t) : list t :=
  firstn i schedule ++ a :: skipn (S i) schedule.

Definition update_opinion_in_interaction (schedule : list t) (i : nat) (self : t) (g : gen)
  : res (list t * gen) :=
  '(speaker_id, g1) <- choice ValueError (nbs self) g ;;
  speaker <- py_index schedule speaker_id ;;
  let message := op speaker in
  let alpha := if pyid_eqb (social_identity speaker) (social_identity self)
               then alpha_in self else alpha_out self in
  Ok (put schedule i (set_op self (bayes (op self) message alpha)), g1).

Definition update_opinion_in_non_interaction (mat_heat_equ_inv : matrix)
    (schedule : list t) (i : nat) (self : t) : list t :=
  let diffused_op := mat_vec mat_heat_equ_inv (op self) in
  put schedule i (set_op self (normalise diffused_op)).

(** [Agent.step]; the message printed for an agent without neighbours
    leaves the state alone and is left out. *)
Definition step (mat_heat_equ_inv : matrix) (schedule : list t) (i : nat) (g : gen)
  : res (list t * gen) :=
  match nth_error schedule i with
  | None => Raise IndexError
  | Some self =>
      let '(r, g1) := random g in
      if Rltb r (communication_frequency self) then
        match nbs self with
        | [] => Ok (schedule, g1)
        | _ :: _ => update_opinion_in_interaction schedule i self g1
        end
      else Ok (update_opinion_in_non_interaction mat_heat_equ_inv schedule i self, g1)
  end.

End Agent.

(* ------------------------------------------------------------------ *)
(** * The model *)

(** The values kept under the data-collection attributes of the model.
    Python does not fix the type of an attribute, and the source assigns
    both numbers and dictionaries to them. *)
#[warnings="-register-all"]
Inductive pyval : Type :=
| VFloat (x : R)
| VArray (v : vec)
| VDict (d : list (string * pyval)).

(** [obj[key] = value] *)
Definition setitem (obj : pyval) (key : string) (value : pyval) : res pyval :=
  match obj with
  | VDict d => Ok (VDict ((key, value) :: filter (fun e => negb (String.eqb key (fst e))) d))
  | VArray _ => Raise IndexError
  | VFloat _ => Raise TypeError
  end.

Definition store : Type := list (string * pyval).

(** [self.name], AttributeError when the attribute was never assigned. *)
Definition getattr (s : store) (name : string) : res pyval :=
  match find (fun e => String.eqb name (fst e)) s with
  | Some e => Ok (snd e)
  | None => Raise AttributeError
  end.

(** [self.name = value] *)
Definition setattr (s : store) (name : string) (value : pyval) : store :=
  (name, value) :: filter (fun e => negb (String.eqb name (fst e))) s.

(** The model clock: the integer [0] of the constructor, a float with an
    integral value after the first [self.time += 1.0]. *)
Inductive pytime : Type :=
| TimeInt (t : Z)
| TimeFloat (t : Z).

Definition time_value (t : pytime) : Z :=
  match t with TimeInt z => z | TimeFloat z => z end.

(** [str(self.time)], for the floats below 1e16 that Python prints in
    positional notation. *)
Definition str (t : pytime) : string :=
  match t with
  | TimeInt z => DecimalString.NilZero.string_of_int (Z.to_int z)
  | TimeFloat z => DecimalString.NilZero.string_of_int (Z.to_int z) ++ ".0"
  end.

Module OpinionModel.

Record params : Type := mkParams {
  p_n_agents : Z;
  p_social_id_groups : list Z;
  p_alpha_in : R;
  p_alpha_out : R;
  p_k : R;
  p_p_rewire : R;
  p_k_in : Z;
  p_k_out : Z;
  p_sig_op_0 : R;
  p_communication_frequency : R;
  p_kappa : R;
  p_delta_0 : R;
  p_seed : Z
}.

Record t : Type := mk {
  n_agents : Z;
  social_id_groups : list Z;
  alpha_in : R;
  alpha_out : R;
  k : R;
  p_rewire : R;
  k_in : Z;
  k_out : Z;
  sig_op_0 : R;
  communication_frequency : R;
  kappa : R;
  delta_0 : R;
  seed : Z;
  agent_reporter : bool;
  track_times : list Z;
  sigma_threshold_consensus : R;
  mat_heat_equ_inv : matrix;
  G : Graph.t;
  node_social_identity : attrs;
  pos : layout;
  schedule : list Agent.t;
  (** [all_mean_ops], [all_sigs], [avg_mean_ops], [std_mean_ops],
      [all_std_mean_op] and whatever else the methods assign *)
  data : store;
  consensus_time : option Z;
  consensus_mean : option R;
  running : bool;
  time : pytime;
  (** [None] until the constructor assigns it *)
  stored_times : option (list pytime)
}.

Definition with_data (m : t) (d : store) : t :=
  mk (n_agents m) (social_id_groups m) (alpha_in m) (alpha_out m) (k m) (p_rewire m)
     (k_in m) (k_out m) (sig_op_0 m) (communication_frequency m) (kappa m) (delta_0 m)
     (seed m) (agent_reporter m) (track_times m) (sigma_threshold_consensus m)
     (mat_heat_equ_inv m) (G m) (node_social_identity m) (pos m) (schedule m)
     d (consensus_time m) (consensus_mean m) (running m) (time m) (stored_times m).

Definition with_schedule (m : t) (s : list Agent.t) : t :=
  mk (n_agents m) (social_id_groups m) (alpha_in m) (alpha_out m) (k m) (p_rewire m)
     (k_in m) (k_out m) (sig_op_0 m) (communication_frequency m) (kappa m) (delta_0 m)
     (seed m) (agent_reporter m) (track_times m) (sigma_threshold_consensus m)
     (mat_heat_equ_inv m) (G m) (node_social_identity m) (pos m) s
     (data m) (consensus_time m) (consensus_mean m) (running m) (time m) (stored_times m).

Definition with_time (m : t) (c : pytime) : t :=
  mk (n_agents m) (social_id_groups m) (alpha_in m) (alpha_out m) (k m) (p_rewire m)
     (k_in m) (k_out m) (sig_op_0 m) (communication_frequency m) (kappa m) (delta_0 m)
     (seed m) (agent_reporter m) (track_times m) (sigma_threshold_consensus m)
     (mat_heat_equ_inv m) (G m) (node_social_identity m) (pos m) (schedule m)
     (data m) (consensus_time m) (consensus_mean m) (running m) c (stored_times m).

Definition with_stored_times (m : t) (l : list pytime) : t :=
  mk (n_agents m) (social_id_groups m) (alpha_in m) (alpha_out m) (k m) (p_rewire m)
     (k_in m) (k_out m) (sig_op_0 m) (communication_frequency m) (kappa m) (delta_0 m)
     (seed m) (agent_reporter m) (track_times m) (sigma_threshold_consensus m)
     (mat_heat_equ_inv m) (G m) (node_social_identity m) (pos m) (schedule m)
     (data m) (consensus_time m) (consensus_mean m) (running m) (time m) (Some l).

Definition with_consensus (m : t) (tau : Z) (mean : R) : t :=
  mk (n_agents m) (social_id_groups m) (alpha_in m) (alpha_out m) (k m) (p_rewire m)
     (k_in m) (k_out m) (sig_op_0 m) (communication_frequency m) (kappa m) (delta_0 m)
     (seed m) (agent_reporter m) (track_times m) (sigma_threshold_consensus m)
     (mat_heat_equ_inv m) (G m) (node_social_identity m) (pos m) (schedule m)
     (data m) (Some tau) (Some mean) (running m) (time m) (stored_times m).

(** [np.array([ag.mean_op for ag in self.schedule])] and the same for [sig]. *)
Definition mean_ops (m : t) : vec := map Agent.mean_op (schedule m).
Definition sigs (m : t) : vec := map Agent.sig (schedule m).

(** [self.name[key] = value] on a data-collection attribute. *)
Definition store_item (m : t) (name key : string) (value : pyval) : res t :=
  obj <- getattr (data m) name ;;
  obj' <- setitem obj key value ;;
  Ok (with_data m (setattr (data m) name obj')).

(** [OpinionModel.observe] *)
Definition observe (m : t) : res t :=
  let curr_mean_ops := mean_ops m in
  m <- store_item m "avg_mean_ops" (str (time m)) (VFloat (np_mean curr_mean_ops)) ;;
  m <- store_item m "std_mean_ops" (str (time m)) (VFloat (np_std curr_mean_ops)) ;;
  if agent_reporter m then
    m <- store_item m "all_ops" (str (time m)) (VArray curr_mean_ops) ;;
    store_item m "all_sigs" (str (time m)) (VArray (sigs m))
  else Ok m.

(** [for ag in update_order: ag.step()]; the agents are named by their
    position in the schedule. *)
Fixpoint step_agents (Minv : matrix) (order : list nat) (s : list Agent.t) (g : gen)
  : res (list Agent.t * gen) :=
  match order with
  | [] => Ok (s, g)
  | i :: order' =>
      '(s', g') <- Agent.step Minv s i g ;;
      step_agents Minv order' s' g'
  end.

(** [np.random.choice(self.schedule, size=self.n_agents, replace=False)] *)
Definition update_order (m : t) (g : gen) : res (list nat * gen) :=
  if (Z.of_nat (length (schedule m)) <? n_agents m)%Z then Raise ValueError
  else let '(perm, g') := permutation (length (schedule m)) g in
       Ok (firstn (Z.to_nat (n_agents m)) perm, g').

Definition tick (t : pytime) : pytime := TimeFloat (time_value t + 1).

(** The part of [OpinionModel.step] before the test of the checkpoint:
    every agent is updated, the clock advances, the dispersion is refreshed. *)
Definition advance_agents (m : t) (g : gen) : res (t * gen) :=
  '(order, g1) <- update_order m g ;;
  '(s, g2) <- step_agents (mat_heat_equ_inv m) order (schedule m) g1 ;;
  let m := with_schedule m s in
  let m := with_time m (tick (time m)) in
  let m := with_data m (setattr (data m) "std_mean_ops" (VFloat (np_std (mean_ops m)))) in
  Ok (m, g2).

(** [OpinionModel.step] *)
Definition step (m : t) (g : gen) : res (t * gen) :=
  '(m, g) <- advance_agents m g ;;
  if existsb (Z.eqb (time_value (time m))) (track_times m) then
    m <- observe m ;;
    match stored_times m with
    | Some l => Ok (with_stored_times m (l ++ [time m]), g)
    | None => Raise AttributeError
    end
  else Ok (m, g).

(** The state of the loop of [simulation]: the model, the local list
    [time_cons], whether the loop was left by [break], and the generator.
    [history] is a ghost record, not in the source: the dispersion and the
    mean of the agents' mean opinions at the end of every tick that ran. *)
Record loop : Type := mkLoop {
  model : t;
  time_cons : list Z;
  broke : bool;
  rng : gen;
  history : list (R * R)
}.

(** [self.std_mean_ops < self.sigma_threshold_consensus] *)
Definition below_threshold (m : t) : res bool :=
  v <- getattr (data m) "std_mean_ops" ;;
  match v with
  | VFloat x => Ok (Rltb x (sigma_threshold_consensus m))
  | _ => Raise TypeError
  end.

(** One pass through the body of the loop, for the value [tk] of the loop
    variable. *)
Definition simulation_body (tk : Z) (l : loop) : res loop :=
  if broke l then Ok l
  else
    '(m, g) <- step (model l) (rng l) ;;
    b <- below_threshold m ;;
    let tc := if b then time_cons l ++ [tk] else time_cons l in
    let h := history l ++ [(np_std (mean_ops m), np_mean (mean_ops m))] in
    if (20 <? Z.of_nat (length tc))%Z then
      let m := with_consensus m (hd 0%Z tc) (np_mean (mean_ops m)) in
      Ok (mkLoop m tc (negb (agent_reporter m)) g h)
    else Ok (mkLoop m tc false g h).

Fixpoint simulation_loop (ts : list Z) (l : loop) : res loop :=
  match ts with
  | [] => Ok l
  | tk :: ts' => l' <- simulation_body tk l ;; simulation_loop ts' l'
  end.

(** [OpinionModel.simulation] *)
Definition simulation (m : t) (g : gen) : res (t * gen) :=
  horizon <- py_index (track_times m) (-1) ;;
  l <- simulation_loop (range horizon) (mkLoop m [] false g []) ;;
  Ok (model l, rng l).

Definition check (b : bool) : res unit := if b then Ok tt else Raise AssertionError.

(** [np.random.seed(seed)] accepts the integers from 0 to [2**32 - 1] and
    raises ValueError for every other one. *)
Definition seed_check (seed : Z) : res unit :=
  if (0 <=? seed)%Z && (seed <? 4294967296)%Z then Ok tt else Raise ValueError.

(** [nx.adjacency_matrix(G)] raises NetworkXError for a graph without
    nodes; the matrix itself is used nowhere. *)
Definition adjacency_matrix (G : Graph.t) : res unit :=
  match Graph.nodes G with
  | [] => Raise NetworkXError
  | _ :: _ => Ok tt
  end.
Definition Reqb (x y : R) : bool := if Req_dec_T x y then true else false.

Section Construction.

(** What is not code of this repository: the seeding of the two
    generators, the graph generator and the layout of networkx; and the
    fuel of the loops of the network module. *)
Variable np_seed : Z -> gen.
Variable py_seed : Z -> gen.
Variable nx_watts_strogatz_graph : Z -> Z -> R -> Z -> res Graph.t.
Variable nx_spring_layout : Graph.t -> gen -> layout * gen.
Variable fuel : nat.

(** The body of the loop that creates the agents, for node [i]. *)
Definition create_agent (_params : params) (G : Graph.t) (a : attrs) (pos : layout)
    (i : Z) (s : list Agent.t * gen) : res (list Agent.t * gen) :=
  let '(schedule, g) := s in
  social_id <- (if Graph.has_node G i
                then match get_attr a i with Some v => Ok v | None => Raise KeyError end
                else Raise KeyError) ;;
  let '(r, g1) := random g in
  let positiveInitialMu :=
    if pyid_eqb social_id (IdInt 0)
    then Rltb r (0.5 + p_delta_0 _params / 2)
    else Rltb r (0.5 - p_delta_0 _params / 2) in
  let '(r', g2) := random g1 in
  let mu_0 := if positiveInitialMu then r' else - r' in
  let sig := p_sig_op_0 _params in
  let op := map (norm_pdf mu_0 sig) belief_space in
  let op_normed := vdiv op (np_sum op * db) in
  ag <- Agent.init (p_alpha_in _params) (p_alpha_out _params) (p_kappa _params)
          (p_communication_frequency _params) G i social_id (pos i) op_normed ;;
  Ok (schedule ++ [ag], g2).

(** [OpinionModel.__init__] up to the call of [self.observe()]. *)
Definition construct (_params : params) (agent_reporter : bool) (track_times : list Z)
    (w : world) : res (t * world) :=
  Minv <- linalg_inv (mat_heat_equation (p_kappa _params)) ;;
  _ <- seed_check (p_seed _params) ;;
  let w := mkWorld (py w) (np_seed (p_seed _params)) in
  _ <- check (Reqb (IZR (p_k_out _params + p_k_in _params)) (p_k _params)) ;;
  let groups := Z.of_nat (length (p_social_id_groups _params)) in
  _ <- (if (groups =? 0)%Z then Raise ZeroDivisionError else Ok tt) ;;
  _ <- check (p_n_agents _params mod groups =? 0)%Z ;;
  let group_size := (p_n_agents _params / groups)%Z in
  '(net, w) <- create_withinAndBetweenGroup_network py_seed nx_watts_strogatz_graph
                 nx_spring_layout fuel (p_n_agents _params) (p_k_in _params)
                 (p_k_out _params) (p_p_rewire _params) (p_seed _params) w ;;
  let social_id_affiliations :=
    enumerate (map (fun id => IdList (repeat id (Z.to_nat group_size)))
                   (p_social_id_groups _params)) in
  _ <- adjacency_matrix (graph net) ;;
  let a := set_node_attributes (graph net) social_id_affiliations (social_identity net) in
  let '(pos, g) := nx_spring_layout (graph net) (np w) in
  '(schedule, g) <-
     for_each (range (Z.of_nat (length (Graph.nodes (graph net)))))
       (create_agent _params (graph net) a pos) ([], g) ;;
  let all_mean_ops := map Agent.mean_op schedule in
  let d := setattr [] "all_mean_ops" (VDict [("0"%string, VArray all_mean_ops)]) in
  let d := if agent_reporter
           then setattr d "all_sigs" (VDict [("0"%string, VArray (map Agent.sig schedule))])
           else d in
  let d := setattr d "avg_mean_ops" (VDict [("0"%string, VFloat (np_mean all_mean_ops))]) in
  let d := setattr d "std_mean_ops" (VFloat (np_std all_mean_ops)) in
  let d := setattr d "all_std_mean_op" (VDict [("0"%string, VFloat (np_std all_mean_ops))]) in
  Ok (mk (p_n_agents _params) (p_social_id_groups _params) (p_alpha_in _params)
         (p_alpha_out _params) (p_k _params) (p_p_rewire _params) (p_k_in _params)
         (p_k_out _params) (p_sig_op_0 _params) (p_communication_frequency _params)
         (p_kappa _params) (p_delta_0 _params) (p_seed _params)
         agent_reporter track_times 0.01 Minv (graph net) a pos schedule d
         None None true (TimeInt 0) None,
      mkWorld (py w) g).

(** [OpinionModel.__init__] *)
Definition init (_params : params) (agent_reporter : bool) (track_times : list Z)
    (w : world) : res (t * world) :=
  '(m, w) <- construct _params agent_reporter track_times w ;;
  m <- observe m ;;
  Ok (with_stored_times m [TimeInt 0], w).

(** A model run as [perform_one_run] does it: the constructor, then
    [simulation]. *)
Definition run (_params : params) (agent_reporter : bool) (track_times : list Z)
    (w : world) : res (t * world) :=
  '(m, w) <- init _params agent_reporter track_times w ;;
  '(m, g) <- simulation m (np w) ;;
  Ok (m, mkWorld (py w) g).

End Construction.

End OpinionModel.


(* ------------------------------------------------------------------ *)
(** * Sample inputs

    Concrete generators, graphs and models on which the statements below
    are tried. *)

(** A generator that answers [x] to every [random()], index [i] to every
    [choice] and the identity ordering to every [permutation]. *)
Definition constant_gen (x : R) (i : nat) : gen :=
  mkGen (fun _ => x) (fun _ => i) (fun _ n => seq 0 n) 0.

(** The candidates of a retry loop, as the generator hands them out:
    [candidate nodes g j] is what the [j]-th [choice(nodes)] from now
    answers. *)
Definition advance_n (j : nat) (g : gen) : gen := Nat.iter j advance g.

Definition candidate (nodes : list Z) (g : gen) (j : nat) : Z :=
  nth (Nat.modulo (gindex g (gpos g + j)) (length nodes)) nodes 0%Z.







(** A seeding of Python's generator under which seed 0 draws 0.75 and every
    other seed 0.25, over and over. *)
Definition sample_py_seed (seed : Z) : gen :=
  if (seed =? 0)%Z then constant_gen (3 / 4) 0 else constant_gen (1 / 4) 0.

(* ------------------------------------------------------------------ *)
(** * Vocabulary of the statements *)

(** A belief density: one weight for every statement of the opinion space,
    none negative, and integral 1. *)
Definition density (o : vec) : Prop :=
  length o = n_beliefs /\ Forall (fun x => (0 <= x)%R) o /\ (np_sum o * db = 1)%R.

(** The entry to the left of position [i] of a vector, 0 at the boundary. *)
Definition prev (y : vec) (i : nat) : R :=
  match i with O => 0%R | S k => nth k y 0%R end.

(** The entries of the matrix of the heat equation, as the sums of the
    three diagonals leave them. *)
Definition heat_entry (kappa : R) (i j : nat) : R :=
  ((if (Z.of_nat j - Z.of_nat i =? 0)%Z then nth (Nat.min i j) (np_ones n_beliefs) 0 else 0)
     * (1 + 2 * 1 * kappa / db ^ 2)
   + (if (Z.of_nat j - Z.of_nat i =? 1)%Z
      then nth (Nat.min i j) (np_ones (n_beliefs - 1)) 0 else 0)
     * (-1) * 1 * kappa / db ^ 2
   + (if (Z.of_nat j - Z.of_nat i =? -1)%Z
      then nth (Nat.min i j) (np_ones (n_beliefs - 1)) 0 else 0)
     * (-1) * 1 * kappa / db ^ 2)%R.

(** An agent of a well-formed population: its opinion is a belief density
    and its two filters are between 0 and 1. *)
Definition agent_ok (a : Agent.t) : Prop :=
  density (Agent.op a) /\
  (0 <= Agent.alpha_in a <= 1)%R /\ (0 <= Agent.alpha_out a <= 1)%R.

(** A well-formed model: the diffusion constant is not negative, the
    propagator is the inverse of the matrix of the heat equation, and every
    agent is well formed. *)
Definition valid_model (m : OpinionModel.t) : Prop :=
  (0 <= OpinionModel.kappa m)%R /\
  is_inverse (mat_heat_equation (OpinionModel.kappa m)) (OpinionModel.mat_heat_equ_inv m) /\
  Forall agent_ok (OpinionModel.schedule m).

(** The configurations that the interface of the model admits. *)
Definition valid_params (p : OpinionModel.params) : Prop :=
  (0 <= OpinionModel.p_alpha_in p <= 1)%R /\
  (0 <= OpinionModel.p_alpha_out p <= 1)%R /\
  (0 < OpinionModel.p_sig_op_0 p)%R /\
  (0 <= OpinionModel.p_kappa p)%R.

(** What an agent perceives of the opinion of a speaker, and the mass of the
    posterior before it is normalised. *)
Definition perceived_by (self speaker : Agent.t) : vec :=
  let alpha := if pyid_eqb (Agent.social_identity speaker) (Agent.social_identity self)
               then Agent.alpha_in self else Agent.alpha_out self in
  vadd (vscale alpha (Agent.op speaker)) (vscale (1 - alpha) uniform).

Definition posterior_mass (self speaker : Agent.t) : R :=
  np_sum (vmul (Agent.op self) (perceived_by self speaker)).

(** Two densities have disjoint supports when no statement has weight under
    both. *)
Definition disjoint_support (u v : vec) : Prop :=
  Forall (fun p => fst p = 0%R \/ snd p = 0%R) (combine u v).

(** [n] ticks of the model between two checkpoints: the agents are
    updated, the clock and the dispersion follow, nothing is observed. *)
Fixpoint ticks (n : nat) (m : OpinionModel.t) (g : gen) : res (OpinionModel.t * gen) :=
  match n with
  | O => Ok (m, g)
  | S n' => '(m', g') <- OpinionModel.advance_agents m g ;; ticks n' m' g'
  end.

(** The density with all its mass on statement [k]. *)
Definition point_mass (k : nat) : vec := repeat 0%R k ++ 100%R :: repeat 0%R (199 - k).

(** An agent with a given opinion, neighbours, filters and communication
    frequency; mean and uncertainty are those of the opinion. *)
Definition sample_agent (id : Z) (sid : Z) (o : vec) (nbs : list Z) (alpha f : R) : Agent.t :=
  Agent.mk id (0%R, 0%R) (IdInt sid) o (Agent.mean_of o) (Agent.sig_of o) alpha alpha 0%R f nbs.

(** Two agents in one group, neighbours of one another, that listen with
    filters fully open; their opinions sit on different statements. *)
Definition agent_A : Agent.t := sample_agent 0 0 (point_mass 0) [1%Z] 1 1.
Definition agent_B : Agent.t := sample_agent 1 0 (point_mass 1) [0%Z] 1 1.

(** A population that never communicates. *)
Definition quiet (s : list Agent.t) : Prop :=
  Forall (fun a => Agent.communication_frequency a = 0%R) s.

(** A quiet model without diffusion constant whose update order covers no
    more agents than there are. *)
Definition quiet_model (m : OpinionModel.t) : Prop :=
  valid_model m /\ OpinionModel.kappa m = 0%R /\ quiet (OpinionModel.schedule m) /\
  (OpinionModel.n_agents m <= Z.of_nat (length (OpinionModel.schedule m)))%Z.

(** The data-collection attributes as the constructor leaves them. *)
Definition initial_data (s : list Agent.t) (agent_reporter : bool) : store :=
  let all_mean_ops := map Agent.mean_op s in
  let d := setattr [] "all_mean_ops" (VDict [("0"%string, VArray all_mean_ops)]) in
  let d := if agent_reporter
           then setattr d "all_sigs" (VDict [("0"%string, VArray (map Agent.sig s))])
           else d in
  let d := setattr d "avg_mean_ops" (VDict [("0"%string, VFloat (np_mean all_mean_ops))]) in
  let d := setattr d "std_mean_ops" (VFloat (np_std all_mean_ops)) in
  setattr d "all_std_mean_op" (VDict [("0"%string, VFloat (np_std all_mean_ops))]).

(** A model of two agents, linked to one another, without diffusion
    constant, with given agents, communication frequency, reporting flag and
    checkpoints; the state is that at the end of the constructor. *)
Definition sample_model (s : list Agent.t) (f : R) (agent_reporter : bool)
    (track_times : list Z) : OpinionModel.t :=
  OpinionModel.mk 2 [0; 1]%Z 1 1 2 0 0 2 (1 / 5) f 0 0 0
    agent_reporter track_times 0.01 (mat_heat_equation 0)
    [(0, [1]); (1, [0])]%Z [(0, IdInt 0); (1, IdInt 0)]%Z (fun _ => (0%R, 0%R)) s
    (initial_data s agent_reporter) None None true (TimeInt 0) (Some [TimeInt 0]).

(** Two agents that never communicate. *)
Definition quiet_A : Agent.t := sample_agent 0 0 (point_mass 0) [1%Z] 1 0.
Definition quiet_B : Agent.t := sample_agent 1 0 (point_mass 1) [0%Z] 1 0.

(** A tick of the run, with the dispersion and the mean of the agents' mean
    opinions at its end, qualifies when the dispersion is below the
    threshold. *)
Definition qualifies (thr : R) (p : Z * (R * R)) : bool := Rltb (fst (snd p)) thr.

(** The ticks that ran, each with its statistics: the values of the loop
    variable paired with the ghost history. *)
Definition ran (ts : list Z) (l : OpinionModel.loop) : list (Z * (R * R)) :=
  combine ts (OpinionModel.history l).

(** What the loop of [simulation] keeps true, after it went through the
    values [done] of its variable. *)
Definition loop_inv (thr : R) (rep : bool) (done : list Z) (l : OpinionModel.loop) : Prop :=
  let h := OpinionModel.history l in
  let tc := OpinionModel.time_cons l in
  let m := OpinionModel.model l in
  OpinionModel.sigma_threshold_consensus m = thr /\
  OpinionModel.agent_reporter m = rep /\
  (length h <= length done)%nat /\
  (OpinionModel.broke l = false -> length h = length done) /\
  tc = map fst (filter (qualifies thr) (combine done h)) /\
  (if (20 <? Z.of_nat (length tc))%Z
   then OpinionModel.consensus_time m = Some (hd 0%Z tc) /\
        OpinionModel.consensus_mean m = Some (snd (last h (0%R, 0%R)))
   else OpinionModel.consensus_time m = None /\ OpinionModel.consensus_mean m = None) /\
  (OpinionModel.broke l = false -> rep = false -> (length tc <= 20)%nat) /\
  (OpinionModel.broke l = true ->
   rep = false /\ length tc = 21%nat /\
   qualifies thr (last (combine done h) (0%Z, (0%R, 0%R))) = true).

(** An agent at rest: its opinion is a density, and mean and uncertainty
    are those of its opinion. *)
Definition steady (a : Agent.t) : Prop :=
  density (Agent.op a) /\ Agent.set_op a (Agent.op a) = a.

(** A model at rest: no diffusion constant in the propagator, agents at rest,
    and an update order that covers them all. *)
Definition calm (m : OpinionModel.t) : Prop :=
  is_inverse (mat_heat_equation 0) (OpinionModel.mat_heat_equ_inv m) /\
  Forall steady (OpinionModel.schedule m) /\
  OpinionModel.n_agents m = Z.of_nat (length (OpinionModel.schedule m)).

(** The draws from the cursor of [g] up to [k] positions further all send
    the agents of [s] into the diffusion branch. *)
Definition idle_draws (s : list Agent.t) (g : gen) (k : nat) : Prop :=
  forall a p, In a s -> (gpos g <= p < gpos g + k)%nat ->
    (Agent.communication_frequency a <= gfloat g p)%R.

(** The density with its mass on the first two statements, in halves. *)
Definition half_half : vec := 50%R :: 50%R :: repeat 0%R 198.

(** Two agents of one group that listen through open filters, each with
    probability one half in a tick: one is sure of the first statement, the
    other is torn between the first two. *)
Definition agent_P : Agent.t := sample_agent 0 0 (point_mass 0) [1%Z] 1 (1 / 2).
Definition agent_H : Agent.t := sample_agent 1 0 half_half [0%Z] 1 (1 / 2).

(** A generator under which nobody communicates, except whoever draws at
    position 62: the second agent in the twenty-first tick of a population
    of two. *)
Definition late_listener : gen :=
  mkGen (fun i => if Nat.eqb i 62 then 0%R else (3 / 4)%R) (fun _ => 0%nat)
        (fun _ n => seq 0 n) 0.

(** The run without agent-level reporting, with its only checkpoint at 30. *)
Definition late_consensus : OpinionModel.t :=
  sample_model [agent_P; agent_H] (1 / 2) false [30%Z].

(** A small configuration for the constructor: two agents, one in each
    group, two links between the groups and none within, no rewiring and no
    diffusion.  The sample graph generator answers, for degree 0, the nodes
    0..n-1 without links, and knows no other degree. *)
Definition edgeless (n : Z) : Graph.t := map (fun i => (i, [])) (range n).
Definition sample_nx_graph (n k : Z) (p : R) (seed : Z) : res Graph.t :=
  if (k =? 0)%Z then Ok (edgeless n) else Raise NetworkXError.
Definition sample_layout (G : Graph.t) (g : gen) : layout * gen :=
  (fun _ => (0%R, 0%R), g).
Definition sample_np_seed (seed : Z) : gen := constant_gen (1 / 4) 0.
Definition sample_params : OpinionModel.params :=
  OpinionModel.mkParams 2 [0; 1]%Z (1 / 2) (1 / 2) 2 0 0 2 (1 / 5) (1 / 5) 0 0 0.
Definition sample_world : world := mkWorld (constant_gen 0 0) (constant_gen 0 0).

(** The network of the small configuration. *)
Definition sample_graph : Graph.t := [(0, [1]); (1, [0])]%Z.

(** What a run leaves behind apart from the state of Python's generator:
    its result and the state of numpy's generator, or its exception. *)
Definition forget_py {A : Type} (r : res (A * world)) : res (A * gen) :=
  x <- r ;; Ok (fst x, np (snd x)).

(** Two agents of one group with closed filters, neighbours of one another,
    with opinions on different statements. *)
Definition closed_A : Agent.t := sample_agent 0 0 (point_mass 0) [1%Z] 0 1.
Definition closed_B : Agent.t := sample_agent 1 0 (point_mass 1) [0%Z] 0 1.

(** The lists that the constructor stores as social identities: one list
    per group, with the name of the group repeated. *)
Definition group_lists (p : OpinionModel.params) : list pyid :=
  map (fun id =>
         IdList (repeat id
           (Z.to_nat (OpinionModel.p_n_agents p
                      / Z.of_nat (length (OpinionModel.p_social_id_groups p))))))
      (OpinionModel.p_social_id_groups p).

(** What the constructor gives the agent that it creates for position [i]. *)
Definition created_for (p : OpinionModel.params) (G : Graph.t) (a : attrs) (pos : layout)
    (i : Z) (ag : Agent.t) : Prop :=
  Graph.has_node G i = true /\
  Agent.unique_id ag = i /\
  Agent.nbs ag = Graph.neighbors G i /\
  get_attr a i = Some (Agent.social_identity ag) /\
  Agent.pos ag = pos i /\
  Agent.alpha_in ag = OpinionModel.p_alpha_in p /\
  Agent.alpha_out ag = OpinionModel.p_alpha_out p /\
  Agent.kappa ag = OpinionModel.p_kappa p /\
  Agent.communication_frequency ag = OpinionModel.p_communication_frequency p /\
  Agent.mean_op ag = Agent.mean_of (Agent.op ag) /\
  Agent.sig ag = Agent.sig_of (Agent.op ag).

(** A configuration of four agents, two in each group, and its network. *)
Definition four_params : OpinionModel.params :=
  OpinionModel.mkParams 4 [0; 1]%Z (1 / 2) (1 / 2) 2 0 0 2 (1 / 5) (1 / 5) 0 0 0.

Definition four_graph : Graph.t :=
  [(0, [2; 3]); (1, [3; 2]); (2, [0; 1]); (3, [0; 1])]%Z.

(** A simple graph on the labels [0 .. n-1]: no other node, no self-loop,
    every end of an edge a node, every edge in both directions. *)
Definition simple_on (n : Z) (G : Graph.t) : Prop :=
  (forall x, Graph.has_node G x = true -> (0 <= x < n)%Z) /\
  (forall x, Graph.has_edge G x x = false) /\
  (forall x y, Graph.has_edge G x y = true -> Graph.has_node G x = true /\ Graph.has_node G y = true) /\
  (forall x y, Graph.has_edge G x y = Graph.has_edge G y x).

(** Two nodes are [j] places apart on the ring of [n] nodes. *)
Definition apart (n j u v : Z) : Prop :=
  ((0 <= u < n)%Z /\ v = ((u + j) mod n)%Z) \/ ((0 <= v < n)%Z /\ u = ((v + j) mod n)%Z).

(** A graph as the dictionaries of networkx keep it: every node once, and
    the ends of every edge among the nodes. *)
Definition closed_graph (G : Graph.t) : Prop :=
  NoDup (Graph.nodes G) /\
  forall x y, Graph.has_edge G x y = true ->
              Graph.has_node G x = true /\ Graph.has_node G y = true.

(** A graph with exactly the nodes [0 .. n-1]. *)
Definition labelled (n : Z) (G : Graph.t) : Prop :=
  closed_graph G /\ forall x, Graph.has_node G x = true <-> (0 <= x < n)%Z.

(** The solution of the three-term recurrence of the scheme of the heat
    equation that starts with 0 and 1. *)
Fixpoint ramp (t : R) (k : nat) : R :=
  match k with
  | O => 0%R
  | S k' => match k' with
            | O => 1%R
            | S k'' => (t * ramp t k' - ramp t k'')%R
            end
  end.

(** The propagator in closed form, for [c = kappa / db ^ 2] positive: the
    entry of row [a - 1] and column [j]. *)
Definition green (c : R) (n a j : nat) : R :=
  (ramp ((1 + 2 * c) / c) (Nat.min a (S j))
   * ramp ((1 + 2 * c) / c) (S n - Nat.max a (S j))
   / (c * ramp ((1 + 2 * c) / c) (S n)))%R.

Definition green_matrix (c : R) (n : nat) : matrix :=
  map (fun i => map (green c n (S i)) (seq 0 n)) (seq 0 n).

(** The difference of two vectors of weights, entry by entry. *)
Definition vdiff (y1 y2 : vec) : vec :=
  map (fun i => (nth i y1 0 - nth i y2 0)%R) (seq 0 n_beliefs).




(* ================================================================== *)
(** * Properties *)

(** ** Outcomes and comparisons *)

Lemma Rltb_true x y : x < y -> Rltb x y = true.
Proof. intros H; unfold Rltb; destruct (Rlt_dec x y); [reflexivity | contradiction]. Qed.

Lemma Rltb_false x y : y <= x -> Rltb x y = false.
Proof. intros H; unfold Rltb; destruct (Rlt_dec x y); [lra | reflexivity]. Qed.

Lemma Rltb_spec x y : Rltb x y = true <-> x < y.
Proof. unfold Rltb; destruct (Rlt_dec x y); split; intros; try easy. Qed.

Lemma bind_Ok {A B : Type} (c : res A) (k : A -> res B) (b : B) :
  bind c k = Ok b -> exists a, c = Ok a /\ k a = Ok b.
Proof. destruct c; simpl; intros H; try discriminate; eauto. Qed.

(** Inversion of a sequence of calls that returned. *)
Ltac inv_bind H :=
  let a := fresh "a" in
  let Ha := fresh "E" in
  apply bind_Ok in H; destruct H as (a & Ha & H).

(** ** The data-collection store *)

Lemma getattr_setattr_same (s : store) (name : string) (v : pyval) :
  getattr (setattr s name v) name = Ok v.
Proof. unfold getattr, setattr; simpl; rewrite String.eqb_refl; reflexivity. Qed.

Lemma getattr_setattr_other (s : store) (name name' : string) (v : pyval) :
  name <> name' -> getattr (setattr s name v) name' = getattr s name'.
Proof.
  intros Hne; unfold getattr, setattr; simpl.
  destruct (String.eqb name' name) eqn:E.
  - apply String.eqb_eq in E; congruence.
  - induction s as [|[n w] s IH]; simpl; [reflexivity|].
    destruct (String.eqb name n) eqn:E1; simpl.
    + apply String.eqb_eq in E1; subst n. rewrite E. exact IH.
    + destruct (String.eqb name' n); [reflexivity | exact IH].
Qed.


Lemma for_each_cons {A S : Type} (a : A) (l : list A) (body : A -> S -> res S) (s : S) :
  for_each (a :: l) body s = (s' <- body a s ;; for_each l body s').
Proof. reflexivity. Qed.

Lemma for_each_app {A S : Type} (l l' : list A) (body : A -> S -> res S) (s : S) :
  for_each (l ++ l') body s = (s' <- for_each l body s ;; for_each l' body s').
Proof.
  revert s; induction l as [|a l IH]; intros s; simpl; [reflexivity|].
  destruct (body a s); simpl; auto.
Qed.

Lemma Ok_inj {A : Type} (a b : A) : Ok a = Ok b -> a = b.
Proof. intros H; injection H; auto. Qed.

(** ** Graphs *)

Module GraphFacts.
Import Graph.
Local Open Scope Z_scope.

Definition key (u : Z) : Z * list Z -> bool := fun e => Z.eqb u (fst e).

(** What [add_edge] does to a list of neighbours. *)
Definition adjoin (v : Z) (l : list Z) : list Z :=
  if existsb (Z.eqb v) l then l else l ++ [v].

Lemma existsb_eqb_In (v : Z) (l : list Z) : existsb (Z.eqb v) l = true <-> In v l.
Proof.
  rewrite existsb_exists; split.
  - intros (x & Hx & E). apply Z.eqb_eq in E; subst; assumption.
  - intros H; exists v; split; [assumption | apply Z.eqb_refl].
Qed.

Lemma has_node_In (G : t) (u : Z) : has_node G u = true <-> In u (nodes G).
Proof. apply existsb_eqb_In. Qed.

Lemma has_edge_In (G : t) (u v : Z) : has_edge G u v = true <-> In v (neighbors G u).
Proof. apply existsb_eqb_In. Qed.

Lemma find_key_fst (G : t) (u : Z) (e : Z * list Z) :
  find (key u) G = Some e -> fst e = u.
Proof.
  intros H; apply find_some in H; destruct H as [_ H].
  unfold key in H; apply Z.eqb_eq in H; congruence.
Qed.

Lemma find_key_none (G : t) (u : Z) : find (key u) G = None <-> has_node G u = false.
Proof.
  unfold has_node, nodes. induction G as [|[x l] G IH]; simpl; [tauto|].
  unfold key at 1; simpl. destruct (u =? x); simpl; [split; discriminate | exact IH].
Qed.

Lemma find_map_key (f : Z * list Z -> Z * list Z) (G : t) (u : Z) :
  (forall e, fst (f e) = fst e) ->
  find (key u) (map f G) = option_map f (find (key u) G).
Proof.
  intros Hf; induction G as [|e G IH]; simpl; [reflexivity|].
  unfold key at 1 3; rewrite Hf. destruct (u =? fst e); [reflexivity | exact IH].
Qed.

Lemma nodes_map (f : Z * list Z -> Z * list Z) (G : t) :
  (forall e, fst (f e) = fst e) -> nodes (map f G) = nodes G.
Proof.
  intros Hf; unfold nodes; rewrite map_map; apply map_ext; exact Hf.
Qed.

Lemma nodes_add_neighbor (G : t) (u v : Z) : nodes (add_neighbor G u v) = nodes G.
Proof. apply nodes_map; intros e; destruct (u =? fst e); reflexivity. Qed.

Lemma nodes_del_neighbor (G : t) (u v : Z) : nodes (del_neighbor G u v) = nodes G.
Proof. apply nodes_map; intros e; destruct (u =? fst e); reflexivity. Qed.

Lemma nodes_add_node (G : t) (u : Z) :
  nodes (add_node G u) = if has_node G u then nodes G else nodes G ++ [u].
Proof.
  unfold add_node; destruct (has_node G u); [reflexivity|].
  unfold nodes; rewrite map_app; reflexivity.
Qed.

Lemma has_node_add_node (G : t) (u x : Z) :
  has_node (add_node G u) x = has_node G x || (x =? u).
Proof.
  unfold has_node at 1; rewrite nodes_add_node.
  destruct (has_node G u) eqn:E.
  - fold (has_node G x). destruct (x =? u) eqn:Ex; [|rewrite orb_false_r; reflexivity].
    apply Z.eqb_eq in Ex; subst; rewrite E; reflexivity.
  - rewrite existsb_app; simpl; rewrite orb_false_r; reflexivity.
Qed.

Lemma neighbors_add_node (G : t) (u x : Z) : neighbors (add_node G u) x = neighbors G x.
Proof.
  unfold add_node; destruct (has_node G u) eqn:E; [reflexivity|].
  unfold neighbors. fold (key x).
  destruct (find (key x) G) eqn:F.
  - assert (H : find (key x) (G ++ [(u, [])]) = Some p).
    { clear E. induction G as [|e G IH]; simpl in *; [discriminate|].
      destruct (key x e); [assumption | auto]. }
    rewrite H; reflexivity.
  - assert (H : find (key x) (G ++ [(u, [])]) = find (key x) [(u, [])]).
    { clear E. induction G as [|e G IH]; simpl in *; [reflexivity|].
      destruct (key x e); [discriminate | auto]. }
    rewrite H; simpl. destruct (key x (u, [])); reflexivity.
Qed.

Lemma neighbors_add_neighbor (G : t) (u v x : Z) :
  neighbors (add_neighbor G u v) x =
  if (u =? x) && has_node G x then adjoin v (neighbors G x) else neighbors G x.
Proof.
  unfold neighbors, add_neighbor. fold (key x).
  rewrite find_map_key by (intros e; destruct (u =? fst e); reflexivity).
  destruct (find (key x) G) as [e|] eqn:F; simpl.
  - pose proof (find_key_fst _ _ _ F) as Hx. rewrite Hx.
    assert (Hn : has_node G x = true).
    { destruct (has_node G x) eqn:E; [reflexivity|].
      apply find_key_none in E; congruence. }
    rewrite Hn, andb_true_r. destruct (u =? x); reflexivity.
  - apply find_key_none in F; rewrite F, andb_false_r; reflexivity.
Qed.

Lemma neighbors_del_neighbor (G : t) (u v x : Z) :
  neighbors (del_neighbor G u v) x =
  if u =? x then filter (fun w => negb (v =? w)) (neighbors G x) else neighbors G x.
Proof.
  unfold neighbors, del_neighbor. fold (key x).
  rewrite find_map_key by (intros e; destruct (u =? fst e); reflexivity).
  destruct (find (key x) G) as [e|] eqn:F; simpl.
  - rewrite (find_key_fst _ _ _ F). destruct (u =? x); reflexivity.
  - destruct (u =? x); reflexivity.
Qed.

Lemma existsb_adjoin (v y : Z) (l : list Z) :
  existsb (Z.eqb y) (adjoin v l) = existsb (Z.eqb y) l || (y =? v).
Proof.
  unfold adjoin; destruct (existsb (Z.eqb v) l) eqn:E.
  - destruct (y =? v) eqn:Ey; [|rewrite orb_false_r; reflexivity].
    apply Z.eqb_eq in Ey; subst; rewrite E; reflexivity.
  - rewrite existsb_app; simpl; rewrite orb_false_r; reflexivity.
Qed.

Lemma has_edge_add_node (G : t) (u x y : Z) : has_edge (add_node G u) x y = has_edge G x y.
Proof. unfold has_edge; rewrite neighbors_add_node; reflexivity. Qed.

Lemma has_edge_add_neighbor (G : t) (u v x y : Z) :
  has_edge (add_neighbor G u v) x y =
  has_edge G x y || ((u =? x) && has_node G x && (y =? v)).
Proof.
  unfold has_edge; rewrite neighbors_add_neighbor.
  destruct ((u =? x) && has_node G x); simpl.
  - apply existsb_adjoin.
  - rewrite orb_false_r; reflexivity.
Qed.

Lemma has_node_add_neighbor (G : t) (u v x : Z) :
  has_node (add_neighbor G u v) x = has_node G x.
Proof. unfold has_node; rewrite nodes_add_neighbor; reflexivity. Qed.

(** An edge is in the graph after [add_edge] when it was there before or is
    the one added, read in either direction. *)
Lemma has_edge_add_edge (G : t) (a b x y : Z) :
  has_edge (add_edge G a b) x y =
  has_edge G x y || ((x =? a) && (y =? b)) || ((x =? b) && (y =? a)).
Proof.
  unfold add_edge.
  rewrite has_edge_add_neighbor, has_node_add_neighbor, has_edge_add_neighbor.
  rewrite !has_node_add_node, !has_edge_add_node.
  rewrite (Z.eqb_sym a x), (Z.eqb_sym b x).
  destruct (x =? a) eqn:Ea, (x =? b) eqn:Eb, (y =? a), (y =? b), (has_node G x),
    (has_edge G x y); simpl; try reflexivity.
Qed.

Lemma has_node_add_edge (G : t) (a b x : Z) :
  has_node (add_edge G a b) x = has_node G x || (x =? a) || (x =? b).
Proof.
  unfold add_edge. rewrite !has_node_add_neighbor, !has_node_add_node. reflexivity.
Qed.

Lemma existsb_filter_neq (v y : Z) (l : list Z) :
  existsb (Z.eqb y) (filter (fun w => negb (v =? w)) l) =
  existsb (Z.eqb y) l && negb (y =? v).
Proof.
  induction l as [|w l IH]; simpl; [reflexivity|].
  destruct (v =? w) eqn:E; simpl.
  - apply Z.eqb_eq in E; subst w. rewrite IH.
    destruct (y =? v); simpl; [rewrite andb_false_r|]; reflexivity.
  - rewrite IH. destruct (y =? w) eqn:Ey; simpl; [|reflexivity].
    apply Z.eqb_eq in Ey; subst w. rewrite Z.eqb_sym, E; reflexivity.
Qed.

Lemma has_edge_del_neighbor (G : t) (u v x y : Z) :
  has_edge (del_neighbor G u v) x y =
  has_edge G x y && negb ((u =? x) && (y =? v)).
Proof.
  unfold has_edge; rewrite neighbors_del_neighbor.
  destruct (u =? x); simpl.
  - apply existsb_filter_neq.
  - rewrite andb_true_r; reflexivity.
Qed.

(** After [remove_edge] the edge is gone, in both directions, and no other
    edge is. *)
Lemma has_edge_remove_edge (G G' : t) (a b x y : Z) :
  remove_edge G a b = Ok G' ->
  has_edge G' x y =
  has_edge G x y && negb ((x =? a) && (y =? b)) && negb ((x =? b) && (y =? a)).
Proof.
  unfold remove_edge; destruct (has_edge G a b); [|discriminate].
  intros H; injection H as <-.
  rewrite !has_edge_del_neighbor, (Z.eqb_sym a x), (Z.eqb_sym b x). reflexivity.
Qed.

Lemma has_node_remove_edge (G G' : t) (a b x : Z) :
  remove_edge G a b = Ok G' -> has_node G' x = has_node G x.
Proof.
  unfold remove_edge; destruct (has_edge G a b); [|discriminate].
  intros H; injection H as <-. unfold has_node.
  rewrite !nodes_del_neighbor; reflexivity.
Qed.

End GraphFacts.

(** ** The links between the two groups *)

Section BetweenGroups.
Import Graph GraphFacts.
Local Open Scope Z_scope.

Variable fuel : nat.

Lemma gen_ok_advance (g : gen) : gen_ok g -> gen_ok (advance g).
Proof. intros [Hf Hp]; split; simpl; assumption. Qed.



(** Without rewiring, a link is added and one draw is consumed. *)
Lemma connect_no_rewiring (n : Z) (nodes1 nodes2 : list Z) (edgefrom i : Z)
    (G : Graph.t) (g : gen) :
  gen_ok g ->
  connect fuel n 0%R nodes1 nodes2 edgefrom i (G, g) =
  Ok (add_edge G edgefrom (edgeto_of n (Z.of_nat (length nodes1)) edgefrom i), advance g).
Proof.
  intros [Hf _]. unfold connect, random.
  rewrite Rltb_false by apply Hf. reflexivity.
Qed.

(** The graph after the links of one node, without rewiring. *)
Lemma connect_row_no_rewiring (n : Z) (nodes1 nodes2 : list Z) (edgefrom : Z)
    (offsets : list Z) (G : Graph.t) (g : gen) :
  gen_ok g ->
  exists G' g',
    for_each offsets (connect fuel n 0%R nodes1 nodes2 edgefrom) (G, g) = Ok (G', g') /\
    gen_ok g' /\
    forall x y,
      has_edge G' x y = true <->
      has_edge G x y = true \/
      exists i, In i offsets /\
        let edgeto := edgeto_of n (Z.of_nat (length nodes1)) edgefrom i in
        (x = edgefrom /\ y = edgeto) \/ (x = edgeto /\ y = edgefrom).
Proof.
  revert G g; induction offsets as [|i offsets IH]; intros G g Hg.
  - exists G, g; split; [reflexivity | split; [assumption|]].
    intros x y; split; [auto|]. intros [H|(j & [] & _)]; assumption.
  - rewrite for_each_cons, connect_no_rewiring by assumption.
    cbn [bind].
    destruct (IH (add_edge G edgefrom (edgeto_of n (Z.of_nat (length nodes1)) edgefrom i))
                 (advance g) (gen_ok_advance _ Hg)) as (G' & g' & -> & Hg' & Hedge).
    exists G', g'; split; [reflexivity | split; [assumption|]].
    intros x y; split.
    + intros H; apply Hedge in H. rewrite has_edge_add_edge in H.
      destruct H as [H|(j & Hj & H)].
      * apply orb_true_iff in H; destruct H as [H|H];
          [apply orb_true_iff in H; destruct H as [H|H]|]; auto;
          apply andb_true_iff in H; destruct H as [H1 H2];
          apply Z.eqb_eq in H1, H2; right; exists i; simpl; auto.
      * right; exists j; simpl; auto.
    + intros H; apply Hedge. rewrite has_edge_add_edge.
      destruct H as [H|(j & [<-|Hj] & H)].
      * left; rewrite H; reflexivity.
      * left. simpl in H. destruct H as [[-> ->]|[-> ->]]; rewrite !Z.eqb_refl; simpl;
          rewrite ?orb_true_r; reflexivity.
      * right; exists j; auto.
Qed.

(** The graph after the links of all nodes of the first group, without
    rewiring. *)
Lemma connect_rows_no_rewiring (n k_out : Z) (nodes1 nodes2 : list Z)
    (froms : list Z) (G : Graph.t) (g : gen) :
  gen_ok g ->
  exists G' g',
    for_each froms
      (fun edgefrom =>
         for_each (which_betweengroup_nodes_to_connect k_out)
           (connect fuel n 0%R nodes1 nodes2 edgefrom)) (G, g) = Ok (G', g') /\
    gen_ok g' /\
    forall x y,
      has_edge G' x y = true <->
      has_edge G x y = true \/
      exists edgefrom i,
        In edgefrom froms /\ In i (which_betweengroup_nodes_to_connect k_out) /\
        let edgeto := edgeto_of n (Z.of_nat (length nodes1)) edgefrom i in
        (x = edgefrom /\ y = edgeto) \/ (x = edgeto /\ y = edgefrom).
Proof.
  revert G g; induction froms as [|ef froms IH]; intros G g Hg.
  - exists G, g; split; [reflexivity | split; [assumption|]].
    intros x y; split; [auto|]. intros [H|(ef & j & [] & _)]; assumption.
  - rewrite for_each_cons.
    destruct (connect_row_no_rewiring n nodes1 nodes2 ef
                (which_betweengroup_nodes_to_connect k_out) G g Hg)
      as (G1 & g1 & -> & Hg1 & Hedge1). cbn [bind].
    destruct (IH G1 g1 Hg1) as (G' & g' & -> & Hg' & Hedge).
    exists G', g'; split; [reflexivity | split; [assumption|]].
    intros x y; split.
    + intros H; apply Hedge in H. destruct H as [H|(e & i & He & Hi & H)].
      * apply Hedge1 in H. destruct H as [H|(j & Hj & H)]; auto.
        right; exists ef, j; simpl; auto.
      * right; exists e, i; simpl; auto.
    + intros H; apply Hedge. destruct H as [H|(e & i & [<-|He] & Hi & H)].
      * left; apply Hedge1; auto.
      * left; apply Hedge1; right; exists i; auto.
      * right; exists e, i; auto.
Qed.

Lemma In_range (n x : Z) : In x (range n) <-> 0 <= x < n.
Proof.
  unfold range; rewrite in_map_iff; split.
  - intros (i & <- & Hi). apply in_seq in Hi. lia.
  - intros H; exists (Z.to_nat x); split; [lia | apply in_seq; lia].
Qed.

Lemma length_range (n : Z) : length (range n) = Z.to_nat n.
Proof. unfold range; rewrite length_map, length_seq; reflexivity. Qed.



End BetweenGroups.

Lemma constant_gen_ok (x : R) (i : nat) : (0 <= x < 1)%R -> gen_ok (constant_gen x i).
Proof. intros H; split; simpl; intros; [assumption | apply Permutation_refl]. Qed.



(** ** The retry loops of the rewiring *)

Section Rewiring.
Import Graph GraphFacts.
Local Open Scope Z_scope.

Lemma advance_n_S (j : nat) (g : gen) : advance_n (S j) g = advance_n j (advance g).
Proof.
  unfold advance_n. induction j as [|j IH]; [reflexivity|].
  simpl in *. rewrite IH; reflexivity.
Qed.


Lemma choice_candidate (e : exn) (nodes : list Z) (g : gen) :
  nodes <> [] -> choice e nodes g = Ok (candidate nodes g 0, advance g).
Proof.
  intros Hne. unfold choice, candidate. rewrite Nat.add_0_r.
  assert (Hlt : (gindex g (gpos g) mod length nodes < length nodes)%nat).
  { apply Nat.mod_upper_bound. destruct nodes; [congruence | simpl; lia]. }
  destruct (nth_error nodes _) eqn:E.
  - rewrite (nth_error_nth _ _ _ E); reflexivity.
  - apply nth_error_None in E; lia.
Qed.








End Rewiring.



(** ** The nodes of the generated network *)

Section NetworkNodes.
Local Open Scope Z_scope.

Variable py_seed : Z -> gen.
Variable nx_watts_strogatz_graph : Z -> Z -> R -> Z -> res Graph.t.
Variable nx_spring_layout : Graph.t -> gen -> layout * gen.
Variable fuel : nat.

Let create := create_withinAndBetweenGroup_network py_seed nx_watts_strogatz_graph
                nx_spring_layout fuel.

(** With [k = 0] the generator of a group returns the graph without nodes:
    nodes enter the graph only as ends of edges. *)
Lemma UnevenK_no_degree (n : Z) (p : R) (seed : Z) (w : world) :
  0 < n ->
  watts_strogatz_graph_UnevenK py_seed fuel n 0 p seed w
  = Ok (Graph.empty, mkWorld (py_seed seed) (np w)).
Proof.
  intros Hn. unfold watts_strogatz_graph_UnevenK.
  destruct (Z.leb_spec n 0); [lia|]. reflexivity.
Qed.

(** A node that draws 0.5 or more gets no odd edge. *)
Lemma odd_edge_skip (n k : Z) (p : R) (nodes : list Z) (m : Z) (G : Graph.t) (w : world) :
  (1 / 2 <= gfloat (py w) (gpos (py w)))%R ->
  odd_edge fuel n k p nodes m (G, w) = Ok (G, mkWorld (advance (py w)) (np w)).
Proof.
  intros H. unfold odd_edge, random. rewrite Rltb_false by assumption. reflexivity.
Qed.

(** A node that draws less than 0.5 gets its odd edge, which stays when the
    draw for the rewiring is not below [p]. *)
Lemma odd_edge_link (n k : Z) (p : R) (nodes : list Z) (m oddtarget : Z)
    (G : Graph.t) (w : world) :
  (gfloat (py w) (gpos (py w)) < 1 / 2)%R ->
  (p <= gfloat (np w) (gpos (np w)))%R ->
  nth_error nodes (Z.to_nat ((m + k / 2 + 1) mod n)) = Some oddtarget ->
  odd_edge fuel n k p nodes m (G, w)
  = Ok (Graph.add_edge G m oddtarget, mkWorld (advance (py w)) (advance (np w))).
Proof.
  intros H1 H2 H3. unfold odd_edge, random.
  rewrite Rltb_true by assumption. rewrite H3. rewrite Rltb_false by assumption.
  reflexivity.
Qed.

(** C8 (the code departs from it).  The claim: the generated network has
    exactly [n] nodes, labelled 0 to n-1, the first half in group 0 and the
    second half in group 1.  The code: for [k_in] below 2 on the path through
    [watts_strogatz_graph_UnevenK], a group holds only the nodes that got an
    edge.  For [n = 4], [k_in = 0], [k_out = 1] the network has no node at
    all, whatever the seed; for [n = 4], [k_in = 1], [k_out = 1] and a seed
    under which the two nodes of the first group draw 0.5 or more, the
    network has the two nodes 0 and 1, both labelled group 1. *)
Theorem network_can_miss_nodes :
  (forall (p : R) (seed : Z) (w : world),
     create 4 0 1 p seed w =
     let '(pos, g) := nx_spring_layout Graph.empty (np w) in
     Ok (mkNetwork Graph.empty [] pos, mkWorld (py_seed (seed + 100)) g)) /\
  (forall (g : gen),
     create_withinAndBetweenGroup_network sample_py_seed nx_watts_strogatz_graph
       nx_spring_layout fuel 4 1 1 0 0 (mkWorld g (constant_gen 0 0)) =
     let G := [(0, [1]); (1, [0])] in
     let '(pos, g') := nx_spring_layout G (advance_n 2 (constant_gen 0 0)) in
     Ok (mkNetwork G [(1, IdInt 1); (0, IdInt 1)] pos,
         mkWorld (advance_n 2 (sample_py_seed 100)) g')).
Proof.
  split.
  - intros p seed w. unfold create, create_withinAndBetweenGroup_network.
    change (4 mod 2 =? 0) with true. change (0 mod 2 =? 0) with true.
    change (1 mod 2 =? 0) with false. change (4 / 2) with 2.
    cbn [negb andb]. rewrite !UnevenK_no_degree by lia. cbn [bind np py].
    reflexivity.
  - intros g. unfold create_withinAndBetweenGroup_network.
    change (4 mod 2 =? 0) with true. change (1 mod 2 =? 0) with false.
    change (4 / 2) with 2. cbn [negb andb].
    assert (E1 : forall w, np w = constant_gen 0 0 ->
              watts_strogatz_graph_UnevenK sample_py_seed fuel 2 1 0 0 w
              = Ok (Graph.empty, mkWorld (advance_n 2 (sample_py_seed 0)) (constant_gen 0 0))).
    { intros w Hw. unfold watts_strogatz_graph_UnevenK.
      change (2 <=? 1) with false. change (1 mod 2 =? 1) with true.
      change (range2 1 (1 / 2 + 1)) with (@nil Z). change (range 2) with [0; 1].
      cbn [fold_left for_each]. rewrite Hw.
      rewrite odd_edge_skip by (simpl; lra). cbn [bind].
      rewrite odd_edge_skip by (simpl; lra). reflexivity. }
    assert (E2 : forall w, np w = constant_gen 0 0 ->
              watts_strogatz_graph_UnevenK sample_py_seed fuel 2 1 0 100 w
              = Ok ([(0, [1]); (1, [0])],
                    mkWorld (advance_n 2 (sample_py_seed 100))
                            (advance_n 2 (constant_gen 0 0)))).
    { intros w Hw. unfold watts_strogatz_graph_UnevenK.
      change (2 <=? 1) with false. change (1 mod 2 =? 1) with true.
      change (range2 1 (1 / 2 + 1)) with (@nil Z). change (range 2) with [0; 1].
      cbn [fold_left for_each]. rewrite Hw.
      rewrite (odd_edge_link _ _ _ _ _ 1) by (simpl; try lra; reflexivity).
      cbn [bind].
      rewrite (odd_edge_link _ _ _ _ _ 0) by (simpl; try lra; reflexivity).
      reflexivity. }
    rewrite E1 by reflexivity. cbn [bind].
    rewrite E2 by reflexivity. cbn [bind].
    reflexivity.
Qed.

End NetworkNodes.

(** ** Small groups: links that coincide and a loop that cannot end *)

Section Stuck.
Local Open Scope Z_scope.




End Stuck.

Section TwoPairs.
Local Open Scope Z_scope.
Variable fuel : nat.




End TwoPairs.



(** ** Arrays *)

Section Arrays.
Local Open Scope R_scope.

Lemma np_sum_app (u v : vec) : np_sum (u ++ v) = np_sum u + np_sum v.
Proof. induction u as [|x u IH]; simpl; [lra | rewrite IH; lra]. Qed.

Lemma np_sum_vdiv (v : vec) (c : R) : np_sum (vdiv v c) = np_sum v / c.
Proof.
  unfold vdiv; induction v as [|x v IH]; simpl; [unfold Rdiv; lra|].
  rewrite IH; unfold Rdiv; lra.
Qed.

Lemma np_sum_nonneg (v : vec) : Forall (fun x => 0 <= x) v -> 0 <= np_sum v.
Proof. induction 1 as [|x v Hx _ IH]; simpl; lra. Qed.

Lemma np_sum_pos (v : vec) : v <> [] -> Forall (fun x => 0 < x) v -> 0 < np_sum v.
Proof.
  intros Hne H; destruct H as [|x v Hx Hv]; [congruence|]. simpl.
  assert (0 <= np_sum v); [|lra].
  apply np_sum_nonneg. eapply Forall_impl; [|exact Hv]. intros; simpl in *; lra.
Qed.

(** A vector without negative entries whose sum is zero is zero. *)
Lemma np_sum_zero (v : vec) :
  Forall (fun x => 0 <= x) v -> np_sum v = 0 -> Forall (fun x => x = 0) v.
Proof.
  induction 1 as [|x v Hx Hv IH]; simpl; intros Hs; constructor.
  - pose proof (np_sum_nonneg v Hv); lra.
  - apply IH. pose proof (np_sum_nonneg v Hv); lra.
Qed.

Lemma np_sum_repeat (x : R) (n : nat) : np_sum (repeat x n) = INR n * x.
Proof.
  induction n as [|n IH]; [simpl; lra|].
  rewrite S_INR. simpl. rewrite IH; lra.
Qed.

Lemma length_vmul (u v : vec) : length (vmul u v) = Nat.min (length u) (length v).
Proof. unfold vmul; rewrite length_map, length_combine; reflexivity. Qed.

Lemma length_vadd (u v : vec) : length (vadd u v) = Nat.min (length u) (length v).
Proof. unfold vadd; rewrite length_map, length_combine; reflexivity. Qed.

Lemma length_vscale (c : R) (v : vec) : length (vscale c v) = length v.
Proof. apply length_map. Qed.

Lemma length_vdiv (v : vec) (c : R) : length (vdiv v c) = length v.
Proof. apply length_map. Qed.

Lemma length_mat_vec (M : matrix) (v : vec) : length (mat_vec M v) = length M.
Proof. apply length_map. Qed.

Lemma Forall_combine {A B : Type} (P : A -> Prop) (Q : B -> Prop) (u : list A) (v : list B) :
  Forall P u -> Forall Q v -> Forall (fun p => P (fst p) /\ Q (snd p)) (combine u v).
Proof.
  intros Hu; revert v; induction Hu as [|x u Hx _ IH]; intros v Hv; simpl; [constructor|].
  destruct Hv as [|y v Hy Hv]; constructor; auto.
Qed.

Lemma vmul_nonneg (u v : vec) :
  Forall (fun x => 0 <= x) u -> Forall (fun x => 0 <= x) v ->
  Forall (fun x => 0 <= x) (vmul u v).
Proof.
  intros Hu Hv. unfold vmul. apply Forall_map.
  eapply Forall_impl; [|apply (Forall_combine _ _ _ _ Hu Hv)].
  intros [x y] [Hx Hy]; simpl in *. apply Rmult_le_pos; assumption.
Qed.

Lemma vadd_nonneg (u v : vec) :
  Forall (fun x => 0 <= x) u -> Forall (fun x => 0 <= x) v ->
  Forall (fun x => 0 <= x) (vadd u v).
Proof.
  intros Hu Hv. unfold vadd. apply Forall_map.
  eapply Forall_impl; [|apply (Forall_combine _ _ _ _ Hu Hv)].
  intros [x y] [Hx Hy]; simpl in *. lra.
Qed.

Lemma vscale_nonneg (c : R) (v : vec) :
  0 <= c -> Forall (fun x => 0 <= x) v -> Forall (fun x => 0 <= x) (vscale c v).
Proof.
  intros Hc Hv. unfold vscale. apply Forall_map.
  eapply Forall_impl; [|exact Hv]. intros x Hx; simpl. apply Rmult_le_pos; assumption.
Qed.

Lemma vdiv_nonneg (v : vec) (c : R) :
  0 < c -> Forall (fun x => 0 <= x) v -> Forall (fun x => 0 <= x) (vdiv v c).
Proof.
  intros Hc Hv. unfold vdiv. apply Forall_map.
  eapply Forall_impl; [|exact Hv]. intros x Hx; simpl.
  apply Rmult_le_pos; [assumption|]. left; apply Rinv_0_lt_compat; assumption.
Qed.

Lemma vdiv_one (v : vec) : vdiv v 1 = v.
Proof.
  unfold vdiv. induction v as [|x v IH]; simpl; [reflexivity|].
  rewrite IH. f_equal. unfold Rdiv; rewrite Rinv_1; ring.
Qed.

(** *** The opinion space *)

Lemma INR_n_beliefs : INR n_beliefs = 200.
Proof. unfold n_beliefs. rewrite INR_IZR_INZ. reflexivity. Qed.

Lemma db_value : db = / 100.
Proof.
  unfold db, belief_space_bounds, np_linspace.
  replace (n_beliefs + 1)%nat with (S n_beliefs) by lia.
  rewrite seq_S, map_app. cbn [map]. rewrite last_last.
  replace (S n_beliefs - 1)%nat with n_beliefs by lia.
  rewrite Nat.add_0_l, INR_n_beliefs.
  change (seq 0 n_beliefs) with (0%nat :: seq 1 199). cbn [map app hd INR]. field.
Qed.

Lemma db_pos : 0 < db.
Proof. rewrite db_value; lra. Qed.

Lemma length_belief_space : length belief_space = n_beliefs.
Proof.
  unfold belief_space, np_diff, belief_space_bounds, np_linspace, vdiv.
  rewrite length_vadd, !length_map, length_combine, removelast_firstn_len.
  rewrite length_firstn, length_tl, !length_map, !length_seq. lia.
Qed.

Lemma length_uniform : length uniform = n_beliefs.
Proof. unfold uniform, np_ones. rewrite length_vdiv, repeat_length; reflexivity. Qed.

Lemma uniform_nonneg : Forall (fun x => 0 <= x) uniform.
Proof.
  unfold uniform, np_ones. apply vdiv_nonneg.
  - rewrite INR_n_beliefs, db_value; lra.
  - apply Forall_forall. intros x Hx; apply repeat_spec in Hx; lra.
Qed.

End Arrays.

(** ** The diffusion operator *)

Section Heat.
Local Open Scope R_scope.

Lemma n_beliefs_pos : (0 < n_beliefs)%nat.
Proof. unfold n_beliefs; lia. Qed.

Lemma combine_map_seq {A B : Type} (f : nat -> A) (g : nat -> B) (l : list nat) :
  combine (map f l) (map g l) = map (fun i => (f i, g i)) l.
Proof. induction l as [|i l IH]; simpl; [reflexivity | rewrite IH; reflexivity]. Qed.

Lemma mat_heat_equation_rows (kappa : R) :
  mat_heat_equation kappa =
  map (fun i => map (heat_entry kappa i) (seq 0 n_beliefs)) (seq 0 n_beliefs).
Proof.
  unfold mat_heat_equation, mat_add, mat_map, np_diag, np_ones.
  rewrite !repeat_length.
  change (n_beliefs + Z.abs_nat 0)%nat with n_beliefs.
  change (n_beliefs - 1 + Z.abs_nat 1)%nat with n_beliefs.
  change (n_beliefs - 1 + Z.abs_nat (-1))%nat with n_beliefs.
  rewrite !map_map, combine_map_seq, map_map, combine_map_seq, map_map.
  apply map_ext; intros i. cbn [fst snd]. unfold vadd.
  rewrite !map_map, combine_map_seq, map_map, combine_map_seq, map_map.
  apply map_ext; intros j. cbn [fst snd]. reflexivity.
Qed.

Lemma length_mat_heat_equation (kappa : R) : length (mat_heat_equation kappa) = n_beliefs.
Proof. rewrite mat_heat_equation_rows, length_map, length_seq; reflexivity. Qed.

(** A dot product with a row given by a formula. *)
Lemma np_dot_formula (g : nat -> R) (y : vec) :
  forall s, np_dot (map g (seq s (length y))) y
            = np_sum (map (fun j => g j * nth (j - s) y 0) (seq s (length y))).
Proof.
  unfold np_dot, vmul. induction y as [|x y IH]; intros s; [reflexivity|].
  cbn [length seq map combine fst snd np_sum fold_right].
  rewrite Nat.sub_diag. cbn [nth]. f_equal.
  fold (np_sum (map (fun p => fst p * snd p) (combine (map g (seq (S s) (length y))) y))).
  rewrite IH. unfold np_sum. f_equal. apply map_ext_in. intros j Hj. apply in_seq in Hj.
  replace (j - s)%nat with (S (j - S s)) by lia. reflexivity.
Qed.

Lemma np_sum_map_plus {A : Type} (f g : A -> R) (l : list A) :
  np_sum (map (fun j => f j + g j) l) = np_sum (map f l) + np_sum (map g l).
Proof. induction l as [|a l IH]; simpl; [lra | rewrite IH; lra]. Qed.

(** A sum with one term: the term at [c], when [c] is in the range. *)
Lemma np_sum_single (h : nat -> R) (c s n : nat) :
  np_sum (map (fun j => if Nat.eqb j c then h j else 0) (seq s n))
  = if (s <=? c)%nat && (c <? s + n)%nat then h c else 0.
Proof.
  revert s; induction n as [|n IH]; intros s.
  - simpl. destruct (s <=? c)%nat eqn:E1, (c <? s + 0)%nat eqn:E2; try reflexivity.
    apply Nat.leb_le in E1; apply Nat.ltb_lt in E2; lia.
  - cbn [seq map np_sum fold_right]. fold (np_sum (map (fun j => if Nat.eqb j c then h j else 0) (seq (S s) n))).
    rewrite IH.
    destruct (Nat.eqb_spec s c) as [->|Hne].
    + rewrite Nat.leb_refl. replace (S c <=? c)%nat with false by (symmetry; apply Nat.leb_gt; lia).
      replace (c <? c + S n)%nat with true by (symmetry; apply Nat.ltb_lt; lia).
      simpl; lra.
    + destruct (s <=? c)%nat eqn:E1, (S s <=? c)%nat eqn:E2,
        (c <? S s + n)%nat eqn:E3, (c <? s + S n)%nat eqn:E4; cbn [andb]; try lra;
        repeat match goal with
          | H : (_ <=? _)%nat = true |- _ => apply Nat.leb_le in H
          | H : (_ <=? _)%nat = false |- _ => apply Nat.leb_gt in H
          | H : (_ <? _)%nat = true |- _ => apply Nat.ltb_lt in H
          | H : (_ <? _)%nat = false |- _ => apply Nat.ltb_ge in H
          end; lia.
Qed.

(** Row [i] of the system applied to [y]: the scheme of the heat equation,
    with nothing beyond the two ends. *)
Lemma heat_row (kappa : R) (y : vec) (i : nat) :
  length y = n_beliefs -> (i < n_beliefs)%nat ->
  np_dot (map (heat_entry kappa i) (seq 0 n_beliefs)) y
  = (1 + 2 * (kappa / db ^ 2)) * nth i y 0
    - kappa / db ^ 2 * nth (S i) y 0 - kappa / db ^ 2 * prev y i.
Proof.
  intros Hy Hi. rewrite <- Hy at 1. rewrite np_dot_formula. rewrite Hy.
  set (b := kappa / db ^ 2).
  rewrite (map_ext_in _
    (fun j => (if Nat.eqb j i then (1 + 2 * b) * nth j y 0 else 0)
              + ((if Nat.eqb j (S i) then - b * nth j y 0 else 0)
                 + (if Nat.eqb j (pred i) then (if Nat.eqb i 0 then 0 else - b * nth j y 0)
                    else 0)))).
  - rewrite !np_sum_map_plus, !np_sum_single.
    cbn [Nat.leb Nat.add andb].
    replace (i <? n_beliefs)%nat with true by (symmetry; apply Nat.ltb_lt; lia).
    replace (pred i <? n_beliefs)%nat with true by (symmetry; apply Nat.ltb_lt; lia).
    destruct (S i <? n_beliefs)%nat eqn:E.
    + destruct i as [|k]; simpl; lra.
    + apply Nat.ltb_ge in E. rewrite (nth_overflow y 0 (n := S i)) by lia.
      destruct i as [|k]; simpl; lra.
  - intros j Hj. apply in_seq in Hj. rewrite Nat.sub_0_r. unfold heat_entry, np_ones.
    fold b. unfold Rdiv at 1. 
    destruct (Nat.eqb_spec j i) as [->|H1].
    + rewrite Z.sub_diag. cbn [Z.eqb]. rewrite Nat.min_id.
      rewrite nth_repeat_lt by lia.
      destruct (Nat.eqb_spec i (S i)); [lia|].
      destruct (Nat.eqb_spec i (pred i)) as [E|E].
      * assert (i = 0%nat) as -> by lia. cbn [Nat.eqb]. unfold b, Rdiv. ring.
      * unfold b, Rdiv. ring.
    + destruct (Nat.eqb_spec j (S i)) as [->|H2].
      * replace (Z.of_nat (S i) - Z.of_nat i)%Z with 1%Z by lia. cbn [Z.eqb Pos.eqb].
        rewrite Nat.min_l by lia. rewrite nth_repeat_lt by lia.
        destruct (Nat.eqb_spec (S i) (pred i)); [lia|]. unfold b, Rdiv. ring.
      * destruct (Nat.eqb_spec j (pred i)) as [->|H3].
        -- destruct (Nat.eqb_spec i 0) as [->|H4]; [simpl in H1; lia|].
           replace (Z.of_nat (pred i) - Z.of_nat i)%Z with (-1)%Z by lia.
           cbn [Z.eqb Pos.eqb]. rewrite Nat.min_r by lia.
           rewrite nth_repeat_lt by lia. unfold b, Rdiv. ring.
        -- destruct (Z.eqb_spec (Z.of_nat j - Z.of_nat i) 0); [lia|].
           destruct (Z.eqb_spec (Z.of_nat j - Z.of_nat i) 1); [lia|].
           destruct (Z.eqb_spec (Z.of_nat j - Z.of_nat i) (-1)); [lia|].
           unfold b, Rdiv. ring.
Qed.

(** Every non-empty vector has a smallest entry. *)
Lemma smallest_entry (y : vec) :
  y <> [] ->
  exists m, (m < length y)%nat /\ forall j, (j < length y)%nat -> nth m y 0 <= nth j y 0.
Proof.
  induction y as [|x y IH]; [congruence|]. intros _.
  destruct (list_eq_dec Req_dec_T y []) as [->|Hne].
  - exists 0%nat; split; [simpl; lia|]. intros j Hj; simpl in Hj.
    assert (j = 0%nat) as -> by lia. simpl; lra.
  - destruct (IH Hne) as (m & Hm & Hmin).
    destruct (Rle_dec x (nth m y 0)) as [Hle|Hgt].
    + exists 0%nat; split; [simpl; lia|]. intros [|j] Hj; [simpl; lra|].
      change (x <= nth j y 0). simpl in Hj.
      assert (Hj' : (j < length y)%nat) by lia. specialize (Hmin j Hj'). lra.
    + exists (S m); split; [simpl; lia|]. intros [|j] Hj.
      * change (nth m y 0 <= x). lra.
      * change (nth m y 0 <= nth j y 0). apply Hmin. simpl in Hj; lia.
Qed.

(** The maximum principle of the scheme: a solution of the system with a
    right-hand side without negative entries has no negative entry. *)
Lemma heat_solution_nonneg (kappa : R) (y x : vec) :
  0 <= kappa -> length y = n_beliefs ->
  mat_vec (mat_heat_equation kappa) y = x ->
  Forall (fun v => 0 <= v) x -> Forall (fun v => 0 <= v) y.
Proof.
  intros Hk Hy Hsys Hx.
  assert (Hb : 0 <= kappa / db ^ 2).
  { apply Rmult_le_pos; [assumption|]. left; apply Rinv_0_lt_compat.
    pose proof db_pos; nra. }
  destruct (smallest_entry y) as (m & Hm & Hmin).
  { intros ->. pose proof n_beliefs_pos. simpl in Hy; lia. }
  assert (Hrow : nth m x 0 = (1 + 2 * (kappa / db ^ 2)) * nth m y 0
                   - kappa / db ^ 2 * nth (S m) y 0 - kappa / db ^ 2 * prev y m).
  { rewrite <- Hsys, mat_heat_equation_rows. unfold mat_vec. rewrite map_map.
    rewrite (nth_indep _ 0 ((fun i => np_dot (map (heat_entry kappa i) (seq 0 n_beliefs)) y) 0%nat))
      by (rewrite length_map, length_seq; lia).
    rewrite (map_nth (fun i => np_dot (map (heat_entry kappa i) (seq 0 n_beliefs)) y)).
    rewrite seq_nth by lia. apply heat_row; [assumption | lia]. }
  assert (Hxm : 0 <= nth m x 0).
  { rewrite Forall_forall in Hx. apply Hx, nth_In.
    rewrite <- Hsys, length_mat_vec, length_mat_heat_equation; lia. }
  destruct (Rle_dec 0 (nth m y 0)) as [Hpos|Hneg].
  - apply Forall_forall. intros v Hv. destruct (In_nth _ _ 0 Hv) as (j & Hj & <-).
    specialize (Hmin j Hj); lra.
  - exfalso. apply Rnot_le_lt in Hneg.
    assert (Hnext : nth m y 0 <= nth (S m) y 0).
    { destruct (Nat.lt_ge_cases (S m) (length y)) as [Hlt|Hge].
      - apply Hmin; assumption.
      - rewrite (nth_overflow y 0 (n := S m)) by lia. lra. }
    assert (Hprev : nth m y 0 <= prev y m).
    { destruct m as [|k]; simpl; [lra|]. apply Hmin; lia. }
    set (b := kappa / db ^ 2) in *.
    assert (b * nth m y 0 <= b * nth (S m) y 0) by (apply Rmult_le_compat_l; assumption).
    assert (b * nth m y 0 <= b * prev y m) by (apply Rmult_le_compat_l; assumption).
    lra.
Qed.

Lemma mat_vec_zero (M : matrix) (y : vec) :
  Forall (fun v => v = 0) y -> Forall (fun v => v = 0) (mat_vec M y).
Proof.
  intros Hy. unfold mat_vec. apply Forall_map, Forall_forall. intros row _.
  unfold np_dot, vmul. revert row; induction Hy as [|v y Hv _ IH]; intros row.
  - destruct row; reflexivity.
  - destruct row as [|r row]; [reflexivity|]. simpl. rewrite IH, Hv. lra.
Qed.

Lemma np_sum_all_zero (v : vec) : Forall (fun x => x = 0) v -> np_sum v = 0.
Proof. induction 1 as [|x v Hx _ IH]; simpl; [reflexivity | lra]. Qed.

(** The propagator keeps mass: the solution for a right-hand side with a
    positive sum has a positive sum. *)
Lemma heat_solution_mass (kappa : R) (y x : vec) :
  0 <= kappa -> length y = n_beliefs ->
  mat_vec (mat_heat_equation kappa) y = x ->
  Forall (fun v => 0 <= v) x -> 0 < np_sum x -> 0 < np_sum y.
Proof.
  intros Hk Hy Hsys Hx Hsum.
  pose proof (heat_solution_nonneg kappa y x Hk Hy Hsys Hx) as Hnn.
  destruct (Rle_lt_or_eq_dec 0 (np_sum y) (np_sum_nonneg y Hnn)) as [Hlt|Heq];
    [assumption|].
  exfalso. symmetry in Heq.
  pose proof (np_sum_zero y Hnn Heq) as Hz.
  pose proof (mat_vec_zero (mat_heat_equation kappa) y Hz) as Hxz.
  rewrite Hsys in Hxz. rewrite (np_sum_all_zero x Hxz) in Hsum. lra.
Qed.

End Heat.

(** ** Belief densities under the updates of an agent *)

Section Densities.
Local Open Scope R_scope.

Lemma density_sum (o : vec) : density o -> np_sum o = 100.
Proof.
  intros (_ & _ & H). rewrite db_value in H.
  apply (Rmult_eq_compat_r 100) in H. lra.
Qed.

(** Dividing by the integral gives a density. *)
Lemma normalise_density (o : vec) :
  length o = n_beliefs -> Forall (fun x => 0 <= x) o -> 0 < np_sum o ->
  density (Agent.normalise o).
Proof.
  intros Hl Hn Hs. unfold Agent.normalise. pose proof db_pos as Hdb.
  assert (Hc : 0 < np_sum o * db) by (apply Rmult_lt_0_compat; assumption).
  repeat split.
  - rewrite length_vdiv; assumption.
  - apply vdiv_nonneg; assumption.
  - rewrite np_sum_vdiv. field. split; lra.
Qed.

(** A density is left as it is. *)
Lemma normalise_fixed (o : vec) : density o -> Agent.normalise o = o.
Proof.
  intros (_ & _ & H). unfold Agent.normalise. rewrite H. apply vdiv_one.
Qed.

Lemma float_epsilon_pos : 0 < float_epsilon.
Proof. unfold float_epsilon. apply Rinv_0_lt_compat. lra. Qed.

(** The update by a message keeps densities. *)
Lemma bayes_density (o message : vec) (alpha : R) :
  density o -> density message -> 0 <= alpha <= 1 ->
  density (Agent.bayes o message alpha).
Proof.
  intros Ho Hm Ha. pose proof Ho as (Hlo & Hno & _). destruct Hm as (Hlm & Hnm & _).
  unfold Agent.bayes.
  set (perceived := vadd (vscale alpha message) (vscale (1 - alpha) uniform)).
  assert (Hlp : length perceived = n_beliefs).
  { unfold perceived. rewrite length_vadd, !length_vscale, Hlm, length_uniform. lia. }
  assert (Hnp : Forall (fun x => 0 <= x) perceived).
  { unfold perceived. apply vadd_nonneg; apply vscale_nonneg; try lra; try assumption.
    apply uniform_nonneg. }
  destruct (Rltb (np_sum (vmul o perceived)) float_epsilon) eqn:E.
  - apply normalise_density; try assumption. rewrite (density_sum o Ho); lra.
  - apply normalise_density.
    + rewrite length_vmul, Hlo, Hlp; lia.
    + apply vmul_nonneg; assumption.
    + unfold Rltb in E. destruct (Rlt_dec _ _) as [|Hge]; [discriminate|].
      pose proof float_epsilon_pos. lra.
Qed.

(** The diffusion step keeps densities, for every diffusion constant that
    is not negative. *)
Lemma diffusion_density (kappa : R) (Minv : matrix) (o : vec) :
  0 <= kappa -> is_inverse (mat_heat_equation kappa) Minv -> density o ->
  density (Agent.normalise (mat_vec Minv o)).
Proof.
  intros Hk (HlM & _ & Hinv) Ho. pose proof Ho as (Hlo & Hno & _).
  rewrite length_mat_heat_equation in HlM, Hinv.
  assert (Hly : length (mat_vec Minv o) = n_beliefs) by (rewrite length_mat_vec; assumption).
  specialize (Hinv o Hlo).
  apply normalise_density; [assumption | |].
  - apply (heat_solution_nonneg kappa _ o); assumption.
  - apply (heat_solution_mass kappa _ o); try assumption.
    rewrite (density_sum o Ho); lra.
Qed.

Lemma norm_pdf_pos (loc scale x : R) : 0 < scale -> 0 < norm_pdf loc scale x.
Proof.
  intros Hs. unfold norm_pdf. apply Rdiv_lt_0_compat; [apply exp_pos|].
  apply Rmult_lt_0_compat; [|assumption].
  apply sqrt_lt_R0. pose proof PI_RGT_0. lra.
Qed.

Lemma positive_density (op : vec) :
  length op = n_beliefs -> Forall (fun x => 0 < x) op ->
  density (vdiv op (np_sum op * db)).
Proof.
  intros Hl Hpos. apply (normalise_density op); [assumption | |].
  - eapply Forall_impl; [|exact Hpos]. intros a Ha. apply Rlt_le; exact Ha.
  - apply np_sum_pos; [|assumption].
    intros E. rewrite E in Hl. pose proof n_beliefs_pos. simpl in Hl; lia.
Qed.

(** The initial opinion of an agent is a density. *)
Lemma initial_density (mu_0 sig : R) :
  0 < sig ->
  let op := map (norm_pdf mu_0 sig) belief_space in
  density (vdiv op (np_sum op * db)).
Proof.
  intros Hs op. apply positive_density.
  - unfold op. rewrite length_map. apply length_belief_space.
  - unfold op. apply Forall_map, Forall_forall. intros x _.
    apply norm_pdf_pos; assumption.
Qed.

End Densities.

(** ** The population under the steps of the agents *)

Section Population.
Local Open Scope R_scope.

Lemma py_index_In {A : Type} (l : list A) (i : Z) (a : A) : py_index l i = Ok a -> In a l.
Proof.
  unfold py_index.
  destruct (0 <=? i)%Z; [|destruct (- Z.of_nat (length l) <=? i)%Z].
  - destruct (nth_error l (Z.to_nat i)) eqn:E; [|discriminate].
    intros H; injection H as <-. eapply nth_error_In; eassumption.
  - destruct (nth_error l _) eqn:E; [|discriminate].
    intros H; injection H as <-. eapply nth_error_In; eassumption.
  - discriminate.
Qed.

Lemma choice_In {A : Type} (e : exn) (l : list A) (g g' : gen) (a : A) :
  choice e l g = Ok (a, g') -> In a l /\ g' = advance g.
Proof.
  unfold choice. destruct (nth_error l _) eqn:E; [|discriminate].
  intros H; injection H as <- <-. split; [eapply nth_error_In; eassumption | reflexivity].
Qed.

Lemma length_put (s : list Agent.t) (i : nat) (a : Agent.t) :
  (i < length s)%nat -> length (Agent.put s i a) = length s.
Proof.
  intros Hi. unfold Agent.put.
  rewrite length_app, length_firstn. cbn [length]. rewrite length_skipn. lia.
Qed.

Lemma Forall_put (P : Agent.t -> Prop) (s : list Agent.t) (i : nat) (a : Agent.t) :
  Forall P s -> P a -> Forall P (Agent.put s i a).
Proof.
  intros Hs Ha. unfold Agent.put. rewrite Forall_forall in *. intros x Hx.
  apply in_app_or in Hx. destruct Hx as [Hx|[<-|Hx]]; [|assumption|].
  - rewrite <- (firstn_skipn i s) in Hs. apply Hs, in_or_app; left; assumption.
  - rewrite <- (firstn_skipn (S i) s) in Hs. apply Hs, in_or_app; right; assumption.
Qed.

Lemma nth_error_put (s : list Agent.t) (i : nat) (a : Agent.t) :
  (i < length s)%nat -> nth_error (Agent.put s i a) i = Some a.
Proof.
  intros Hi. unfold Agent.put.
  rewrite nth_error_app2 by (rewrite length_firstn; lia).
  rewrite length_firstn. replace (i - Nat.min i (length s))%nat with 0%nat by lia.
  reflexivity.
Qed.

Lemma put_same (s : list Agent.t) (i : nat) (a : Agent.t) :
  nth_error s i = Some a -> Agent.put s i a = s.
Proof.
  unfold Agent.put. revert i; induction s as [|x s IH]; intros [|i] H; simpl in *;
    try discriminate.
  - injection H as ->; reflexivity.
  - f_equal. apply IH; assumption.
Qed.

Lemma map_op_put (s : list Agent.t) (i : nat) (self a : Agent.t) :
  nth_error s i = Some self -> Agent.op a = Agent.op self ->
  map Agent.op (Agent.put s i a) = map Agent.op s.
Proof.
  unfold Agent.put. revert i; induction s as [|x s IH]; intros [|i] H Ha;
    try discriminate.
  - apply Ok_inj in H || injection H as ->. cbn [firstn skipn app map]. rewrite Ha.
    reflexivity.
  - cbn [firstn skipn app map nth_error] in *. f_equal. apply IH; assumption.
Qed.

Lemma agent_ok_set_op (a : Agent.t) (o : vec) :
  agent_ok a -> density o -> agent_ok (Agent.set_op a o).
Proof.
  intros (_ & H1 & H2) Ho. unfold agent_ok.
  cbn [Agent.set_op Agent.op Agent.alpha_in Agent.alpha_out].
  split; [assumption | split; assumption].
Qed.

(** A step of an agent keeps the population well formed. *)
Lemma agent_step_ok (kappa : R) (Minv : matrix) (s s' : list Agent.t) (i : nat) (g g' : gen) :
  0 <= kappa -> is_inverse (mat_heat_equation kappa) Minv ->
  Forall agent_ok s ->
  Agent.step Minv s i g = Ok (s', g') ->
  Forall agent_ok s' /\ length s' = length s.
Proof.
  intros Hk Hinv Hs. unfold Agent.step.
  destruct (nth_error s i) as [self|] eqn:Ei; [|discriminate].
  assert (Hi : (i < length s)%nat) by (apply nth_error_Some; congruence).
  assert (Hself : agent_ok self).
  { rewrite Forall_forall in Hs. apply Hs. eapply nth_error_In; eassumption. }
  unfold random. destruct (Rltb _ _).
  - destruct (Agent.nbs self) as [|nb nbs] eqn:En.
    + intros H; injection H as <- <-. auto.
    + unfold Agent.update_opinion_in_interaction. rewrite En. intros H.
      inv_bind H. destruct a as [speaker_id g1]. inv_bind H. rename a into speaker.
      injection H as <- <-. split; [|apply length_put; assumption].
      apply Forall_put; [assumption|]. apply agent_ok_set_op; [assumption|].
      assert (Hsp : agent_ok speaker).
      { rewrite Forall_forall in Hs. apply Hs. eapply py_index_In; eassumption. }
      apply bayes_density; [apply Hself | apply Hsp |].
      destruct Hself as (_ & H1 & H2). destruct (pyid_eqb _ _); assumption.
  - intros H; injection H as <- <-. unfold Agent.update_opinion_in_non_interaction.
    split; [|apply length_put; assumption].
    apply Forall_put; [assumption|]. apply agent_ok_set_op; [assumption|].
    apply (diffusion_density kappa); [assumption | assumption | apply Hself].
Qed.

Lemma step_agents_ok (kappa : R) (Minv : matrix) (order : list nat) :
  forall (s s' : list Agent.t) (g g' : gen),
    0 <= kappa -> is_inverse (mat_heat_equation kappa) Minv ->
    Forall agent_ok s ->
    OpinionModel.step_agents Minv order s g = Ok (s', g') ->
    Forall agent_ok s' /\ length s' = length s.
Proof.
  induction order as [|i order IH]; intros s s' g g' Hk Hinv Hs H; simpl in H.
  - injection H as <- <-. auto.
  - inv_bind H. destruct a as [s1 g1].
    destruct (agent_step_ok kappa Minv s s1 i g g1 Hk Hinv Hs E) as [Hs1 Hl1].
    destruct (IH s1 s' g1 g' Hk Hinv Hs1 H) as [Hs' Hl']. split; [assumption | congruence].
Qed.

End Population.

(** ** The degenerate posterior *)

Section Degenerate.
Local Open Scope R_scope.

Lemma py_index_in_range {A : Type} (l : list A) (i : Z) :
  (0 <= i < Z.of_nat (length l))%Z -> exists a, py_index l i = Ok a.
Proof.
  intros Hi. unfold py_index. destruct (Z.leb_spec 0 i); [|lia].
  destruct (nth_error l (Z.to_nat i)) eqn:E; [eauto|].
  apply nth_error_None in E; lia.
Qed.

(** When the posterior has no mass to speak of, the update gives the old
    density back. *)
Lemma bayes_rejects (o message : vec) (alpha : R) :
  density o ->
  np_sum (vmul o (vadd (vscale alpha message) (vscale (1 - alpha) uniform))) < float_epsilon ->
  Agent.bayes o message alpha = o.
Proof.
  intros Ho Hm. unfold Agent.bayes. rewrite (Rltb_true _ _ Hm).
  apply normalise_fixed; assumption.
Qed.

Lemma disjoint_product (o message u : vec) :
  disjoint_support o message ->
  Forall (fun x => x = 0) (vmul o (vadd (vscale 1 message) (vscale (1 - 1) u))).
Proof.
  unfold disjoint_support, vmul, vadd, vscale.
  revert message u; induction o as [|x o IH]; intros message u H; [constructor|].
  destruct message as [|y message]; [constructor|].
  destruct u as [|z u]; [constructor|].
  cbn [map combine fst snd] in *. inversion H as [|p l Hxy Hrest]; subst.
  constructor; [|apply IH; assumption].
  cbn [fst snd] in Hxy. destruct Hxy as [-> | ->]; ring.
Qed.

(** C4.  An agent whose posterior, its own density times the perceived
    message, has total mass below the tolerance comes out of the interaction
    update with the density it had: the update returns, whichever neighbour
    is drawn, and only mean and uncertainty are computed anew.  With
    [alpha_in = alpha_out = 1] and a speaker whose density has a support
    disjoint from the agent's, the mass of the posterior is 0, below the
    tolerance. *)
Theorem degenerate_posterior_keeps_density :
  (forall (s : list Agent.t) (i : nat) (self : Agent.t) (g : gen),
     nth_error s i = Some self -> density (Agent.op self) ->
     Agent.nbs self <> [] ->
     (forall j, In j (Agent.nbs self) -> (0 <= j < Z.of_nat (length s))%Z) ->
     (forall j speaker, In j (Agent.nbs self) -> py_index s j = Ok speaker ->
        posterior_mass self speaker < float_epsilon) ->
     exists s',
       Agent.update_opinion_in_interaction s i self g = Ok (s', advance g) /\
       option_map Agent.op (nth_error s' i) = Some (Agent.op self) /\
       map Agent.op s' = map Agent.op s) /\
  (forall self speaker : Agent.t,
     Agent.alpha_in self = 1 -> Agent.alpha_out self = 1 ->
     disjoint_support (Agent.op self) (Agent.op speaker) ->
     posterior_mass self speaker = 0 /\ posterior_mass self speaker < float_epsilon).
Proof.
  split.
  - intros s i self g Hi Ho Hne Hrange Hmass.
    unfold Agent.update_opinion_in_interaction.
    destruct (choice ValueError (Agent.nbs self) g) as [[speaker_id g1]| |] eqn:Ec.
    2,3: unfold choice in Ec;
         destruct (nth_error (Agent.nbs self) _) eqn:En; try discriminate;
         apply nth_error_None in En;
         assert (length (Agent.nbs self) <> 0%nat)
           by (destruct (Agent.nbs self); [congruence | discriminate]);
         pose proof (Nat.mod_upper_bound (gindex g (gpos g)) _ H); lia.
    destruct (choice_In _ _ _ _ _ Ec) as [Hin ->]. cbn [bind].
    destruct (py_index_in_range s speaker_id (Hrange _ Hin)) as [speaker Hsp].
    rewrite Hsp. cbn [bind].
    rewrite bayes_rejects; [|assumption | apply (Hmass speaker_id speaker Hin Hsp)].
    assert (Hlt : (i < length s)%nat) by (apply nth_error_Some; congruence).
    eexists; split; [reflexivity|]. split.
    + rewrite nth_error_put by assumption. reflexivity.
    + apply (map_op_put s i self); [assumption | reflexivity].
  - intros self speaker Hin Hout Hd. unfold posterior_mass, perceived_by.
    assert (E : np_sum (vmul (Agent.op self)
                  (vadd (vscale 1 (Agent.op speaker)) (vscale (1 - 1) uniform))) = 0).
    { apply np_sum_all_zero, disjoint_product; assumption. }
    destruct (pyid_eqb _ _); rewrite ?Hin, ?Hout, E;
      (split; [reflexivity | apply float_epsilon_pos]).
Qed.

End Degenerate.

Lemma point_mass_density (k : nat) : (k <= 199)%nat -> density (point_mass k).
Proof.
  intros Hk. unfold density, point_mass. split; [|split].
  - rewrite length_app, repeat_length. cbn [length]. rewrite repeat_length.
    unfold n_beliefs; lia.
  - apply Forall_app; split; [|constructor; [lra|]];
      apply Forall_forall; intros x Hx; apply repeat_spec in Hx; lra.
  - rewrite np_sum_app. cbn [np_sum fold_right].
    fold (np_sum (repeat 0%R (199 - k))). rewrite !np_sum_repeat, db_value. field.
Qed.

Lemma point_masses_disjoint : disjoint_support (point_mass 0) (point_mass 1).
Proof.
  unfold disjoint_support.
  change (combine (point_mass 0) (point_mass 1))
    with ((100%R, 0%R) :: (0%R, 100%R) :: combine (repeat 0%R 198) (repeat 0%R 198)).
  constructor; [right; reflexivity|]. constructor; [left; reflexivity|].
  apply Forall_forall. intros [x y] H. apply in_combine_l in H.
  apply repeat_spec in H. left; exact H.
Qed.

(** Agent A hears agent B, whose opinion sits on another statement. *)
Lemma degenerate_posterior_keeps_density_witness :
  (exists s',
     Agent.update_opinion_in_interaction [agent_A; agent_B] 0 agent_A (constant_gen 0 0)
       = Ok (s', advance (constant_gen 0 0)) /\
     option_map Agent.op (nth_error s' 0) = Some (Agent.op agent_A) /\
     map Agent.op s' = map Agent.op [agent_A; agent_B]) /\
  (posterior_mass agent_A agent_B = 0%R /\
   (posterior_mass agent_A agent_B < float_epsilon)%R).
Proof.
  assert (Hmass : posterior_mass agent_A agent_B = 0%R /\
                  (posterior_mass agent_A agent_B < float_epsilon)%R).
  { apply (proj2 degenerate_posterior_keeps_density agent_A agent_B);
      [reflexivity | reflexivity | exact point_masses_disjoint]. }
  split; [|exact Hmass].
  apply (proj1 degenerate_posterior_keeps_density [agent_A; agent_B] 0%nat agent_A).
  - reflexivity.
  - apply (point_mass_density 0); lia.
  - discriminate.
  - intros j [<-|[]]. simpl; lia.
  - intros j speaker [<-|[]] Hsp. apply Ok_inj in Hsp. subst speaker. apply Hmass.
Defined.
(** ** [observe] and the attribute [std_mean_ops] *)

Lemma store_item_data (m m' : OpinionModel.t) (name key : string) (v : pyval) :
  OpinionModel.store_item m name key v = Ok m' ->
  forall name', name <> name' ->
    getattr (OpinionModel.data m') name' = getattr (OpinionModel.data m) name'.
Proof.
  unfold OpinionModel.store_item; intros H name' Hne.
  inv_bind H. inv_bind H. injection H as <-. simpl.
  apply getattr_setattr_other; assumption.
Qed.

Lemma store_item_float (m : OpinionModel.t) (name key : string) (v : pyval) (x : R) :
  getattr (OpinionModel.data m) name = Ok (VFloat x) ->
  OpinionModel.store_item m name key v = Raise TypeError.
Proof. unfold OpinionModel.store_item; intros ->; reflexivity. Qed.

Lemma store_item_dict (m : OpinionModel.t) (name key : string) (v : pyval) d :
  getattr (OpinionModel.data m) name = Ok (VDict d) ->
  exists m', OpinionModel.store_item m name key v = Ok m'.
Proof. unfold OpinionModel.store_item; intros ->; simpl; eauto. Qed.

(** When [std_mean_ops] holds a number, [observe] does not return. *)
Lemma observe_number_not_Ok (m : OpinionModel.t) (x : R) :
  getattr (OpinionModel.data m) "std_mean_ops" = Ok (VFloat x) ->
  forall m', OpinionModel.observe m <> Ok m'.
Proof.
  intros Hstd m' H. unfold OpinionModel.observe in H.
  inv_bind H.
  pose proof (store_item_data _ _ _ _ _ E "std_mean_ops"%string) as Hd.
  rewrite Hstd in Hd.
  rewrite (store_item_float a _ _ _ x) in H; [discriminate|].
  apply Hd; discriminate.
Qed.

(** When, besides, [avg_mean_ops] holds a dictionary, the exception is the
    TypeError of the assignment [self.std_mean_ops[...] = ...]. *)
Lemma observe_number_TypeError (m : OpinionModel.t) (x : R) d :
  getattr (OpinionModel.data m) "avg_mean_ops" = Ok (VDict d) ->
  getattr (OpinionModel.data m) "std_mean_ops" = Ok (VFloat x) ->
  OpinionModel.observe m = Raise TypeError.
Proof.
  intros Havg Hstd. unfold OpinionModel.observe.
  destruct (store_item_dict m "avg_mean_ops" (str (OpinionModel.time m))
              (VFloat (np_mean (OpinionModel.mean_ops m))) d Havg) as [m1 E].
  rewrite E; simpl.
  rewrite (store_item_float m1 _ _ _ x); [reflexivity|].
  rewrite (store_item_data _ _ _ _ _ E); [assumption | discriminate].
Qed.

Lemma advance_agents_fields (m m' : OpinionModel.t) (g g' : gen) :
  OpinionModel.advance_agents m g = Ok (m', g') ->
  getattr (OpinionModel.data m') "std_mean_ops"
    = Ok (VFloat (np_std (OpinionModel.mean_ops m'))) /\
  (forall name, "std_mean_ops"%string <> name ->
     getattr (OpinionModel.data m') name = getattr (OpinionModel.data m) name) /\
  OpinionModel.track_times m' = OpinionModel.track_times m /\
  OpinionModel.time m' = OpinionModel.tick (OpinionModel.time m) /\
  OpinionModel.agent_reporter m' = OpinionModel.agent_reporter m /\
  OpinionModel.sigma_threshold_consensus m' = OpinionModel.sigma_threshold_consensus m /\
  OpinionModel.consensus_time m' = OpinionModel.consensus_time m /\
  OpinionModel.consensus_mean m' = OpinionModel.consensus_mean m /\
  OpinionModel.mat_heat_equ_inv m' = OpinionModel.mat_heat_equ_inv m /\
  OpinionModel.n_agents m' = OpinionModel.n_agents m /\
  OpinionModel.kappa m' = OpinionModel.kappa m.
Proof.
  unfold OpinionModel.advance_agents; intros H.
  inv_bind H. destruct a as [order g1]. inv_bind H. destruct a as [s g2].
  injection H as <- <-. simpl. split; [apply getattr_setattr_same|].
  split; [intros; apply getattr_setattr_other; assumption|].
  repeat split.
Qed.

(** A step that returns has not reached a checkpoint. *)
Lemma step_Ok_inv (m m' : OpinionModel.t) (g g' : gen) :
  OpinionModel.step m g = Ok (m', g') ->
  OpinionModel.advance_agents m g = Ok (m', g') /\
  existsb (Z.eqb (time_value (OpinionModel.time m'))) (OpinionModel.track_times m') = false.
Proof.
  unfold OpinionModel.step; intros H. inv_bind H. destruct a as [m1 g1].
  destruct (existsb _ _) eqn:Hc.
  - exfalso. inv_bind H.
    destruct (advance_agents_fields _ _ _ _ E) as (Hstd & _).
    exact (observe_number_not_Ok m1 _ Hstd _ E0).
  - injection H as <- <-. auto.
Qed.

Section ConstructionFacts.

Variable np_seed : Z -> gen.
Variable py_seed : Z -> gen.
Variable nx_watts_strogatz_graph : Z -> Z -> R -> Z -> res Graph.t.
Variable nx_spring_layout : Graph.t -> gen -> layout * gen.
Variable fuel : nat.

Let construct := OpinionModel.construct np_seed py_seed nx_watts_strogatz_graph nx_spring_layout fuel.
Let init := OpinionModel.init np_seed py_seed nx_watts_strogatz_graph nx_spring_layout fuel.

Lemma construct_Ok_inv p rep tks w m w' :
  construct p rep tks w = Ok (m, w') ->
  exists Minv G a pos schedule g0 g1,
    linalg_inv (mat_heat_equation (OpinionModel.p_kappa p)) = Ok Minv /\
    for_each (range (Z.of_nat (length (Graph.nodes G))))
      (OpinionModel.create_agent p G a pos) ([], g0) = Ok (schedule, g1) /\
    OpinionModel.mat_heat_equ_inv m = Minv /\
    OpinionModel.schedule m = schedule /\
    OpinionModel.kappa m = OpinionModel.p_kappa p /\
    OpinionModel.n_agents m = OpinionModel.p_n_agents p /\
    OpinionModel.agent_reporter m = rep /\
    OpinionModel.track_times m = tks /\
    OpinionModel.sigma_threshold_consensus m = 0.01 /\
    OpinionModel.time m = TimeInt 0 /\
    getattr (OpinionModel.data m) "avg_mean_ops"
      = Ok (VDict [("0"%string, VFloat (np_mean (map Agent.mean_op schedule)))]) /\
    getattr (OpinionModel.data m) "std_mean_ops"
      = Ok (VFloat (np_std (map Agent.mean_op schedule))).
Proof.
  unfold construct, OpinionModel.construct; intros H.
  inv_bind H. rename a into Minv.
  inv_bind H. inv_bind H. inv_bind H. inv_bind H. inv_bind H.
  destruct a3 as [net w1]. inv_bind H.
  destruct (nx_spring_layout _ _) as [pos g0] eqn:Hl.
  inv_bind H. destruct a4 as [schedule g1].
  injection H as <- <-. 
  exists Minv, (graph net), (set_node_attributes (graph net)
        (enumerate
           (map (fun id => IdList (repeat id (Z.to_nat (OpinionModel.p_n_agents p / Z.of_nat (length (OpinionModel.p_social_id_groups p))))))
              (OpinionModel.p_social_id_groups p))) (social_identity net)), pos, schedule, g0, g1.
  simpl. repeat split; assumption.
Qed.

(** The constructor runs into the assignment of [observe] whenever it gets
    that far. *)
Lemma init_raises p rep tks w :
  init p rep tks w = ('(m, w') <- construct p rep tks w ;; Raise TypeError).
Proof.
  unfold init, OpinionModel.init. fold construct.
  destruct (construct p rep tks w) as [[m w']| |] eqn:E; simpl; try reflexivity.
  destruct (construct_Ok_inv _ _ _ _ _ _ E)
    as (Minv & G & a & pos & schedule & g0 & g1 & H).
  decompose [and] H.
  erewrite observe_number_TypeError; eauto.
Qed.


(** C1 (the code departs from it).  The claim: at every checkpoint the
    observe step records the mean and the dispersion of the agents' mean
    opinions, and the per-agent snapshot when agent-level reporting is on,
    without error.  The code: [observe] assigns into [self.std_mean_ops],
    which holds the number that the constructor and [step] put there, so the
    call raises.  The constructor, which calls [observe], raises TypeError
    for every configuration for which it gets that far, and a step of the
    model returns only when the new time is no checkpoint. *)
Theorem observe_raises_at_every_checkpoint :
  (forall p rep tks w,
     init p rep tks w = ('(m, w') <- construct p rep tks w ;; Raise TypeError)) /\
  (forall m g,
     match OpinionModel.step m g with
     | Ok (m', _) =>
         existsb (Z.eqb (time_value (OpinionModel.time m'))) (OpinionModel.track_times m')
         = false
     | _ => True
     end) /\
  (forall m x d,
     let m1 := OpinionModel.with_data m
                 (setattr (setattr (OpinionModel.data m) "avg_mean_ops" (VDict d))
                          "std_mean_ops" (VFloat x)) in
     OpinionModel.observe m1 = Raise TypeError).
Proof.
  split; [exact init_raises | split].
  - intros m g. destruct (OpinionModel.step m g) as [[m' g']| |] eqn:E; trivial.
    apply (step_Ok_inv _ _ _ _ E).
  - intros m x d m1. apply (observe_number_TypeError m1 x d); unfold m1; simpl.
    + rewrite getattr_setattr_other by discriminate. apply getattr_setattr_same.
    + apply getattr_setattr_same.
Qed.

End ConstructionFacts.

(** ** Densities integrate to one throughout a run *)

Lemma for_each_invariant {A S : Type} (P : S -> Prop) (body : A -> S -> res S) (l : list A) :
  (forall a s s', P s -> body a s = Ok s' -> P s') ->
  forall s s', P s -> for_each l body s = Ok s' -> P s'.
Proof.
  intros Hbody. induction l as [|a l IH]; intros s s' Hs H; simpl in H.
  - injection H as <-; assumption.
  - inv_bind H. eapply IH; [eapply Hbody|]; eassumption.
Qed.

Lemma linalg_inv_spec (A B : matrix) : linalg_inv A = Ok B -> is_inverse A B.
Proof.
  unfold linalg_inv. destruct (excluded_middle_informative _) as [H|H]; [|discriminate].
  intros E; injection E as <-.
  apply (proj2_sig (constructive_indefinite_description _ H)).
Qed.

Lemma linalg_inv_returns (A B : matrix) :
  is_inverse A B -> exists M, linalg_inv A = Ok M.
Proof.
  intros HB. unfold linalg_inv.
  destruct (excluded_middle_informative _) as [H|H]; [eauto|].
  exfalso; apply H; exists B; assumption.
Qed.

Lemma advance_agents_schedule (m m' : OpinionModel.t) (g g' : gen) :
  OpinionModel.advance_agents m g = Ok (m', g') ->
  exists order g1,
    OpinionModel.update_order m g = Ok (order, g1) /\
    OpinionModel.step_agents (OpinionModel.mat_heat_equ_inv m) order
      (OpinionModel.schedule m) g1 = Ok (OpinionModel.schedule m', g').
Proof.
  unfold OpinionModel.advance_agents; intros H.
  inv_bind H. destruct a as [order g1]. inv_bind H. destruct a as [s g2].
  injection H as <- <-. exists order, g1; split; [assumption|]. simpl. assumption.
Qed.

Lemma advance_agents_valid (m m' : OpinionModel.t) (g g' : gen) :
  valid_model m -> OpinionModel.advance_agents m g = Ok (m', g') -> valid_model m'.
Proof.
  intros (Hk & Hinv & Hs) H.
  destruct (advance_agents_fields _ _ _ _ H)
    as (_ & _ & _ & _ & _ & _ & _ & _ & HM & _ & Hkappa).
  destruct (advance_agents_schedule _ _ _ _ H) as (order & g1 & _ & Hstep).
  destruct (step_agents_ok _ _ _ _ _ _ _ Hk Hinv Hs Hstep) as [Hs' _].
  unfold valid_model. rewrite HM, Hkappa. auto.
Qed.

Lemma step_valid (m m' : OpinionModel.t) (g g' : gen) :
  valid_model m -> OpinionModel.step m g = Ok (m', g') -> valid_model m'.
Proof.
  intros Hv H. apply step_Ok_inv in H. destruct H as [H _].
  eapply advance_agents_valid; eassumption.
Qed.

Lemma simulation_body_valid (tk : Z) (l l' : OpinionModel.loop) :
  valid_model (OpinionModel.model l) ->
  OpinionModel.simulation_body tk l = Ok l' ->
  valid_model (OpinionModel.model l').
Proof.
  intros Hv. unfold OpinionModel.simulation_body.
  destruct (OpinionModel.broke l); [intros H; injection H as <-; assumption|].
  intros H. inv_bind H. destruct a as [m g]. inv_bind H.
  pose proof (step_valid _ _ _ _ Hv E) as Hm.
  destruct (20 <? _)%Z; injection H as <-; simpl; exact Hm.
Qed.

Lemma simulation_loop_valid (ts : list Z) :
  forall l l', valid_model (OpinionModel.model l) ->
    OpinionModel.simulation_loop ts l = Ok l' ->
    valid_model (OpinionModel.model l').
Proof.
  induction ts as [|tk ts IH]; intros l l' Hv H; simpl in H.
  - injection H as <-; assumption.
  - inv_bind H. eapply IH; [|eassumption]. eapply simulation_body_valid; eassumption.
Qed.

Section Initialisation.

Variable np_seed : Z -> gen.
Variable py_seed : Z -> gen.
Variable nx_watts_strogatz_graph : Z -> Z -> R -> Z -> res Graph.t.
Variable nx_spring_layout : Graph.t -> gen -> layout * gen.
Variable fuel : nat.

Lemma create_agent_ok p G a pos i s g s' g' :
  valid_params p -> Forall agent_ok s ->
  OpinionModel.create_agent p G a pos i (s, g) = Ok (s', g') ->
  Forall agent_ok s'.
Proof.
  intros (Hin & Hout & Hsig & _) Hs. unfold OpinionModel.create_agent, random.
  intros H. inv_bind H. rename a0 into social_id. inv_bind H. rename a0 into ag.
  injection H as <- <-. apply Forall_app; split; [assumption|]. constructor; [|constructor].
  unfold Agent.init in E0. destruct (Graph.has_node G i); [|discriminate].
  apply Ok_inj in E0. subst ag. unfold agent_ok.
  cbn [Agent.op Agent.alpha_in Agent.alpha_out].
  split; [apply (initial_density _ _ Hsig) | split; assumption].
Qed.

Lemma construct_valid p rep tks w m w' :
  valid_params p ->
  OpinionModel.construct np_seed py_seed nx_watts_strogatz_graph nx_spring_layout fuel
    p rep tks w = Ok (m, w') ->
  valid_model m.
Proof.
  intros Hp H. pose proof Hp as (_ & _ & _ & Hk).
  destruct (construct_Ok_inv _ _ _ _ _ _ _ _ _ _ _ H)
    as (Minv & G & a & pos & schedule & g0 & g1 & Hinv & Hagents & HM & Hs & Hkappa & _).
  unfold valid_model. rewrite HM, Hs, Hkappa. split; [assumption | split].
  - apply linalg_inv_spec; assumption.
  - apply (for_each_invariant (fun s => Forall agent_ok (fst s))
             (OpinionModel.create_agent p G a pos)
             (range (Z.of_nat (length (Graph.nodes G))))) with (s := ([], g0))
             (s' := (schedule, g1)); [| constructor | assumption].
    intros j [s2 g2] [s3 g3] Hs2 Hj. eapply create_agent_ok; eassumption.
Qed.

(** C2.  For every valid configuration ([alpha_in] and [alpha_out] in
    [0, 1], [sig_op_0 > 0], [kappa >= 0]) every agent holds a belief density
    when the constructor has created the agents: 200 weights, none negative,
    whose sum times the bin width [db] is exactly 1.  Every step of an agent,
    by interaction or by diffusion, every tick of the model and every pass
    through the loop of [simulation] keeps it so. *)
Theorem densities_integrate_to_one :
  (forall m a, valid_model m -> In a (OpinionModel.schedule m) ->
     (np_sum (Agent.op a) * db = 1)%R) /\
  (forall p rep tks w m w',
     valid_params p ->
     OpinionModel.construct np_seed py_seed nx_watts_strogatz_graph nx_spring_layout fuel
       p rep tks w = Ok (m, w') ->
     valid_model m) /\
  (forall m i g s' g',
     valid_model m ->
     Agent.step (OpinionModel.mat_heat_equ_inv m) (OpinionModel.schedule m) i g = Ok (s', g') ->
     Forall agent_ok s') /\
  (forall m g m' g',
     valid_model m -> OpinionModel.advance_agents m g = Ok (m', g') -> valid_model m') /\
  (forall m g m' g',
     valid_model m -> OpinionModel.step m g = Ok (m', g') -> valid_model m') /\
  (forall ts l l',
     valid_model (OpinionModel.model l) ->
     OpinionModel.simulation_loop ts l = Ok l' ->
     valid_model (OpinionModel.model l')).
Proof.
  split; [|split; [|split; [|split; [|split]]]].
  - intros m a (_ & _ & Hs) Ha. rewrite Forall_forall in Hs. apply (Hs a Ha).
  - intros; eapply construct_valid; eassumption.
  - intros m i g s' g' (Hk & Hinv & Hs) H.
    apply (agent_step_ok _ _ _ _ _ _ _ Hk Hinv Hs H).
  - intros; eapply advance_agents_valid; eassumption.
  - intros; eapply step_valid; eassumption.
  - intros; eapply simulation_loop_valid; eassumption.
Qed.

End Initialisation.

(** ** Diffusion without diffusion constant *)

Section DiffusionOnly.
Local Open Scope R_scope.

Lemma nth_mat_vec_heat (kappa : R) (y : vec) (i : nat) :
  length y = n_beliefs -> (i < n_beliefs)%nat ->
  nth i (mat_vec (mat_heat_equation kappa) y) 0
  = (1 + 2 * (kappa / db ^ 2)) * nth i y 0
    - kappa / db ^ 2 * nth (S i) y 0 - kappa / db ^ 2 * prev y i.
Proof.
  intros Hy Hi. rewrite mat_heat_equation_rows. unfold mat_vec. rewrite map_map.
  rewrite (nth_indep _ 0 ((fun i => np_dot (map (heat_entry kappa i) (seq 0 n_beliefs)) y) 0%nat))
    by (rewrite length_map, length_seq; lia).
  rewrite (map_nth (fun i => np_dot (map (heat_entry kappa i) (seq 0 n_beliefs)) y)).
  rewrite seq_nth by lia. apply heat_row; assumption.
Qed.

(** With [kappa = 0] the matrix of the heat equation is the identity. *)
Lemma heat_identity (y : vec) :
  length y = n_beliefs -> mat_vec (mat_heat_equation 0) y = y.
Proof.
  intros Hy. apply (nth_ext _ _ 0 0).
  - rewrite length_mat_vec, length_mat_heat_equation; congruence.
  - intros i Hi. rewrite length_mat_vec, length_mat_heat_equation in Hi.
    rewrite nth_mat_vec_heat by assumption. unfold Rdiv. ring.
Qed.

(** And so is its inverse, the propagator. *)
Lemma identity_propagator (Minv : matrix) (o : vec) :
  is_inverse (mat_heat_equation 0) Minv -> length o = n_beliefs -> mat_vec Minv o = o.
Proof.
  intros (HlM & _ & Hinv) Ho. rewrite length_mat_heat_equation in HlM, Hinv.
  rewrite <- (Hinv o Ho) at 2. symmetry. apply heat_identity.
  rewrite length_mat_vec; assumption.
Qed.

Lemma heat_identity_inverse : is_inverse (mat_heat_equation 0) (mat_heat_equation 0).
Proof.
  split; [reflexivity | split].
  - rewrite mat_heat_equation_rows at 1. apply Forall_map, Forall_forall. intros i _.
    rewrite length_map, length_seq, length_mat_heat_equation. reflexivity.
  - intros x Hx. rewrite length_mat_heat_equation in Hx.
    rewrite !heat_identity; [reflexivity | assumption | rewrite heat_identity; assumption].
Qed.

(** An agent that never communicates takes the diffusion branch, which
    gives its density back. *)
Lemma agent_step_quiet (Minv : matrix) (s : list Agent.t) (i : nat) (g : gen) :
  is_inverse (mat_heat_equation 0) Minv ->
  Forall agent_ok s -> quiet s -> gen_ok g -> (i < length s)%nat ->
  exists s',
    Agent.step Minv s i g = Ok (s', advance g) /\
    map Agent.op s' = map Agent.op s /\
    Forall agent_ok s' /\ quiet s'.
Proof.
  intros Hinv Hs Hq [Hf _] Hi. unfold Agent.step.
  destruct (nth_error s i) as [self|] eqn:Ei; [|apply nth_error_None in Ei; lia].
  assert (Hself : agent_ok self).
  { rewrite Forall_forall in Hs. apply Hs. eapply nth_error_In; eassumption. }
  assert (Hqs : Agent.communication_frequency self = 0).
  { unfold quiet in Hq. rewrite Forall_forall in Hq. apply Hq. eapply nth_error_In; eassumption. }
  unfold random. rewrite Hqs, Rltb_false by apply Hf.
  unfold Agent.update_opinion_in_non_interaction.
  destruct Hself as (Hd & Ha1 & Ha2).
  rewrite (identity_propagator Minv _ Hinv) by apply Hd.
  rewrite normalise_fixed by assumption.
  eexists; split; [reflexivity|]. split; [|split].
  - apply (map_op_put s i self); [assumption | reflexivity].
  - apply Forall_put; [assumption|]. apply agent_ok_set_op; [|assumption].
    split; [assumption | split; assumption].
  - apply Forall_put; [assumption|]. exact Hqs.
Qed.

Lemma step_agents_quiet (Minv : matrix) (order : list nat) :
  forall (s : list Agent.t) (g : gen),
    is_inverse (mat_heat_equation 0) Minv ->
    Forall agent_ok s -> quiet s -> gen_ok g ->
    Forall (fun i => (i < length s)%nat) order ->
    exists s' g',
      OpinionModel.step_agents Minv order s g = Ok (s', g') /\
      map Agent.op s' = map Agent.op s /\
      Forall agent_ok s' /\ quiet s' /\ gen_ok g'.
Proof.
  induction order as [|i order IH]; intros s g Hinv Hs Hq Hg Ho.
  - exists s, g. split; [reflexivity|]. auto.
  - inversion Ho as [|? ? Hi Ho']; subst.
    destruct (agent_step_quiet Minv s i g Hinv Hs Hq Hg Hi) as (s1 & E1 & Hop1 & Hs1 & Hq1).
    assert (Hl : length s1 = length s).
    { rewrite <- (length_map Agent.op s1), Hop1, length_map; reflexivity. }
    destruct (IH s1 (advance g) Hinv Hs1 Hq1 (gen_ok_advance _ Hg)) as (s' & g' & E & Hop & H').
    { rewrite Hl; assumption. }
    exists s', g'. cbn [OpinionModel.step_agents]. rewrite E1. cbn [bind].
    split; [assumption | split; [congruence | assumption]].
Qed.

Lemma update_order_in_range (m : OpinionModel.t) (g : gen) :
  gen_ok g ->
  (OpinionModel.n_agents m <= Z.of_nat (length (OpinionModel.schedule m)))%Z ->
  exists order,
    OpinionModel.update_order m g = Ok (order, advance g) /\
    Forall (fun i => (i < length (OpinionModel.schedule m))%nat) order.
Proof.
  intros [_ Hp] Hn. unfold OpinionModel.update_order, permutation.
  destruct (Z.ltb_spec (Z.of_nat (length (OpinionModel.schedule m))) (OpinionModel.n_agents m));
    [lia|].
  eexists; split; [reflexivity|]. apply Forall_forall. intros i Hi.
  assert (Hin : In i (gperm g (gpos g) (length (OpinionModel.schedule m)))).
  { rewrite <- (firstn_skipn (Z.to_nat (OpinionModel.n_agents m))). apply in_or_app; left; exact Hi. }
  apply (Permutation_in _ (Hp _ _)) in Hin. apply in_seq in Hin. lia.
Qed.

(** A tick of a quiet model without diffusion constant leaves every
    density as it was, and always returns. *)
Lemma advance_agents_quiet (m : OpinionModel.t) (g : gen) :
  valid_model m -> OpinionModel.kappa m = 0 -> quiet (OpinionModel.schedule m) ->
  gen_ok g ->
  (OpinionModel.n_agents m <= Z.of_nat (length (OpinionModel.schedule m)))%Z ->
  exists m' g',
    OpinionModel.advance_agents m g = Ok (m', g') /\
    map Agent.op (OpinionModel.schedule m') = map Agent.op (OpinionModel.schedule m) /\
    valid_model m' /\ OpinionModel.kappa m' = 0 /\ quiet (OpinionModel.schedule m') /\
    gen_ok g' /\
    (OpinionModel.n_agents m' <= Z.of_nat (length (OpinionModel.schedule m')))%Z.
Proof.
  intros Hv Hk Hq Hg Hn. pose proof Hv as (_ & Hinv & Hs). rewrite Hk in Hinv.
  destruct (update_order_in_range m g Hg Hn) as (order & Eo & Hrange).
  destruct (step_agents_quiet _ order _ (advance g) Hinv Hs Hq (gen_ok_advance _ Hg) Hrange)
    as (s' & g' & Es & Hop & Hs' & Hq' & Hg').
  assert (E : exists m', OpinionModel.advance_agents m g = Ok (m', g') /\
                         OpinionModel.schedule m' = s').
  { unfold OpinionModel.advance_agents. rewrite Eo. cbn [bind]. rewrite Es. cbn [bind].
    eexists; split; reflexivity. }
  destruct E as (m' & E & Hsched). exists m', g'. split; [assumption|].
  destruct (advance_agents_fields _ _ _ _ E)
    as (_ & _ & _ & _ & _ & _ & _ & _ & _ & Hna & Hkappa).
  rewrite Hsched, Hna, Hkappa.
  split; [assumption|]. split; [eapply advance_agents_valid; eassumption|].
  split; [assumption|]. split; [assumption|]. split; [assumption|].
  rewrite <- (length_map Agent.op s'), Hop, length_map. assumption.
Qed.

End DiffusionOnly.

Lemma ticks_quiet (n : nat) :
  forall (m : OpinionModel.t) (g : gen),
    quiet_model m -> gen_ok g ->
    exists m' g',
      ticks n m g = Ok (m', g') /\
      map Agent.op (OpinionModel.schedule m') = map Agent.op (OpinionModel.schedule m) /\
      quiet_model m' /\ gen_ok g'.
Proof.
  induction n as [|n IH]; intros m g Hm Hg.
  - exists m, g. split; [reflexivity|]. auto.
  - destruct Hm as (Hv & Hk & Hq & Hn).
    destruct (advance_agents_quiet m g Hv Hk Hq Hg Hn)
      as (m1 & g1 & E1 & Hop1 & Hv1 & Hk1 & Hq1 & Hg1 & Hn1).
    destruct (IH m1 g1) as (m' & g' & E & Hop & Hm' & Hg');
      [unfold quiet_model; auto | assumption |].
    exists m', g'. cbn [ticks]. rewrite E1. cbn [bind].
    split; [assumption | split; [congruence | auto]].
Qed.

Lemma simulation_body_quiet (tk : Z) (l l' : OpinionModel.loop) :
  quiet_model (OpinionModel.model l) -> gen_ok (OpinionModel.rng l) ->
  OpinionModel.simulation_body tk l = Ok l' ->
  map Agent.op (OpinionModel.schedule (OpinionModel.model l'))
    = map Agent.op (OpinionModel.schedule (OpinionModel.model l)) /\
  quiet_model (OpinionModel.model l') /\ gen_ok (OpinionModel.rng l').
Proof.
  intros Hm Hg. unfold OpinionModel.simulation_body.
  destruct (OpinionModel.broke l); [intros H; apply Ok_inj in H; subst l'; auto|].
  intros H. inv_bind H. destruct a as [m g]. inv_bind H.
  apply step_Ok_inv in E. destruct E as [E _].
  destruct Hm as (Hv & Hk & Hq & Hn).
  destruct (advance_agents_quiet _ _ Hv Hk Hq Hg Hn)
    as (m1 & g1 & E1 & Hop1 & Hv1 & Hk1 & Hq1 & Hg1 & Hn1).
  rewrite E in E1. apply Ok_inj in E1. injection E1 as <- <-.
  destruct (20 <? _)%Z; apply Ok_inj in H; subst l';
    cbn [OpinionModel.model OpinionModel.rng];
    (split; [exact Hop1 | split; [|exact Hg1]]);
    unfold quiet_model; auto.
Qed.

Lemma simulation_loop_quiet (ts : list Z) :
  forall l l' : OpinionModel.loop,
    quiet_model (OpinionModel.model l) -> gen_ok (OpinionModel.rng l) ->
    OpinionModel.simulation_loop ts l = Ok l' ->
    map Agent.op (OpinionModel.schedule (OpinionModel.model l'))
      = map Agent.op (OpinionModel.schedule (OpinionModel.model l)).
Proof.
  induction ts as [|tk ts IH]; intros l l' Hm Hg H; cbn [OpinionModel.simulation_loop] in H.
  - apply Ok_inj in H; subst; reflexivity.
  - inv_bind H. destruct (simulation_body_quiet _ _ _ Hm Hg E) as (Hop & Hm1 & Hg1).
    rewrite (IH _ _ Hm1 Hg1 H). exact Hop.
Qed.

(** Off the checkpoints a step of the model is the update of the agents. *)
Lemma step_off_checkpoint (m m' : OpinionModel.t) (g g' : gen) :
  OpinionModel.advance_agents m g = Ok (m', g') ->
  existsb (Z.eqb (time_value (OpinionModel.time m'))) (OpinionModel.track_times m') = false ->
  OpinionModel.step m g = Ok (m', g').
Proof.
  intros E Hc. unfold OpinionModel.step. rewrite E. cbn [bind]. rewrite Hc. reflexivity.
Qed.

Lemma below_threshold_after (m m' : OpinionModel.t) (g g' : gen) :
  OpinionModel.advance_agents m g = Ok (m', g') ->
  OpinionModel.below_threshold m'
  = Ok (Rltb (np_std (OpinionModel.mean_ops m')) (OpinionModel.sigma_threshold_consensus m')).
Proof.
  intros E. destruct (advance_agents_fields _ _ _ _ E) as (Hstd & _).
  unfold OpinionModel.below_threshold. rewrite Hstd. reflexivity.
Qed.

Lemma not_checkpoint (x : Z) (tks : list Z) :
  (forall c, In c tks -> (x < c)%Z) -> existsb (Z.eqb x) tks = false.
Proof.
  intros H. destruct (existsb (Z.eqb x) tks) eqn:E; [|reflexivity].
  apply existsb_exists in E. destruct E as (c & Hc & Ec).
  apply Z.eqb_eq in Ec. specialize (H c Hc). lia.
Qed.

(** The loop of [simulation] returns as long as no checkpoint is reached. *)
Lemma simulation_loop_quiet_returns (ts : list Z) :
  forall l : OpinionModel.loop,
    quiet_model (OpinionModel.model l) -> gen_ok (OpinionModel.rng l) ->
    (forall c, In c (OpinionModel.track_times (OpinionModel.model l)) ->
       (time_value (OpinionModel.time (OpinionModel.model l)) + Z.of_nat (length ts) < c)%Z) ->
    exists l', OpinionModel.simulation_loop ts l = Ok l'.
Proof.
  induction ts as [|tk ts IH]; intros l Hm Hg Hc; [exists l; reflexivity|].
  cbn [OpinionModel.simulation_loop].
  assert (Hbody : exists l1, OpinionModel.simulation_body tk l = Ok l1 /\
            OpinionModel.track_times (OpinionModel.model l1)
              = OpinionModel.track_times (OpinionModel.model l) /\
            (time_value (OpinionModel.time (OpinionModel.model l1))
               <= time_value (OpinionModel.time (OpinionModel.model l)) + 1)%Z).
  { unfold OpinionModel.simulation_body.
    destruct (OpinionModel.broke l); [exists l; split; [reflexivity | split; [reflexivity | lia]]|].
    destruct Hm as (Hv & Hk & Hq & Hn).
    destruct (advance_agents_quiet _ _ Hv Hk Hq Hg Hn) as (m1 & g1 & E1 & _).
    destruct (advance_agents_fields _ _ _ _ E1) as (_ & _ & Htk & Htime & _).
    assert (Hv1 : time_value (OpinionModel.time m1)
                  = (time_value (OpinionModel.time (OpinionModel.model l)) + 1)%Z)
      by (rewrite Htime; reflexivity).
    rewrite (step_off_checkpoint _ _ _ _ E1).
    2:{ apply not_checkpoint. intros c Hin. rewrite Htk in Hin. specialize (Hc c Hin).
        cbn [length] in Hc. lia. }
    cbn [bind]. rewrite (below_threshold_after _ _ _ _ E1). cbn [bind].
    destruct (20 <? _)%Z; eexists; (split; [reflexivity|]);
      cbn [OpinionModel.model OpinionModel.with_consensus OpinionModel.time
           OpinionModel.track_times]; (split; [exact Htk | rewrite Hv1; lia]). }
  destruct Hbody as (l1 & E1 & Htk1 & Ht1). rewrite E1. cbn [bind].
  destruct (simulation_body_quiet _ _ _ Hm Hg E1) as (_ & Hm1 & Hg1).
  apply IH; try assumption.
  intros c Hin. rewrite Htk1 in Hin. specialize (Hc c Hin). cbn [length] in Hc. lia.
Qed.

(** C5.  With [kappa = 0] the propagator is the identity.  In a model with
    [kappa = 0] whose agents all have [communication_frequency = 0], every
    tick takes the diffusion branch for every agent: any number of ticks
    returns, and every agent then holds the density it started with.  The
    loop of [simulation] returns as long as it reaches no checkpoint, and
    whenever it returns every agent holds the density it started with. *)
Theorem diffusion_only_keeps_density :
  (forall (Minv : matrix) (o : vec),
     is_inverse (mat_heat_equation 0) Minv -> length o = n_beliefs ->
     mat_vec Minv o = o) /\
  (forall (n : nat) (m : OpinionModel.t) (g : gen),
     quiet_model m -> gen_ok g ->
     exists m' g',
       ticks n m g = Ok (m', g') /\
       map Agent.op (OpinionModel.schedule m') = map Agent.op (OpinionModel.schedule m)) /\
  (forall (ts : list Z) (l l' : OpinionModel.loop),
     quiet_model (OpinionModel.model l) -> gen_ok (OpinionModel.rng l) ->
     OpinionModel.simulation_loop ts l = Ok l' ->
     map Agent.op (OpinionModel.schedule (OpinionModel.model l'))
       = map Agent.op (OpinionModel.schedule (OpinionModel.model l))) /\
  (forall (ts : list Z) (l : OpinionModel.loop),
     quiet_model (OpinionModel.model l) -> gen_ok (OpinionModel.rng l) ->
     (forall c, In c (OpinionModel.track_times (OpinionModel.model l)) ->
        (time_value (OpinionModel.time (OpinionModel.model l)) + Z.of_nat (length ts) < c)%Z) ->
     exists l', OpinionModel.simulation_loop ts l = Ok l').
Proof.
  split; [exact identity_propagator | split; [|split]].
  - intros n m g Hm Hg. destruct (ticks_quiet n m g Hm Hg) as (m' & g' & E & Hop & _).
    exists m', g'; auto.
  - intros ts l l'. apply simulation_loop_quiet.
  - intros ts l. apply simulation_loop_quiet_returns.
Qed.

Lemma sample_agent_ok (id sid : Z) (k : nat) (nbs : list Z) (alpha f : R) :
  (k <= 199)%nat -> (0 <= alpha <= 1)%R ->
  agent_ok (sample_agent id sid (point_mass k) nbs alpha f).
Proof.
  intros Hk Ha. unfold agent_ok, sample_agent. cbn [Agent.op Agent.alpha_in Agent.alpha_out].
  split; [apply point_mass_density; assumption | split; assumption].
Qed.

Lemma sample_model_valid (s : list Agent.t) (f : R) (rep : bool) (tks : list Z) :
  Forall agent_ok s -> valid_model (sample_model s f rep tks).
Proof.
  intros Hs. unfold valid_model, sample_model.
  cbn [OpinionModel.kappa OpinionModel.mat_heat_equ_inv OpinionModel.schedule].
  split; [lra | split; [exact heat_identity_inverse | exact Hs]].
Qed.

Lemma quiet_sample_model (rep : bool) (tks : list Z) :
  quiet_model (sample_model [quiet_A; quiet_B] 0 rep tks).
Proof.
  unfold quiet_model. split; [|split; [reflexivity | split]].
  - apply sample_model_valid. constructor; [|constructor; [|constructor]];
      apply sample_agent_ok; try lia; lra.
  - unfold quiet, sample_model. cbn [OpinionModel.schedule].
    constructor; [reflexivity | constructor; [reflexivity | constructor]].
  - unfold sample_model. cbn [OpinionModel.n_agents OpinionModel.schedule length]. lia.
Qed.

(** Fifty ticks of the two quiet agents, and the loop of [simulation] over
    the first ten values of its variable, with the first checkpoint at 100. *)
Lemma diffusion_only_keeps_density_witness :
  mat_vec (mat_heat_equation 0) (point_mass 0) = point_mass 0 /\
  (exists m' g',
     ticks 50 (sample_model [quiet_A; quiet_B] 0 true [100%Z]) (constant_gen 0 0)
       = Ok (m', g') /\
     map Agent.op (OpinionModel.schedule m') = [point_mass 0; point_mass 1]) /\
  (exists l',
     OpinionModel.simulation_loop (range 10)
       (OpinionModel.mkLoop (sample_model [quiet_A; quiet_B] 0 true [100%Z]) [] false
          (constant_gen 0 0) []) = Ok l' /\
     map Agent.op (OpinionModel.schedule (OpinionModel.model l'))
       = [point_mass 0; point_mass 1]).
Proof.
  assert (Hg : gen_ok (constant_gen 0 0)) by (apply constant_gen_ok; lra).
  split; [|split].
  - apply (proj1 diffusion_only_keeps_density);
      [exact heat_identity_inverse | apply (point_mass_density 0); lia].
  - apply (proj1 (proj2 diffusion_only_keeps_density) 50%nat
             (sample_model [quiet_A; quiet_B] 0 true [100%Z]) (constant_gen 0 0));
      [apply quiet_sample_model | exact Hg].
  - set (l0 := OpinionModel.mkLoop (sample_model [quiet_A; quiet_B] 0 true [100%Z]) []
                 false (constant_gen 0 0) []).
    destruct (proj2 (proj2 (proj2 diffusion_only_keeps_density)) (range 10) l0
                (quiet_sample_model true [100%Z]) Hg) as (l' & E).
    { intros c [<-|[]]. rewrite length_range. reflexivity. }
    exists l'; split; [exact E|].
    apply (proj1 (proj2 (proj2 diffusion_only_keeps_density)) (range 10) l0 l'
             (quiet_sample_model true [100%Z]) Hg E).
Defined.

(** * Reproducibility *)

Local Open Scope R_scope.

Section Reproducible.

Variable np_seed : Z -> gen.
Variable py_seed : Z -> gen.
Variable nx_watts_strogatz_graph : Z -> Z -> R -> Z -> res Graph.t.
Variable nx_spring_layout : Graph.t -> gen -> layout * gen.
Variable fuel : nat.

Lemma forget_py_eq {A : Type} (r1 r2 : res (A * world)) :
  forget_py r1 = forget_py r2 ->
  match r1, r2 with
  | Ok (a1, w1), Ok (a2, w2) => a1 = a2 /\ np w1 = np w2
  | Raise e1, Raise e2 => e1 = e2
  | OutOfFuel, OutOfFuel => True
  | _, _ => False
  end.
Proof.
  unfold forget_py. destruct r1 as [[a1 w1]|e1|], r2 as [[a2 w2]|e2|]; cbn [bind fst snd];
    intros H; try discriminate H; try exact I.
  - injection H as Ha Hw. split; assumption.
  - injection H as He. exact He.
Qed.

(** A computation that continues with what [forget_py] keeps does not see
    the rest. *)
Lemma bind_forget_py {A B : Type} (r1 r2 : res (A * world)) (k : A * world -> res B) :
  forget_py r1 = forget_py r2 ->
  (forall a w w', np w = np w' -> k (a, w) = k (a, w')) ->
  bind r1 k = bind r2 k.
Proof.
  intros H Hk. apply forget_py_eq in H.
  destruct r1 as [[a1 w1]|e1|], r2 as [[a2 w2]|e2|]; try contradiction; cbn [bind].
  - destruct H as [-> Hw]. apply Hk, Hw.
  - rewrite H. reflexivity.
  - reflexivity.
Qed.

Lemma forget_py_bind {A B : Type} (r : res (A * world)) (k : A * world -> res (B * world)) :
  forget_py (bind r k) = bind r (fun x => forget_py (k x)).
Proof. destruct r as [x|e|]; reflexivity. Qed.

Lemma UnevenK_ignores_py (n k : Z) (p : R) (seed : Z) (w w' : world) :
  np w = np w' ->
  watts_strogatz_graph_UnevenK py_seed fuel n k p seed w
  = watts_strogatz_graph_UnevenK py_seed fuel n k p seed w'.
Proof. intros H. unfold watts_strogatz_graph_UnevenK. rewrite H. reflexivity. Qed.

Lemma network_ignores_py (n k_in k_out : Z) (p : R) (seed : Z) (w w' : world) :
  np w = np w' ->
  forget_py (create_withinAndBetweenGroup_network py_seed nx_watts_strogatz_graph
               nx_spring_layout fuel n k_in k_out p seed w)
  = forget_py (create_withinAndBetweenGroup_network py_seed nx_watts_strogatz_graph
                 nx_spring_layout fuel n k_in k_out p seed w').
Proof.
  intros H. unfold create_withinAndBetweenGroup_network.
  destruct (negb (n mod 2 =? 0)%Z); [reflexivity|].
  destruct ((k_in mod 2 =? 0)%Z && (k_out mod 2 =? 0)%Z).
  - destruct (nx_watts_strogatz_graph (n / 2) k_in p seed) as [G1|e|]; [|reflexivity..].
    destruct (nx_watts_strogatz_graph (n / 2) k_in p (seed + 100)) as [G2|e|]; [|reflexivity..].
    cbn [bind]. rewrite H.
    destruct (connect_groups _ _ _ _ _ _ _) as [[G g]|e|]; [|reflexivity..].
    cbn [bind]. destruct (nx_spring_layout G g) as [pos g']. reflexivity.
  - rewrite (UnevenK_ignores_py _ _ _ _ w w' H). reflexivity.
Qed.


Lemma construct_ignores_generators (p : OpinionModel.params) (rep : bool) (tks : list Z)
    (w1 w2 : world) :
  forget_py (OpinionModel.construct np_seed py_seed nx_watts_strogatz_graph nx_spring_layout
               fuel p rep tks w1)
  = forget_py (OpinionModel.construct np_seed py_seed nx_watts_strogatz_graph
                 nx_spring_layout fuel p rep tks w2).
Proof.
  unfold OpinionModel.construct.
  destruct (linalg_inv _) as [Minv|e|]; [|reflexivity..]. cbn [bind].
  destruct (OpinionModel.seed_check _) as [[]|e|]; [|reflexivity..]. cbn [bind].
  destruct (OpinionModel.check (OpinionModel.Reqb _ _)) as [[]|e|]; [|reflexivity..].
  cbn [bind].
  destruct (Z.of_nat (length (OpinionModel.p_social_id_groups p)) =? 0)%Z; [reflexivity|].
  cbn [bind].
  destruct (OpinionModel.check (_ =? 0)%Z) as [[]|e|]; [|reflexivity..].
  cbn [bind]. rewrite !forget_py_bind.
  apply bind_forget_py; [apply network_ignores_py; reflexivity|].
  intros net w w' Hw. cbv beta iota.
  destruct (OpinionModel.adjacency_matrix _) as [[]|e|]; [|reflexivity..]. cbn [bind].
  rewrite Hw.
  destruct (nx_spring_layout (graph net) (np w')) as [pos g].
  destruct (for_each _ _ _) as [[schedule g']|e|]; reflexivity.
Qed.

Lemma init_ignores_generators (p : OpinionModel.params) (rep : bool) (tks : list Z)
    (w1 w2 : world) :
  forget_py (OpinionModel.init np_seed py_seed nx_watts_strogatz_graph nx_spring_layout
               fuel p rep tks w1)
  = forget_py (OpinionModel.init np_seed py_seed nx_watts_strogatz_graph
                 nx_spring_layout fuel p rep tks w2).
Proof.
  unfold OpinionModel.init. rewrite !forget_py_bind.
  apply bind_forget_py; [apply construct_ignores_generators|].
  intros m w w' Hw. cbv beta iota.
  destruct (OpinionModel.observe m) as [m'|e|]; [|reflexivity..].
  unfold forget_py. cbn [bind fst snd]. rewrite Hw. reflexivity.
Qed.

Lemma run_ignores_generators (p : OpinionModel.params) (rep : bool) (tks : list Z)
    (w1 w2 : world) :
  forget_py (OpinionModel.run np_seed py_seed nx_watts_strogatz_graph nx_spring_layout
               fuel p rep tks w1)
  = forget_py (OpinionModel.run np_seed py_seed nx_watts_strogatz_graph
                 nx_spring_layout fuel p rep tks w2).
Proof.
  unfold OpinionModel.run. rewrite !forget_py_bind.
  apply bind_forget_py; [apply init_ignores_generators|].
  intros m w w' Hw. cbv beta iota. rewrite Hw.
  destruct (OpinionModel.simulation m (np w')) as [[m' g]|e|]; reflexivity.
Qed.

(** C7.  Two runs with the same configuration and the same seed give the
    same outcome, whatever the states of the two generators when they start:
    the constructor (up to its call of [observe]) builds the same model, with
    the same statistics at time 0, and leaves numpy's generator in the same
    state, or raises the same exception; the loop of [simulation], run from
    there over any values [ts] of its variable, ends in the same state, with
    the same list of ticks below the threshold, the same consensus time and
    the same consensus mean; and so do the whole constructor and the whole
    run.  Only the state of Python's generator, which the models never read
    before seeding it, may differ afterwards. *)
Theorem equal_seeds_give_equal_runs :
  forall (p : OpinionModel.params) (rep : bool) (tks : list Z) (w1 w2 : world),
    forget_py (OpinionModel.construct np_seed py_seed nx_watts_strogatz_graph
                 nx_spring_layout fuel p rep tks w1)
    = forget_py (OpinionModel.construct np_seed py_seed nx_watts_strogatz_graph
                   nx_spring_layout fuel p rep tks w2) /\
    (forall ts : list Z,
       (x <- OpinionModel.construct np_seed py_seed nx_watts_strogatz_graph
               nx_spring_layout fuel p rep tks w1 ;;
        OpinionModel.simulation_loop ts (OpinionModel.mkLoop (fst x) [] false (np (snd x)) []))
       = (x <- OpinionModel.construct np_seed py_seed nx_watts_strogatz_graph
                 nx_spring_layout fuel p rep tks w2 ;;
          OpinionModel.simulation_loop ts
            (OpinionModel.mkLoop (fst x) [] false (np (snd x)) []))) /\
    forget_py (OpinionModel.init np_seed py_seed nx_watts_strogatz_graph nx_spring_layout
                 fuel p rep tks w1)
    = forget_py (OpinionModel.init np_seed py_seed nx_watts_strogatz_graph
                   nx_spring_layout fuel p rep tks w2) /\
    forget_py (OpinionModel.run np_seed py_seed nx_watts_strogatz_graph nx_spring_layout
                 fuel p rep tks w1)
    = forget_py (OpinionModel.run np_seed py_seed nx_watts_strogatz_graph
                   nx_spring_layout fuel p rep tks w2).
Proof.
  intros p rep tks w1 w2.
  split; [apply construct_ignores_generators | split; [|split]].
  - intros ts. apply bind_forget_py; [apply construct_ignores_generators|].
    intros m w w' Hw. cbn [fst snd]. rewrite Hw. reflexivity.
  - apply init_ignores_generators.
  - apply run_ignores_generators.
Qed.

End Reproducible.

(** ** The bookkeeping of the consensus *)

Section Consensus.
Local Open Scope R_scope.

Lemma combine_app_short {A B : Type} (l l' : list A) (h : list B) :
  (length h <= length l)%nat -> combine (l ++ l') h = combine l h.
Proof.
  revert h; induction l as [|a l IH]; intros h Hl.
  - destruct h; [|simpl in Hl; lia]. destruct l'; reflexivity.
  - destruct h as [|b h]; [reflexivity|]. simpl in *. f_equal. apply IH; lia.
Qed.

Lemma combine_snoc {A B : Type} (l : list A) (h : list B) (a : A) (b : B) :
  length h = length l -> combine (l ++ [a]) (h ++ [b]) = combine l h ++ [(a, b)].
Proof.
  revert h; induction l as [|x l IH]; intros h Hl.
  - destruct h; [reflexivity | discriminate].
  - destruct h as [|y h]; [discriminate|]. simpl in *. f_equal. apply IH; lia.
Qed.

(** The head of a filtered list is the first entry that passes the test. *)
Lemma first_of_filter {A : Type} (f : A -> bool) (l : list A) :
  filter f l <> [] ->
  exists k x,
    nth_error l k = Some x /\ f x = true /\
    (forall j p, (j < k)%nat -> nth_error l j = Some p -> f p = false) /\
    hd_error (filter f l) = Some x.
Proof.
  induction l as [|a l IH]; [intros H; exfalso; apply H; reflexivity|].
  cbn [filter]. destruct (f a) eqn:Ea.
  - intros _. exists 0%nat, a. split; [reflexivity | split; [assumption | split]].
    + intros j p Hj; lia.
    + reflexivity.
  - intros Hne. destruct (IH Hne) as (k & x & Hk & Hx & Hbefore & Hhd).
    exists (S k), x. split; [assumption | split; [assumption | split; [|assumption]]].
    intros [|j] p Hj Hp.
    + apply Ok_inj in Hp || injection Hp as <-. assumption.
    + apply (Hbefore j p); [lia | assumption].
Qed.

Lemma step_fields (m m' : OpinionModel.t) (g g' : gen) :
  OpinionModel.step m g = Ok (m', g') ->
  OpinionModel.below_threshold m'
    = Ok (Rltb (np_std (OpinionModel.mean_ops m')) (OpinionModel.sigma_threshold_consensus m')) /\
  OpinionModel.sigma_threshold_consensus m' = OpinionModel.sigma_threshold_consensus m /\
  OpinionModel.agent_reporter m' = OpinionModel.agent_reporter m /\
  OpinionModel.consensus_time m' = OpinionModel.consensus_time m /\
  OpinionModel.consensus_mean m' = OpinionModel.consensus_mean m.
Proof.
  intros H. apply step_Ok_inv in H. destruct H as [H _].
  split; [eapply below_threshold_after; eassumption|].
  destruct (advance_agents_fields _ _ _ _ H) as (_ & _ & _ & _ & Hr & Ht & Hct & Hcm & _).
  auto.
Qed.

(** One pass through the body keeps the invariant. *)
Lemma simulation_body_inv (thr : R) (rep : bool) (done : list Z) (tk : Z)
    (l l' : OpinionModel.loop) :
  loop_inv thr rep done l ->
  OpinionModel.simulation_body tk l = Ok l' ->
  loop_inv thr rep (done ++ [tk]) l'.
Proof.
  intros (Hthr & Hrep & Hlen & Hnb & Htc & Hcons & Hopen & Hbr).
  unfold OpinionModel.simulation_body.
  destruct (OpinionModel.broke l) eqn:Eb.
  - intros H; apply Ok_inj in H; subst l'. unfold loop_inv.
    rewrite length_app, combine_app_short by assumption. cbn [length].
    split; [assumption | split; [assumption | split; [lia | split; [congruence|]]]].
    split; [assumption | split; [assumption | split; [congruence|]]].
    intros _. apply Hbr; reflexivity.
  - intros H. inv_bind H. destruct a as [m g]. inv_bind H. rename a into b.
    destruct (step_fields _ _ _ _ E) as (Hb & Hthr' & Hrep' & Hct & Hcm).
    rewrite Hb in E0. apply Ok_inj in E0. subst b.
    rewrite Hthr', Hthr in H.
    specialize (Hnb eq_refl). specialize (Hopen eq_refl).
    set (e := (np_std (OpinionModel.mean_ops m), np_mean (OpinionModel.mean_ops m))) in *.
    set (tc' := if Rltb (np_std (OpinionModel.mean_ops m)) thr
                then OpinionModel.time_cons l ++ [tk] else OpinionModel.time_cons l) in *.
    assert (Htc' : tc' = map fst (filter (qualifies thr)
                                   (combine (done ++ [tk]) (OpinionModel.history l ++ [e])))).
    { rewrite combine_snoc by assumption. rewrite filter_app, map_app, <- Htc.
      unfold tc'. cbn [filter]. unfold qualifies. cbn [fst snd e].
      destruct (Rltb _ thr); [reflexivity | rewrite app_nil_r; reflexivity]. }
    assert (Hgrow : (length tc' <= S (length (OpinionModel.time_cons l)))%nat).
    { unfold tc'. destruct (Rltb _ thr); [rewrite length_app; simpl|]; lia. }
    destruct (Z.ltb_spec 20 (Z.of_nat (length tc'))) as [Hmany|Hfew];
      apply Ok_inj in H; subst l'; unfold loop_inv;
      cbn [OpinionModel.model OpinionModel.history OpinionModel.time_cons OpinionModel.broke
           OpinionModel.with_consensus OpinionModel.sigma_threshold_consensus
           OpinionModel.agent_reporter OpinionModel.consensus_time OpinionModel.consensus_mean].
    + split; [congruence | split; [congruence|]].
      rewrite !length_app. cbn [length].
      split; [lia | split; [lia | split; [exact Htc'|]]].
      destruct (Z.ltb_spec 20 (Z.of_nat (length tc'))); [|lia].
      rewrite last_last. split; [split; reflexivity|].
      rewrite Hrep', Hrep. split.
      * intros Hneg Hr. rewrite Hr in Hneg. discriminate.
      * intros Hneg. apply negb_true_iff in Hneg.
        split; [assumption|]. specialize (Hopen Hneg).
        rewrite combine_snoc by assumption. rewrite last_last.
        unfold tc' in *. unfold qualifies. cbn [fst snd e].
        destruct (Rltb _ thr); [|lia]. rewrite length_app in *. cbn [length] in *.
        split; [lia | reflexivity].
    + split; [congruence | split; [congruence|]].
      rewrite !length_app. cbn [length].
      split; [lia | split; [lia | split; [exact Htc'|]]].
      destruct (Z.ltb_spec 20 (Z.of_nat (length tc'))); [lia|].
      assert (Hold : (20 <? Z.of_nat (length (OpinionModel.time_cons l)))%Z = false).
      { apply Z.ltb_ge. unfold tc' in Hfew. destruct (Rltb _ thr);
          [rewrite length_app in Hfew; simpl in Hfew|]; lia. }
      cbv zeta in Hcons. rewrite Hold in Hcons.
      split; [split; [rewrite Hct | rewrite Hcm]; apply Hcons|].
      split; [intros; lia | discriminate].
Qed.

Lemma simulation_loop_inv (thr : R) (rep : bool) (ts : list Z) :
  forall (done : list Z) (l l' : OpinionModel.loop),
    loop_inv thr rep done l ->
    OpinionModel.simulation_loop ts l = Ok l' ->
    loop_inv thr rep (done ++ ts) l'.
Proof.
  induction ts as [|tk ts IH]; intros done l l' Hinv H; cbn [OpinionModel.simulation_loop] in H.
  - apply Ok_inj in H; subst l'. rewrite app_nil_r; assumption.
  - inv_bind H. replace (done ++ tk :: ts) with ((done ++ [tk]) ++ ts)
      by (rewrite <- app_assoc; reflexivity).
    eapply IH; [|eassumption]. eapply simulation_body_inv; eassumption.
Qed.

(** The invariant holds when the loop is entered from the state that the
    constructor leaves. *)
Lemma loop_inv_start (m : OpinionModel.t) (g : gen) :
  OpinionModel.consensus_time m = None -> OpinionModel.consensus_mean m = None ->
  loop_inv (OpinionModel.sigma_threshold_consensus m) (OpinionModel.agent_reporter m) []
    (OpinionModel.mkLoop m [] false g []).
Proof.
  intros Hct Hcm. unfold loop_inv. cbn.
  repeat (split; try reflexivity; try assumption; try discriminate; try lia).
Qed.


(** C3.  The loop of [simulation], entered from the state that the
    constructor leaves, keeps in [time_cons] the ticks that ran with a
    dispersion below the threshold.  Once there are 21 of them, the recorded
    [consensus_time] is the first tick that ran with a dispersion below the
    threshold: no tick before it qualifies.  This holds with and without
    agent-level reporting, at the end of every pass through the loop.  Before
    there are 21, no consensus time is recorded.  (The ticks are counted as
    the loop counts them, from 0; the clock of the model then reads one
    more.) *)
Theorem consensus_time_is_first_qualifying_tick :
  forall (ts : list Z) (m : OpinionModel.t) (g : gen) (l' : OpinionModel.loop),
    OpinionModel.consensus_time m = None -> OpinionModel.consensus_mean m = None ->
    OpinionModel.simulation_loop ts (OpinionModel.mkLoop m [] false g []) = Ok l' ->
    let thr := OpinionModel.sigma_threshold_consensus m in
    let below := filter (qualifies thr) (ran ts l') in
    OpinionModel.time_cons l' = map fst below /\
    ((21 <= length below)%nat ->
     exists k tau e,
       nth_error (ran ts l') k = Some (tau, e) /\ qualifies thr (tau, e) = true /\
       (forall j p, (j < k)%nat -> nth_error (ran ts l') j = Some p -> qualifies thr p = false) /\
       OpinionModel.consensus_time (OpinionModel.model l') = Some tau) /\
    ((length below < 21)%nat ->
     OpinionModel.consensus_time (OpinionModel.model l') = None).
Proof.
  intros ts m g l' Hct Hcm H thr below.
  pose proof (simulation_loop_inv _ _ ts [] _ _ (loop_inv_start m g Hct Hcm) H) as Hinv.
  cbn [app] in Hinv. destruct Hinv as (_ & _ & _ & _ & Htc & Hcons & _).
  fold thr in Htc, Hcons. fold (ran ts l') in Htc. fold below in Htc.
  split; [exact Htc|]. cbv zeta in Hcons. rewrite Htc, length_map in Hcons.
  split.
  - intros Hmany. destruct (Z.ltb_spec 20 (Z.of_nat (length below))); [|lia].
    destruct Hcons as [Hcons _].
    destruct (first_of_filter (qualifies thr) (ran ts l')) as (k & x & Hk & Hq & Hbefore & Hhd).
    { fold below. destruct below; [simpl in Hmany; lia | discriminate]. }
    destruct x as [tau e]. exists k, tau, e.
    split; [assumption | split; [assumption | split; [assumption|]]].
    rewrite Hcons. fold below in Hhd. destruct below as [|y below']; [discriminate|].
    cbn [map hd]. apply Ok_inj in Hhd || injection Hhd as ->. reflexivity.
  - intros Hfew. destruct (Z.ltb_spec 20 (Z.of_nat (length below))); [lia|].
    apply Hcons.
Qed.

(** C9, as amended.  Once 21 ticks have run with a dispersion below the
    threshold, the recorded [consensus_mean] is the mean of the agents' mean
    opinions at the end of the last tick that ran, for both settings of
    agent-level reporting.  Without agent-level reporting the loop is left on
    the pass on which the count reaches 21: the last tick that ran is the 21st
    tick with a dispersion below the threshold.  Before there are 21, no
    consensus mean is recorded. *)
Theorem consensus_mean_is_mean_at_detection :
  forall (ts : list Z) (m : OpinionModel.t) (g : gen) (l' : OpinionModel.loop),
    OpinionModel.consensus_time m = None -> OpinionModel.consensus_mean m = None ->
    OpinionModel.simulation_loop ts (OpinionModel.mkLoop m [] false g []) = Ok l' ->
    let thr := OpinionModel.sigma_threshold_consensus m in
    let below := filter (qualifies thr) (ran ts l') in
    ((21 <= length below)%nat ->
     OpinionModel.consensus_mean (OpinionModel.model l')
     = Some (snd (last (OpinionModel.history l') (0, 0)))) /\
    (OpinionModel.agent_reporter m = false -> (21 <= length below)%nat ->
     length below = 21%nat /\
     qualifies thr (last (ran ts l') (0%Z, (0, 0))) = true) /\
    ((length below < 21)%nat ->
     OpinionModel.consensus_mean (OpinionModel.model l') = None).
Proof.
  intros ts m g l' Hct Hcm H thr below.
  pose proof (simulation_loop_inv _ _ ts [] _ _ (loop_inv_start m g Hct Hcm) H) as Hinv.
  cbn [app] in Hinv. destruct Hinv as (_ & _ & _ & _ & Htc & Hcons & Hopen & Hbr).
  fold thr in Htc, Hcons, Hbr. fold (ran ts l') in Htc, Hbr. fold below in Htc.
  cbv zeta in Hcons. rewrite Htc, length_map in Hcons, Hopen, Hbr.
  split; [|split].
  - intros Hmany. destruct (Z.ltb_spec 20 (Z.of_nat (length below))); [|lia].
    apply Hcons.
  - intros Hrep Hmany. destruct (OpinionModel.broke l') eqn:Eb.
    + destruct (Hbr eq_refl) as (_ & H21 & Hlast). auto.
    + specialize (Hopen eq_refl Hrep). lia.
  - intros Hfew. destruct (Z.ltb_spec 20 (Z.of_nat (length below))); [lia|].
    apply Hcons.
Qed.

End Consensus.

(** ** Ticks on which nobody communicates *)

Section Idle.
Local Open Scope R_scope.

Lemma gpos_advance_n (k : nat) (g : gen) : gpos (advance_n k g) = (gpos g + k)%nat.
Proof.
  induction k as [|k IH]; [simpl; lia|].
  change (advance_n (S k) g) with (advance (advance_n k g)). simpl. rewrite IH; lia.
Qed.

Lemma gfloat_advance_n (k : nat) (g : gen) : gfloat (advance_n k g) = gfloat g.
Proof.
  induction k as [|k IH]; [reflexivity|].
  change (advance_n (S k) g) with (advance (advance_n k g)). simpl. exact IH.
Qed.

Lemma advance_n_add (j k : nat) (g : gen) :
  advance_n j (advance_n k g) = advance_n (j + k) g.
Proof. unfold advance_n. rewrite <- Nat.iter_add. reflexivity. Qed.

Lemma gen_ok_advance_n (k : nat) (g : gen) : gen_ok g -> gen_ok (advance_n k g).
Proof.
  intros Hg. induction k as [|k IH]; [assumption|].
  change (advance_n (S k) g) with (advance (advance_n k g)).
  apply gen_ok_advance; assumption.
Qed.

Lemma idle_draws_advance (s : list Agent.t) (g : gen) (j k : nat) :
  idle_draws s g (j + k) -> idle_draws s (advance_n j g) k.
Proof.
  intros H a p Ha Hp. rewrite gpos_advance_n in Hp. rewrite gfloat_advance_n.
  apply H; [assumption | lia].
Qed.

(** An agent at rest that draws the diffusion branch stays as it is. *)
Lemma agent_step_idle (Minv : matrix) (s : list Agent.t) (i : nat) (self : Agent.t) (g : gen) :
  is_inverse (mat_heat_equation 0) Minv ->
  nth_error s i = Some self -> steady self ->
  Agent.communication_frequency self <= gfloat g (gpos g) ->
  Agent.step Minv s i g = Ok (s, advance g).
Proof.
  intros Hinv Hi [Hd Hc] Hf. unfold Agent.step, random. rewrite Hi.
  rewrite Rltb_false by assumption.
  unfold Agent.update_opinion_in_non_interaction.
  rewrite (identity_propagator Minv _ Hinv) by apply Hd.
  rewrite normalise_fixed by assumption. rewrite Hc.
  rewrite put_same by assumption. reflexivity.
Qed.

Lemma step_agents_idle (Minv : matrix) (order : list nat) :
  forall (s : list Agent.t) (g : gen),
    is_inverse (mat_heat_equation 0) Minv ->
    Forall steady s -> Forall (fun i => (i < length s)%nat) order ->
    idle_draws s g (length order) ->
    OpinionModel.step_agents Minv order s g = Ok (s, advance_n (length order) g).
Proof.
  induction order as [|i order IH]; intros s g Hinv Hs Ho Hdraws; [reflexivity|].
  inversion Ho as [|? ? Hi Ho']; subst.
  destruct (nth_error s i) as [self|] eqn:Ei; [|apply nth_error_None in Ei; lia].
  assert (Hself : steady self).
  { rewrite Forall_forall in Hs. apply Hs. eapply nth_error_In; eassumption. }
  cbn [OpinionModel.step_agents].
  rewrite (agent_step_idle Minv s i self g Hinv Ei Hself).
  2:{ apply Hdraws; [eapply nth_error_In; eassumption | cbn [length]; lia]. }
  cbn [bind]. rewrite IH; try assumption.
  - cbn [length]. rewrite advance_n_S. reflexivity.
  - apply (idle_draws_advance s g 1 (length order)). exact Hdraws.
Qed.

Lemma update_order_all (m : OpinionModel.t) (g : gen) :
  gen_ok g -> OpinionModel.n_agents m = Z.of_nat (length (OpinionModel.schedule m)) ->
  exists order,
    OpinionModel.update_order m g = Ok (order, advance g) /\
    length order = length (OpinionModel.schedule m) /\
    Forall (fun i => (i < length (OpinionModel.schedule m))%nat) order.
Proof.
  intros Hg Hn. destruct (update_order_in_range m g Hg) as (order & E & Hr); [lia|].
  exists order. split; [assumption | split; [|assumption]].
  unfold OpinionModel.update_order, permutation in E.
  destruct (Z.ltb_spec (Z.of_nat (length (OpinionModel.schedule m))) (OpinionModel.n_agents m));
    [discriminate|].
  apply Ok_inj in E. injection E as <-.
  rewrite length_firstn. destruct Hg as [_ Hp].
  rewrite (Permutation_length (Hp _ _)), length_seq. lia.
Qed.

(** A tick of a model at rest on which every agent draws the diffusion
    branch changes no agent. *)
Lemma advance_agents_idle (m : OpinionModel.t) (g : gen) :
  calm m -> gen_ok g ->
  idle_draws (OpinionModel.schedule m) g (S (length (OpinionModel.schedule m))) ->
  exists m',
    OpinionModel.advance_agents m g
      = Ok (m', advance_n (S (length (OpinionModel.schedule m))) g) /\
    OpinionModel.schedule m' = OpinionModel.schedule m /\ calm m'.
Proof.
  intros (Hinv & Hs & Hn) Hg Hdraws.
  destruct (update_order_all m g Hg Hn) as (order & Eo & Hlen & Hrange).
  assert (E : exists m', OpinionModel.advance_agents m g
                = Ok (m', advance_n (S (length (OpinionModel.schedule m))) g) /\
              OpinionModel.schedule m' = OpinionModel.schedule m).
  { unfold OpinionModel.advance_agents. rewrite Eo. cbn [bind].
    rewrite (step_agents_idle _ order _ (advance g) Hinv Hs Hrange).
    2:{ rewrite Hlen. apply (idle_draws_advance _ g 1). exact Hdraws. }
    cbn [bind]. rewrite Hlen, <- advance_n_S. eexists; split; reflexivity. }
  destruct E as (m' & E & Hsched). exists m'. split; [assumption | split; [assumption|]].
  destruct (advance_agents_fields _ _ _ _ E)
    as (_ & _ & _ & _ & _ & _ & _ & _ & HM & Hna & _).
  unfold calm. rewrite HM, Hna, Hsched. auto.
Qed.

(** The loop of [simulation] over ticks on which nobody communicates and
    the dispersion is below the threshold, as long as it is not left: every
    tick joins [time_cons], the agents stay as they are. *)
Lemma simulation_loop_idle (ts : list Z) :
  forall l : OpinionModel.loop,
    let m := OpinionModel.model l in
    let s := OpinionModel.schedule m in
    OpinionModel.broke l = false -> calm m -> gen_ok (OpinionModel.rng l) ->
    idle_draws s (OpinionModel.rng l) (S (length s) * length ts) ->
    (forall c, In c (OpinionModel.track_times m) ->
       (time_value (OpinionModel.time m) + Z.of_nat (length ts) < c)%Z) ->
    np_std (OpinionModel.mean_ops m) < OpinionModel.sigma_threshold_consensus m ->
    (OpinionModel.agent_reporter m = true \/
     (length (OpinionModel.time_cons l) + length ts <= 20)%nat) ->
    exists l',
      OpinionModel.simulation_loop ts l = Ok l' /\
      let m' := OpinionModel.model l' in
      OpinionModel.schedule m' = s /\ calm m' /\
      OpinionModel.rng l' = advance_n (S (length s) * length ts) (OpinionModel.rng l) /\
      OpinionModel.time_cons l' = OpinionModel.time_cons l ++ ts /\
      OpinionModel.broke l' = false /\
      time_value (OpinionModel.time m')
        = (time_value (OpinionModel.time m) + Z.of_nat (length ts))%Z /\
      OpinionModel.track_times m' = OpinionModel.track_times m /\
      OpinionModel.sigma_threshold_consensus m' = OpinionModel.sigma_threshold_consensus m /\
      OpinionModel.agent_reporter m' = OpinionModel.agent_reporter m.
Proof.
  induction ts as [|tk ts IH]; intros l m s Hb Hcalm Hg Hdraws Hcp Hstd Hroom.
  - exists l. split; [reflexivity|]. cbv zeta. fold m. fold s.
    rewrite Nat.mul_0_r, app_nil_r. cbn [length]. rewrite Z.add_0_r.
    repeat (split; [first [reflexivity | assumption]|]). reflexivity.
  - destruct (advance_agents_idle m (OpinionModel.rng l) Hcalm Hg) as (m1 & E1 & Hs1 & Hcalm1).
    { intros a p Ha Hp. apply Hdraws; [assumption|]. fold s in Hp. cbn [length]. nia. }
    destruct (advance_agents_fields _ _ _ _ E1)
      as (_ & _ & Htk & Htime & Hrep & Hthr & _).
    assert (Hv1 : time_value (OpinionModel.time m1) = (time_value (OpinionModel.time m) + 1)%Z)
      by (rewrite Htime; reflexivity).
    assert (Hmo : OpinionModel.mean_ops m1 = OpinionModel.mean_ops m)
      by (unfold OpinionModel.mean_ops; rewrite Hs1; reflexivity).
    assert (Ebody : exists l1, OpinionModel.simulation_body tk l = Ok l1 /\
              OpinionModel.schedule (OpinionModel.model l1) = s /\
              calm (OpinionModel.model l1) /\
              OpinionModel.rng l1 = advance_n (S (length s)) (OpinionModel.rng l) /\
              OpinionModel.time_cons l1 = OpinionModel.time_cons l ++ [tk] /\
              OpinionModel.broke l1 = false /\
              time_value (OpinionModel.time (OpinionModel.model l1))
                = (time_value (OpinionModel.time m) + 1)%Z /\
              OpinionModel.track_times (OpinionModel.model l1) = OpinionModel.track_times m /\
              OpinionModel.sigma_threshold_consensus (OpinionModel.model l1)
                = OpinionModel.sigma_threshold_consensus m /\
              OpinionModel.agent_reporter (OpinionModel.model l1)
                = OpinionModel.agent_reporter m).
    { unfold OpinionModel.simulation_body. rewrite Hb. fold m.
      rewrite (step_off_checkpoint _ _ _ _ E1).
      2:{ apply not_checkpoint. intros c Hin. rewrite Htk in Hin. specialize (Hcp c Hin).
          cbn [length] in Hcp. lia. }
      cbn [bind]. rewrite (below_threshold_after _ _ _ _ E1). cbn [bind].
      rewrite Hmo, Hthr, (Rltb_true _ _ Hstd).
      destruct (Z.ltb_spec 20 (Z.of_nat (length (OpinionModel.time_cons l ++ [tk])))) as [Hmany|Hfew].
      - destruct Hroom as [Hr|Hr].
        + eexists; split; [reflexivity|].
          cbn [OpinionModel.model OpinionModel.rng OpinionModel.time_cons OpinionModel.broke
               OpinionModel.with_consensus OpinionModel.schedule OpinionModel.time
               OpinionModel.track_times OpinionModel.sigma_threshold_consensus
               OpinionModel.agent_reporter].
          rewrite Hrep, Hr.
          assert (Hc : calm (OpinionModel.with_consensus m1
                        (hd 0%Z (OpinionModel.time_cons l ++ [tk]))
                        (np_mean (OpinionModel.mean_ops m))))
            by exact Hcalm1.
          repeat (split; [first [reflexivity | assumption]|]). reflexivity.
        + rewrite length_app in Hmany. cbn [length] in *. lia.
      - eexists; split; [reflexivity|].
        cbn [OpinionModel.model OpinionModel.rng OpinionModel.time_cons OpinionModel.broke].
        repeat (split; [first [reflexivity | assumption]|]). assumption. }
    destruct Ebody as (l1 & El1 & Hsl1 & Hcl1 & Hrng1 & Htc1 & Hb1 & Ht1 & Htk1 & Hthr1 & Hrep1).
    destruct (IH l1 Hb1 Hcl1) as (l' & El' & H').
    + rewrite Hrng1. apply gen_ok_advance_n; assumption.
    + rewrite Hsl1, Hrng1. apply (idle_draws_advance s _ (S (length s))).
      intros a p Ha Hp. apply Hdraws; [assumption|]. cbn [length]. nia.
    + intros c Hin. rewrite Htk1 in Hin. specialize (Hcp c Hin). rewrite Ht1.
      cbn [length] in Hcp. lia.
    + unfold OpinionModel.mean_ops. rewrite Hsl1, Hthr1. exact Hstd.
    + rewrite Hrep1, Htc1, length_app. cbn [length] in *.
      destruct Hroom as [Hr|Hr]; [left; assumption | right; lia].
    + exists l'. cbn [OpinionModel.simulation_loop]. rewrite El1. cbn [bind].
      split; [exact El'|]. cbv zeta in H'.
      destruct H' as (Hs' & Hc' & Hrng' & Htc' & Hb' & Ht' & Htk' & Hthr' & Hrep').
      cbv zeta. rewrite Hs', Hrng', Htc', Ht', Htk', Hthr', Hrep'.
      rewrite Hsl1, Hrng1, Htc1, Ht1, Htk1, Hthr1, Hrep1.
      split; [reflexivity | split; [assumption|]].
      split; [rewrite advance_n_add; f_equal; cbn [length]; nia|].
      split; [rewrite <- app_assoc; reflexivity|].
      split; [assumption|].
      split; [cbn [length]; lia|].
      repeat split.
Qed.

End Idle.

(** ** A run in which the mean moves after the first qualifying tick *)

Section Scenario.
Local Open Scope R_scope.

Lemma belief_space_formula :
  belief_space =
  map (fun i => -1 + INR i * ((1 - -1) / 200)
                + (-1 + INR (S i) * ((1 - -1) / 200) - (-1 + INR i * ((1 - -1) / 200))) / 2)
      (seq 0 n_beliefs).
Proof.
  unfold belief_space, belief_space_bounds, np_linspace, np_diff, vdiv, vadd.
  replace (n_beliefs + 1)%nat with (S n_beliefs) by lia.
  replace (S n_beliefs - 1)%nat with n_beliefs by lia. rewrite INR_n_beliefs.
  set (f := fun i => -1 + INR i * ((1 - -1) / 200)).
  assert (Htl : tl (map f (seq 0 (S n_beliefs))) = map (fun i => f (S i)) (seq 0 n_beliefs)).
  { cbn [seq map tl]. rewrite <- seq_shift, map_map. reflexivity. }
  rewrite Htl. rewrite seq_S, map_app. cbn [map Nat.add]. rewrite removelast_last.
  rewrite combine_app_short by (rewrite !length_map; lia).
  rewrite combine_map_seq, !map_map, combine_map_seq, map_map.
  apply map_ext. intros i. reflexivity.
Qed.

Lemma belief_space_head :
  exists rest, belief_space = (-199 / 200) :: (-197 / 200) :: rest.
Proof.
  rewrite belief_space_formula. change (seq 0 n_beliefs) with (0%nat :: 1%nat :: seq 2 198).
  cbn [map]. eexists. f_equal; [|f_equal]; cbn [INR]; field.
Qed.

Lemma np_dot_zeros (k : nat) (v : vec) : np_dot (repeat 0 k) v = 0.
Proof.
  unfold np_dot, vmul. revert v; induction k as [|k IH]; intros v; [reflexivity|].
  destruct v as [|x v]; [reflexivity|]. cbn [repeat combine map np_sum fold_right fst snd].
  fold (np_sum (map (fun p => fst p * snd p) (combine (repeat 0 k) v))). rewrite IH. ring.
Qed.

Lemma np_dot_cons (a x : R) (u v : vec) : np_dot (a :: u) (x :: v) = a * x + np_dot u v.
Proof. reflexivity. Qed.

Lemma mean_of_point_mass : Agent.mean_of (point_mass 0) = -199 / 200.
Proof.
  unfold Agent.mean_of. rewrite (density_sum _ (point_mass_density 0 (Nat.le_0_l _))).
  destruct belief_space_head as [rest ->].
  change (point_mass 0) with (100 :: 0 :: repeat 0 198).
  rewrite !np_dot_cons, np_dot_zeros. field.
Qed.

Lemma half_half_density : density half_half.
Proof.
  unfold density, half_half. split; [reflexivity | split].
  - constructor; [lra|]. constructor; [lra|].
    apply Forall_forall. intros x Hx. apply repeat_spec in Hx. lra.
  - cbn [np_sum fold_right]. fold (np_sum (repeat 0 198)).
    rewrite np_sum_repeat, db_value. field.
Qed.

Lemma mean_of_half_half : Agent.mean_of half_half = -198 / 200.
Proof.
  unfold Agent.mean_of. rewrite (density_sum _ half_half_density).
  destruct belief_space_head as [rest ->]. unfold half_half.
  rewrite !np_dot_cons, np_dot_zeros. field.
Qed.

Lemma np_mean_pair (a b : R) : np_mean [a; b] = (a + b) / 2.
Proof. unfold np_mean. cbn [np_sum fold_right length INR]. field. Qed.

Lemma np_std_pair (a b : R) : np_std [a; b] = sqrt (((a - b) / 2) ^ 2).
Proof.
  unfold np_std. rewrite np_mean_pair. cbn [map]. rewrite np_mean_pair. f_equal. field.
Qed.

Lemma np_std_pair_below (a b c : R) : 0 < c -> Rabs (a - b) < 2 * c -> np_std [a; b] < c.
Proof.
  intros Hc Hab. rewrite np_std_pair.
  replace (((a - b) / 2) ^ 2) with (((a - b) / 2)²) by (unfold Rsqr; ring).
  rewrite sqrt_Rsqr_abs. unfold Rdiv. rewrite Rabs_mult.
  rewrite (Rabs_right (/ 2)) by lra. lra.
Qed.

Lemma map_repeat {A B : Type} (f : A -> B) (x : A) (k : nat) :
  map f (repeat x k) = repeat (f x) k.
Proof. induction k as [|k IH]; [reflexivity | simpl; rewrite IH; reflexivity]. Qed.

Lemma vmul_zeros (k : nat) (v : vec) :
  vmul (repeat 0 k) v = repeat 0 (Nat.min k (length v)).
Proof.
  unfold vmul. revert v; induction k as [|k IH]; intros v; [reflexivity|].
  destruct v as [|x v]; [reflexivity|].
  cbn [repeat combine map fst snd length Nat.min]. rewrite IH, Rmult_0_l. reflexivity.
Qed.

Lemma vdiv_zeros (k : nat) (c : R) : vdiv (repeat 0 k) c = repeat 0 k.
Proof.
  unfold vdiv. rewrite map_repeat. f_equal. unfold Rdiv. apply Rmult_0_l.
Qed.

(** The agent that is torn, hearing through an open filter the agent that
    is sure, becomes sure. *)
Lemma bayes_half_half : Agent.bayes half_half (point_mass 0) 1 = point_mass 0.
Proof.
  unfold Agent.bayes.
  set (u := 1 / (INR n_beliefs * db)).
  assert (Hu : uniform = u :: u :: repeat u 198).
  { unfold uniform, np_ones, vdiv. rewrite map_repeat. reflexivity. }
  rewrite Hu. change (point_mass 0) with (100 :: 0 :: repeat 0 198). unfold half_half.
  unfold vadd, vscale. cbn [map combine fst snd].
  fold (vscale 1 (repeat 0 198)). fold (vscale (1 - 1) (repeat u 198)).
  fold (vadd (vscale 1 (repeat 0 198)) (vscale (1 - 1) (repeat u 198))).
  set (t := vadd (vscale 1 (repeat 0 198)) (vscale (1 - 1) (repeat u 198))).
  assert (Ht : length t = 198%nat).
  { unfold t. rewrite length_vadd, !length_vscale, !repeat_length. reflexivity. }
  assert (Hpost : vmul (50 :: 50 :: repeat 0 198)
                    ((1 * 100 + (1 - 1) * u) :: (1 * 0 + (1 - 1) * u) :: t)
                  = 5000 :: 0 :: repeat 0 198).
  { change (vmul (50 :: 50 :: repeat 0 198)
              ((1 * 100 + (1 - 1) * u) :: (1 * 0 + (1 - 1) * u) :: t))
      with ((50 * (1 * 100 + (1 - 1) * u)) :: (50 * (1 * 0 + (1 - 1) * u))
              :: vmul (repeat 0 198) t).
    rewrite vmul_zeros, Ht. f_equal; [ring | f_equal; ring]. }
  rewrite Hpost.
  assert (Hsum : np_sum (5000 :: 0 :: repeat 0 198) = 5000).
  { cbn [np_sum fold_right]. fold (np_sum (repeat 0 198)). rewrite np_sum_repeat. ring. }
  rewrite Hsum. rewrite Rltb_false by (pose proof float_epsilon_pos; unfold float_epsilon in *; lra).
  unfold Agent.normalise. rewrite Hsum, db_value.
  change (vdiv (5000 :: 0 :: repeat 0 198) (5000 * / 100))
    with ((5000 / (5000 * / 100)) :: (0 / (5000 * / 100)) :: vdiv (repeat 0 198) (5000 * / 100)).
  rewrite vdiv_zeros. f_equal; [field | f_equal; field].
Qed.

Lemma simulation_loop_app (a b : list Z) (l : OpinionModel.loop) :
  OpinionModel.simulation_loop (a ++ b) l
  = (l1 <- OpinionModel.simulation_loop a l ;; OpinionModel.simulation_loop b l1).
Proof.
  revert l; induction a as [|tk a IH]; intros l; [reflexivity|].
  cbn [app OpinionModel.simulation_loop].
  destruct (OpinionModel.simulation_body tk l); cbn [bind]; auto.
Qed.

(** Once the loop is left, the remaining values of its variable pass. *)
Lemma simulation_loop_broke (ts : list Z) (l : OpinionModel.loop) :
  OpinionModel.broke l = true -> OpinionModel.simulation_loop ts l = Ok l.
Proof.
  intros Hb. induction ts as [|tk ts IH]; [reflexivity|].
  cbn [OpinionModel.simulation_loop]. unfold OpinionModel.simulation_body. rewrite Hb.
  cbn [bind]. exact IH.
Qed.

Lemma gperm_advance_n (k : nat) (g : gen) : gperm (advance_n k g) = gperm g.
Proof.
  induction k as [|k IH]; [reflexivity|].
  change (advance_n (S k) g) with (advance (advance_n k g)). simpl. exact IH.
Qed.

Lemma gindex_advance_n (k : nat) (g : gen) : gindex (advance_n k g) = gindex g.
Proof.
  induction k as [|k IH]; [reflexivity|].
  change (advance_n (S k) g) with (advance (advance_n k g)). simpl. exact IH.
Qed.

Lemma late_listener_ok : gen_ok late_listener.
Proof.
  split; simpl; intros; [|apply Permutation_refl].
  destruct (Nat.eqb i 62); lra.
Qed.

Lemma steady_agent_P : steady agent_P.
Proof. split; [apply (point_mass_density 0); lia | reflexivity]. Qed.

Lemma steady_agent_H : steady agent_H.
Proof. split; [exact half_half_density | reflexivity]. Qed.

Lemma late_consensus_calm : calm late_consensus.
Proof.
  split; [exact heat_identity_inverse | split; [|reflexivity]].
  constructor; [exact steady_agent_P | constructor; [exact steady_agent_H | constructor]].
Qed.

Lemma late_listener_idle (k : nat) :
  (k <= 62)%nat -> idle_draws [agent_P; agent_H] late_listener k.
Proof.
  intros Hk a p Ha Hp. cbn [late_listener gpos gfloat] in *.
  destruct (Nat.eqb_spec p 62) as [->|_]; [lia|].
  destruct Ha as [<-|[<-|[]]]; cbn; lra.
Qed.

Lemma initial_dispersion_below :
  np_std [Agent.mean_of (point_mass 0); Agent.mean_of half_half] < 0.01.
Proof.
  rewrite mean_of_point_mass, mean_of_half_half. apply np_std_pair_below; [lra|].
  replace (-199 / 200 - -198 / 200) with (- (1 / 200)) by field.
  rewrite Rabs_Ropp, Rabs_right; lra.
Qed.

(** The tick on which the second agent listens to the first. *)
Lemma listening_tick (m : OpinionModel.t) (g : gen) :
  OpinionModel.schedule m = [agent_P; agent_H] ->
  is_inverse (mat_heat_equation 0) (OpinionModel.mat_heat_equ_inv m) ->
  OpinionModel.n_agents m = 2%Z ->
  gperm g = (fun _ n => seq 0 n) -> gindex g = (fun _ => 0%nat) ->
  gfloat g (S (gpos g)) = 3 / 4 -> gfloat g (S (S (gpos g))) = 0 ->
  exists m',
    OpinionModel.advance_agents m g = Ok (m', advance_n 4 g) /\
    OpinionModel.schedule m' = [agent_P; Agent.set_op agent_H (point_mass 0)].
Proof.
  intros Hs Hinv Hn Hperm Hidx Hf1 Hf2.
  assert (E : OpinionModel.step_agents (OpinionModel.mat_heat_equ_inv m) [0%nat; 1%nat]
                [agent_P; agent_H] (advance g)
              = Ok ([agent_P; Agent.set_op agent_H (point_mass 0)], advance_n 4 g)).
  { cbn [OpinionModel.step_agents].
    rewrite (agent_step_idle _ [agent_P; agent_H] 0 agent_P (advance g) Hinv eq_refl steady_agent_P).
    2:{ cbn [advance gpos gfloat]. rewrite Hf1. cbn. lra. }
    cbn [bind]. unfold Agent.step. cbn [nth_error]. unfold random.
    cbn [advance gpos gfloat]. rewrite Hf2.
    rewrite Rltb_true by (cbn; lra).
    change (Agent.nbs agent_H) with [0%Z].
    unfold Agent.update_opinion_in_interaction.
    change (Agent.nbs agent_H) with [0%Z]. unfold choice.
    cbn [advance gpos gindex length]. rewrite Hidx.
    change (nth_error [0%Z] (0 mod 1)) with (Some 0%Z). cbn [bind].
    change (py_index [agent_P; agent_H] 0) with (Ok agent_P). cbn [bind].
    change (pyid_eqb (Agent.social_identity agent_P) (Agent.social_identity agent_H)) with true.
    cbv beta iota. change (Agent.alpha_in agent_H) with 1.
    change (Agent.op agent_H) with half_half. change (Agent.op agent_P) with (point_mass 0).
    rewrite bayes_half_half. reflexivity. }
  assert (E' : exists m', OpinionModel.advance_agents m g = Ok (m', advance_n 4 g) /\
                OpinionModel.schedule m' = [agent_P; Agent.set_op agent_H (point_mass 0)]).
  { unfold OpinionModel.advance_agents, OpinionModel.update_order, permutation.
    rewrite Hs, Hn, Hperm. cbn [length]. change (Z.of_nat 2 <? 2)%Z with false.
    change (firstn (Z.to_nat 2) (seq 0 2)) with [0%nat; 1%nat]. cbn [bind].
    rewrite E. cbn [bind]. eexists; split; reflexivity. }
  exact E'.
Qed.


Lemma np_std_equal (a : R) : np_std [a; a] < 0.01.
Proof.
  apply np_std_pair_below; [lra|]. replace (a - a) with 0 by ring. rewrite Rabs_R0. lra.
Qed.

(** The run of [late_consensus]: twenty ticks on which nobody communicates,
    a tick on which the second agent listens, and the loop is left. *)
Lemma late_consensus_run :
  exists l',
    OpinionModel.simulation_loop (range 30)
      (OpinionModel.mkLoop late_consensus [] false late_listener []) = Ok l' /\
    OpinionModel.time_cons l' = range 21 /\
    OpinionModel.broke l' = true /\
    OpinionModel.consensus_time (OpinionModel.model l') = Some 0%Z /\
    OpinionModel.consensus_mean (OpinionModel.model l') = Some (-199 / 200).
Proof.
  set (l0 := OpinionModel.mkLoop late_consensus [] false late_listener []).
  destruct (simulation_loop_idle (range 20) l0) as (l1 & E1 & H1).
  - reflexivity.
  - exact late_consensus_calm.
  - exact late_listener_ok.
  - apply late_listener_idle. rewrite length_range. cbn. lia.
  - intros c [<-|[]]. rewrite length_range. reflexivity.
  - exact initial_dispersion_below.
  - right. rewrite length_range. cbn. lia.
  - cbv zeta in H1.
    destruct H1 as (Hs1 & Hc1 & Hrng1 & Htc1 & Hb1 & Ht1 & Htk1 & Hthr1 & Hrep1).
    change (OpinionModel.schedule (OpinionModel.model l0)) with [agent_P; agent_H] in *.
    rewrite length_range in *. change (S (length [agent_P; agent_H]) * Z.to_nat 20)%nat with 60%nat in *.
    change (OpinionModel.rng l0) with late_listener in *.
    change (OpinionModel.time_cons l0) with (@nil Z) in *.
    destruct Hc1 as (Hinv1 & _ & Hn1). rewrite Hs1 in Hn1.
    destruct (listening_tick (OpinionModel.model l1) (OpinionModel.rng l1) Hs1 Hinv1 Hn1)
      as (m2 & E2 & Hs2).
    + rewrite Hrng1, gperm_advance_n. reflexivity.
    + rewrite Hrng1, gindex_advance_n. reflexivity.
    + rewrite Hrng1, gfloat_advance_n, gpos_advance_n. reflexivity.
    + rewrite Hrng1, gfloat_advance_n, gpos_advance_n. reflexivity.
    + destruct (advance_agents_fields _ _ _ _ E2)
        as (_ & _ & Htk2 & Htime2 & Hrep2 & Hthr2 & _).
      assert (Hmo2 : OpinionModel.mean_ops m2
                     = [Agent.mean_of (point_mass 0); Agent.mean_of (point_mass 0)])
        by (unfold OpinionModel.mean_ops; rewrite Hs2; reflexivity).
      assert (Ebody : exists l2, OpinionModel.simulation_body 20 l1 = Ok l2 /\
                OpinionModel.time_cons l2 = range 21 /\ OpinionModel.broke l2 = true /\
                OpinionModel.consensus_time (OpinionModel.model l2) = Some 0%Z /\
                OpinionModel.consensus_mean (OpinionModel.model l2) = Some (-199 / 200)).
      { unfold OpinionModel.simulation_body. rewrite Hb1.
        rewrite (step_off_checkpoint _ _ _ _ E2).
        2:{ apply not_checkpoint. intros c Hin. rewrite Htk2, Htk1 in Hin.
            destruct Hin as [<-|[]]. rewrite Htime2. cbn [OpinionModel.tick time_value].
            rewrite Ht1. reflexivity. }
        cbn [bind]. rewrite (below_threshold_after _ _ _ _ E2). cbn [bind].
        rewrite Hmo2, Hthr2, Hthr1.
        change (OpinionModel.sigma_threshold_consensus (OpinionModel.model l0)) with 0.01.
        rewrite (Rltb_true _ _ (np_std_equal _)). rewrite Htc1.
        change (20 <? Z.of_nat (length ([] ++ range 20 ++ [20%Z])))%Z with true.
        eexists; split; [reflexivity|].
        cbn [OpinionModel.model OpinionModel.time_cons OpinionModel.broke
             OpinionModel.with_consensus OpinionModel.consensus_time
             OpinionModel.consensus_mean OpinionModel.agent_reporter].
        rewrite Hrep2, Hrep1.
        split; [reflexivity | split; [reflexivity | split; [reflexivity|]]].
        rewrite np_mean_pair, mean_of_point_mass. f_equal. field. }
      destruct Ebody as (l2 & El2 & Htc2 & Hb2 & Hct2 & Hcm2).
      exists l2. split; [|auto].
      change (range 30) with (range 20 ++ [20%Z] ++ range2 21 30).
      rewrite simulation_loop_app. fold l0. rewrite E1. cbn [bind].
      rewrite simulation_loop_app. cbn [OpinionModel.simulation_loop]. rewrite El2.
      cbn [bind]. apply simulation_loop_broke; assumption.
Qed.

End Scenario.

(** C9, the claim as it stands fails.  Two agents, no agent-level
    reporting, checkpoint at 30.  The dispersion is below the threshold from
    the first tick on, so the consensus time is tick 0, at the end of which
    the mean of the mean opinions is -0.9925.  On the twenty-first tick the
    second agent listens to the first and the mean moves to -0.995: this is
    the recorded consensus mean. *)
Lemma consensus_mean_differs_from_mean_at_consensus_time :
  exists m' g' m1 g1,
    OpinionModel.simulation late_consensus late_listener = Ok (m', g') /\
    OpinionModel.consensus_time m' = Some 0%Z /\
    OpinionModel.consensus_mean m' = Some (-199 / 200)%R /\
    OpinionModel.step late_consensus late_listener = Ok (m1, g1) /\
    (np_std (OpinionModel.mean_ops m1) < OpinionModel.sigma_threshold_consensus m1)%R /\
    np_mean (OpinionModel.mean_ops m1) = (-397 / 400)%R.
Proof.
  destruct late_consensus_run as (l' & E & _ & _ & Hct & Hcm).
  destruct (advance_agents_idle late_consensus late_listener late_consensus_calm
              late_listener_ok) as (m1 & E1 & Hs1 & _).
  { apply late_listener_idle. cbn. lia. }
  destruct (advance_agents_fields _ _ _ _ E1) as (_ & _ & Htk & Htime & _ & Hthr & _).
  exists (OpinionModel.model l'), (OpinionModel.rng l'), m1,
    (advance_n (S (length (OpinionModel.schedule late_consensus))) late_listener).
  split.
  { unfold OpinionModel.simulation.
    change (py_index (OpinionModel.track_times late_consensus) (-1)) with (@Ok Z 30%Z).
    cbn [bind]. rewrite E. reflexivity. }
  split; [exact Hct | split; [exact Hcm|]].
  split.
  { apply step_off_checkpoint; [exact E1|]. apply not_checkpoint.
    intros c Hin. rewrite Htk in Hin. destruct Hin as [<-|[]]. rewrite Htime. reflexivity. }
  assert (Hmo : OpinionModel.mean_ops m1
                = [Agent.mean_of (point_mass 0); Agent.mean_of half_half])
    by (unfold OpinionModel.mean_ops; rewrite Hs1; reflexivity).
  rewrite Hmo, Hthr. split; [exact initial_dispersion_below|].
  rewrite np_mean_pair, mean_of_point_mass, mean_of_half_half. field.
Qed.

(** * The constructor on the small configuration *)

Local Open Scope R_scope.

Lemma sample_network :
  create_withinAndBetweenGroup_network sample_py_seed sample_nx_graph sample_layout 0
    2 0 2 0 0 (mkWorld (constant_gen 0 0) (constant_gen (1 / 4) 0))
  = Ok (mkNetwork sample_graph [(1%Z, IdInt 1); (0%Z, IdInt 0)] (fun _ => (0, 0)),
        mkWorld (constant_gen 0 0) (advance_n 2 (constant_gen (1 / 4) 0))).
Proof.
  assert (Hg : gen_ok (constant_gen (1 / 4) 0)) by (apply constant_gen_ok; lra).
  unfold create_withinAndBetweenGroup_network.
  change (negb (2 mod 2 =? 0)%Z) with false. cbv iota.
  change ((0 mod 2 =? 0)%Z && (2 mod 2 =? 0)%Z) with true. cbv iota.
  change (sample_nx_graph (2 / 2) 0 0 0) with (Ok [(0%Z, @nil Z)]).
  change (sample_nx_graph (2 / 2) 0 0 (0 + 100)) with (Ok [(0%Z, @nil Z)]).
  cbn [bind].
  change (Graph.nodes [(0%Z, [])]) with [0%Z].
  change (Graph.nodes (Graph.relabel_shift [(0%Z, [])] (Z.of_nat (Datatypes.length [0%Z]))))
    with [1%Z].
  change (Graph.add_nodes_from _ _) with [(0%Z, @nil Z); (1%Z, @nil Z)].
  unfold connect_groups.
  change (range (Z.of_nat (Datatypes.length [0%Z]))) with [0%Z].
  change (which_betweengroup_nodes_to_connect 2) with [0%Z; 1%Z].
  cbn [np].
  rewrite for_each_cons, for_each_cons, connect_no_rewiring by exact Hg. cbn [bind].
  rewrite for_each_cons, connect_no_rewiring by (apply gen_ok_advance; exact Hg). cbn [bind].
  cbn [for_each bind].
  reflexivity.
Qed.

Lemma Reqb_refl (x : R) : OpinionModel.Reqb x x = true.
Proof. unfold OpinionModel.Reqb. destruct (Req_dec_T x x); [reflexivity | contradiction]. Qed.

Lemma create_agent_returns (p : OpinionModel.params) (G : Graph.t) (a : attrs)
    (pos : layout) (i : Z) (v : pyid) (s : list Agent.t) (g : gen) :
  Graph.has_node G i = true -> get_attr a i = Some v ->
  exists ag, OpinionModel.create_agent p G a pos i (s, g) = Ok (s ++ [ag], advance_n 2 g).
Proof.
  intros Hn Ha. unfold OpinionModel.create_agent, Agent.init, random.
  rewrite Hn, Ha. cbn [bind]. eexists. reflexivity.
Qed.

Lemma sample_construct :
  exists m w',
    OpinionModel.construct sample_np_seed sample_py_seed sample_nx_graph sample_layout 0
      sample_params false [30%Z] sample_world = Ok (m, w') /\
    length (OpinionModel.schedule m) = 2%nat.
Proof.
  destruct (linalg_inv_returns _ _ heat_identity_inverse) as (M & HM).
  unfold OpinionModel.construct.
  change (OpinionModel.p_kappa sample_params) with 0. rewrite HM. cbn [bind].
  change (IZR (OpinionModel.p_k_out sample_params + OpinionModel.p_k_in sample_params))
    with 2.
  change (OpinionModel.p_k sample_params) with 2. rewrite Reqb_refl.
  cbn [OpinionModel.check bind].
  change (Z.of_nat (length (OpinionModel.p_social_id_groups sample_params)) =? 0)%Z with false.
  cbv iota. cbn [bind].
  change (OpinionModel.p_n_agents sample_params mod
            Z.of_nat (length (OpinionModel.p_social_id_groups sample_params)) =? 0)%Z with true.
  cbn [OpinionModel.check bind].
  change (create_withinAndBetweenGroup_network _ _ _ _ _ _ _ _ _ _)
    with (create_withinAndBetweenGroup_network sample_py_seed sample_nx_graph sample_layout 0
            2 0 2 0 0 (mkWorld (constant_gen 0 0) (constant_gen (1 / 4) 0))).
  rewrite sample_network. cbn [bind graph social_identity np].
  unfold sample_layout. cbv beta iota.
  change (range (Z.of_nat (length (Graph.nodes sample_graph)))) with [0%Z; 1%Z].
  set (a := set_node_attributes sample_graph _ _).
  set (g0 := advance_n 2 (constant_gen (1 / 4) 0)).
  destruct (create_agent_returns sample_params sample_graph a (fun _ => (0, 0)) 0
              (IdList [0%Z]) [] g0 eq_refl eq_refl) as (ag0 & E0).
  destruct (create_agent_returns sample_params sample_graph a (fun _ => (0, 0)) 1
              (IdList [1%Z]) ([] ++ [ag0]) (advance_n 2 g0) eq_refl eq_refl) as (ag1 & E1).
  rewrite for_each_cons, E0. cbn [bind]. rewrite for_each_cons, E1. cbn [bind for_each].
  eexists; eexists; split; reflexivity.
Qed.

Lemma late_consensus_valid : valid_model late_consensus.
Proof.
  apply sample_model_valid.
  constructor; [apply sample_agent_ok; [lia | lra]|].
  constructor; [|constructor].
  unfold agent_ok, agent_H, sample_agent. cbn [Agent.op Agent.alpha_in Agent.alpha_out].
  split; [exact half_half_density | split; lra].
Qed.

Lemma sample_params_valid : valid_params sample_params.
Proof.
  unfold valid_params, sample_params.
  cbn [OpinionModel.p_alpha_in OpinionModel.p_alpha_out OpinionModel.p_sig_op_0
       OpinionModel.p_kappa].
  lra.
Qed.

(** The run of [late_consensus]: 21 ticks qualify, the first is tick 0. *)
Lemma consensus_time_is_first_qualifying_tick_witness :
  exists l',
    OpinionModel.simulation_loop (range 30)
      (OpinionModel.mkLoop late_consensus [] false late_listener []) = Ok l' /\
    (21 <= length (filter (qualifies 0.01) (ran (range 30) l')))%nat /\
    OpinionModel.time_cons l' = map fst (filter (qualifies 0.01) (ran (range 30) l')) /\
    exists k tau e,
      nth_error (ran (range 30) l') k = Some (tau, e) /\
      qualifies 0.01 (tau, e) = true /\
      (forall j p, (j < k)%nat -> nth_error (ran (range 30) l') j = Some p ->
                   qualifies 0.01 p = false) /\
      OpinionModel.consensus_time (OpinionModel.model l') = Some tau.
Proof.
  destruct late_consensus_run as (l' & E & Htc & _).
  pose proof (consensus_time_is_first_qualifying_tick (range 30) late_consensus
                late_listener l' eq_refl eq_refl E) as H.
  cbv zeta in H.
  change (OpinionModel.sigma_threshold_consensus late_consensus) with 0.01 in H.
  destruct H as (H1 & H2 & _).
  assert (Hlen : (21 <= length (filter (qualifies 0.01) (ran (range 30) l')))%nat).
  { rewrite <- (length_map fst), <- H1, Htc, length_range. cbn. lia. }
  exists l'. split; [exact E | split; [exact Hlen | split; [exact H1 | exact (H2 Hlen)]]].
Defined.

(** The same run: the recorded mean is the mean at the end of the last tick
    that ran, which is the 21st tick below the threshold. *)
Lemma consensus_mean_is_mean_at_detection_witness :
  exists l',
    OpinionModel.simulation_loop (range 30)
      (OpinionModel.mkLoop late_consensus [] false late_listener []) = Ok l' /\
    length (filter (qualifies 0.01) (ran (range 30) l')) = 21%nat /\
    qualifies 0.01 (last (ran (range 30) l') (0%Z, (0, 0)%R)) = true /\
    OpinionModel.consensus_mean (OpinionModel.model l')
    = Some (snd (last (OpinionModel.history l') (0, 0)%R)).
Proof.
  destruct late_consensus_run as (l' & E & Htc & _).
  pose proof (consensus_mean_is_mean_at_detection (range 30) late_consensus
                late_listener l' eq_refl eq_refl E) as H.
  cbv zeta in H.
  change (OpinionModel.sigma_threshold_consensus late_consensus) with 0.01 in H.
  destruct H as (H1 & H2 & _).
  pose proof (simulation_loop_inv _ _ (range 30) [] _ _
                (loop_inv_start late_consensus late_listener eq_refl eq_refl) E) as Hinv.
  destruct Hinv as (_ & _ & _ & _ & Htc' & _).
  cbn [app] in Htc'.
  change (OpinionModel.sigma_threshold_consensus late_consensus) with 0.01 in Htc'.
  fold (ran (range 30) l') in Htc'.
  assert (Hlen : (21 <= length (filter (qualifies 0.01) (ran (range 30) l')))%nat).
  { rewrite <- (length_map fst), <- Htc', Htc, length_range. cbn. lia. }
  destruct (H2 eq_refl Hlen) as (H21 & Hlast).
  exists l'. split; [exact E | split; [exact H21 | split; [exact Hlast | exact (H1 Hlen)]]].
Defined.

(** The constructor on the small configuration, and a step of an agent, a
    tick and the loop of [simulation] on the run of [late_consensus]. *)
Lemma densities_integrate_to_one_witness :
  (exists m w',
     OpinionModel.construct sample_np_seed sample_py_seed sample_nx_graph sample_layout 0
       sample_params false [30%Z] sample_world = Ok (m, w') /\
     length (OpinionModel.schedule m) = 2%nat /\
     forall a, In a (OpinionModel.schedule m) -> np_sum (Agent.op a) * db = 1) /\
  (exists s' g',
     Agent.step (OpinionModel.mat_heat_equ_inv late_consensus)
       (OpinionModel.schedule late_consensus) 0 late_listener = Ok (s', g') /\
     Forall agent_ok s') /\
  (exists m' g',
     OpinionModel.step late_consensus late_listener = Ok (m', g') /\ valid_model m') /\
  (exists l',
     OpinionModel.simulation_loop (range 30)
       (OpinionModel.mkLoop late_consensus [] false late_listener []) = Ok l' /\
     OpinionModel.consensus_time (OpinionModel.model l') = Some 0%Z /\
     forall a, In a (OpinionModel.schedule (OpinionModel.model l')) ->
               np_sum (Agent.op a) * db = 1).
Proof.
  pose proof (densities_integrate_to_one sample_np_seed sample_py_seed sample_nx_graph
                sample_layout 0) as (Hsum & Hconstruct & Hagent & _ & Hstep & Hloop).
  split; [|split; [|split]].
  - destruct sample_construct as (m & w' & E & Hlen).
    exists m, w'. split; [exact E | split; [exact Hlen|]].
    intros a Ha. apply (Hsum m a); [|exact Ha].
    apply (Hconstruct _ _ _ _ _ _ sample_params_valid E).
  - exists (OpinionModel.schedule late_consensus), (advance late_listener).
    assert (E : Agent.step (OpinionModel.mat_heat_equ_inv late_consensus)
                  (OpinionModel.schedule late_consensus) 0 late_listener
                = Ok (OpinionModel.schedule late_consensus, advance late_listener)).
    { apply (agent_step_idle _ _ 0 agent_P);
        [exact heat_identity_inverse | reflexivity | exact steady_agent_P |].
      change (Agent.communication_frequency agent_P) with (1 / 2).
      change (gfloat late_listener (gpos late_listener)) with (3 / 4). lra. }
    split; [exact E|]. apply (Hagent _ _ _ _ _ late_consensus_valid E).
  - destruct (advance_agents_idle late_consensus late_listener late_consensus_calm
                late_listener_ok) as (m1 & E1 & _).
    { apply late_listener_idle. cbn. lia. }
    destruct (advance_agents_fields _ _ _ _ E1) as (_ & _ & Htk & Htime & _).
    assert (E : OpinionModel.step late_consensus late_listener
                = Ok (m1, advance_n (S (length (OpinionModel.schedule late_consensus)))
                            late_listener)).
    { apply step_off_checkpoint; [exact E1|]. apply not_checkpoint.
      intros c Hin. rewrite Htk in Hin. destruct Hin as [<-|[]]. rewrite Htime. reflexivity. }
    exists m1. eexists. split; [exact E|].
    apply (Hstep _ _ _ _ late_consensus_valid E).
  - destruct late_consensus_run as (l' & E & _ & _ & Hct & _).
    exists l'. split; [exact E | split; [exact Hct|]].
    intros a Ha. apply (Hsum (OpinionModel.model l') a); [|exact Ha].
    apply (Hloop (range 30)
             (OpinionModel.mkLoop late_consensus [] false late_listener []) l'
             late_consensus_valid E).
Defined.

(* ------------------------------------------------------------------ *)
(** * Further properties of the agents *)

Local Open Scope R_scope.

(** * The summary of an opinion: mean and uncertainty *)

Lemma np_dot_between (lo hi : R) (o : vec) :
  forall v : vec,
    length o = length v -> Forall (fun x => 0 <= x) o ->
    Forall (fun b => lo <= b <= hi) v ->
    lo * np_sum o <= np_dot o v <= hi * np_sum o.
Proof.
  unfold np_dot, vmul.
  induction o as [|x o IH]; intros [|b v] Hl Ho Hv; try discriminate Hl.
  - cbn [combine map np_sum fold_right]. lra.
  - inversion Ho as [|? ? Hx Ho']; subst. inversion Hv as [|? ? Hb Hv']; subst.
    injection Hl as Hl. specialize (IH v Hl Ho' Hv').
    cbn [combine map np_sum fold_right fst snd].
    fold (np_sum o). fold (np_sum (map (fun p => fst p * snd p) (combine o v))).
    nra.
Qed.

Lemma belief_space_between :
  Forall (fun b => -199 / 200 <= b <= 199 / 200) belief_space.
Proof.
  rewrite belief_space_formula. apply Forall_map, Forall_forall. intros i Hi.
  apply in_seq in Hi. unfold n_beliefs in Hi.
  assert (H0 : 0 <= INR i) by apply pos_INR.
  assert (H1 : INR i <= 199).
  { replace 199 with (INR 199) by (simpl; lra). apply le_INR. lia. }
  rewrite S_INR. lra.
Qed.

Lemma belief_squares_between :
  Forall (fun b => 0 <= b <= (199 / 200) ^ 2) (map (fun b => b ^ 2) belief_space).
Proof.
  apply Forall_map. eapply Forall_impl; [|exact belief_space_between].
  intros b Hb. cbv beta in *. nra.
Qed.

Lemma mean_of_between (o : vec) :
  density o -> -199 / 200 <= Agent.mean_of o <= 199 / 200.
Proof.
  intros Ho. pose proof (density_sum o Ho) as Hs. destruct Ho as (Hl & Hn & _).
  pose proof (np_dot_between (-199 / 200) (199 / 200) o belief_space) as H.
  rewrite Hl, length_belief_space in H. specialize (H eq_refl Hn belief_space_between).
  unfold Agent.mean_of. rewrite Hs in *. lra.
Qed.

Lemma sig_of_between (o : vec) : density o -> 0 < Agent.sig_of o <= 199 / 200.
Proof.
  intros Ho. pose proof (density_sum o Ho) as Hs. pose proof (mean_of_between o Ho) as Hm.
  destruct Ho as (Hl & Hn & _).
  pose proof (np_dot_between 0 ((199 / 200) ^ 2) o (map (fun b => b ^ 2) belief_space)) as H.
  rewrite length_map, Hl, length_belief_space in H.
  specialize (H eq_refl Hn belief_squares_between).
  unfold Agent.sig_of. cbv zeta. rewrite Hs in *.
  set (var := np_dot o (map (fun b => b ^ 2) belief_space) / 100 - Agent.mean_of o ^ 2).
  assert (Hvar : var <= (199 / 200) ^ 2) by (unfold var; nra).
  unfold Rltb. destruct (Rlt_dec 0 var) as [Hpos|Hneg].
  - split; [apply sqrt_lt_R0; assumption|].
    replace (199 / 200) with (sqrt ((199 / 200) ^ 2)).
    + apply sqrt_le_1; lra.
    + replace ((199 / 200) ^ 2) with ((199 / 200) * (199 / 200)) by ring.
      apply sqrt_square. lra.
  - split; [exact float_epsilon_pos|]. unfold float_epsilon. lra.
Qed.

(** X1.  The mean opinion of a belief density lies in the opinion space,
    between the first statement -0.995 and the last 0.995, and its
    uncertainty is positive and at most 0.995.  These are the values that
    [Agent.__init__] and the two update methods store in [mean_op] and
    [sig] after every assignment to [op]. *)
Theorem mean_and_uncertainty_within_bounds (o : vec) :
  density o ->
  -199 / 200 <= Agent.mean_of o <= 199 / 200 /\ 0 < Agent.sig_of o <= 199 / 200.
Proof.
  intros Ho. split; [apply mean_of_between | apply sig_of_between]; exact Ho.
Qed.

(** The density torn between the first two statements. *)
Lemma mean_and_uncertainty_within_bounds_witness :
  density half_half /\
  -199 / 200 <= Agent.mean_of half_half <= 199 / 200 /\
  0 < Agent.sig_of half_half <= 199 / 200.
Proof.
  split; [exact half_half_density|].
  apply (mean_and_uncertainty_within_bounds half_half half_half_density).
Defined.

(** * What a step of an agent touches *)

Lemma nth_error_put_other (s : list Agent.t) (i j : nat) (a : Agent.t) :
  (i < length s)%nat -> j <> i -> nth_error (Agent.put s i a) j = nth_error s j.
Proof.
  intros Hi Hj. unfold Agent.put.
  destruct (Nat.lt_ge_cases j i) as [Hlt|Hge].
  - rewrite nth_error_app1 by (rewrite length_firstn; lia).
    rewrite nth_error_firstn. destruct (Nat.ltb_spec j i); [reflexivity | lia].
  - rewrite nth_error_app2 by (rewrite length_firstn; lia).
    rewrite length_firstn. replace (Nat.min i (length s)) with i by lia.
    destruct (j - i)%nat as [|k] eqn:Ek; [lia|].
    cbn [nth_error]. rewrite nth_error_skipn. f_equal. lia.
Qed.

(** X2.  A step of the agent at position [i] returns a schedule of the same
    length in which every other agent is as before; the agent itself is as
    before or differs in its opinion only (with the mean and the uncertainty
    of that opinion): its identity, neighbours and parameters stay. *)
Theorem agent_step_changes_own_opinion_only (Minv : matrix) (s s' : list Agent.t)
    (i : nat) (g g' : gen) :
  Agent.step Minv s i g = Ok (s', g') ->
  length s' = length s /\
  (forall j, j <> i -> nth_error s' j = nth_error s j) /\
  exists self self',
    nth_error s i = Some self /\ nth_error s' i = Some self' /\
    (self' = self \/ exists o, self' = Agent.set_op self o).
Proof.
  unfold Agent.step. destruct (nth_error s i) as [self|] eqn:Ei; [|discriminate].
  assert (Hi : (i < length s)%nat) by (apply nth_error_Some; congruence).
  unfold random. destruct (Rltb _ _).
  - destruct (Agent.nbs self) as [|nb nbs] eqn:En.
    + intros H. apply Ok_inj in H. injection H as <- <-.
      split; [reflexivity | split; [reflexivity|]].
      exists self, self. auto.
    + unfold Agent.update_opinion_in_interaction. rewrite En. intros H.
      inv_bind H. destruct a as [speaker_id g1]. inv_bind H.
      apply Ok_inj in H. injection H as <- <-.
      split; [apply length_put; assumption | split].
      * intros j Hj. apply nth_error_put_other; assumption.
      * eexists self, _. split; [reflexivity | split; [apply nth_error_put; assumption|]].
        right. eexists. reflexivity.
  - intros H. apply Ok_inj in H. injection H as <- <-.
    unfold Agent.update_opinion_in_non_interaction.
    split; [apply length_put; assumption | split].
    + intros j Hj. apply nth_error_put_other; assumption.
    + eexists self, _. split; [reflexivity | split; [apply nth_error_put; assumption|]].
      right. eexists. reflexivity.
Qed.

Lemma first_step_of_late_consensus :
  Agent.step (mat_heat_equation 0) [agent_P; agent_H] 0 late_listener
  = Ok ([agent_P; agent_H], advance late_listener).
Proof.
  apply (agent_step_idle _ _ 0 agent_P);
    [exact heat_identity_inverse | reflexivity | exact steady_agent_P |].
  change (Agent.communication_frequency agent_P) with (1 / 2).
  change (gfloat late_listener (gpos late_listener)) with (3 / 4). lra.
Qed.

(** The first agent of [late_consensus] in its first tick. *)
Lemma agent_step_changes_own_opinion_only_witness :
  exists s' g',
    Agent.step (mat_heat_equation 0) [agent_P; agent_H] 0 late_listener = Ok (s', g') /\
    length s' = 2%nat /\
    (forall j, j <> 0%nat -> nth_error s' j = nth_error [agent_P; agent_H] j) /\
    exists self self',
      nth_error [agent_P; agent_H] 0 = Some self /\ nth_error s' 0 = Some self' /\
      (self' = self \/ exists o, self' = Agent.set_op self o).
Proof.
  exists [agent_P; agent_H], (advance late_listener).
  split; [exact first_step_of_late_consensus|].
  exact (agent_step_changes_own_opinion_only _ _ _ _ _ _ first_step_of_late_consensus).
Defined.

(** * The number of draws *)

Lemma agent_step_draws (Minv : matrix) (s s' : list Agent.t) (i : nat) (g g' : gen) :
  Agent.step Minv s i g = Ok (s', g') ->
  g' = advance_n 1 g \/ g' = advance_n 2 g.
Proof.
  unfold Agent.step. destruct (nth_error s i) as [self|]; [|discriminate].
  unfold random. destruct (Rltb _ _).
  - destruct (Agent.nbs self) as [|nb nbs] eqn:En.
    + intros H. apply Ok_inj in H. injection H as _ <-. left; reflexivity.
    + unfold Agent.update_opinion_in_interaction. rewrite En. intros H.
      inv_bind H. destruct a as [speaker_id g1]. inv_bind H.
      apply Ok_inj in H. injection H as _ <-.
      apply choice_In in E. destruct E as [_ ->]. right; reflexivity.
  - intros H. apply Ok_inj in H. injection H as _ <-. left; reflexivity.
Qed.

Lemma step_agents_draws (Minv : matrix) (order : list nat) :
  forall (s s' : list Agent.t) (g g' : gen),
    OpinionModel.step_agents Minv order s g = Ok (s', g') ->
    exists k, (length order <= k <= 2 * length order)%nat /\ g' = advance_n k g.
Proof.
  induction order as [|i order IH]; intros s s' g g' H; cbn [OpinionModel.step_agents] in H.
  - apply Ok_inj in H. injection H as _ <-. exists 0%nat. split; [cbn; lia | reflexivity].
  - inv_bind H. destruct a as [s1 g1].
    destruct (IH _ _ _ _ H) as (k & Hk & ->).
    destruct (agent_step_draws _ _ _ _ _ _ E) as [-> | ->].
    + exists (k + 1)%nat. split; [cbn [length]; lia | apply advance_n_add].
    + exists (k + 2)%nat. split; [cbn [length]; lia | apply advance_n_add].
Qed.

(** X3.  A tick of a model in which every agent is scheduled consumes one
    draw for the update order and then one or two draws for every agent (two
    when the agent listens to a neighbour): between [n + 1] and [2 n + 1]
    positions of numpy's generator for [n] agents, and nothing else of the
    generator changes. *)
Theorem tick_consumes_bounded_draws (m m' : OpinionModel.t) (g g' : gen) :
  gen_ok g ->
  OpinionModel.n_agents m = Z.of_nat (length (OpinionModel.schedule m)) ->
  OpinionModel.advance_agents m g = Ok (m', g') ->
  exists k,
    (length (OpinionModel.schedule m) + 1 <= k <= 2 * length (OpinionModel.schedule m) + 1)%nat /\
    g' = advance_n k g.
Proof.
  intros Hg Hn H. destruct (update_order_all m g Hg Hn) as (order & Eo & Hlen & _).
  unfold OpinionModel.advance_agents in H. rewrite Eo in H. cbn [bind] in H.
  inv_bind H. destruct a as [s g2]. apply Ok_inj in H. injection H as _ <-.
  destruct (step_agents_draws _ _ _ _ _ _ E) as (k & Hk & ->).
  exists (k + 1)%nat. split; [lia|]. apply (advance_n_add k 1 g).
Qed.

(** The first tick of [late_consensus]. *)
Lemma tick_consumes_bounded_draws_witness :
  exists m' g' k,
    OpinionModel.advance_agents late_consensus late_listener = Ok (m', g') /\
    (2 + 1 <= k <= 2 * 2 + 1)%nat /\ g' = advance_n k late_listener.
Proof.
  destruct (advance_agents_idle late_consensus late_listener late_consensus_calm
              late_listener_ok) as (m1 & E1 & _).
  { apply late_listener_idle. cbn. lia. }
  destruct (tick_consumes_bounded_draws late_consensus m1 late_listener _
              late_listener_ok eq_refl E1) as (k & Hk & Hg).
  exists m1, (advance_n (S (length (OpinionModel.schedule late_consensus))) late_listener), k.
  split; [exact E1 | split; [exact Hk | exact Hg]].
Defined.

(** * The update by a message *)

Lemma np_sum_vscale (c : R) (v : vec) : np_sum (vscale c v) = c * np_sum v.
Proof.
  unfold vscale. induction v as [|x v IH]; cbn [map np_sum fold_right]; [lra|].
  fold (np_sum (map (fun x => c * x) v)). fold (np_sum v). rewrite IH. lra.
Qed.

Lemma uniform_value : uniform = repeat (1 / 2) n_beliefs.
Proof.
  unfold uniform, np_ones, vdiv. rewrite map_repeat. f_equal.
  rewrite INR_n_beliefs, db_value. field.
Qed.

(** The sum of the posterior before it is normalised. *)
Lemma posterior_sum (a b c : R) (o : vec) :
  forall (m : vec) (n : nat),
    length o = n -> length m = n ->
    np_sum (vmul o (vadd (vscale a m) (vscale b (repeat c n))))
    = a * np_dot o m + b * c * np_sum o.
Proof.
  unfold np_dot, vmul, vadd, vscale.
  induction o as [|x o IH]; intros [|y m] [|n] Ho Hm; try discriminate.
  - cbn [combine map np_sum fold_right]. lra.
  - injection Ho as Ho. injection Hm as Hm. specialize (IH m n Ho Hm).
    cbn [repeat combine map np_sum fold_right fst snd].
    fold (np_sum o). fold (np_sum (map (fun p => fst p * snd p) (combine o m))).
    match goal with |- _ + ?t = _ => change t with
      (np_sum (map (fun p => fst p * snd p)
         (combine o (map (fun p => fst p + snd p)
            (combine (map (fun x => a * x) m) (map (fun x => b * x) (repeat c n))))))) end.
    rewrite IH. lra.
Qed.

Lemma np_dot_nonneg (o m : vec) :
  Forall (fun x => 0 <= x) o -> Forall (fun x => 0 <= x) m -> 0 <= np_dot o m.
Proof. intros Ho Hm. apply np_sum_nonneg, vmul_nonneg; assumption. Qed.

(** X4.  Before it is normalised, the posterior of a listener with density
    [o] who hears [message] through a filter of transparency [alpha] sums to
    [alpha * (o . message) + 50 * (1 - alpha)].  So the message is discarded
    as incompatible only when [50 * (1 - alpha)] is below the float
    tolerance: for every [alpha <= 1 - 2^-52 / 50] the new opinion is the
    normalised product of the old opinion and the perceived message. *)
Theorem message_discarded_only_near_full_transparency (o message : vec) (alpha : R) :
  density o -> length message = n_beliefs -> Forall (fun x => 0 <= x) message ->
  0 <= alpha -> float_epsilon <= 50 * (1 - alpha) ->
  let perceived := vadd (vscale alpha message) (vscale (1 - alpha) uniform) in
  np_sum (vmul o perceived) = alpha * np_dot o message + 50 * (1 - alpha) /\
  Agent.bayes o message alpha = Agent.normalise (vmul o perceived).
Proof.
  intros Ho Hl Hm Ha He perceived.
  pose proof (density_sum o Ho) as Hs. destruct Ho as (Hlo & Hno & _).
  assert (Hsum : np_sum (vmul o perceived) = alpha * np_dot o message + 50 * (1 - alpha)).
  { unfold perceived. rewrite uniform_value, (posterior_sum _ _ _ o message n_beliefs Hlo Hl).
    rewrite Hs. field. }
  split; [exact Hsum|].
  unfold Agent.bayes. fold perceived. rewrite Rltb_false; [reflexivity|].
  rewrite Hsum. pose proof (np_dot_nonneg o message Hno Hm). nra.
Qed.

Lemma point_mass_nonneg (k : nat) : Forall (fun x => 0 <= x) (point_mass k).
Proof.
  unfold point_mass. apply Forall_app; split; [|constructor; [lra|]];
    apply Forall_forall; intros x Hx; apply repeat_spec in Hx; lra.
Qed.

(** Half-open filter, opinions on different statements. *)
Lemma message_discarded_only_near_full_transparency_witness :
  np_sum (vmul (point_mass 0)
            (vadd (vscale (1 / 2) (point_mass 1)) (vscale (1 - 1 / 2) uniform)))
  = 1 / 2 * np_dot (point_mass 0) (point_mass 1) + 50 * (1 - 1 / 2) /\
  Agent.bayes (point_mass 0) (point_mass 1) (1 / 2)
  = Agent.normalise (vmul (point_mass 0)
      (vadd (vscale (1 / 2) (point_mass 1)) (vscale (1 - 1 / 2) uniform))).
Proof.
  apply (message_discarded_only_near_full_transparency (point_mass 0) (point_mass 1) (1 / 2)).
  - apply point_mass_density. lia.
  - reflexivity.
  - apply point_mass_nonneg.
  - lra.
  - unfold float_epsilon. lra.
Defined.

Lemma closed_filter_perceives_uniform (m u : vec) :
  length m = length u -> vadd (vscale 0 m) (vscale (1 - 0) u) = u.
Proof.
  unfold vadd, vscale. revert u; induction m as [|x m IH]; intros [|y u] H; try discriminate.
  - reflexivity.
  - injection H as H. cbn [map combine fst snd]. rewrite (IH u H). f_equal. ring.
Qed.

Lemma vmul_repeat (c : R) (o : vec) :
  forall n, length o = n -> vmul o (repeat c n) = vscale c o.
Proof.
  unfold vmul, vscale. induction o as [|x o IH]; intros [|n] H; try discriminate.
  - reflexivity.
  - injection H as H. cbn [repeat combine map fst snd]. rewrite (IH n H). f_equal. ring.
Qed.

Lemma bayes_closed_filter (o message : vec) :
  density o -> length message = n_beliefs -> Agent.bayes o message 0 = o.
Proof.
  intros Ho Hl. pose proof (density_sum o Ho) as Hs. pose proof Ho as (Hlo & _ & _).
  unfold Agent.bayes.
  rewrite closed_filter_perceives_uniform by (rewrite length_uniform; exact Hl).
  rewrite uniform_value, (vmul_repeat _ o n_beliefs Hlo), np_sum_vscale, Hs.
  rewrite Rltb_false by (unfold float_epsilon; lra).
  unfold Agent.normalise. rewrite np_sum_vscale, Hs, db_value.
  unfold vdiv, vscale. rewrite map_map. rewrite <- (map_id o) at 2.
  apply map_ext. intros x. field.
Qed.

(** X5.  A listener whose filters are closed ([alpha_in = alpha_out = 0])
    perceives the opinion of every agent as the uniform distribution.  When
    it has a neighbour and its neighbours are positions of the schedule, an
    interaction returns, consumes one draw and leaves the opinions of all
    agents as they were: the posterior is never discarded, and normalising
    it gives the old density back. *)
Theorem closed_filter_keeps_opinion (s : list Agent.t) (i : nat) (self : Agent.t)
    (g : gen) :
  nth_error s i = Some self -> Forall agent_ok s ->
  Agent.alpha_in self = 0 -> Agent.alpha_out self = 0 ->
  Agent.nbs self <> [] ->
  Forall (fun j => (0 <= j < Z.of_nat (length s))%Z) (Agent.nbs self) ->
  (forall speaker, In speaker s -> perceived_by self speaker = uniform) /\
  exists s',
    Agent.update_opinion_in_interaction s i self g = Ok (s', advance g) /\
    length s' = length s /\
    map Agent.op s' = map Agent.op s.
Proof.
  intros Hi Hs Hin Hout Hne Hnb. rewrite Forall_forall in Hs.
  assert (Hself : agent_ok self) by (apply Hs; eapply nth_error_In; eassumption).
  assert (Hlt : (i < length s)%nat) by (apply nth_error_Some; congruence).
  split.
  - intros speaker Hsp. unfold perceived_by. rewrite Hin, Hout.
    destruct (pyid_eqb _ _); apply closed_filter_perceives_uniform;
      rewrite length_uniform; apply (Hs speaker Hsp).
  - unfold Agent.update_opinion_in_interaction.
    rewrite choice_candidate by exact Hne. cbn [bind].
    assert (Hc : In (candidate (Agent.nbs self) g 0) (Agent.nbs self)).
    { unfold candidate. apply nth_In, Nat.mod_upper_bound.
      destruct (Agent.nbs self); [congruence | cbn [length]; lia]. }
    rewrite Forall_forall in Hnb.
    destruct (py_index_in_range s _ (Hnb _ Hc)) as (speaker & Hsp).
    rewrite Hsp. cbn [bind].
    assert (Hok : agent_ok speaker) by (apply Hs; eapply py_index_In; eassumption).
    eexists. split; [reflexivity|]. split; [apply length_put; exact Hlt|].
    apply map_op_put with (self := self); [assumption|].
    cbn [Agent.set_op Agent.op]. rewrite Hin, Hout.
    destruct (pyid_eqb _ _); apply bayes_closed_filter;
      solve [apply Hself | apply Hok].
Qed.

(** Two agents with closed filters and opinions on different statements. *)
Lemma closed_filter_keeps_opinion_witness :
  perceived_by closed_A closed_B = uniform /\
  exists s',
    Agent.update_opinion_in_interaction [closed_A; closed_B] 0 closed_A (constant_gen 0 0)
      = Ok (s', advance (constant_gen 0 0)) /\
    length s' = 2%nat /\
    map Agent.op s' = [point_mass 0; point_mass 1].
Proof.
  destruct (closed_filter_keeps_opinion [closed_A; closed_B] 0 closed_A (constant_gen 0 0))
    as [Hp Hrun].
  - reflexivity.
  - constructor; [|constructor; [|constructor]]; apply sample_agent_ok; try lia; lra.
  - reflexivity.
  - reflexivity.
  - discriminate.
  - constructor; [cbn; lia | constructor].
  - split; [apply Hp; right; left; reflexivity | exact Hrun].
Defined.

Lemma nth_map_zero (f : R -> R) (l : vec) (k : nat) :
  f 0 = 0 -> nth k (map f l) 0 = f (nth k l 0).
Proof.
  intros Hf. revert k; induction l as [|x l IH]; intros [|k]; cbn [map nth]; auto.
Qed.

Lemma nth_vmul (u v : vec) (k : nat) : nth k (vmul u v) 0 = nth k u 0 * nth k v 0.
Proof.
  unfold vmul. revert v k; induction u as [|x u IH]; intros [|y v] [|k];
    cbn [combine map nth fst snd]; try ring.
  apply IH.
Qed.

Lemma nth_vadd (u v : vec) (k : nat) :
  length u = length v -> nth k (vadd u v) 0 = nth k u 0 + nth k v 0.
Proof.
  unfold vadd. revert v k; induction u as [|x u IH]; intros [|y v] [|k] H;
    try discriminate; cbn [combine map nth fst snd]; try ring.
  injection H as H. apply IH; assumption.
Qed.

Lemma nth_perceived (alpha : R) (message : vec) (k : nat) :
  length message = n_beliefs -> (k < n_beliefs)%nat ->
  nth k (vadd (vscale alpha message) (vscale (1 - alpha) uniform)) 0
  = alpha * nth k message 0 + (1 - alpha) / 2.
Proof.
  intros Hl Hk. rewrite nth_vadd by (rewrite !length_vscale, length_uniform; exact Hl).
  unfold vscale. rewrite !nth_map_zero by ring.
  rewrite uniform_value, nth_repeat_lt by exact Hk. field.
Qed.

(** X6.  Listening never brings back a statement that the listener has
    excluded: where the density of the listener is 0 before the update by a
    message it is 0 afterwards, whatever the message and the filter.  And a
    filter that is not fully open ([50 * (1 - alpha)] at least the float
    tolerance) never makes the listener exclude a statement: the density is 0
    after the update only where it was 0 before. *)
Theorem listening_keeps_the_support (o message : vec) (alpha : R) (k : nat) :
  density o ->
  (nth k o 0 = 0 -> nth k (Agent.bayes o message alpha) 0 = 0) /\
  (length message = n_beliefs -> Forall (fun x => 0 <= x) message ->
   0 <= alpha -> float_epsilon <= 50 * (1 - alpha) -> (k < n_beliefs)%nat ->
   nth k (Agent.bayes o message alpha) 0 = 0 -> nth k o 0 = 0).
Proof.
  intros Ho. split.
  - intros Hk. unfold Agent.bayes, Agent.normalise, vdiv.
    rewrite nth_map_zero by (unfold Rdiv; ring).
    destruct (Rltb _ _).
    + rewrite Hk. unfold Rdiv; ring.
    + rewrite nth_vmul, Hk. unfold Rdiv; ring.
  - intros Hl Hm Ha He Hk H.
    pose proof (density_sum o Ho) as Hs. pose proof Ho as (Hlo & Hno & _).
    set (perceived := vadd (vscale alpha message) (vscale (1 - alpha) uniform)) in *.
    assert (Hsum : np_sum (vmul o perceived) = alpha * np_dot o message + 50 * (1 - alpha)).
    { unfold perceived. rewrite uniform_value, (posterior_sum _ _ _ o message n_beliefs Hlo Hl).
      rewrite Hs. field. }
    pose proof (np_dot_nonneg o message Hno Hm) as Hdot.
    pose proof float_epsilon_pos as Heps.
    unfold Agent.bayes in H. fold perceived in H.
    rewrite Rltb_false in H by (rewrite Hsum; nra).
    unfold Agent.normalise, vdiv in H.
    rewrite nth_map_zero in H by (unfold Rdiv; ring).
    rewrite nth_vmul in H. unfold perceived in H at 1.
    rewrite (nth_perceived alpha message k Hl Hk) in H.
    assert (Hmk : 0 <= nth k message 0).
    { rewrite Forall_forall in Hm. apply Hm, nth_In. rewrite Hl; exact Hk. }
    assert (Hp : 0 < alpha * nth k message 0 + (1 - alpha) / 2) by nra.
    assert (Hc : 0 < np_sum (vmul o perceived) * db).
    { rewrite Hsum, db_value. nra. }
    unfold Rdiv in H. apply Rmult_integral in H. destruct H as [H|H].
    + apply Rmult_integral in H. destruct H as [H|H]; [exact H | lra].
    + exfalso. apply (Rinv_neq_0_compat _ (Rgt_not_eq _ _ Hc)). exact H.
Qed.

(** The listener is sure of the first statement; the message favours the
    second. *)
Lemma listening_keeps_the_support_witness :
  density (point_mass 0) /\ nth 1 (point_mass 0) 0 = 0 /\
  nth 1 (Agent.bayes (point_mass 0) (point_mass 1) (1 / 2)) 0 = 0 /\
  (nth 0 (Agent.bayes (point_mass 0) (point_mass 1) (1 / 2)) 0 = 0 ->
   nth 0 (point_mass 0) 0 = 0).
Proof.
  assert (H : density (point_mass 0)) by (apply point_mass_density; lia).
  destruct (listening_keeps_the_support (point_mass 0) (point_mass 1) (1 / 2) 1 H) as [H1 _].
  destruct (listening_keeps_the_support (point_mass 0) (point_mass 1) (1 / 2) 0 H) as [_ H2].
  split; [exact H | split; [reflexivity | split; [exact (H1 eq_refl)|]]].
  apply H2; [reflexivity | apply point_mass_nonneg | lra | unfold float_epsilon; lra |].
  unfold n_beliefs; lia.
Defined.

(* ------------------------------------------------------------------ *)
(** * Further properties of the model *)

Local Open Scope R_scope.

(** * The update order *)

(** X7.  A tick steps every agent exactly once when the model has as many
    agents as [n_agents] says: the update order is a permutation of the
    positions of the schedule.  When the schedule is shorter than [n_agents]
    (a network that misses nodes), every call of [step] raises ValueError at
    the sampling of the update order. *)
Theorem every_agent_steps_once_per_tick (m : OpinionModel.t) (g : gen) :
  gen_ok g ->
  ((Z.of_nat (length (OpinionModel.schedule m)) < OpinionModel.n_agents m)%Z ->
   OpinionModel.step m g = Raise ValueError) /\
  (OpinionModel.n_agents m = Z.of_nat (length (OpinionModel.schedule m)) ->
   exists order,
     OpinionModel.update_order m g = Ok (order, advance g) /\
     Permutation order (seq 0 (length (OpinionModel.schedule m)))).
Proof.
  intros [_ Hp]. split.
  - intros Hshort. unfold OpinionModel.step, OpinionModel.advance_agents,
      OpinionModel.update_order.
    destruct (Z.ltb_spec (Z.of_nat (length (OpinionModel.schedule m))) (OpinionModel.n_agents m));
      [reflexivity | lia].
  - intros Hn. unfold OpinionModel.update_order, permutation.
    destruct (Z.ltb_spec (Z.of_nat (length (OpinionModel.schedule m))) (OpinionModel.n_agents m));
      [lia|].
    eexists; split; [reflexivity|].
    rewrite firstn_all2; [apply Hp|].
    rewrite (Permutation_length (Hp _ _)), length_seq, Hn. lia.
Qed.

(** The model of [late_consensus], and the same model with one agent
    missing from its schedule. *)
Lemma every_agent_steps_once_per_tick_witness :
  OpinionModel.step (sample_model [agent_P] (1 / 2) false [30%Z]) late_listener
    = Raise ValueError /\
  exists order,
    OpinionModel.update_order late_consensus late_listener = Ok (order, advance late_listener) /\
    Permutation order (seq 0 2).
Proof.
  split.
  - apply (proj1 (every_agent_steps_once_per_tick
                    (sample_model [agent_P] (1 / 2) false [30%Z]) late_listener
                    late_listener_ok)).
    cbn. lia.
  - apply (proj2 (every_agent_steps_once_per_tick late_consensus late_listener
                    late_listener_ok)).
    reflexivity.
Defined.

(** * The consensus time within the run *)

Lemma qualifying_ticks_length {A : Type} (q : Z * A -> bool) (ts : list Z) (h : list A) :
  (length (map fst (filter q (combine ts h))) <= length ts)%nat.
Proof.
  rewrite length_map. etransitivity; [apply filter_length_le|].
  rewrite length_combine. lia.
Qed.

Lemma qualifying_ticks_bounds {A : Type} (q : Z * A -> bool) (n : nat) :
  forall (a : nat) (h : list A) (x : Z),
    let l := map fst (filter q (combine (map Z.of_nat (seq a n)) h)) in
    hd_error l = Some x ->
    (Z.of_nat a <= x /\ x + Z.of_nat (length l) <= Z.of_nat (a + n))%Z.
Proof.
  induction n as [|n IH]; intros a h x l; subst l; [discriminate|].
  destruct h as [|e h]; [discriminate|].
  cbn [seq map combine filter]. destruct (q (Z.of_nat a, e)).
  - cbn [map hd_error fst length]. intros H. injection H as <-.
    pose proof (qualifying_ticks_length q (map Z.of_nat (seq (S a) n)) h) as Hl.
    rewrite (length_map Z.of_nat), length_seq in Hl. lia.
  - intros H. destruct (IH (S a) h x H). lia.
Qed.

(** X8.  The consensus time that [simulation] records is a tick of the run
    that leaves room for twenty more: with the last checkpoint at [H], it
    lies between 0 and [H - 21].  A run whose last checkpoint is at 20 or
    below records no consensus time, however small the dispersion. *)
Theorem consensus_time_leaves_twenty_ticks (m m' : OpinionModel.t) (g g' : gen) (H : Z) :
  OpinionModel.consensus_time m = None -> OpinionModel.consensus_mean m = None ->
  py_index (OpinionModel.track_times m) (-1) = Ok H ->
  OpinionModel.simulation m g = Ok (m', g') ->
  ((H <= 20)%Z -> OpinionModel.consensus_time m' = None) /\
  (forall tau, OpinionModel.consensus_time m' = Some tau -> (0 <= tau /\ tau + 21 <= H)%Z).
Proof.
  intros Hct Hcm Hpy Hsim. unfold OpinionModel.simulation in Hsim.
  rewrite Hpy in Hsim. cbn [bind] in Hsim. inv_bind Hsim. rename a into l'.
  apply Ok_inj in Hsim. injection Hsim as <- _.
  pose proof (simulation_loop_inv _ _ (range H) [] _ _ (loop_inv_start m g Hct Hcm) E) as Hinv.
  cbn [app] in Hinv. destruct Hinv as (_ & _ & _ & _ & Htc & Hcons & _).
  cbv zeta in Hcons.
  assert (Hbound : forall tau, OpinionModel.consensus_time (OpinionModel.model l') = Some tau ->
                     (0 <= tau /\ tau + 21 <= H)%Z).
  { intros tau Htau.
    destruct (Z.ltb_spec 20 (Z.of_nat (length (OpinionModel.time_cons l')))) as [Hmany|Hfew].
    - destruct Hcons as [Hc _]. rewrite Hc in Htau. injection Htau as Htau.
      unfold range in Htc.
      pose proof (qualifying_ticks_bounds
                    (qualifies (OpinionModel.sigma_threshold_consensus m))
                    (Z.to_nat H) 0 (OpinionModel.history l') tau) as Hb.
      cbv zeta in Hb. rewrite <- Htc in Hb.
      destruct (OpinionModel.time_cons l') as [|t0 tc]; [cbn in Hmany; lia|].
      cbn [hd] in Htau. subst t0. specialize (Hb eq_refl). lia.
    - destruct Hcons as [Hc _]. rewrite Hc in Htau. discriminate. }
  split; [|exact Hbound].
  intros Hsmall. destruct (OpinionModel.consensus_time (OpinionModel.model l')) as [tau|] eqn:Et;
    [|reflexivity].
  destruct (Hbound tau eq_refl). lia.
Qed.

Lemma late_consensus_simulation :
  exists m' g',
    OpinionModel.simulation late_consensus late_listener = Ok (m', g') /\
    OpinionModel.consensus_time m' = Some 0%Z.
Proof.
  destruct late_consensus_run as (l' & E & _ & _ & Hct & _).
  exists (OpinionModel.model l'), (OpinionModel.rng l'). split; [|exact Hct].
  unfold OpinionModel.simulation.
  change (py_index (OpinionModel.track_times late_consensus) (-1)) with (@Ok Z 30%Z).
  cbn [bind]. rewrite E. reflexivity.
Qed.

(** The run of [late_consensus], with its last checkpoint at 30. *)
Lemma consensus_time_leaves_twenty_ticks_witness :
  exists m' g',
    OpinionModel.simulation late_consensus late_listener = Ok (m', g') /\
    forall tau, OpinionModel.consensus_time m' = Some tau -> (0 <= tau /\ tau + 21 <= 30)%Z.
Proof.
  destruct late_consensus_simulation as (m' & g' & E & _).
  exists m', g'. split; [exact E|].
  exact (proj2 (consensus_time_leaves_twenty_ticks late_consensus m' late_listener g' 30
                  eq_refl eq_refl eq_refl E)).
Defined.

(** * How a run ends *)

(** As long as the loop of [simulation] is not left by [break], every pass
    is a tick: the clock counts the passes, and the last tick did not end on
    a checkpoint. *)
Lemma simulation_loop_clock (ts : list Z) :
  forall l l' : OpinionModel.loop,
    OpinionModel.simulation_loop ts l = Ok l' -> OpinionModel.broke l' = false ->
    OpinionModel.broke l = false /\
    time_value (OpinionModel.time (OpinionModel.model l'))
    = (time_value (OpinionModel.time (OpinionModel.model l)) + Z.of_nat (length ts))%Z /\
    OpinionModel.track_times (OpinionModel.model l')
    = OpinionModel.track_times (OpinionModel.model l) /\
    (ts <> [] ->
     existsb (Z.eqb (time_value (OpinionModel.time (OpinionModel.model l'))))
       (OpinionModel.track_times (OpinionModel.model l')) = false).
Proof.
  induction ts as [|tk ts IH]; intros l l' H Hb; cbn [OpinionModel.simulation_loop] in H.
  - apply Ok_inj in H. subst l'. cbn [length].
    split; [assumption | split; [lia | split; [reflexivity | congruence]]].
  - inv_bind H. rename a into l1.
    destruct (IH l1 l' H Hb) as (Hb1 & Ht & Htk & Hlast).
    unfold OpinionModel.simulation_body in E.
    destruct (OpinionModel.broke l) eqn:Eb.
    { apply Ok_inj in E. subst l1. congruence. }
    inv_bind E. destruct a as [m1 g1]. inv_bind E. rename a into b.
    destruct (step_Ok_inv _ _ _ _ E0) as (Eadv & Hoff).
    destruct (advance_agents_fields _ _ _ _ Eadv) as (_ & _ & Htk1 & Htime1 & _).
    assert (Hm1 : OpinionModel.time (OpinionModel.model l1) = OpinionModel.time m1 /\
                  OpinionModel.track_times (OpinionModel.model l1)
                  = OpinionModel.track_times m1).
    { destruct (20 <? _)%Z; apply Ok_inj in E; subst l1; split; reflexivity. }
    destruct Hm1 as [Hm1t Hm1k].
    split; [reflexivity|].
    split; [rewrite Ht, Hm1t, Htime1; cbn [OpinionModel.tick time_value length]; lia|].
    split; [rewrite Htk, Hm1k, Htk1; reflexivity|].
    intros _. destruct ts as [|tk' ts'].
    + cbn [OpinionModel.simulation_loop] in H. apply Ok_inj in H. rewrite <- H.
      rewrite Hm1t, Hm1k. exact Hoff.
    + apply Hlast. discriminate.
Qed.

(** X9.  A run of [simulation] from the clock at 0 towards a last
    checkpoint [H > 0] returns only when the loop was left by [break]: agent-
    level reporting is off and a consensus time was recorded.  In every other
    run the clock reaches a checkpoint, where [observe] raises. *)
Theorem simulation_returns_only_after_consensus (m m' : OpinionModel.t) (g g' : gen) (H : Z) :
  time_value (OpinionModel.time m) = 0%Z ->
  OpinionModel.consensus_time m = None -> OpinionModel.consensus_mean m = None ->
  py_index (OpinionModel.track_times m) (-1) = Ok H -> (0 < H)%Z ->
  OpinionModel.simulation m g = Ok (m', g') ->
  OpinionModel.agent_reporter m = false /\
  exists tau, OpinionModel.consensus_time m' = Some tau.
Proof.
  intros Ht0 Hct Hcm Hpy HH Hsim. unfold OpinionModel.simulation in Hsim.
  rewrite Hpy in Hsim. cbn [bind] in Hsim. inv_bind Hsim. rename a into l'.
  apply Ok_inj in Hsim. injection Hsim as <- _.
  pose proof (simulation_loop_inv _ _ (range H) [] _ _ (loop_inv_start m g Hct Hcm) E) as Hinv.
  destruct Hinv as (_ & _ & _ & _ & _ & Hcons & _ & Hbr). cbv zeta in Hcons.
  destruct (OpinionModel.broke l') eqn:Eb.
  - destruct (Hbr eq_refl) as (Hrep & Hlen & _). split; [exact Hrep|].
    rewrite Hlen in Hcons. cbn in Hcons. destruct Hcons as [Hc _]. eexists; exact Hc.
  - exfalso. destruct (simulation_loop_clock _ _ _ E Eb) as (_ & Ht & Htk & Hlast).
    cbn [OpinionModel.model] in Ht, Htk.
    assert (Hne : range H <> []).
    { unfold range. destruct (Z.to_nat H) as [|n] eqn:En; [lia | discriminate]. }
    specialize (Hlast Hne). rewrite Ht, Htk, Ht0, length_range in Hlast.
    replace (0 + Z.of_nat (Z.to_nat H))%Z with H in Hlast by lia.
    apply py_index_In in Hpy.
    assert (Hin : existsb (Z.eqb H) (OpinionModel.track_times m) = true).
    { apply existsb_exists. exists H. split; [exact Hpy | apply Z.eqb_refl]. }
    congruence.
Qed.

(** The run of [late_consensus]: reporting is off, consensus is found. *)
Lemma simulation_returns_only_after_consensus_witness :
  exists m' g',
    OpinionModel.simulation late_consensus late_listener = Ok (m', g') /\
    OpinionModel.agent_reporter late_consensus = false /\
    exists tau, OpinionModel.consensus_time m' = Some tau.
Proof.
  destruct late_consensus_simulation as (m' & g' & E & _).
  exists m', g'. split; [exact E|].
  apply (simulation_returns_only_after_consensus late_consensus m' late_listener g' 30
           eq_refl eq_refl eq_refl eq_refl); [lia | exact E].
Defined.

(** * Node attributes *)

Lemma get_attr_set_attr_same (a : attrs) (u : Z) (v : pyid) :
  get_attr (set_attr a u v) u = Some v.
Proof. unfold get_attr, set_attr. cbn [find fst]. rewrite Z.eqb_refl. reflexivity. Qed.

Lemma find_filter_other (a : attrs) (u k : Z) :
  k <> u ->
  find (fun e => Z.eqb k (fst e)) (filter (fun e => negb (Z.eqb u (fst e))) a)
  = find (fun e => Z.eqb k (fst e)) a.
Proof.
  intros Hk. induction a as [|[u' v'] a IH]; [reflexivity|].
  cbn [filter find fst]. destruct (Z.eqb_spec u u') as [<-|Hu]; cbn [negb].
  - destruct (Z.eqb_spec k u); [contradiction | exact IH].
  - cbn [find fst]. destruct (Z.eqb k u'); [reflexivity | exact IH].
Qed.

Lemma get_attr_set_attr_other (a : attrs) (u k : Z) (v : pyid) :
  k <> u -> get_attr (set_attr a u v) k = get_attr a k.
Proof.
  intros Hk. unfold get_attr, set_attr. cbn [find fst].
  destruct (Z.eqb_spec k u); [contradiction|]. rewrite find_filter_other by assumption.
  reflexivity.
Qed.

(** A key that is not among the values given keeps its attribute. *)
Lemma set_node_attributes_other (G : Graph.t) (values : list (Z * pyid)) :
  forall (a : attrs) (k : Z),
    ~ In k (map fst values) ->
    get_attr (set_node_attributes G values a) k = get_attr a k.
Proof.
  unfold set_node_attributes.
  induction values as [|[u v] values IH]; intros a k Hk; [reflexivity|].
  cbn [fold_left fst snd map In] in *. rewrite IH by tauto.
  destruct (Graph.has_node G u); [|reflexivity].
  apply get_attr_set_attr_other. intros ->. tauto.
Qed.

(** A node that is a key, once, gets the value given for it. *)
Lemma set_node_attributes_key (G : Graph.t) (values : list (Z * pyid)) :
  forall (a : attrs) (k : Z) (v : pyid),
    NoDup (map fst values) -> In (k, v) values -> Graph.has_node G k = true ->
    get_attr (set_node_attributes G values a) k = Some v.
Proof.
  induction values as [|[u x] values IH]; intros a k v Hnd Hin Hn; [contradiction|].
  cbn [map fst] in Hnd. inversion Hnd as [|? ? Hu Hnd']; subst.
  destruct Hin as [Heq|Hin].
  - injection Heq as -> ->. unfold set_node_attributes. cbn [fold_left fst snd].
    rewrite Hn. fold (set_node_attributes G values (set_attr a k v)).
    rewrite set_node_attributes_other by assumption.
    apply get_attr_set_attr_same.
  - unfold set_node_attributes. cbn [fold_left].
    apply (IH _ k v Hnd' Hin Hn).
Qed.

(** Every attribute is one that was there or one of the values given. *)
Lemma set_node_attributes_values (G : Graph.t) (values : list (Z * pyid)) :
  forall (a : attrs) (k : Z) (v : pyid),
    get_attr (set_node_attributes G values a) k = Some v ->
    get_attr a k = Some v \/ In v (map snd values).
Proof.
  unfold set_node_attributes.
  induction values as [|[u x] values IH]; intros a k v H; [left; exact H|].
  cbn [fold_left fst snd] in H. apply IH in H. cbn [map snd In].
  destruct H as [H|H]; [|tauto].
  destruct (Graph.has_node G u); [|tauto].
  destruct (Z.eq_dec k u) as [->|Hk].
  - rewrite get_attr_set_attr_same in H. injection H as ->. tauto.
  - rewrite get_attr_set_attr_other in H by assumption. tauto.
Qed.

Lemma map_fst_enumerate {A : Type} (l : list A) :
  map fst (enumerate l) = map Z.of_nat (seq 0 (length l)).
Proof.
  unfold enumerate.
  assert (H : forall (u : list Z) (v : list A), length u = length v ->
                map fst (combine u v) = u).
  { induction u as [|x u IH]; intros [|y v] Hl; try discriminate; [reflexivity|].
    injection Hl as Hl. cbn [combine map fst]. rewrite IH by assumption. reflexivity. }
  apply H. rewrite length_map, length_seq. reflexivity.
Qed.

Lemma map_snd_enumerate {A : Type} (l : list A) : map snd (enumerate l) = l.
Proof.
  unfold enumerate.
  assert (H : forall (v : list A) (u : list Z), length u = length v ->
                map snd (combine u v) = v).
  { induction v as [|y v IH]; intros [|x u] Hl; try discriminate; [reflexivity|].
    injection Hl as Hl. cbn [combine map snd]. rewrite IH by assumption. reflexivity. }
  apply H. rewrite length_map, length_seq. reflexivity.
Qed.

Lemma NoDup_enumerate_keys {A : Type} (l : list A) : NoDup (map fst (enumerate l)).
Proof.
  rewrite map_fst_enumerate. generalize 0%nat.
  induction (length l) as [|n IH]; intros a; cbn [seq map]; constructor.
  - intros H. apply in_map_iff in H. destruct H as (j & Hj & Hin).
    apply in_seq in Hin. lia.
  - apply IH.
Qed.

Lemma In_enumerate {A : Type} (l : list A) (i : nat) (x : A) :
  nth_error l i = Some x -> In (Z.of_nat i, x) (enumerate l).
Proof.
  unfold enumerate.
  assert (H : forall (v : list A) (a i : nat), nth_error v i = Some x ->
                In (Z.of_nat (a + i), x) (combine (map Z.of_nat (seq a (length v))) v)).
  { induction v as [|y v IH]; intros a [|j] Hj; try discriminate.
    - cbn [nth_error] in Hj. injection Hj as ->. rewrite Nat.add_0_r. left; reflexivity.
    - cbn [nth_error] in Hj. right. replace (a + S j)%nat with (S a + j)%nat by lia.
      apply IH; exact Hj. }
  intros Hi. apply (H l 0%nat i Hi).
Qed.

(** * What the constructor builds *)

Section Constructed.

Variable np_seed : Z -> gen.
Variable py_seed : Z -> gen.
Variable nx_watts_strogatz_graph : Z -> Z -> R -> Z -> res Graph.t.
Variable nx_spring_layout : Graph.t -> gen -> layout * gen.
Variable fuel : nat.

Lemma construct_Ok_network p rep tks w m w' :
  OpinionModel.construct np_seed py_seed nx_watts_strogatz_graph nx_spring_layout fuel
    p rep tks w = Ok (m, w') ->
  exists net w1 g0 g1,
    create_withinAndBetweenGroup_network py_seed nx_watts_strogatz_graph nx_spring_layout fuel
      (OpinionModel.p_n_agents p) (OpinionModel.p_k_in p) (OpinionModel.p_k_out p)
      (OpinionModel.p_p_rewire p) (OpinionModel.p_seed p)
      (mkWorld (py w) (np_seed (OpinionModel.p_seed p))) = Ok (net, w1) /\
    OpinionModel.G m = graph net /\
    OpinionModel.node_social_identity m
    = set_node_attributes (graph net) (enumerate (group_lists p)) (social_identity net) /\
    for_each (range (Z.of_nat (length (Graph.nodes (OpinionModel.G m)))))
      (OpinionModel.create_agent p (OpinionModel.G m) (OpinionModel.node_social_identity m)
         (OpinionModel.pos m)) ([], g0) = Ok (OpinionModel.schedule m, g1).
Proof.
  unfold OpinionModel.construct; intros H.
  inv_bind H. rename a into Minv.
  inv_bind H. inv_bind H. inv_bind H. inv_bind H. inv_bind H.
  destruct a3 as [net w1]. inv_bind H.
  destruct (nx_spring_layout _ _) as [pos g0] eqn:Hl.
  inv_bind H. destruct a4 as [schedule g1].
  apply Ok_inj in H. injection H as <- _.
  exists net, w1, g0, g1.
  cbn [OpinionModel.G OpinionModel.node_social_identity OpinionModel.pos
       OpinionModel.schedule].
  split; [exact E4 | split; [reflexivity | split; [reflexivity | exact E6]]].
Qed.


Lemma create_agent_spec p G a pos i s g s' g' :
  OpinionModel.create_agent p G a pos i (s, g) = Ok (s', g') ->
  exists ag, s' = s ++ [ag] /\ created_for p G a pos i ag.
Proof.
  unfold OpinionModel.create_agent. intros H. inv_bind H. rename a0 into social_id.
  destruct (Graph.has_node G i) eqn:Hn; [|discriminate].
  destruct (get_attr a i) as [v|] eqn:Ha; [|discriminate].
  apply Ok_inj in E. subst v.
  unfold random in H. inv_bind H. rename a0 into ag.
  apply Ok_inj in H. injection H as <- _.
  unfold Agent.init in E. rewrite Hn in E. apply Ok_inj in E. subst ag.
  eexists. split; [reflexivity|].
  unfold created_for.
  cbn [Agent.unique_id Agent.nbs Agent.social_identity Agent.pos Agent.alpha_in
       Agent.alpha_out Agent.kappa Agent.communication_frequency Agent.mean_op Agent.sig
       Agent.op].
  split; [exact Hn|]. split; [reflexivity|]. split; [reflexivity|].
  split; [exact Ha|]. split; [reflexivity|]. split; [reflexivity|].
  split; [reflexivity|]. split; [reflexivity|]. split; [reflexivity|].
  split; reflexivity.
Qed.

Lemma create_agents_spec p G a pos (l : list Z) :
  forall s g s' g',
    for_each l (OpinionModel.create_agent p G a pos) (s, g) = Ok (s', g') ->
    exists new, s' = s ++ new /\ Forall2 (created_for p G a pos) l new.
Proof.
  induction l as [|i l IH]; intros s g s' g' H.
  - cbn [for_each] in H. apply Ok_inj in H. injection H as <- _.
    exists []. split; [rewrite app_nil_r; reflexivity | constructor].
  - rewrite for_each_cons in H. inv_bind H. destruct a0 as [s1 g1].
    destruct (create_agent_spec _ _ _ _ _ _ _ _ _ E) as (ag & -> & Hag).
    destruct (IH _ _ _ _ H) as (new & -> & Hnew).
    exists (ag :: new). split; [rewrite <- app_assoc; reflexivity|].
    constructor; assumption.
Qed.

Lemma Forall2_range_nth {A : Type} (P : Z -> A -> Prop) (n : nat) :
  forall (a : nat) (l : list A) (i : nat) (x : A),
    Forall2 P (map Z.of_nat (seq a n)) l -> nth_error l i = Some x ->
    P (Z.of_nat (a + i)) x.
Proof.
  induction n as [|n IH]; intros a l i x H Hi; cbn [seq map] in H.
  - inversion H; subst. destruct i; discriminate.
  - inversion H as [|? y ? l' Hy Hl']; subst. destruct i as [|i].
    + cbn [nth_error] in Hi. injection Hi as <-. rewrite Nat.add_0_r. exact Hy.
    + cbn [nth_error] in Hi. replace (a + S i)%nat with (S a + i)%nat by lia.
      eapply IH; eassumption.
Qed.

(** X10.  When the constructor gets as far as its call of [observe], the
    schedule holds one agent per node of the network, and the agent at
    position [i] was created for the label [i]: [i] is a node, the agent has
    [i] as its id, the neighbours of [i] as its neighbours, the attribute of
    node [i] as its social identity, the parameters of the model as its own,
    and the mean and uncertainty of its opinion.  So the lookup
    [schedule[speaker_id]] of a neighbour finds the agent with that id. *)
Theorem constructor_creates_the_agent_of_each_label p rep tks w m w' :
  OpinionModel.construct np_seed py_seed nx_watts_strogatz_graph nx_spring_layout fuel
    p rep tks w = Ok (m, w') ->
  length (OpinionModel.schedule m) = length (Graph.nodes (OpinionModel.G m)) /\
  forall i a,
    nth_error (OpinionModel.schedule m) i = Some a ->
    created_for p (OpinionModel.G m) (OpinionModel.node_social_identity m)
      (OpinionModel.pos m) (Z.of_nat i) a.
Proof.
  intros H. destruct (construct_Ok_network _ _ _ _ _ _ H) as (net & w1 & g0 & g1 & _ & _ & _ & Hs).
  destruct (create_agents_spec _ _ _ _ _ _ _ _ _ Hs) as (new & Hnew & Hall).
  cbn [app] in Hnew. subst new. split.
  - rewrite <- (Forall2_length Hall), length_range. lia.
  - intros i a Hi. unfold range in Hall.
    apply (Forall2_range_nth _ _ 0 _ i a Hall Hi).
Qed.


Lemma network_labels n k_in k_out p seed w net w' :
  create_withinAndBetweenGroup_network py_seed nx_watts_strogatz_graph nx_spring_layout fuel
    n k_in k_out p seed w = Ok (net, w') ->
  forall k v, get_attr (social_identity net) k = Some v -> v = IdInt 0 \/ v = IdInt 1.
Proof.
  unfold create_withinAndBetweenGroup_network. intros H.
  destruct (negb (n mod 2 =? 0)%Z); [discriminate|].
  inv_bind H. destruct a as [[G1 G2] w2]. inv_bind H. destruct a as [G g].
  destruct (nx_spring_layout G g) as [pos g'].
  apply Ok_inj in H. injection H as <- _. cbn [social_identity].
  intros k v Hk. apply set_node_attributes_values in Hk.
  destruct Hk as [Hk|Hk]; [discriminate|].
  rewrite map_snd_enumerate in Hk. apply in_app_or in Hk.
  destruct Hk as [Hk|Hk]; apply in_map_iff in Hk; destruct Hk as (x & <- & _); auto.
Qed.

(** X11.  The constructor overwrites the social identity of the nodes
    [0 .. len(social_id_groups) - 1] with lists: node [i] gets the name of the
    [i]-th group repeated [group_size] times, whatever group the node is in.
    The agents at all other positions keep the integer label 0 or 1 of the
    network.  A list equals no integer, so between an agent of the first
    kind and an agent of the second kind the test
    [speaker.social_identity == self.social_identity] fails in both
    directions: each hears the other through [alpha_out]. *)
Theorem first_agents_carry_list_identities p rep tks w m w' :
  OpinionModel.construct np_seed py_seed nx_watts_strogatz_graph nx_spring_layout fuel
    p rep tks w = Ok (m, w') ->
  (forall i a,
     nth_error (OpinionModel.schedule m) i = Some a ->
     (forall id, nth_error (OpinionModel.p_social_id_groups p) i = Some id ->
        Agent.social_identity a
        = IdList (repeat id
            (Z.to_nat (OpinionModel.p_n_agents p
                       / Z.of_nat (length (OpinionModel.p_social_id_groups p)))))) /\
     ((length (OpinionModel.p_social_id_groups p) <= i)%nat ->
      Agent.social_identity a = IdInt 0 \/ Agent.social_identity a = IdInt 1)) /\
  (forall i j a b,
     (i < length (OpinionModel.p_social_id_groups p) <= j)%nat ->
     nth_error (OpinionModel.schedule m) i = Some a ->
     nth_error (OpinionModel.schedule m) j = Some b ->
     pyid_eqb (Agent.social_identity b) (Agent.social_identity a) = false /\
     pyid_eqb (Agent.social_identity a) (Agent.social_identity b) = false).
Proof.
  intros H.
  destruct (construct_Ok_network _ _ _ _ _ _ H)
    as (net & w1 & g0 & g1 & Hnet & HG & Hattr & Hs).
  destruct (create_agents_spec _ _ _ _ _ _ _ _ _ Hs) as (new & Hnew & Hall).
  cbn [app] in Hnew. subst new. unfold range in Hall.
  assert (Hkind : forall i a,
     nth_error (OpinionModel.schedule m) i = Some a ->
     (forall id, nth_error (OpinionModel.p_social_id_groups p) i = Some id ->
        Agent.social_identity a
        = IdList (repeat id
            (Z.to_nat (OpinionModel.p_n_agents p
                       / Z.of_nat (length (OpinionModel.p_social_id_groups p)))))) /\
     ((length (OpinionModel.p_social_id_groups p) <= i)%nat ->
      Agent.social_identity a = IdInt 0 \/ Agent.social_identity a = IdInt 1)).
  { intros i a Hi.
    destruct (Forall2_range_nth _ _ 0 _ i a Hall Hi) as (Hnode & _ & _ & Hid & _).
    cbn [Nat.add] in Hnode, Hid. rewrite Hattr in Hid. split.
    - intros id Hg.
      rewrite (set_node_attributes_key _ _ _ (Z.of_nat i)
                 (IdList (repeat id
                    (Z.to_nat (OpinionModel.p_n_agents p
                       / Z.of_nat (length (OpinionModel.p_social_id_groups p)))))))
        in Hid.
      + injection Hid as <-. reflexivity.
      + apply NoDup_enumerate_keys.
      + apply In_enumerate. unfold group_lists. rewrite nth_error_map, Hg. reflexivity.
      + rewrite <- HG. exact Hnode.
    - intros Hge. rewrite set_node_attributes_other in Hid.
      + apply (network_labels _ _ _ _ _ _ _ _ Hnet _ _ Hid).
      + rewrite map_fst_enumerate. unfold group_lists. rewrite length_map.
        intros Hin. apply in_map_iff in Hin. destruct Hin as (j & Hj & Hin).
        apply in_seq in Hin. lia. }
  split; [exact Hkind|].
  intros i j a b [Hi Hj] Ha Hb.
  destruct (Hkind i a Ha) as [Hlist _]. destruct (Hkind j b Hb) as [_ Hint].
  destruct (nth_error (OpinionModel.p_social_id_groups p) i) as [id|] eqn:Eg.
  - rewrite (Hlist id eq_refl). destruct (Hint Hj) as [-> | ->]; split; reflexivity.
  - apply nth_error_None in Eg. lia.
Qed.

End Constructed.

(** * The constructor on a configuration of four agents *)

Lemma four_network :
  create_withinAndBetweenGroup_network sample_py_seed sample_nx_graph sample_layout 0
    4 0 2 0 0 (mkWorld (constant_gen 0 0) (constant_gen (1 / 4) 0))
  = Ok (mkNetwork four_graph
          [(3%Z, IdInt 1); (2%Z, IdInt 1); (1%Z, IdInt 0); (0%Z, IdInt 0)]
          (fun _ => (0, 0)),
        mkWorld (constant_gen 0 0) (advance_n 4 (constant_gen (1 / 4) 0))).
Proof.
  assert (Hg : forall k, gen_ok (advance_n k (constant_gen (1 / 4) 0))).
  { intros k. apply gen_ok_advance_n, constant_gen_ok. lra. }
  unfold create_withinAndBetweenGroup_network.
  change (negb (4 mod 2 =? 0)%Z) with false. cbv iota.
  change ((0 mod 2 =? 0)%Z && (2 mod 2 =? 0)%Z) with true. cbv iota.
  change (sample_nx_graph (4 / 2) 0 0 0) with (Ok [(0%Z, @nil Z); (1%Z, @nil Z)]).
  change (sample_nx_graph (4 / 2) 0 0 (0 + 100)) with (Ok [(0%Z, @nil Z); (1%Z, @nil Z)]).
  cbn [bind].
  change (Graph.nodes [(0%Z, []); (1%Z, [])]) with [0%Z; 1%Z].
  change (Graph.nodes (Graph.relabel_shift [(0%Z, []); (1%Z, [])]
                         (Z.of_nat (Datatypes.length [0%Z; 1%Z]))))
    with [2%Z; 3%Z].
  change (Graph.add_nodes_from _ _)
    with [(0%Z, @nil Z); (1%Z, @nil Z); (2%Z, @nil Z); (3%Z, @nil Z)].
  unfold connect_groups.
  change (range (Z.of_nat (Datatypes.length [0%Z; 1%Z]))) with [0%Z; 1%Z].
  change (which_betweengroup_nodes_to_connect 2) with [0%Z; 1%Z].
  cbn [np].
  assert (Hnil : forall (A S : Type) (body : A -> S -> res S) (s : S),
            for_each [] body s = Ok s) by reflexivity.
  rewrite for_each_cons, for_each_cons, connect_no_rewiring by exact (Hg 0%nat). cbn [bind].
  rewrite for_each_cons, connect_no_rewiring by exact (Hg 1%nat). cbn [bind].
  rewrite Hnil. cbn [bind].
  rewrite for_each_cons, for_each_cons, connect_no_rewiring by exact (Hg 2%nat). cbn [bind].
  rewrite for_each_cons, connect_no_rewiring by exact (Hg 3%nat). cbn [bind].
  rewrite !Hnil. cbn [bind].
  reflexivity.
Qed.

Lemma four_construct :
  exists m w',
    OpinionModel.construct sample_np_seed sample_py_seed sample_nx_graph sample_layout 0
      four_params false [30%Z] sample_world = Ok (m, w') /\
    length (OpinionModel.schedule m) = 4%nat.
Proof.
  destruct (linalg_inv_returns _ _ heat_identity_inverse) as (M & HM).
  unfold OpinionModel.construct.
  change (OpinionModel.p_kappa four_params) with 0. rewrite HM. cbn [bind].
  change (IZR (OpinionModel.p_k_out four_params + OpinionModel.p_k_in four_params))
    with 2.
  change (OpinionModel.p_k four_params) with 2. rewrite Reqb_refl.
  cbn [OpinionModel.check bind].
  change (Z.of_nat (length (OpinionModel.p_social_id_groups four_params)) =? 0)%Z with false.
  cbv iota. cbn [bind].
  change (OpinionModel.p_n_agents four_params mod
            Z.of_nat (length (OpinionModel.p_social_id_groups four_params)) =? 0)%Z with true.
  cbn [OpinionModel.check bind].
  change (create_withinAndBetweenGroup_network _ _ _ _ _ _ _ _ _ _)
    with (create_withinAndBetweenGroup_network sample_py_seed sample_nx_graph sample_layout 0
            4 0 2 0 0 (mkWorld (constant_gen 0 0) (constant_gen (1 / 4) 0))).
  rewrite four_network. cbn [bind graph social_identity np].
  unfold sample_layout. cbv beta iota.
  change (range (Z.of_nat (length (Graph.nodes four_graph)))) with [0%Z; 1%Z; 2%Z; 3%Z].
  set (a := set_node_attributes four_graph _ _).
  set (g0 := advance_n 4 (constant_gen (1 / 4) 0)).
  destruct (create_agent_returns four_params four_graph a (fun _ => (0, 0)) 0
              (IdList [0%Z; 0%Z]) [] g0 eq_refl eq_refl) as (ag0 & E0).
  destruct (create_agent_returns four_params four_graph a (fun _ => (0, 0)) 1
              (IdList [1%Z; 1%Z]) ([] ++ [ag0]) (advance_n 2 g0) eq_refl eq_refl)
    as (ag1 & E1).
  destruct (create_agent_returns four_params four_graph a (fun _ => (0, 0)) 2
              (IdInt 1) (([] ++ [ag0]) ++ [ag1]) (advance_n 2 (advance_n 2 g0))
              eq_refl eq_refl) as (ag2 & E2).
  destruct (create_agent_returns four_params four_graph a (fun _ => (0, 0)) 3
              (IdInt 1) ((([] ++ [ag0]) ++ [ag1]) ++ [ag2])
              (advance_n 2 (advance_n 2 (advance_n 2 g0))) eq_refl eq_refl) as (ag3 & E3).
  rewrite for_each_cons, E0. cbn [bind]. rewrite for_each_cons, E1. cbn [bind].
  rewrite for_each_cons, E2. cbn [bind]. rewrite for_each_cons, E3. cbn [bind for_each].
  eexists; eexists; split; reflexivity.
Qed.

(** The four agents of [four_params]. *)
Lemma constructor_creates_the_agent_of_each_label_witness :
  exists m w',
    OpinionModel.construct sample_np_seed sample_py_seed sample_nx_graph sample_layout 0
      four_params false [30%Z] sample_world = Ok (m, w') /\
    length (OpinionModel.schedule m) = 4%nat /\
    length (OpinionModel.schedule m) = length (Graph.nodes (OpinionModel.G m)) /\
    forall i a,
      nth_error (OpinionModel.schedule m) i = Some a ->
      created_for four_params (OpinionModel.G m) (OpinionModel.node_social_identity m)
        (OpinionModel.pos m) (Z.of_nat i) a.
Proof.
  destruct four_construct as (m & w' & E & Hlen).
  exists m, w'. split; [exact E | split; [exact Hlen|]].
  exact (constructor_creates_the_agent_of_each_label sample_np_seed sample_py_seed
           sample_nx_graph sample_layout 0 four_params false [30%Z] sample_world m w' E).
Defined.

(** The four agents of [four_params]: the first two carry the lists
    [[0, 0]] and [[1, 1]], though both are in the first group; the last two
    carry the label of their group. *)
Lemma first_agents_carry_list_identities_witness :
  exists m w',
    OpinionModel.construct sample_np_seed sample_py_seed sample_nx_graph sample_layout 0
      four_params false [30%Z] sample_world = Ok (m, w') /\
    length (OpinionModel.schedule m) = 4%nat /\
    (forall a, nth_error (OpinionModel.schedule m) 0 = Some a ->
       Agent.social_identity a = IdList [0; 0]%Z) /\
    (forall a, nth_error (OpinionModel.schedule m) 1 = Some a ->
       Agent.social_identity a = IdList [1; 1]%Z) /\
    (forall a b, nth_error (OpinionModel.schedule m) 1 = Some a ->
       nth_error (OpinionModel.schedule m) 2 = Some b ->
       pyid_eqb (Agent.social_identity b) (Agent.social_identity a) = false /\
       pyid_eqb (Agent.social_identity a) (Agent.social_identity b) = false).
Proof.
  destruct four_construct as (m & w' & E & Hlen).
  destruct (first_agents_carry_list_identities sample_np_seed sample_py_seed
              sample_nx_graph sample_layout 0 four_params false [30%Z] sample_world m w' E)
    as [Hkind Hout].
  exists m, w'. split; [exact E | split; [exact Hlen|]].
  split; [|split].
  - intros a Ha. exact (proj1 (Hkind 0%nat a Ha) 0%Z eq_refl).
  - intros a Ha. exact (proj1 (Hkind 1%nat a Ha) 1%Z eq_refl).
  - intros a b Ha Hb. apply (Hout 1%nat 2%nat a b); [cbn; lia | exact Ha | exact Hb].
Defined.

(** * The checks of the constructor *)

Section Checks.

Variable np_seed : Z -> gen.
Variable py_seed : Z -> gen.
Variable nx_watts_strogatz_graph : Z -> Z -> R -> Z -> res Graph.t.
Variable nx_spring_layout : Graph.t -> gen -> layout * gen.
Variable fuel : nat.

Lemma Reqb_false (x y : R) : x <> y -> OpinionModel.Reqb x y = false.
Proof. intros H. unfold OpinionModel.Reqb. destruct (Req_dec_T x y); [contradiction | reflexivity]. Qed.

(** The network of a configuration with [k_in = 0] and an odd [k_out] has
    no node. *)
Lemma network_without_nodes (n k_out : Z) (p : R) (seed : Z) (w : world) :
  (n mod 2 = 0)%Z -> (0 < n / 2)%Z -> (k_out mod 2 <> 0)%Z ->
  exists net w',
    create_withinAndBetweenGroup_network py_seed nx_watts_strogatz_graph nx_spring_layout
      fuel n 0 k_out p seed w = Ok (net, w') /\
    graph net = Graph.empty.
Proof.
  intros Hn Hh Hk. unfold create_withinAndBetweenGroup_network.
  rewrite Hn. change (0 mod 2 =? 0)%Z with true. cbn [Z.eqb negb andb].
  destruct (Z.eqb_spec (k_out mod 2) 0) as [E|_]; [contradiction|].
  rewrite UnevenK_no_degree by exact Hh. cbn [bind].
  rewrite UnevenK_no_degree by exact Hh. cbn [bind np py].
  cbn.
  destruct (nx_spring_layout _ _) as [pos g']. eauto.
Qed.

(** X12.  The checks of the constructor, in the order in which they fail,
    once the matrix of the heat equation has an inverse: a seed outside
    [0 .. 2**32 - 1] raises ValueError; then degrees that do not add up to
    [k] raise AssertionError; then an empty list of groups raises
    ZeroDivisionError; then a number of agents that is no multiple of the
    number of groups raises AssertionError; then an odd number of agents
    raises AssertionError in the network module; then, when one of the two
    degrees is odd, an in-group degree of at least half the agents raises
    NetworkXError; and with [k_in = 0] and an odd [k_out] the network has no
    node, for which [nx.adjacency_matrix] raises NetworkXError. *)
Theorem constructor_checks_in_order p rep tks w Minv :
  linalg_inv (mat_heat_equation (OpinionModel.p_kappa p)) = Ok Minv ->
  let construct :=
    OpinionModel.construct np_seed py_seed nx_watts_strogatz_graph nx_spring_layout fuel
      p rep tks w in
  let groups := Z.of_nat (length (OpinionModel.p_social_id_groups p)) in
  (~ (0 <= OpinionModel.p_seed p < 4294967296)%Z -> construct = Raise ValueError) /\
  ((0 <= OpinionModel.p_seed p < 4294967296)%Z ->
   (IZR (OpinionModel.p_k_out p + OpinionModel.p_k_in p) <> OpinionModel.p_k p ->
    construct = Raise AssertionError) /\
   (IZR (OpinionModel.p_k_out p + OpinionModel.p_k_in p) = OpinionModel.p_k p ->
    (groups = 0%Z -> construct = Raise ZeroDivisionError) /\
    (groups <> 0%Z ->
     ((OpinionModel.p_n_agents p mod groups <> 0)%Z -> construct = Raise AssertionError) /\
     ((OpinionModel.p_n_agents p mod groups = 0)%Z ->
      ((OpinionModel.p_n_agents p mod 2 <> 0)%Z -> construct = Raise AssertionError) /\
      ((OpinionModel.p_n_agents p mod 2 = 0)%Z ->
       ((OpinionModel.p_k_in p mod 2 <> 0 \/ OpinionModel.p_k_out p mod 2 <> 0)%Z ->
        (OpinionModel.p_n_agents p / 2 <= OpinionModel.p_k_in p)%Z ->
        construct = Raise NetworkXError) /\
       (OpinionModel.p_k_in p = 0%Z -> (OpinionModel.p_k_out p mod 2 <> 0)%Z ->
        (0 < OpinionModel.p_n_agents p / 2)%Z ->
        construct = Raise NetworkXError)))))).
Proof.
  intros HM construct groups. subst construct groups. unfold OpinionModel.construct.
  rewrite HM. cbn [bind]. unfold OpinionModel.seed_check. split.
  - intros Hs.
    destruct (Z.leb_spec 0 (OpinionModel.p_seed p));
      destruct (Z.ltb_spec (OpinionModel.p_seed p) 4294967296);
      cbn [andb bind]; try reflexivity. lia.
  - intros [Hs1 Hs2].
    destruct (Z.leb_spec 0 (OpinionModel.p_seed p)); [|lia].
    destruct (Z.ltb_spec (OpinionModel.p_seed p) 4294967296); [|lia].
    cbn [andb bind]. split.
    + intros Hk. rewrite (Reqb_false _ _ Hk). reflexivity.
    + intros Hk. rewrite Hk, Reqb_refl. cbn [OpinionModel.check bind]. split.
      * intros Hg. rewrite Hg. reflexivity.
      * intros Hg.
        destruct (Z.eqb_spec (Z.of_nat (length (OpinionModel.p_social_id_groups p))) 0);
          [contradiction|]. cbn [bind]. split.
        -- intros Hm. destruct (Z.eqb_spec (OpinionModel.p_n_agents p
                        mod Z.of_nat (length (OpinionModel.p_social_id_groups p))) 0);
             [contradiction | reflexivity].
        -- intros Hm. rewrite Hm. cbn [Z.eqb OpinionModel.check bind]. split.
           ++ intros Hodd. unfold create_withinAndBetweenGroup_network.
              destruct (Z.eqb_spec (OpinionModel.p_n_agents p mod 2) 0);
                [contradiction | reflexivity].
           ++ intros Heven. split.
              ** intros Hk_odd Hbig. unfold create_withinAndBetweenGroup_network.
                 rewrite Heven. cbn [Z.eqb negb].
                 assert (Hc : (OpinionModel.p_k_in p mod 2 =? 0)%Z
                              && (OpinionModel.p_k_out p mod 2 =? 0)%Z = false).
                 { destruct (Z.eqb_spec (OpinionModel.p_k_in p mod 2) 0);
                     destruct (Z.eqb_spec (OpinionModel.p_k_out p mod 2) 0);
                     try reflexivity. lia. }
                 rewrite Hc. unfold watts_strogatz_graph_UnevenK.
                 destruct (Z.leb_spec (OpinionModel.p_n_agents p / 2) (OpinionModel.p_k_in p));
                   [reflexivity | lia].
              ** intros Hin Hout Hhalf. rewrite Hin.
                 destruct (network_without_nodes (OpinionModel.p_n_agents p)
                             (OpinionModel.p_k_out p) (OpinionModel.p_p_rewire p)
                             (OpinionModel.p_seed p)
                             (mkWorld (py w) (np_seed (OpinionModel.p_seed p)))
                             Heven Hhalf Hout) as (net & w' & -> & Hnet).
                 cbn [bind]. rewrite Hnet. reflexivity.
Qed.

End Checks.

(** A negative seed, degrees that do not add up, no group at all, an
    in-group degree of 3 in groups of two, and no in-group links at all. *)
Lemma constructor_checks_in_order_witness :
  OpinionModel.construct sample_np_seed sample_py_seed sample_nx_graph sample_layout 0
    (OpinionModel.mkParams 4 [0; 1]%Z (1 / 2) (1 / 2) 3 0 0 2 (1 / 5) (1 / 5) 0 0 (-1))
    false [30%Z] sample_world = Raise ValueError /\
  OpinionModel.construct sample_np_seed sample_py_seed sample_nx_graph sample_layout 0
    (OpinionModel.mkParams 4 [0; 1]%Z (1 / 2) (1 / 2) 3 0 0 2 (1 / 5) (1 / 5) 0 0 0)
    false [30%Z] sample_world = Raise AssertionError /\
  OpinionModel.construct sample_np_seed sample_py_seed sample_nx_graph sample_layout 0
    (OpinionModel.mkParams 4 []%Z (1 / 2) (1 / 2) 2 0 0 2 (1 / 5) (1 / 5) 0 0 0)
    false [30%Z] sample_world = Raise ZeroDivisionError /\
  OpinionModel.construct sample_np_seed sample_py_seed sample_nx_graph sample_layout 0
    (OpinionModel.mkParams 4 [0; 1]%Z (1 / 2) (1 / 2) 3 0 3 0 (1 / 5) (1 / 5) 0 0 0)
    false [30%Z] sample_world = Raise NetworkXError /\
  OpinionModel.construct sample_np_seed sample_py_seed sample_nx_graph sample_layout 0
    (OpinionModel.mkParams 4 [0; 1]%Z (1 / 2) (1 / 2) 1 0 0 1 (1 / 5) (1 / 5) 0 0 0)
    false [30%Z] sample_world = Raise NetworkXError.
Proof.
  destruct (linalg_inv_returns _ _ heat_identity_inverse) as (M & HM).
  assert (Hs : (0 <= 0 < 4294967296)%Z) by lia.
  split; [|split; [|split; [|split]]].
  - apply (proj1 (constructor_checks_in_order sample_np_seed sample_py_seed sample_nx_graph
                    sample_layout 0
                    (OpinionModel.mkParams 4 [0; 1]%Z (1 / 2) (1 / 2) 3 0 0 2 (1 / 5) (1 / 5)
                       0 0 (-1)) false [30%Z] sample_world M HM)).
    cbn. lia.
  - apply (proj1 (proj2 (constructor_checks_in_order sample_np_seed sample_py_seed
                    sample_nx_graph sample_layout 0
                    (OpinionModel.mkParams 4 [0; 1]%Z (1 / 2) (1 / 2) 3 0 0 2 (1 / 5) (1 / 5)
                       0 0 0) false [30%Z] sample_world M HM) Hs)).
    cbn. lra.
  - apply (proj2 (proj2 (constructor_checks_in_order sample_np_seed sample_py_seed
                    sample_nx_graph sample_layout 0
                    (OpinionModel.mkParams 4 []%Z (1 / 2) (1 / 2) 2 0 0 2 (1 / 5) (1 / 5)
                       0 0 0) false [30%Z] sample_world M HM) Hs));
      [cbn; lra | reflexivity].
  - destruct (proj2 (proj2 (constructor_checks_in_order sample_np_seed sample_py_seed
                    sample_nx_graph sample_layout 0
                    (OpinionModel.mkParams 4 [0; 1]%Z (1 / 2) (1 / 2) 3 0 3 0 (1 / 5) (1 / 5)
                       0 0 0) false [30%Z] sample_world M HM) Hs)) as [_ H];
      [cbn; lra|].
    destruct H as [_ H]; [cbn; lia|]. destruct H as [_ H]; [reflexivity|].
    destruct H as [H _]; [reflexivity|]. apply H; [left; cbn; lia | cbn; lia].
  - destruct (proj2 (proj2 (constructor_checks_in_order sample_np_seed sample_py_seed
                    sample_nx_graph sample_layout 0
                    (OpinionModel.mkParams 4 [0; 1]%Z (1 / 2) (1 / 2) 1 0 0 1 (1 / 5) (1 / 5)
                       0 0 0) false [30%Z] sample_world M HM) Hs)) as [_ H];
      [cbn; lra|].
    destruct H as [_ H]; [cbn; lia|]. destruct H as [_ H]; [reflexivity|].
    destruct H as [_ H]; [reflexivity|]. apply H; [reflexivity | cbn; lia | cbn; lia].
Defined.

(* ------------------------------------------------------------------ *)
(** * Further properties of the network *)

Local Open Scope Z_scope.

(** * The far end of a link between the groups *)

Lemma offsets_small (k_out i : Z) :
  In i (which_betweengroup_nodes_to_connect k_out) -> -4 <= i <= 4.
Proof.
  unfold which_betweengroup_nodes_to_connect, slice_to.
  intros H. assert (Hin : In i [0; 1; -1; 2; -2; 3; -3; 4; -4]).
  { destruct (0 <=? k_out);
      match type of H with In _ (firstn ?n ?l) =>
        rewrite <- (firstn_skipn n l); apply in_or_app; left; exact H end. }
  cbn [In] in Hin. lia.
Qed.

(** X13.  The index arithmetic for the far end of a link between the
    groups, for a node [edgefrom] of a first group of [half] nodes and an
    offset [i]: the far end lies in the second group exactly when
    [-half - edgefrom <= i < 2 * half - edgefrom].  A larger offset gives the
    label [edgefrom + i], beyond the [n] labels of the network; a smaller one
    gives [edgefrom + n + i], below the second group.  With groups of four
    nodes or more, every offset that is ever used stays in the second group,
    whatever [k_out] is. *)
Theorem far_end_of_a_link (half edgefrom i : Z) :
  0 <= edgefrom < half ->
  let edgeto := edgeto_of (2 * half) half edgefrom i in
  (half <= edgeto < 2 * half <-> - half - edgefrom <= i < 2 * half - edgefrom) /\
  (2 * half - edgefrom <= i -> edgeto = edgefrom + i) /\
  (i < - half - edgefrom -> edgeto = edgefrom + 2 * half + i) /\
  (4 <= half ->
   forall k_out j, In j (which_betweengroup_nodes_to_connect k_out) ->
     half <= edgeto_of (2 * half) half edgefrom j < 2 * half).
Proof.
  intros He edgeto. subst edgeto.
  assert (Hchar : forall j,
    (half <= edgeto_of (2 * half) half edgefrom j < 2 * half
     <-> - half - edgefrom <= j < 2 * half - edgefrom) /\
    (2 * half - edgefrom <= j -> edgeto_of (2 * half) half edgefrom j = edgefrom + j) /\
    (j < - half - edgefrom -> edgeto_of (2 * half) half edgefrom j = edgefrom + 2 * half + j)).
  { intros j. unfold edgeto_of.
    destruct (Z.leb_spec (2 * half) (edgefrom + half + j));
      [destruct (Z.ltb_spec (edgefrom + half + j - half) half)
      |destruct (Z.ltb_spec (edgefrom + half + j) half)]; lia. }
  destruct (Hchar i) as (H1 & H2 & H3).
  split; [exact H1 | split; [exact H2 | split; [exact H3|]]].
  intros Hbig k_out j Hj. apply offsets_small in Hj. apply (Hchar j). lia.
Qed.

(** Groups of two nodes, the second node, offset 3: the far end is the
    label 4, which no node of a network of four carries. *)
Lemma far_end_of_a_link_witness :
  edgeto_of (2 * 2) 2 1 3 = 4 /\
  (2 <= edgeto_of (2 * 2) 2 1 (-1) < 2 * 2) /\
  (forall k_out j, In j (which_betweengroup_nodes_to_connect k_out) ->
     5 <= edgeto_of (2 * 5) 5 1 j < 2 * 5).
Proof.
  split; [|split].
  - apply (proj1 (proj2 (far_end_of_a_link 2 1 3 ltac:(lia)))). lia.
  - apply (proj1 (far_end_of_a_link 2 1 (-1) ltac:(lia))). lia.
  - apply (proj2 (proj2 (proj2 (far_end_of_a_link 5 1 0 ltac:(lia))))). lia.
Defined.

(** * The ring of a group *)

Lemma combine_app_eq {A B : Type} (l1 l2 : list A) (h1 h2 : list B) :
  length l1 = length h1 -> combine (l1 ++ l2) (h1 ++ h2) = combine l1 h1 ++ combine l2 h2.
Proof.
  revert h1; induction l1 as [|a l1 IH]; intros [|b h1] H; try discriminate; [reflexivity|].
  injection H as H. cbn [app combine]. rewrite IH by assumption. reflexivity.
Qed.

Lemma firstn_seq_le (j m a : nat) : firstn j (seq a (j + m)) = seq a j.
Proof.
  revert a; induction j as [|j IH]; intros a; [reflexivity|].
  cbn [Nat.add seq firstn]. rewrite IH. reflexivity.
Qed.

Lemma combine_map_r {A B : Type} (g : A -> B) (l : list A) :
  combine l (map g l) = map (fun i => (i, g i)) l.
Proof. induction l as [|a l IH]; [reflexivity|]. cbn [map combine]. rewrite IH. reflexivity. Qed.

Lemma seq_plus (j m a : nat) : seq (a + j) m = map (fun i => (i + j)%nat) (seq a m).
Proof.
  revert a; induction m as [|m IH]; intros a; [reflexivity|].
  cbn [seq map]. f_equal. apply (IH (S a)).
Qed.

Lemma seq_minus (j m a : nat) : seq a m = map (fun i => (i - j)%nat) (seq (a + j) m).
Proof.
  revert a; induction m as [|m IH]; intros a; [reflexivity|].
  cbn [seq map]. f_equal; [lia|]. apply (IH (S a)).
Qed.

Lemma combine_rotate_seq (m j : nat) :
  combine (seq 0 (m + j)) (seq j m ++ seq 0 j)
  = map (fun i => (i, (i + j) mod (m + j))%nat) (seq 0 (m + j)).
Proof.
  rewrite seq_app, map_app, combine_app_eq by (rewrite !length_seq; reflexivity).
  f_equal.
  - rewrite (seq_plus j m 0 : seq j m = _), combine_map_r. apply map_ext_in. intros i Hi.
    apply in_seq in Hi. rewrite Nat.mod_small by lia. reflexivity.
  - cbn [Nat.add]. rewrite (seq_minus m j 0 : seq 0 j = map _ (seq m j)), combine_map_r. apply map_ext_in. intros i Hi.
    apply in_seq in Hi. f_equal.
    replace (i + j)%nat with ((i - m) + 1 * (m + j))%nat by lia.
    rewrite Nat.Div0.mod_add. rewrite Nat.mod_small by lia. reflexivity.
Qed.

(** [zip(nodes, nodes[j:] + nodes[0:j])] pairs every node with the node [j]
    places further round the ring. *)
Lemma combine_rotate (n j : Z) :
  0 <= j <= n ->
  combine (range n) (rotate (range n) j) = map (fun u => (u, (u + j) mod n)) (range n).
Proof.
  intros Hj. unfold rotate, range.
  set (J := Z.to_nat j).
  assert (HN : Z.to_nat n = ((Z.to_nat n - J) + J)%nat) by (unfold J; lia).
  set (M := (Z.to_nat n - J)%nat) in *. rewrite HN.
  rewrite skipn_map, firstn_map, skipn_seq, <- map_app.
  rewrite (Nat.add_comm M J) at 3. rewrite firstn_seq_le.
  replace (M + J - J)%nat with M by lia. cbn [Nat.add].
  assert (Hc : forall (l l' : list nat),
            combine (map Z.of_nat l) (map Z.of_nat l')
            = map (fun p => (Z.of_nat (fst p), Z.of_nat (snd p))) (combine l l')).
  { induction l as [|a l IH]; intros [|b l']; try reflexivity.
    cbn [map combine fst snd]. rewrite IH. reflexivity. }
  rewrite Hc, combine_rotate_seq, !map_map. apply map_ext_in. intros i Hi.
  apply in_seq in Hi. cbn [fst snd]. f_equal.
  rewrite Nat2Z.inj_mod, Nat2Z.inj_add. f_equal; [unfold J; lia | lia].
Qed.

(** * What the generator of a group keeps true *)

Lemma for_each_invariant_in {A S : Type} (P : S -> Prop) (body : A -> S -> res S)
    (l : list A) :
  (forall a s s', In a l -> P s -> body a s = Ok s' -> P s') ->
  forall s s', P s -> for_each l body s = Ok s' -> P s'.
Proof.
  induction l as [|a l IH]; intros Hbody s s' Hs H.
  - cbn [for_each] in H. apply Ok_inj in H. subst s'. exact Hs.
  - rewrite for_each_cons in H. inv_bind H.
    apply (IH (fun b t t' Hb => Hbody b t t' (or_intror Hb)) a0 s');
      [|exact H]. apply (Hbody a s a0 (or_introl eq_refl) Hs E).
Qed.

Section GroupGraph.
Import Graph GraphFacts.

Variable py_seed : Z -> gen.
Variable fuel : nat.

(** The candidate with which the retry loop ends is the first one or one of
    the nodes; it is not the node itself and not a neighbour of it. *)
Lemma rewire_retry_Some (f : nat) (G : Graph.t) (nodes : list Z) (n u : Z) :
  forall (w : Z) (g : gen) (w' : Z) (g' : gen),
    rewire_retry f G nodes n u w g = Ok (Some w', g') ->
    (w' = w \/ In w' nodes) /\ w' <> u /\ has_edge G u w' = false.
Proof.
  induction f as [|f IH]; intros w g w' g' H; cbn [rewire_retry] in H.
  - destruct (Z.eqb_spec w u) as [Hwu|Hwu]; cbn [orb] in H; [discriminate|].
    destruct (has_edge G u w) eqn:He; [discriminate|].
    apply Ok_inj in H. injection H as <- _. auto.
  - destruct (Z.eqb_spec w u) as [Hwu|Hwu]; cbn [orb] in H.
    + inv_bind H. destruct a as [w1 g1].
      destruct (n - 1 <=? degree G u); [discriminate|].
      apply choice_In in E. destruct E as [Hin _].
      destruct (IH _ _ _ _ H) as ([->|Hw'] & Hne & He); auto.
    + destruct (has_edge G u w) eqn:He.
      * inv_bind H. destruct a as [w1 g1].
        destruct (n - 1 <=? degree G u); [discriminate|].
        apply choice_In in E. destruct E as [Hin _].
        destruct (IH _ _ _ _ H) as ([->|Hw'] & Hne & He'); auto.
      * apply Ok_inj in H. injection H as <- _. auto.
Qed.

Section Invariant.

Variable n : Z.
Variable P : Graph.t -> Prop.
Hypothesis P_add :
  forall G u v, P G -> 0 <= u < n -> 0 <= v < n -> u <> v -> P (add_edge G u v).
Hypothesis P_remove :
  forall G G' u v, P G -> remove_edge G u v = Ok G' -> P G'.

Lemma rewire_keeps (G G' : Graph.t) (u v : Z) (g g' : gen) :
  P G -> 0 <= u < n ->
  rewire fuel G (range n) n u v g = Ok (G', g') -> P G'.
Proof.
  intros HP Hu H. unfold rewire in H. inv_bind H. destruct a as [w g1].
  inv_bind H. destruct a as [[w'|] g2].
  - apply choice_In in E. destruct E as [Hw _].
    destruct (rewire_retry_Some _ _ _ _ _ _ _ _ _ E0) as (Hw' & Hne & _).
    inv_bind H. apply Ok_inj in H. injection H as <- _.
    apply P_add; [eapply P_remove; eassumption | assumption | | congruence].
    apply In_range. destruct Hw' as [->|Hw']; assumption.
  - apply Ok_inj in H. injection H as <- _. exact HP.
Qed.

Lemma rewire_edge_keeps (p : R) (e : Z * Z) (G G' : Graph.t) (w w' : world) :
  P G -> 0 <= fst e < n ->
  rewire_edge fuel n p (range n) e (G, w) = Ok (G', w') -> P G'.
Proof.
  intros HP Hu H. unfold rewire_edge, random in H.
  destruct (Rltb _ p).
  - inv_bind H. destruct a as [G1 py2]. apply Ok_inj in H. injection H as <- _.
    apply (rewire_keeps _ _ _ _ _ _ HP Hu E).
  - apply Ok_inj in H. injection H as <- _. exact HP.
Qed.

Lemma odd_edge_keeps (k : Z) (p : R) (m : Z) (G G' : Graph.t) (w w' : world) :
  P G -> 0 <= k < n -> k mod 2 = 1 -> 0 <= m < n ->
  odd_edge fuel n k p (range n) m (G, w) = Ok (G', w') -> P G'.
Proof.
  intros HP Hk Hodd Hm H. unfold odd_edge, random in H.
  destruct (Rltb _ (1 / 2)).
  - destruct (nth_error (range n) _) as [oddtarget|] eqn:Et; [|discriminate].
    assert (Ht : oddtarget = (m + k / 2 + 1) mod n).
    { unfold range in Et. rewrite nth_error_map, nth_error_seq in Et.
      destruct (Nat.ltb_spec (Z.to_nat ((m + k / 2 + 1) mod n)) (Z.to_nat n));
        [|discriminate].
      cbn in Et. injection Et as <-.
      pose proof (Z.mod_pos_bound (m + k / 2 + 1) n ltac:(lia)). lia. }
    assert (Hrange : 0 <= oddtarget < n) by (subst; apply Z.mod_pos_bound; lia).
    assert (Hne : m <> oddtarget).
    { subst oddtarget. intros Heq.
      assert (Hk2 : 0 <= k / 2) by (apply Z.div_pos; lia).
      assert (Hk3 : k = 2 * (k / 2) + 1).
      { pose proof (Z.div_mod k 2 ltac:(lia)) as Hdm. rewrite Hodd in Hdm. exact Hdm. }
      destruct (Z.lt_ge_cases (m + k / 2 + 1) n) as [Hlt|Hge].
      - rewrite Z.mod_small in Heq by lia. lia.
      - replace (m + k / 2 + 1) with ((m + k / 2 + 1 - n) + 1 * n) in Heq by lia.
        rewrite Z.mod_add, Z.mod_small in Heq by lia. lia. }
    pose proof (P_add G m oddtarget HP Hm Hrange Hne) as HP1.
    destruct (Rltb _ p).
    + inv_bind H. destruct a as [G2 py2]. apply Ok_inj in H. injection H as <- _.
      apply (rewire_keeps _ _ _ _ _ _ HP1 Hm E).
    + apply Ok_inj in H. injection H as <- _. exact HP1.
  - apply Ok_inj in H. injection H as <- _. exact HP.
Qed.

Lemma ring_keeps (j : Z) (G : Graph.t) :
  P G -> 1 <= j < n -> P (add_edges_from G (combine (range n) (rotate (range n) j))).
Proof.
  intros HP Hj. rewrite combine_rotate by lia. unfold add_edges_from.
  assert (Hgen : forall (l : list Z) (H : Graph.t),
            (forall u, In u l -> 0 <= u < n) -> P H ->
            P (fold_left (fun H e => add_edge H (fst e) (snd e))
                 (map (fun u => (u, (u + j) mod n)) l) H)).
  { induction l as [|u l IH]; intros H Hl HH; [exact HH|].
    cbn [map fold_left fst snd]. apply IH; [intros x Hx; apply Hl; right; exact Hx|].
    assert (Hu : 0 <= u < n) by (apply Hl; left; reflexivity).
    apply P_add; [exact HH | exact Hu | apply Z.mod_pos_bound; lia|].
    intros Heq. destruct (Z.lt_ge_cases (u + j) n) as [Hlt|Hge].
    - rewrite Z.mod_small in Heq by lia. lia.
    - replace (u + j) with ((u + j - n) + 1 * n) in Heq by lia.
      rewrite Z.mod_add, Z.mod_small in Heq by lia. lia. }
  apply Hgen; [|exact HP]. intros u Hu. apply In_range. exact Hu.
Qed.

Lemma In_range2 (a b x : Z) : In x (range2 a b) <-> a <= x < b.
Proof.
  unfold range2. rewrite in_map_iff. split.
  - intros (i & <- & Hi). apply in_seq in Hi. lia.
  - intros Hx. exists (Z.to_nat (x - a)). split; [lia|]. apply in_seq. lia.
Qed.

Lemma rings_keep_list (l : list Z) :
  forall H : Graph.t,
    (forall j, In j l -> 1 <= j < n) -> P H ->
    P (fold_left (fun G j => add_edges_from G (combine (range n) (rotate (range n) j))) l H).
Proof.
  induction l as [|j l IH]; intros H Hl HH; [exact HH|].
  cbn [fold_left]. apply IH; [intros x Hx; apply Hl; right; exact Hx|].
  apply ring_keeps; [exact HH | apply Hl; left; reflexivity].
Qed.

Lemma ring_distances (k j : Z) : k < n -> In j (range2 1 (k / 2 + 1)) -> 1 <= j < n.
Proof.
  intros Hk Hj. apply In_range2 in Hj.
  destruct (Z.le_gt_cases 0 k) as [Hk0|Hk0].
  - assert (2 * (k / 2) <= k) by (apply Z.mul_div_le; lia). lia.
  - assert (k / 2 < 0) by (apply Z.div_lt_upper_bound; lia). lia.
Qed.

(** What the ring of the group has, and adding an edge between two
    different nodes of the group and removing an edge keep, the graph
    returned has. *)
Lemma UnevenK_after_rings (k : Z) (p : R) (seed : Z) (w : world) (G : Graph.t) (w' : world) :
  P (fold_left (fun G j => add_edges_from G (combine (range n) (rotate (range n) j)))
       (range2 1 (k / 2 + 1)) empty) ->
  0 <= k ->
  watts_strogatz_graph_UnevenK py_seed fuel n k p seed w = Ok (G, w') -> P G.
Proof.
  intros HP0 Hk0 H. unfold watts_strogatz_graph_UnevenK in H.
  destruct (Z.leb_spec n k) as [|Hk]; [discriminate|].
  cbv zeta in H. inv_bind H. destruct a as [G1 w1].
  assert (HP1 : P G1).
  { destruct (Z.eqb_spec (k mod 2) 1) as [Hodd|_].
    - match type of E with for_each _ _ ?s0 = _ =>
        apply (for_each_invariant_in (fun s => P (fst s)) (odd_edge fuel n k p (range n))
                 (range n)) with (s := s0) (s' := (G1, w1)); [|exact HP0 | exact E] end.
      intros m [G2 w2] [G3 w3] Hm HP2 Hbody. cbn [fst] in *.
      apply In_range in Hm.
      apply (odd_edge_keeps k p m G2 G3 w2 w3 HP2 (conj Hk0 Hk) Hodd Hm Hbody).
    - apply Ok_inj in E. injection E as <- _. exact HP0. }
  apply (for_each_invariant_in (fun s => P (fst s))
           (fun j => for_each (combine (range n) (rotate (range n) j))
                       (rewire_edge fuel n p (range n)))
           (range2 1 (k / 2 + 1))) with (s := (G1, w1)) (s' := (G, w'));
    [|exact HP1 | exact H].
  intros j [G2 w2] [G3 w3] Hj HP2 Hrow. cbn [fst] in *.
  apply (for_each_invariant_in (fun s => P (fst s)) (rewire_edge fuel n p (range n))
           (combine (range n) (rotate (range n) j))) with (s := (G2, w2)) (s' := (G3, w3));
    [|exact HP2 | exact Hrow].
  intros e [G4 w4] [G5 w5] He HP4 Hbody. cbn [fst] in *.
  apply (rewire_edge_keeps p e G4 G5 w4 w5 HP4); [|exact Hbody].
  destruct e as [u v]. apply in_combine_l in He. apply In_range in He. exact He.
Qed.

Lemma UnevenK_keeps (k : Z) (p : R) (seed : Z) (w : world) (G : Graph.t) (w' : world) :
  P empty -> 0 <= k ->
  watts_strogatz_graph_UnevenK py_seed fuel n k p seed w = Ok (G, w') -> P G.
Proof.
  intros Hempty Hk0 H. apply (UnevenK_after_rings k p seed w G w'); [|exact Hk0 | exact H].
  unfold watts_strogatz_graph_UnevenK in H.
  destruct (Z.leb_spec n k) as [|Hk]; [discriminate|].
  apply rings_keep_list; [|exact Hempty]. intros j Hj. apply (ring_distances k j Hk Hj).
Qed.

End Invariant.


Lemma simple_on_empty (n : Z) : simple_on n empty.
Proof. unfold simple_on. repeat split; intros; cbn in *; try discriminate; reflexivity. Qed.

Lemma simple_on_add_edge (n : Z) (G : Graph.t) (u v : Z) :
  simple_on n G -> 0 <= u < n -> 0 <= v < n -> u <> v -> simple_on n (add_edge G u v).
Proof.
  intros (Hn & Hl & He & Hs) Hu Hv Hne. unfold simple_on.
  split; [|split; [|split]].
  - intros x. rewrite has_node_add_edge. intros H.
    apply orb_prop in H. destruct H as [H|H]; [apply orb_prop in H; destruct H as [H|H]|].
    + apply Hn; exact H.
    + apply Z.eqb_eq in H. lia.
    + apply Z.eqb_eq in H. lia.
  - intros x. rewrite has_edge_add_edge, Hl.
    destruct (Z.eqb_spec x u), (Z.eqb_spec x v); try reflexivity. congruence.
  - intros x y. rewrite has_edge_add_edge, !has_node_add_edge. intros H.
    apply orb_prop in H. destruct H as [H|H]; [apply orb_prop in H; destruct H as [H|H]|].
    + destruct (He x y H) as [-> ->]. split; reflexivity.
    + apply andb_prop in H. destruct H as [-> ->]. split; rewrite ?orb_true_r; reflexivity.
    + apply andb_prop in H. destruct H as [-> ->]. split; rewrite ?orb_true_r; reflexivity.
  - intros x y. rewrite !has_edge_add_edge, (Hs x y).
    destruct (has_edge G y x), (x =? u), (y =? v), (x =? v), (y =? u); reflexivity.
Qed.

Lemma simple_on_remove_edge (n : Z) (G G' : Graph.t) (u v : Z) :
  simple_on n G -> remove_edge G u v = Ok G' -> simple_on n G'.
Proof.
  intros (Hn & Hl & He & Hs) H. unfold simple_on.
  split; [|split; [|split]].
  - intros x. rewrite (has_node_remove_edge _ _ _ _ x H). apply Hn.
  - intros x. rewrite (has_edge_remove_edge _ _ _ _ x x H), Hl. reflexivity.
  - intros x y. rewrite (has_edge_remove_edge _ _ _ _ x y H),
      !(has_node_remove_edge _ _ _ _ _ H). intros Hxy.
    apply andb_prop in Hxy. destruct Hxy as [Hxy _].
    apply andb_prop in Hxy. destruct Hxy as [Hxy _]. apply He; exact Hxy.
  - intros x y. rewrite (has_edge_remove_edge _ _ _ _ x y H),
      (has_edge_remove_edge _ _ _ _ y x H), (Hs x y).
    destruct (has_edge G y x), (x =? u), (y =? v), (x =? v), (y =? u); reflexivity.
Qed.

Lemma has_node_add_edges_from (es : list (Z * Z)) :
  forall (H : Graph.t) (x : Z),
    has_node (add_edges_from H es) x
    = has_node H x || existsb (fun e => (x =? fst e) || (x =? snd e)) es.
Proof.
  unfold add_edges_from.
  induction es as [|e es IH]; intros H x; cbn [fold_left existsb].
  - rewrite orb_false_r. reflexivity.
  - rewrite IH, has_node_add_edge. rewrite <- !orb_assoc. reflexivity.
Qed.

(** With one ring all the nodes of the group are in the graph. *)
Lemma first_ring_has_all_nodes (n : Z) (x : Z) :
  0 <= x < n ->
  has_node (add_edges_from empty (combine (range n) (rotate (range n) 1))) x = true.
Proof.
  intros Hx. rewrite combine_rotate by lia. rewrite has_node_add_edges_from.
  apply orb_true_iff. right. apply existsb_exists.
  exists (x, (x + 1) mod n). split.
  - apply in_map_iff. exists x. split; [reflexivity | apply In_range; exact Hx].
  - cbn [fst]. rewrite Z.eqb_refl. reflexivity.
Qed.

Lemma UnevenK_simple (n k : Z) (p : R) (seed : Z) (w : world) (G : Graph.t) (w' : world) :
  0 <= k ->
  watts_strogatz_graph_UnevenK py_seed fuel n k p seed w = Ok (G, w') -> simple_on n G.
Proof.
  intros Hk H.
  apply (UnevenK_keeps n (simple_on n) (simple_on_add_edge n) (simple_on_remove_edge n)
           k p seed w G w' (simple_on_empty n) Hk H).
Qed.

Lemma UnevenK_all_nodes (n k : Z) (p : R) (seed : Z) (w : world) (G : Graph.t) (w' : world) :
  2 <= k ->
  watts_strogatz_graph_UnevenK py_seed fuel n k p seed w = Ok (G, w') ->
  forall x, 0 <= x < n -> has_node G x = true.
Proof.
  intros Hk2 H.
  apply (UnevenK_after_rings n (fun G => forall x, 0 <= x < n -> has_node G x = true))
    with (k := k) (p := p) (seed := seed) (w := w) (w' := w'); [| | |lia | exact H].
  - intros G0 u v HG _ _ _ x Hx. rewrite has_node_add_edge, (HG x Hx). reflexivity.
  - intros G0 G1 u v HG Hr x Hx. rewrite (has_node_remove_edge _ _ _ _ x Hr). apply HG, Hx.
  - assert (Hkn : k < n).
    { unfold watts_strogatz_graph_UnevenK in H.
      destruct (Z.leb_spec n k); [discriminate | assumption]. }
    assert (Hhalf : 1 <= k / 2) by (apply Z.div_le_lower_bound; lia).
    unfold range2. replace (Z.to_nat (k / 2 + 1 - 1)) with (S (Z.to_nat (k / 2 - 1))) by lia.
    cbn [seq map fold_left]. change (1 + Z.of_nat 0) with 1.
    apply (rings_keep_list n (fun G => forall x, 0 <= x < n -> has_node G x = true)).
    + intros G0 u v HG _ _ _ x Hx. rewrite has_node_add_edge, (HG x Hx). reflexivity.
    + intros j Hj. apply in_map_iff in Hj. destruct Hj as (i & <- & Hi).
      apply in_seq in Hi.
      assert (2 * (k / 2) <= k) by (apply Z.mul_div_le; lia). lia.
    + intros x Hx. apply first_ring_has_all_nodes; exact Hx.
Qed.

(** X14.  The graph that [watts_strogatz_graph_UnevenK] returns for a degree
    [k >= 0] is a simple graph on the labels [0 .. n-1]: it has no node
    outside these labels and no self-loop, whatever the rewiring does.  For
    [k >= 2] it has all of the [n] nodes. *)
Theorem group_graph_is_simple (n k : Z) (p : R) (seed : Z) (w : world)
    (G : Graph.t) (w' : world) :
  0 <= k ->
  watts_strogatz_graph_UnevenK py_seed fuel n k p seed w = Ok (G, w') ->
  simple_on n G /\
  (2 <= k -> forall x, 0 <= x < n -> has_node G x = true).
Proof.
  intros Hk H. split.
  - exact (UnevenK_simple n k p seed w G w' Hk H).
  - intros Hk2. exact (UnevenK_all_nodes n k p seed w G w' Hk2 H).
Qed.

(** * The ring lattice *)

Lemma has_edge_add_edges_from (es : list (Z * Z)) :
  forall (H : Graph.t) (x y : Z),
    has_edge (add_edges_from H es) x y
    = has_edge H x y
      || existsb (fun e => ((x =? fst e) && (y =? snd e)) || ((x =? snd e) && (y =? fst e))) es.
Proof.
  unfold add_edges_from.
  induction es as [|e es IH]; intros H x y; cbn [fold_left existsb].
  - rewrite orb_false_r. reflexivity.
  - rewrite IH, has_edge_add_edge. rewrite <- !orb_assoc. reflexivity.
Qed.

Lemma has_edge_ring (n j : Z) (H : Graph.t) (x y : Z) :
  0 <= j <= n ->
  has_edge (add_edges_from H (combine (range n) (rotate (range n) j))) x y = true
  <-> has_edge H x y = true \/ apart n j x y.
Proof.
  intros Hj. rewrite combine_rotate by exact Hj. rewrite has_edge_add_edges_from.
  rewrite orb_true_iff, existsb_exists. unfold apart. split.
  - intros [He|((a & b) & Hin & Hab)]; [left; exact He | right].
    apply in_map_iff in Hin. destruct Hin as (u & Hu & Hin). injection Hu as <- <-.
    apply In_range in Hin. cbn [fst snd] in Hab.
    apply orb_prop in Hab. destruct Hab as [Hab|Hab]; apply andb_prop in Hab;
      destruct Hab as [H1 H2]; apply Z.eqb_eq in H1, H2; subst; auto.
  - intros [He|[[Hx ->]|[Hy ->]]]; [left; exact He | right | right].
    + exists (x, (x + j) mod n). split.
      * apply in_map_iff. exists x. split; [reflexivity | apply In_range; exact Hx].
      * cbn [fst snd]. rewrite !Z.eqb_refl. reflexivity.
    + exists (y, (y + j) mod n). split.
      * apply in_map_iff. exists y. split; [reflexivity | apply In_range; exact Hy].
      * cbn [fst snd]. rewrite !Z.eqb_refl. apply orb_true_r.
Qed.

Lemma has_edge_rings (n : Z) (l : list Z) :
  forall (H : Graph.t) (x y : Z),
    (forall j, In j l -> 0 <= j <= n) ->
    has_edge (fold_left (fun G j => add_edges_from G (combine (range n) (rotate (range n) j)))
                l H) x y = true
    <-> has_edge H x y = true \/ exists j, In j l /\ apart n j x y.
Proof.
  induction l as [|j l IH]; intros H x y Hl; cbn [fold_left].
  - split; [auto | intros [He|(j & [] & _)]; exact He].
  - rewrite IH by (intros i Hi; apply Hl; right; exact Hi).
    rewrite has_edge_ring by (apply Hl; left; reflexivity). split.
    + intros [[He|Ha]|(i & Hi & Ha)]; [left; exact He | right; exists j | right; exists i];
        (split; [|exact Ha]); [left; reflexivity | right; exact Hi].
    + intros [He|(i & [<-|Hi] & Ha)]; [left; left; exact He | left; right; exact Ha |].
      right. exists i. split; assumption.
Qed.

(** With rewiring probability 0 an edge is drawn for and left alone. *)
Lemma rewire_edge_skip (n : Z) (nodes : list Z) (e : Z * Z) (G : Graph.t) (w : world) :
  gen_ok (py w) ->
  rewire_edge fuel n 0 nodes e (G, w) = Ok (G, mkWorld (advance (py w)) (np w)).
Proof.
  intros [Hf _]. unfold rewire_edge, random. rewrite Rltb_false by apply Hf. reflexivity.
Qed.

Lemma rewire_row_skip (n : Z) (nodes : list Z) (es : list (Z * Z)) :
  forall (G : Graph.t) (w : world),
    gen_ok (py w) ->
    exists w', for_each es (rewire_edge fuel n 0 nodes) (G, w) = Ok (G, w') /\
               gen_ok (py w') /\ np w' = np w.
Proof.
  induction es as [|e es IH]; intros G w Hw.
  - exists w. split; [reflexivity | split; [exact Hw | reflexivity]].
  - rewrite for_each_cons, rewire_edge_skip by exact Hw. cbn [bind].
    destruct (IH G (mkWorld (advance (py w)) (np w))) as (w' & E & Hw' & Hnp).
    { cbn [py]. apply gen_ok_advance; exact Hw. }
    exists w'. split; [exact E | split; [exact Hw' | exact Hnp]].
Qed.

Lemma rewire_rows_skip (n : Z) (nodes : list Z) (rows : Z -> list (Z * Z)) (l : list Z) :
  forall (G : Graph.t) (w : world),
    gen_ok (py w) ->
    exists w', for_each l (fun j => for_each (rows j) (rewire_edge fuel n 0 nodes)) (G, w)
               = Ok (G, w') /\
               gen_ok (py w') /\ np w' = np w.
Proof.
  induction l as [|j l IH]; intros G w Hw.
  - exists w. split; [reflexivity | split; [exact Hw | reflexivity]].
  - rewrite for_each_cons.
    destruct (rewire_row_skip n nodes (rows j) G w Hw) as (w1 & E1 & Hw1 & Hnp1).
    rewrite E1. cbn [bind].
    destruct (IH G w1 Hw1) as (w' & E & Hw' & Hnp).
    exists w'. split; [exact E | split; [exact Hw' | congruence]].
Qed.

(** Without rewiring the generator returns its rings. *)
Lemma UnevenK_rings (n k seed : Z) (w : world) :
  gen_ok (py_seed seed) -> 0 <= k < n -> k mod 2 = 0 ->
  exists w',
    watts_strogatz_graph_UnevenK py_seed fuel n k 0 seed w
    = Ok (fold_left (fun G j => add_edges_from G (combine (range n) (rotate (range n) j)))
            (range2 1 (k / 2 + 1)) empty, w') /\
    np w' = np w.
Proof.
  intros Hg Hk Heven. unfold watts_strogatz_graph_UnevenK.
  destruct (Z.leb_spec n k); [lia|]. cbv zeta. rewrite Heven. cbn [Z.eqb bind].
  set (G0 := fold_left (fun G j => add_edges_from G (combine (range n) (rotate (range n) j)))
               (range2 1 (k / 2 + 1)) empty).
  destruct (rewire_rows_skip n (range n) (fun j => combine (range n) (rotate (range n) j))
              (range2 1 (k / 2 + 1)) G0 (mkWorld (py_seed seed) (np w)) Hg)
    as (w' & E & _ & Hnp).
  exists w'. split; [exact E | exact Hnp].
Qed.

(** X15.  Without rewiring ([p = 0]) and with an even degree [k < n],
    [watts_strogatz_graph_UnevenK] returns, whatever the fuel of the retry
    loop, the ring lattice: two nodes are linked exactly when they are at most
    [k / 2] places apart on the ring of the [n] nodes.  numpy's generator is
    left as it was. *)
Theorem ring_lattice_without_rewiring (n k seed : Z) (w : world) :
  gen_ok (py_seed seed) -> 0 <= k < n -> k mod 2 = 0 ->
  exists G w',
    watts_strogatz_graph_UnevenK py_seed fuel n k 0 seed w = Ok (G, w') /\
    np w' = np w /\
    forall u v,
      has_edge G u v = true <-> exists j, 1 <= j <= k / 2 /\ apart n j u v.
Proof.
  intros Hg Hk Heven. destruct (UnevenK_rings n k seed w Hg Hk Heven) as (w' & E & Hnp).
  eexists; exists w'. split; [exact E | split; [exact Hnp|]].
  intros u v. rewrite has_edge_rings.
  - split.
    + intros [He|(j & Hj & Ha)]; [discriminate|]. exists j. split; [|exact Ha].
      apply In_range2 in Hj. lia.
    + intros (j & Hj & Ha). right. exists j. split; [|exact Ha]. apply In_range2. lia.
  - intros j Hj. apply In_range2 in Hj.
    assert (2 * (k / 2) <= k) by (apply Z.mul_div_le; lia). lia.
Qed.

End GroupGraph.

Lemma sample_py_seed_ok (seed : Z) : gen_ok (sample_py_seed seed).
Proof.
  unfold sample_py_seed. destruct (seed =? 0); apply constant_gen_ok; lra.
Qed.

(** A group of six nodes with degree 2, without rewiring. *)
Lemma group_graph_is_simple_witness :
  exists G w',
    watts_strogatz_graph_UnevenK sample_py_seed 0 6 2 0 0
      (mkWorld (constant_gen 0 0) (constant_gen 0 0)) = Ok (G, w') /\
    simple_on 6 G /\
    (forall x, 0 <= x < 6 -> Graph.has_node G x = true).
Proof.
  destruct (UnevenK_rings sample_py_seed 0 6 2 0 (mkWorld (constant_gen 0 0) (constant_gen 0 0))
              (sample_py_seed_ok 0) ltac:(lia) eq_refl) as (w' & E & _).
  eexists; exists w'. split; [exact E|].
  destruct (group_graph_is_simple sample_py_seed 0 6 2 0 0 _ _ _ ltac:(lia) E) as [H1 H2].
  split; [exact H1 | apply H2; lia].
Defined.

(** A group of six nodes with degree 2: 5 and 0 are neighbours on the ring,
    0 and 2 are not. *)
Lemma ring_lattice_without_rewiring_witness :
  exists G w',
    watts_strogatz_graph_UnevenK sample_py_seed 0 6 2 0 0
      (mkWorld (constant_gen 0 0) (constant_gen 0 0)) = Ok (G, w') /\
    Graph.has_edge G 5 0 = true /\ Graph.has_edge G 0 2 = false.
Proof.
  destruct (ring_lattice_without_rewiring sample_py_seed 0 6 2 0
              (mkWorld (constant_gen 0 0) (constant_gen 0 0))
              (sample_py_seed_ok 0) ltac:(lia) eq_refl) as (G & w' & E & _ & He).
  exists G, w'. split; [exact E | split].
  - apply He. exists 1. split; [cbn; lia|]. left. split; [lia | reflexivity].
  - destruct (Graph.has_edge G 0 2) eqn:E02; [|reflexivity].
    apply He in E02. destruct E02 as (j & Hj & Ha). exfalso.
    change (2 / 2) with 1 in Hj. assert (j = 1) by lia. subst j.
    destruct Ha as [[_ Ha]|[_ Ha]]; cbn in Ha; discriminate.
Defined.

(* ------------------------------------------------------------------ *)
(** * The nodes and the labels of the network *)

Section Closed.
Import Graph GraphFacts.

Lemma closed_empty : closed_graph empty.
Proof. split; [constructor | intros x y H; discriminate]. Qed.

Lemma NoDup_nodes_add_node (G : Graph.t) (u : Z) :
  NoDup (nodes G) -> NoDup (nodes (add_node G u)).
Proof.
  intros H. rewrite nodes_add_node. destruct (has_node G u) eqn:E; [exact H|].
  apply NoDup_app; [exact H | constructor; [intros []|constructor]|].
  intros x Hx [<-|[]]. apply has_node_In in Hx. congruence.
Qed.

Lemma closed_add_node (G : Graph.t) (u : Z) : closed_graph G -> closed_graph (add_node G u).
Proof.
  intros [Hn He]. split; [apply NoDup_nodes_add_node; exact Hn|].
  intros x y. rewrite has_edge_add_node, !has_node_add_node. intros H.
  destruct (He x y H) as [-> ->]. split; reflexivity.
Qed.

Lemma closed_add_edge (G : Graph.t) (u v : Z) : closed_graph G -> closed_graph (add_edge G u v).
Proof.
  intros [Hn He]. split.
  - unfold add_edge. rewrite !nodes_add_neighbor. apply NoDup_nodes_add_node.
    apply NoDup_nodes_add_node. exact Hn.
  - intros x y. rewrite has_edge_add_edge, !has_node_add_edge. intros H.
    apply orb_prop in H. destruct H as [H|H]; [apply orb_prop in H; destruct H as [H|H]|].
    + destruct (He x y H) as [-> ->]. split; reflexivity.
    + apply andb_prop in H. destruct H as [-> ->]. split; rewrite ?orb_true_r; reflexivity.
    + apply andb_prop in H. destruct H as [-> ->]. split; rewrite ?orb_true_r; reflexivity.
Qed.

Lemma closed_remove_edge (G G' : Graph.t) (u v : Z) :
  closed_graph G -> remove_edge G u v = Ok G' -> closed_graph G'.
Proof.
  intros [Hn He] H. split.
  - unfold remove_edge in H. destruct (has_edge G u v); [|discriminate].
    apply Ok_inj in H. subst G'. rewrite !nodes_del_neighbor. exact Hn.
  - intros x y. rewrite (has_edge_remove_edge _ _ _ _ x y H),
      !(has_node_remove_edge _ _ _ _ _ H). intros Hxy.
    apply andb_prop in Hxy. destruct Hxy as [Hxy _].
    apply andb_prop in Hxy. destruct Hxy as [Hxy _]. apply He; exact Hxy.
Qed.

Lemma closed_add_edges_from (es : list (Z * Z)) :
  forall G, closed_graph G -> closed_graph (add_edges_from G es).
Proof.
  unfold add_edges_from. induction es as [|e es IH]; intros G HG; [exact HG|].
  cbn [fold_left]. apply IH, closed_add_edge, HG.
Qed.

Lemma closed_add_nodes_from (us : list Z) :
  forall G, closed_graph G -> closed_graph (add_nodes_from G us).
Proof.
  unfold add_nodes_from. induction us as [|u us IH]; intros G HG; [exact HG|].
  cbn [fold_left]. apply IH, closed_add_node, HG.
Qed.

Lemma has_node_add_nodes_from (us : list Z) :
  forall (G : Graph.t) (x : Z),
    has_node (add_nodes_from G us) x = has_node G x || existsb (Z.eqb x) us.
Proof.
  unfold add_nodes_from. induction us as [|u us IH]; intros G x; cbn [fold_left existsb].
  - rewrite orb_false_r. reflexivity.
  - rewrite IH, has_node_add_node, orb_assoc. reflexivity.
Qed.

(** An edge of [G.edges()] comes from an entry of the graph. *)
Lemma In_edges_from (G : Graph.t) :
  forall (seen : list Z) (a b : Z),
    In (a, b) (edges_from seen G) -> exists nbrs, In (a, nbrs) G /\ In b nbrs.
Proof.
  induction G as [|[u nbrs] G IH]; intros seen a b H; [contradiction|].
  cbn [edges_from] in H. apply in_app_or in H. destruct H as [H|H].
  - apply in_map_iff in H. destruct H as (v & Hv & Hin). injection Hv as <- <-.
    apply filter_In in Hin. exists nbrs. split; [left; reflexivity | apply Hin].
  - destruct (IH _ _ _ H) as (nb & H1 & H2). exists nb. split; [right; exact H1 | exact H2].
Qed.

Lemma neighbors_entry (G : Graph.t) (a : Z) (nbrs : list Z) :
  NoDup (nodes G) -> In (a, nbrs) G -> neighbors G a = nbrs.
Proof.
  unfold neighbors, nodes. induction G as [|[u l] G IH]; intros Hn Hin; [contradiction|].
  cbn [map fst] in Hn. inversion Hn as [|? ? Hu Hn']; subst.
  cbn [find fst]. destruct Hin as [Heq|Hin].
  - injection Heq as -> ->. rewrite Z.eqb_refl. reflexivity.
  - destruct (Z.eqb_spec a u) as [->|Hne].
    + exfalso. apply Hu. apply in_map_iff. exists (u, nbrs). split; [reflexivity | exact Hin].
    + apply IH; assumption.
Qed.

Lemma edges_ends (G : Graph.t) (a b : Z) :
  closed_graph G -> In (a, b) (edges G) -> has_node G a = true /\ has_node G b = true.
Proof.
  intros [Hn He] H. apply In_edges_from in H. destruct H as (nbrs & H1 & H2).
  apply He. apply has_edge_In. rewrite (neighbors_entry G a nbrs Hn H1). exact H2.
Qed.

End Closed.

Section Relabel.
Import Graph GraphFacts.

Lemma find_position (l : list Z) :
  forall (vals : list Z) (i : nat) (u : Z),
    NoDup l -> length vals = length l -> nth_error l i = Some u ->
    find (fun e : Z * Z => u =? fst e) (combine l vals) = Some (u, nth i vals 0).
Proof.
  induction l as [|a l IH]; intros [|v vals] i u Hn Hl Hi; try discriminate;
    [destruct i; discriminate|].
  inversion Hn as [|? ? Ha Hn']; subst. injection Hl as Hl. cbn [combine find fst].
  destruct i as [|i]; cbn [nth_error nth] in *.
  - injection Hi as ->. rewrite Z.eqb_refl. reflexivity.
  - destruct (Z.eqb_spec u a) as [->|Hne].
    + exfalso. apply Ha. eapply nth_error_In; exact Hi.
    + apply IH; assumption.
Qed.

Lemma nth_map_seq {A : Type} (g : nat -> A) (d : A) (n : nat) :
  forall a i, (i < n)%nat -> nth i (map g (seq a n)) d = g (a + i)%nat.
Proof.
  induction n as [|n IH]; intros a i Hi; [lia|].
  cbn [seq map]. destruct i as [|i]; cbn [nth].
  - rewrite Nat.add_0_r. reflexivity.
  - rewrite IH by lia. f_equal. lia.
Qed.

(** The new label of a node: [len(G1.nodes)] plus its position among the
    nodes. *)
Lemma relabel_position (G : Graph.t) (off : Z) (i : nat) (u : Z) :
  NoDup (nodes G) -> nth_error (nodes G) i = Some u ->
  match find (fun e : Z * Z => u =? fst e)
          (combine (nodes G) (map (fun i => Z.of_nat i + off) (seq 0 (length G)))) with
  | Some e => snd e
  | None => u
  end = Z.of_nat i + off.
Proof.
  intros Hn Hi.
  assert (Hlen : length G = length (nodes G)) by (unfold nodes; rewrite length_map; reflexivity).
  assert (Hlt : (i < length (nodes G))%nat) by (apply nth_error_Some; congruence).
  rewrite (find_position _ _ i u Hn) by (rewrite length_map, length_seq; exact Hlen) || exact Hi.
  cbn [snd]. rewrite nth_map_seq by lia. reflexivity.
Qed.

Lemma closed_relabel_shift (G : Graph.t) (off : Z) : closed_graph (relabel_shift G off).
Proof.
  unfold relabel_shift. apply closed_add_edges_from, closed_add_nodes_from, closed_empty.
Qed.

Lemma has_node_relabel_shift (G : Graph.t) (off x : Z) :
  closed_graph G ->
  has_node (relabel_shift G off) x = true
  <-> exists i, (i < length (nodes G))%nat /\ x = Z.of_nat i + off.
Proof.
  intros HG. pose proof HG as [Hn _]. unfold relabel_shift.
  set (f := fun u => match find (fun e : Z * Z => u =? fst e)
                        (combine (nodes G) (map (fun i => Z.of_nat i + off) (seq 0 (length G))))
                     with Some e => snd e | None => u end).
  assert (Hf : forall u, In u (nodes G) ->
                 exists i, (i < length (nodes G))%nat /\ f u = Z.of_nat i + off).
  { intros u Hu. apply In_nth_error in Hu. destruct Hu as (i & Hi). exists i. split.
    - apply nth_error_Some. congruence.
    - apply relabel_position; assumption. }
  rewrite has_node_add_edges_from, has_node_add_nodes_from. cbn [has_node nodes empty map existsb orb].
  rewrite orb_true_iff. split.
  - intros [H|H].
    + apply existsb_eqb_In in H. apply in_map_iff in H. destruct H as (u & <- & Hu).
      apply Hf; exact Hu.
    + apply existsb_exists in H. destruct H as (e & He & Hx).
      apply in_map_iff in He. destruct He as ((a & b) & <- & Hab). cbn [fst snd] in Hx.
      destruct (edges_ends G a b HG Hab) as [Ha Hb].
      apply has_node_In in Ha, Hb.
      apply orb_prop in Hx. destruct Hx as [Hx|Hx]; apply Z.eqb_eq in Hx; subst x;
        apply Hf; assumption.
  - intros (i & Hi & ->). left. apply existsb_eqb_In.
    destruct (nth_error (nodes G) i) as [u|] eqn:Eu; [|apply nth_error_None in Eu; lia].
    apply in_map_iff. exists u. split; [|eapply nth_error_In; exact Eu].
    apply relabel_position; assumption.
Qed.

Lemma NoDup_range (n : Z) : NoDup (range n).
Proof.
  unfold range. generalize 0%nat.
  induction (Z.to_nat n) as [|m IH]; intros a; cbn [seq map]; constructor.
  - intros H. apply in_map_iff in H. destruct H as (j & Hj & Hin).
    apply in_seq in Hin. lia.
  - apply IH.
Qed.

(** A list without repetition that holds the labels from [a] up to [b] has
    [b - a] entries. *)
Lemma count_labels (l : list Z) (a b : Z) :
  NoDup l -> (forall x, In x l <-> a <= x < b) -> length l = Z.to_nat (b - a).
Proof.
  intros Hn Hl.
  assert (Hp : Permutation l (range2 a b)).
  { apply NoDup_Permutation; [exact Hn | |].
    - unfold range2. generalize 0%nat.
      induction (Z.to_nat (b - a)) as [|m IH]; intros s; cbn [seq map]; constructor.
      + intros H. apply in_map_iff in H. destruct H as (j & Hj & Hin).
        apply in_seq in Hin. lia.
      + apply IH.
    - intros x. rewrite Hl. symmetry. apply In_range2. }
  rewrite (Permutation_length Hp). unfold range2. rewrite length_map, length_seq. reflexivity.
Qed.

End Relabel.

Section WholeNetwork.
Import Graph GraphFacts.

Variable py_seed : Z -> gen.
Variable nx_watts_strogatz_graph : Z -> Z -> R -> Z -> res Graph.t.
Variable nx_spring_layout : Graph.t -> gen -> layout * gen.
Variable fuel : nat.

(** The retry loop between the groups ends with one edge added, from the
    node [edgefrom] or a node of the first list to the node [edgeto] or a
    node of the second list. *)
Lemma between_retry_adds (f : nat) (G : Graph.t) (nodes1 nodes2 : list Z) (ef et : Z) :
  forall (g : gen) (G' : Graph.t) (g' : gen),
    between_retry f G nodes1 nodes2 ef et g = Ok (G', g') ->
    exists a b, G' = add_edge G a b /\ (a = ef \/ In a nodes1) /\ (b = et \/ In b nodes2).
Proof.
  induction f as [|f IH]; intros g G' g' H; cbn [between_retry] in H; [discriminate|].
  unfold random in H. inv_bind H. destruct a as [[a b] g2].
  assert (Hab : (a = ef \/ In a nodes1) /\ (b = et \/ In b nodes2)).
  { destruct (Rltb _ _).
    - inv_bind E. destruct a0 as [x g3]. apply Ok_inj in E. injection E as <- <- _.
      apply choice_In in E0. destruct E0 as [Hx _]. auto.
    - inv_bind E. destruct a0 as [x g3]. apply Ok_inj in E. injection E as <- <- _.
      apply choice_In in E0. destruct E0 as [Hx _]. auto. }
  destruct (negb (a =? b) && negb (has_edge G a b)).
  - apply Ok_inj in H. injection H as <- _. exists a, b. split; [reflexivity | exact Hab].
  - apply (IH _ _ _ H).
Qed.

Lemma labelled_add_edge (n : Z) (G : Graph.t) (a b : Z) :
  labelled n G -> 0 <= a < n -> 0 <= b < n -> labelled n (add_edge G a b).
Proof.
  intros [Hc Hn] Ha Hb. split; [apply closed_add_edge; exact Hc|].
  intros x. rewrite has_node_add_edge, !orb_true_iff, Hn, !Z.eqb_eq. lia.
Qed.

Lemma labelled_remove_edge (n : Z) (G G' : Graph.t) (a b : Z) :
  labelled n G -> remove_edge G a b = Ok G' -> labelled n G'.
Proof.
  intros [Hc Hn] H. split; [eapply closed_remove_edge; eassumption|].
  intros x. rewrite (has_node_remove_edge _ _ _ _ x H). apply Hn.
Qed.

Lemma connect_keeps (n half : Z) (p : R) (nodes1 nodes2 : list Z) (ef i : Z)
    (G G' : Graph.t) (g g' : gen) :
  n = 2 * half -> Z.of_nat (length nodes1) = half ->
  (forall x, In x nodes1 -> 0 <= x < half) -> (forall x, In x nodes2 -> half <= x < n) ->
  0 <= ef < half -> - half <= i <= half ->
  labelled n G ->
  connect fuel n p nodes1 nodes2 ef i (G, g) = Ok (G', g') -> labelled n G'.
Proof.
  intros Hn Hlen H1 H2 Hef Hi HG H. unfold connect, random in H. rewrite Hlen in H.
  assert (Het : half <= edgeto_of n half ef i < n).
  { unfold edgeto_of. rewrite Hn.
    destruct (Z.leb_spec (2 * half) (ef + half + i));
      [destruct (Z.ltb_spec (ef + half + i - half) half)
      |destruct (Z.ltb_spec (ef + half + i) half)]; lia. }
  assert (HG1 : labelled n (add_edge G ef (edgeto_of n half ef i)))
    by (apply labelled_add_edge; [exact HG | lia | lia]).
  destruct (Rltb _ p).
  - inv_bind H. rename a into G2.
    pose proof (labelled_remove_edge _ _ _ _ _ HG1 E) as HG2.
    apply between_retry_adds in H. destruct H as (a & b & -> & Ha & Hb).
    apply labelled_add_edge; [exact HG2 | |].
    + destruct Ha as [->|Ha]; [lia | specialize (H1 a Ha); lia].
    + destruct Hb as [->|Hb]; [lia | specialize (H2 b Hb); lia].
  - apply Ok_inj in H. injection H as <- _. exact HG1.
Qed.

Lemma connect_groups_keeps (n half k_out : Z) (p : R) (nodes1 nodes2 : list Z)
    (G G' : Graph.t) (g g' : gen) :
  n = 2 * half -> Z.of_nat (length nodes1) = half ->
  (forall x, In x nodes1 -> 0 <= x < half) -> (forall x, In x nodes2 -> half <= x < n) ->
  (forall i, In i (which_betweengroup_nodes_to_connect k_out) -> - half <= i <= half) ->
  labelled n G ->
  connect_groups fuel n k_out p nodes1 nodes2 (G, g) = Ok (G', g') -> labelled n G'.
Proof.
  intros Hn Hlen H1 H2 Hoff HG H. unfold connect_groups in H.
  apply (for_each_invariant_in (fun s => labelled n (fst s))
           (fun edgefrom => for_each (which_betweengroup_nodes_to_connect k_out)
                              (connect fuel n p nodes1 nodes2 edgefrom))
           (range (Z.of_nat (length nodes1)))) with (s := (G, g)) (s' := (G', g'));
    [|exact HG | exact H].
  intros ef [G2 g2] [G3 g3] Hef HG2 Hrow. cbn [fst] in *.
  apply In_range in Hef. rewrite Hlen in Hef.
  apply (for_each_invariant_in (fun s => labelled n (fst s))
           (connect fuel n p nodes1 nodes2 ef)
           (which_betweengroup_nodes_to_connect k_out)) with (s := (G2, g2)) (s' := (G3, g3));
    [|exact HG2 | exact Hrow].
  intros i [G4 g4] [G5 g5] Hi HG4 Hbody. cbn [fst] in *.
  apply (connect_keeps n half p nodes1 nodes2 ef i G4 G5 g4 g5 Hn Hlen H1 H2 Hef
           (Hoff i Hi) HG4 Hbody).
Qed.


Lemma UnevenK_closed (n k : Z) (p : R) (seed : Z) (w : world) (G : Graph.t) (w' : world) :
  0 <= k ->
  watts_strogatz_graph_UnevenK py_seed fuel n k p seed w = Ok (G, w') -> closed_graph G.
Proof.
  intros Hk H.
  apply (UnevenK_keeps py_seed fuel n closed_graph
           (fun G u v HG _ _ _ => closed_add_edge G u v HG) closed_remove_edge
           k p seed w G w' closed_empty Hk H).
Qed.

(** A group with a degree of 2 or more: its [n] nodes, each once. *)
Lemma group_nodes (n k : Z) (p : R) (seed : Z) (w : world) (G : Graph.t) (w' : world) :
  2 <= k ->
  watts_strogatz_graph_UnevenK py_seed fuel n k p seed w = Ok (G, w') ->
  closed_graph G /\ (forall x, In x (nodes G) <-> 0 <= x < n) /\
  Z.of_nat (length (nodes G)) = n.
Proof.
  intros Hk H.
  pose proof (UnevenK_closed n k p seed w G w' ltac:(lia) H) as Hc.
  destruct (UnevenK_simple py_seed fuel n k p seed w G w' ltac:(lia) H) as (Hin & _).
  pose proof (UnevenK_all_nodes py_seed fuel n k p seed w G w' Hk H) as Hall.
  assert (Hn : forall x, In x (nodes G) <-> 0 <= x < n).
  { intros x. rewrite <- has_node_In. split; [apply Hin | apply Hall]. }
  split; [exact Hc | split; [exact Hn|]].
  rewrite (count_labels (nodes G) 0 n (proj1 Hc) Hn).
  assert (0 < n).
  { unfold watts_strogatz_graph_UnevenK in H. destruct (Z.leb_spec n k); [discriminate | lia]. }
  lia.
Qed.

Lemma nth_error_labels (l1 l2 : list Z) (i : nat) :
  nth_error (map (fun _ => IdInt 0) l1 ++ map (fun _ => IdInt 1) l2) i
  = if (i <? length l1)%nat then Some (IdInt 0)
    else if (i <? length l1 + length l2)%nat then Some (IdInt 1) else None.
Proof.
  destruct (Nat.ltb_spec i (length l1)) as [H1|H1].
  - rewrite nth_error_app1 by (rewrite length_map; exact H1).
    rewrite nth_error_map. destruct (nth_error l1 i) eqn:E; [reflexivity|].
    apply nth_error_None in E. lia.
  - rewrite nth_error_app2 by (rewrite length_map; exact H1).
    rewrite length_map, nth_error_map.
    destruct (Nat.ltb_spec i (length l1 + length l2)) as [H2|H2].
    + destruct (nth_error l2 (i - length l1)) eqn:E; [reflexivity|].
      apply nth_error_None in E. lia.
    + destruct (nth_error l2 (i - length l1)) eqn:E; [|reflexivity].
      assert (i - length l1 < length l2)%nat by (apply nth_error_Some; congruence). lia.
Qed.

(** X16.  On the path through [watts_strogatz_graph_UnevenK] (an odd
    [k_in] or an odd [k_out]), with an in-group degree of 2 or more and
    offsets between the groups that are at most half the agents in size
    (always so for groups of four or more), the network has exactly the
    nodes [0 .. n-1], each once, the first half labelled 0 and the second
    half labelled 1, whatever the rewiring probability and the seed. *)
Theorem network_has_its_nodes_and_labels (n k_in k_out : Z) (p : R) (seed : Z) (w : world)
    (net : network) (w' : world) :
  n mod 2 = 0 -> (k_in mod 2 <> 0 \/ k_out mod 2 <> 0) -> 2 <= k_in ->
  (forall i, In i (which_betweengroup_nodes_to_connect k_out) -> - (n / 2) <= i <= n / 2) ->
  create_withinAndBetweenGroup_network py_seed nx_watts_strogatz_graph nx_spring_layout fuel
    n k_in k_out p seed w = Ok (net, w') ->
  (forall x, has_node (graph net) x = true <-> 0 <= x < n) /\
  Z.of_nat (length (nodes (graph net))) = n /\
  (forall x, 0 <= x < n / 2 -> get_attr (social_identity net) x = Some (IdInt 0)) /\
  (forall x, n / 2 <= x < n -> get_attr (social_identity net) x = Some (IdInt 1)).
Proof.
  intros Heven Hodd Hk Hoff H. unfold create_withinAndBetweenGroup_network in H.
  rewrite Heven in H. cbn [Z.eqb negb] in H.
  assert (Hc : (k_in mod 2 =? 0) && (k_out mod 2 =? 0) = false).
  { destruct (Z.eqb_spec (k_in mod 2) 0); destruct (Z.eqb_spec (k_out mod 2) 0);
      try reflexivity. lia. }
  rewrite Hc in H. inv_bind H. destruct a as [[G1 G2] w2].
  inv_bind E. destruct a as [G1' w1]. inv_bind E. destruct a as [G2' w2'].
  apply Ok_inj in E. injection E as -> -> ->.
  set (half := n / 2) in *.
  assert (Hn : n = 2 * half).
  { unfold half. pose proof (Z.div_mod n 2 ltac:(lia)). lia. }
  destruct (group_nodes half k_in p seed w G1 w1 Hk E0) as (Hc1 & Hn1 & Hl1).
  destruct (group_nodes half k_in p (seed + 100) w1 G2 w2 Hk E1) as (Hc2 & Hn2 & Hl2).
  rewrite Hl1 in H.
  set (G2s := relabel_shift G2 half) in *.
  assert (Hn2s : forall x, In x (nodes G2s) <-> half <= x < n).
  { intros x. rewrite <- has_node_In. unfold G2s. rewrite (has_node_relabel_shift G2 half x Hc2).
    split; [intros (i & Hi & ->); lia|].
    intros Hx. exists (Z.to_nat (x - half)). split; lia. }
  assert (Hc2s : closed_graph G2s) by apply closed_relabel_shift.
  assert (Hl2s : Z.of_nat (length (nodes G2s)) = half).
  { rewrite (count_labels (nodes G2s) half n (proj1 Hc2s) Hn2s). lia. }
  set (G0 := add_nodes_from (add_edges_from empty (edges G1 ++ edges G2s))
               (nodes G1 ++ nodes G2s)) in *.
  assert (HG0 : labelled n G0).
  { split.
    - apply closed_add_nodes_from, closed_add_edges_from, closed_empty.
    - intros x. unfold G0. rewrite has_node_add_nodes_from, has_node_add_edges_from.
      cbn [has_node nodes empty map existsb orb]. rewrite orb_true_iff. split.
      + intros [Hx|Hx].
        * apply existsb_exists in Hx. destruct Hx as ((a & b) & Hab & Hx). cbn [fst snd] in Hx.
          assert (Hends : (0 <= a < n) /\ (0 <= b < n)).
          { apply in_app_or in Hab. destruct Hab as [Hab|Hab].
            - destruct (edges_ends G1 a b Hc1 Hab) as [Ha Hb].
              apply has_node_In in Ha, Hb. apply Hn1 in Ha, Hb. lia.
            - destruct (edges_ends G2s a b Hc2s Hab) as [Ha Hb].
              apply has_node_In in Ha, Hb. apply Hn2s in Ha, Hb. lia. }
          apply orb_prop in Hx. destruct Hx as [Hx|Hx]; apply Z.eqb_eq in Hx; lia.
        * apply existsb_eqb_In in Hx. apply in_app_or in Hx.
          destruct Hx as [Hx|Hx]; [apply Hn1 in Hx | apply Hn2s in Hx]; lia.
      + intros Hx. right. apply existsb_eqb_In, in_or_app.
        destruct (Z.lt_ge_cases x half); [left; apply Hn1 | right; apply Hn2s]; lia. }
  inv_bind H. destruct a as [G g].
  assert (HG : labelled n G).
  { apply (connect_groups_keeps n half k_out p (nodes G1) (nodes G2s) G0 G (np w2) g Hn Hl1);
      [intros x Hx; apply Hn1; exact Hx | intros x Hx; apply Hn2s; exact Hx
      | exact Hoff | exact HG0 | exact E]. }
  destruct (nx_spring_layout G g) as [pos g'].
  apply Ok_inj in H. injection H as <- _. cbn [graph social_identity].
  destruct HG as [[Hnd _] Hnodes].
  split; [exact Hnodes | split].
  - rewrite (count_labels (nodes G) 0 n Hnd); [lia|].
    intros x. rewrite <- has_node_In. apply Hnodes.
  - assert (Hlabel : forall x v, 0 <= x < n ->
              nth_error (map (fun _ => IdInt 0) (nodes G1) ++ map (fun _ => IdInt 1) (nodes G2s))
                (Z.to_nat x) = Some v ->
              get_attr (set_node_attributes G
                          (enumerate (map (fun _ : Z => IdInt 0) (nodes G1)
                                      ++ map (fun _ : Z => IdInt 1) (nodes G2s))) []) x
              = Some v).
    { intros x v Hx Hv. replace x with (Z.of_nat (Z.to_nat x)) at 1 by lia.
      apply set_node_attributes_key;
        [apply NoDup_enumerate_keys | apply In_enumerate; exact Hv|].
      apply Hnodes. lia. }
    split; intros x Hx; apply Hlabel; try lia; rewrite nth_error_labels.
    + destruct (Nat.ltb_spec (Z.to_nat x) (length (nodes G1))); [reflexivity | lia].
    + destruct (Nat.ltb_spec (Z.to_nat x) (length (nodes G1))); [lia|].
      destruct (Nat.ltb_spec (Z.to_nat x) (length (nodes G1) + length (nodes G2s)));
        [reflexivity | lia].
Qed.


(** Without rewiring, with an even in-group degree and an odd degree
    between the groups, the generation of the network returns. *)
Lemma network_without_rewiring_returns (n k_in k_out seed : Z) (w : world) :
  n mod 2 = 0 -> k_in mod 2 = 0 -> k_out mod 2 <> 0 -> 0 <= k_in < n / 2 ->
  gen_ok (py_seed seed) -> gen_ok (py_seed (seed + 100)) -> gen_ok (np w) ->
  exists net w',
    create_withinAndBetweenGroup_network py_seed nx_watts_strogatz_graph nx_spring_layout fuel
      n k_in k_out 0 seed w = Ok (net, w').
Proof.
  intros Heven Hin Hout Hk Hg1 Hg2 Hnp. unfold create_withinAndBetweenGroup_network.
  rewrite Heven, Hin. cbn [Z.eqb negb andb].
  destruct (Z.eqb_spec (k_out mod 2) 0); [contradiction|].
  destruct (UnevenK_rings py_seed fuel (n / 2) k_in seed w Hg1 Hk Hin) as (w1 & E1 & Hnp1).
  rewrite E1. cbn [bind].
  destruct (UnevenK_rings py_seed fuel (n / 2) k_in (seed + 100) w1 Hg2 Hk Hin)
    as (w2 & E2 & Hnp2).
  rewrite E2. cbn [bind]. unfold connect_groups.
  assert (Hgen : gen_ok (np w2)) by (rewrite Hnp2, Hnp1; exact Hnp).
  edestruct (connect_rows_no_rewiring fuel n k_out) as (G' & g' & E & _); [exact Hgen|].
  rewrite E. cbn [bind].
  destruct (nx_spring_layout G' g') as [pos g''].
  eexists; eexists; reflexivity.
Qed.

End WholeNetwork.

(** Eight agents, in-group degree 2, one link between the groups, no
    rewiring. *)
Lemma network_has_its_nodes_and_labels_witness :
  exists net w',
    create_withinAndBetweenGroup_network sample_py_seed sample_nx_graph sample_layout 0
      8 2 1 0 0 (mkWorld (constant_gen 0 0) (constant_gen 0 0)) = Ok (net, w') /\
    (forall x, Graph.has_node (graph net) x = true <-> 0 <= x < 8) /\
    Z.of_nat (length (Graph.nodes (graph net))) = 8 /\
    get_attr (social_identity net) 3 = Some (IdInt 0) /\
    get_attr (social_identity net) 4 = Some (IdInt 1).
Proof.
  destruct (network_without_rewiring_returns sample_py_seed sample_nx_graph sample_layout 0
              8 2 1 0 (mkWorld (constant_gen 0 0) (constant_gen 0 0)))
    as (net & w' & E);
    [reflexivity | reflexivity | discriminate | cbn; lia
    | apply sample_py_seed_ok | apply sample_py_seed_ok | apply constant_gen_ok; lra |].
  destruct (network_has_its_nodes_and_labels sample_py_seed sample_nx_graph sample_layout 0
              8 2 1 0 0 (mkWorld (constant_gen 0 0) (constant_gen 0 0)) net w' eq_refl)
    as (H1 & H2 & H3 & H4);
    [right; discriminate | lia | | exact E |].
  { intros i Hi. apply offsets_small in Hi. change (8 / 2) with 4. lia. }
  exists net, w'. split; [exact E | split; [exact H1 | split; [exact H2 | split]]].
  - apply H3. cbn. lia.
  - apply H4. cbn. lia.
Defined.

(* ------------------------------------------------------------------ *)
(** * Further properties of the diffusion *)

Local Open Scope R_scope.

(** * The mass that diffusion loses at the two ends *)

Lemma np_sum_map_scale {A : Type} (c : R) (f : A -> R) (l : list A) :
  np_sum (map (fun j => c * f j) l) = c * np_sum (map f l).
Proof.
  induction l as [|a l IH]; cbn [map np_sum fold_right]; [lra|].
  fold (np_sum (map (fun j => c * f j) l)). fold (np_sum (map f l)). rewrite IH. lra.
Qed.

Lemma np_sum_nth_firstn (m : nat) :
  forall y : vec, np_sum (map (fun k => nth k y 0) (seq 0 m)) = np_sum (firstn m y).
Proof.
  induction m as [|m IH]; intros y; [reflexivity|].
  rewrite <- cons_seq, <- seq_shift, map_cons, map_map.
  destruct y as [|x y].
  - rewrite (map_ext _ (fun _ : nat => 0)) by reflexivity.
    assert (H : forall l : list nat, np_sum (map (fun _ : nat => 0) l) = 0).
    { induction l as [|a l IHl]; cbn [map np_sum fold_right]; [reflexivity|].
      fold (np_sum (map (fun _ : nat => 0) l)). rewrite IHl. lra. }
    cbn [nth firstn np_sum fold_right].
    fold (np_sum (map (fun _ : nat => 0) (seq 0 m))). rewrite H. lra.
  - cbn [nth firstn np_sum fold_right].
    fold (np_sum (map (fun k => nth k y 0) (seq 0 m))). fold (np_sum (firstn m y)).
    rewrite IH. reflexivity.
Qed.

Lemma np_sum_last (y : vec) :
  forall m, length y = S m -> np_sum y = np_sum (firstn m y) + nth m y 0.
Proof.
  induction y as [|x y IH]; intros m H; [discriminate|].
  injection H as H. destruct m as [|m].
  - destruct y; [|discriminate]. cbn [firstn nth np_sum fold_right]. lra.
  - cbn [firstn nth np_sum fold_right]. fold (np_sum y). fold (np_sum (firstn m y)).
    rewrite (IH m H). lra.
Qed.

(** The sums of the three diagonals of the scheme. *)
Lemma np_sum_centre (y : vec) :
  np_sum (map (fun k => nth k y 0) (seq 0 (length y))) = np_sum y.
Proof. rewrite np_sum_nth_firstn, firstn_all. reflexivity. Qed.

Lemma np_sum_right (y : vec) :
  np_sum (map (fun k => nth (S k) y 0) (seq 0 (length y))) = np_sum y - nth 0 y 0.
Proof.
  destruct y as [|x y].
  - cbn. lra.
  - rewrite (map_ext _ (fun k => nth k y 0)) by reflexivity.
    rewrite np_sum_nth_firstn. cbn [length]. rewrite firstn_all2 by lia.
    cbn [nth np_sum fold_right]. fold (np_sum y). lra.
Qed.

Lemma np_sum_left (y : vec) :
  np_sum (map (prev y) (seq 0 (length y))) = np_sum y - nth (length y - 1) y 0.
Proof.
  destruct (length y) as [|m] eqn:Hl.
  - destruct y; [cbn; lra | discriminate].
  - rewrite <- cons_seq, <- seq_shift, map_cons, map_map.
    cbn [prev np_sum fold_right]. fold (np_sum (map (fun k => nth k y 0) (seq 0 m))).
    rewrite np_sum_nth_firstn, (np_sum_last y m Hl).
    replace (S m - 1)%nat with m by lia. lra.
Qed.

Lemma mat_vec_heat (kappa : R) (y : vec) :
  length y = n_beliefs ->
  mat_vec (mat_heat_equation kappa) y
  = map (fun i => (1 + 2 * (kappa / db ^ 2)) * nth i y 0
                  - kappa / db ^ 2 * nth (S i) y 0 - kappa / db ^ 2 * prev y i)
        (seq 0 n_beliefs).
Proof.
  intros Hy. rewrite mat_heat_equation_rows. unfold mat_vec. rewrite map_map.
  apply map_ext_in. intros i Hi. apply in_seq in Hi. apply heat_row; [exact Hy | lia].
Qed.

Lemma heat_mass (kappa : R) (y : vec) :
  length y = n_beliefs ->
  np_sum (mat_vec (mat_heat_equation kappa) y)
  = np_sum y + kappa / db ^ 2 * (nth 0 y 0 + nth (n_beliefs - 1) y 0).
Proof.
  intros Hy. rewrite (mat_vec_heat kappa y Hy). set (b := kappa / db ^ 2).
  rewrite (map_ext _ (fun i => (1 + 2 * b) * nth i y 0
                               + ((- b) * nth (S i) y 0 + (- b) * prev y i)))
    by (intros i; ring).
  rewrite np_sum_map_plus, np_sum_map_plus, !np_sum_map_scale.
  rewrite <- Hy, np_sum_centre, np_sum_right, np_sum_left. ring.
Qed.

Section Green.
Variable c : R.
Hypothesis c_pos : 0 < c.
Let t := (1 + 2 * c) / c.
Let U := ramp t.

Lemma ramp_SS (k : nat) : U (S (S k)) = t * U (S k) - U k.
Proof. reflexivity. Qed.

Lemma ramp_rec (k : nat) : (1 + 2 * c) * U (S k) - c * U (S (S k)) - c * U k = 0.
Proof. rewrite ramp_SS. unfold t. field. lra. Qed.

Lemma ramp_grows (k : nat) : 0 <= U k < U (S k).
Proof.
  induction k as [|k IH].
  - unfold U. cbn [ramp]. lra.
  - pose proof (ramp_rec k) as H.
    assert (0 < c * (U (S (S k)) - U (S k))) by nra.
    split; [lra|]. nra.
Qed.

Lemma ramp_pos (k : nat) : 0 < U (S k).
Proof. pose proof (ramp_grows k). lra. Qed.

Lemma ramp_add (q : nat) :
  forall p, U (S p) * U (S q) - U p * U q = U (S (p + q)).
Proof.
  assert (H : forall p,
             U (S p) * U (S q) - U p * U q = U (S (p + q)) /\
             U (S (S p)) * U (S q) - U (S p) * U q = U (S (S p + q))).
  { induction p as [|p [IH1 IH2]].
    - split.
      + unfold U. cbn [ramp Nat.add]. ring.
      + cbn [Nat.add]. rewrite (ramp_SS q). unfold U. cbn [ramp]. ring.
    - split; [exact IH2|].
      cbn [Nat.add] in *. rewrite (ramp_SS (S (p + q))), <- IH2, <- IH1.
      rewrite (ramp_SS (S p)), (ramp_SS p). ring. }
  intros p. apply H.
Qed.

Variable n : nat.

(** The columns of the closed form solve the scheme. *)
Lemma green_column (i j : nat) :
  (i < n)%nat -> (j < n)%nat ->
  (1 + 2 * c) * green c n (S i) j - c * green c n (S (S i)) j - c * green c n i j
  = if Nat.eqb j i then 1 else 0.
Proof.
  intros Hi Hj. unfold green. fold t. fold U.
  pose proof (ramp_pos n) as HN.
  assert (HU : U (S n) <> 0) by lra.
  assert (Hc0 : c <> 0) by lra.
  destruct (Nat.eqb_spec j i) as [->|Hne].
  - rewrite Nat.min_id, Nat.max_id.
    rewrite (Nat.min_r (S (S i)) (S i)), (Nat.max_l (S (S i)) (S i)) by lia.
    rewrite (Nat.min_l i (S i)), (Nat.max_r i (S i)) by lia.
    replace (S n - S i)%nat with (S (n - S i)) by lia.
    replace (S n - S (S i))%nat with (n - S i)%nat by lia.
    pose proof (ramp_add (n - S i) (S i)) as Ha.
    replace (S (S i + (n - S i))) with (S n) in Ha by lia.
    pose proof (ramp_rec i) as Hr.
    assert (Hr' : ((1 + 2 * c) * U (S i) - c * U (S (S i)) - c * U i) * U (S (n - S i)) = 0)
      by (rewrite Hr; ring).
    field_simplify_eq; [|split; assumption]. rewrite <- Ha. lra.
  - destruct (Nat.lt_ge_cases i j) as [Hlt|Hge].
    + rewrite (Nat.min_l (S i) (S j)), (Nat.max_r (S i) (S j)) by lia.
      rewrite (Nat.min_l (S (S i)) (S j)), (Nat.max_r (S (S i)) (S j)) by lia.
      rewrite (Nat.min_l i (S j)), (Nat.max_r i (S j)) by lia.
      pose proof (ramp_rec i) as Hr.
      assert (Hr' : ((1 + 2 * c) * U (S i) - c * U (S (S i)) - c * U i) * U (S n - S j) = 0)
        by (rewrite Hr; ring).
      field_simplify_eq; [|split; assumption]. lra.
    + rewrite (Nat.min_r (S i) (S j)), (Nat.max_l (S i) (S j)) by lia.
      rewrite (Nat.min_r (S (S i)) (S j)), (Nat.max_l (S (S i)) (S j)) by lia.
      rewrite (Nat.min_r i (S j)), (Nat.max_l i (S j)) by lia.
      replace (S n - S i)%nat with (S (n - S i)) by lia.
      replace (S n - S (S i))%nat with (n - S i)%nat by lia.
      replace (S n - i)%nat with (S (S (n - S i))) by lia.
      pose proof (ramp_rec (n - S i)) as Hr.
      assert (Hr' : ((1 + 2 * c) * U (S (n - S i)) - c * U (S (S (n - S i))) - c * U (n - S i))
                    * U (S j) = 0) by (rewrite Hr; ring).
      field_simplify_eq; [|split; assumption]. lra.
Qed.

Lemma green_first (j : nat) : green c n 0 j = 0.
Proof. unfold green. cbn [Nat.min ramp]. unfold Rdiv. ring. Qed.

Lemma green_last (j : nat) : (j < n)%nat -> green c n (S n) j = 0.
Proof.
  intros Hj. unfold green. rewrite (Nat.max_l (S n) (S j)) by lia.
  rewrite Nat.sub_diag. cbn [ramp]. unfold Rdiv. ring.
Qed.

Lemma np_sum_map_zero {A : Type} (f : A -> R) (l : list A) :
  (forall a, In a l -> f a = 0) -> np_sum (map f l) = 0.
Proof.
  induction l as [|a l IH]; intros H; [reflexivity|].
  cbn [map np_sum fold_right]. fold (np_sum (map f l)).
  rewrite (H a (or_introl eq_refl)), IH; [lra|].
  intros b Hb. apply H. right. exact Hb.
Qed.

Variable x : vec.
Hypothesis length_x : length x = n.

Let h (a : nat) : R := np_sum (map (fun j => green c n a j * nth j x 0) (seq 0 n)).

Lemma green_row (i : nat) :
  (i < n)%nat -> nth i (mat_vec (green_matrix c n) x) 0 = h (S i).
Proof.
  intros Hi. unfold mat_vec, green_matrix. rewrite map_map.
  rewrite (nth_indep _ 0 ((fun i => np_dot (map (green c n (S i)) (seq 0 n)) x) 0%nat))
    by (rewrite length_map, length_seq; exact Hi).
  rewrite (map_nth (fun i => np_dot (map (green c n (S i)) (seq 0 n)) x)).
  rewrite seq_nth by exact Hi. cbn [Nat.add]. unfold h.
  rewrite <- length_x. rewrite np_dot_formula.
  apply f_equal, map_ext. intros j. rewrite Nat.sub_0_r. reflexivity.
Qed.

Lemma length_green_vec : length (mat_vec (green_matrix c n) x) = n.
Proof. unfold mat_vec, green_matrix. rewrite !length_map, length_seq. reflexivity. Qed.

Lemma green_next (i : nat) :
  (i < n)%nat -> nth (S i) (mat_vec (green_matrix c n) x) 0 = h (S (S i)).
Proof.
  intros Hi. destruct (Nat.lt_ge_cases (S i) n) as [Hlt|Hge].
  - apply green_row. exact Hlt.
  - rewrite nth_overflow by (rewrite length_green_vec; exact Hge).
    assert (S i = n) as -> by lia. unfold h. symmetry. apply np_sum_map_zero.
    intros j Hj. apply in_seq in Hj. rewrite green_last by lia. ring.
Qed.

Lemma green_prev (i : nat) :
  (i < n)%nat -> prev (mat_vec (green_matrix c n) x) i = h i.
Proof.
  intros Hi. destruct i as [|k]; cbn [prev].
  - unfold h. symmetry. apply np_sum_map_zero. intros j _. rewrite green_first. ring.
  - apply green_row. lia.
Qed.

(** The scheme applied to the closed form gives the right-hand side back. *)
Lemma green_solves (i : nat) :
  (i < n)%nat ->
  (1 + 2 * c) * nth i (mat_vec (green_matrix c n) x) 0
  - c * nth (S i) (mat_vec (green_matrix c n) x) 0
  - c * prev (mat_vec (green_matrix c n) x) i
  = nth i x 0.
Proof.
  intros Hi. rewrite green_row, green_next, green_prev by exact Hi.
  transitivity
    (np_sum (map (fun j => (1 + 2 * c) * (green c n (S i) j * nth j x 0)
                           + ((- c) * (green c n (S (S i)) j * nth j x 0)
                              + (- c) * (green c n i j * nth j x 0))) (seq 0 n))).
  - rewrite np_sum_map_plus, np_sum_map_plus, !np_sum_map_scale. unfold h. ring.
  - rewrite (map_ext_in _ (fun j => if Nat.eqb j i then nth j x 0 else 0)).
    + rewrite np_sum_single. cbn [Nat.leb Nat.add andb].
      replace (i <? n)%nat with true by (symmetry; apply Nat.ltb_lt; exact Hi).
      reflexivity.
    + intros j Hj. apply in_seq in Hj.
      pose proof (green_column i j Hi ltac:(lia)) as Hcol.
      transitivity (((1 + 2 * c) * green c n (S i) j - c * green c n (S (S i)) j
                     - c * green c n i j) * nth j x 0); [ring|].
      rewrite Hcol. destruct (Nat.eqb j i); ring.
Qed.

End Green.

(** For a positive diffusion constant the closed form is the inverse of the
    matrix of the heat equation. *)
Lemma green_inverse (kappa : R) :
  0 < kappa ->
  is_inverse (mat_heat_equation kappa) (green_matrix (kappa / db ^ 2) n_beliefs).
Proof.
  intros Hk.
  assert (Hc : 0 < kappa / db ^ 2).
  { apply Rdiv_lt_0_compat; [exact Hk|]. pose proof db_pos. nra. }
  split; [|split].
  - unfold green_matrix. rewrite length_map, length_seq, length_mat_heat_equation. reflexivity.
  - unfold green_matrix. apply Forall_map, Forall_forall. intros i _.
    rewrite length_map, length_seq, length_mat_heat_equation. reflexivity.
  - intros x Hx. rewrite length_mat_heat_equation in Hx.
    apply (nth_ext _ _ 0 0).
    + rewrite length_mat_vec, length_mat_heat_equation. congruence.
    + intros i Hi. rewrite length_mat_vec, length_mat_heat_equation in Hi.
      rewrite nth_mat_vec_heat by (try apply length_green_vec; exact Hi).
      apply green_solves; assumption.
Qed.

Lemma heat_inverse_exists (kappa : R) :
  0 <= kappa -> exists B, is_inverse (mat_heat_equation kappa) B.
Proof.
  intros [Hk|<-].
  - exists (green_matrix (kappa / db ^ 2) n_beliefs). apply green_inverse. exact Hk.
  - exists (mat_heat_equation 0). exact heat_identity_inverse.
Qed.

Lemma nth_vdiff (y1 y2 : vec) (i : nat) :
  length y1 = n_beliefs -> length y2 = n_beliefs ->
  nth i (vdiff y1 y2) 0 = nth i y1 0 - nth i y2 0.
Proof.
  intros H1 H2. unfold vdiff. destruct (Nat.lt_ge_cases i n_beliefs) as [Hlt|Hge].
  - rewrite (nth_indep _ 0 ((fun i => nth i y1 0 - nth i y2 0) 0%nat))
      by (rewrite length_map, length_seq; exact Hlt).
    rewrite (map_nth (fun i => nth i y1 0 - nth i y2 0)), seq_nth by exact Hlt.
    reflexivity.
  - rewrite !nth_overflow; [ring | lia | lia | rewrite length_map, length_seq; exact Hge].
Qed.

Lemma length_vdiff (y1 y2 : vec) : length (vdiff y1 y2) = n_beliefs.
Proof. unfold vdiff. rewrite length_map, length_seq. reflexivity. Qed.

Lemma heat_vdiff_nonneg (kappa : R) (y1 y2 : vec) :
  0 <= kappa -> length y1 = n_beliefs -> length y2 = n_beliefs ->
  mat_vec (mat_heat_equation kappa) y1 = mat_vec (mat_heat_equation kappa) y2 ->
  Forall (fun v => 0 <= v) (vdiff y1 y2).
Proof.
  intros Hk H1 H2 E.
  apply (heat_solution_nonneg kappa _ (mat_vec (mat_heat_equation kappa) (vdiff y1 y2)));
    [exact Hk | apply length_vdiff | reflexivity|].
  apply Forall_forall. intros v Hv. destruct (In_nth _ _ 0 Hv) as (i & Hi & <-).
  rewrite length_mat_vec, length_mat_heat_equation in Hi.
  rewrite nth_mat_vec_heat by (try apply length_vdiff; exact Hi).
  rewrite !nth_vdiff by assumption.
  assert (Hp : prev (vdiff y1 y2) i = prev y1 i - prev y2 i).
  { destruct i as [|k]; cbn [prev]; [ring | apply nth_vdiff; assumption]. }
  rewrite Hp.
  pose proof (nth_mat_vec_heat kappa y1 i H1 Hi) as E1.
  pose proof (nth_mat_vec_heat kappa y2 i H2 Hi) as E2.
  rewrite E in E1. rewrite E1 in E2. lra.
Qed.

(** The system of the scheme has at most one solution. *)
Lemma heat_injective (kappa : R) (y1 y2 : vec) :
  0 <= kappa -> length y1 = n_beliefs -> length y2 = n_beliefs ->
  mat_vec (mat_heat_equation kappa) y1 = mat_vec (mat_heat_equation kappa) y2 ->
  y1 = y2.
Proof.
  intros Hk H1 H2 E.
  pose proof (heat_vdiff_nonneg kappa y1 y2 Hk H1 H2 E) as Ha.
  pose proof (heat_vdiff_nonneg kappa y2 y1 Hk H2 H1 (eq_sym E)) as Hb.
  apply (nth_ext _ _ 0 0); [congruence|]. intros i Hi.
  rewrite Forall_forall in Ha, Hb.
  assert (0 <= nth i (vdiff y1 y2) 0) as Hi1
    by (apply Ha, nth_In; rewrite length_vdiff; lia).
  assert (0 <= nth i (vdiff y2 y1) 0) as Hi2
    by (apply Hb, nth_In; rewrite length_vdiff; lia).
  rewrite nth_vdiff in Hi1, Hi2 by assumption. lra.
Qed.

Lemma inverse_length (kappa : R) (B : matrix) (o : vec) :
  is_inverse (mat_heat_equation kappa) B -> length (mat_vec B o) = n_beliefs.
Proof.
  intros (Hl & _). rewrite length_mat_vec, Hl. apply length_mat_heat_equation.
Qed.

Lemma inverses_agree (kappa : R) (B1 B2 : matrix) (o : vec) :
  0 <= kappa ->
  is_inverse (mat_heat_equation kappa) B1 -> is_inverse (mat_heat_equation kappa) B2 ->
  length o = n_beliefs -> mat_vec B1 o = mat_vec B2 o.
Proof.
  intros Hk H1 H2 Ho.
  apply (heat_injective kappa); [exact Hk | eapply inverse_length; eassumption..|].
  destruct H1 as (_ & _ & H1). destruct H2 as (_ & _ & H2).
  rewrite length_mat_heat_equation in H1, H2. rewrite H1, H2 by exact Ho. reflexivity.
Qed.

(** X17.  For every diffusion constant that is not negative the matrix of
    the heat equation has an inverse: [np.linalg.inv] returns it and does not
    raise LinAlgError.  The matrix that it returns acts on a vector of
    densities as every inverse of the matrix does. *)
Theorem propagator_exists_and_is_unique (kappa : R) :
  0 <= kappa ->
  exists Minv,
    linalg_inv (mat_heat_equation kappa) = Ok Minv /\
    is_inverse (mat_heat_equation kappa) Minv /\
    forall (B : matrix) (o : vec),
      is_inverse (mat_heat_equation kappa) B -> length o = n_beliefs ->
      mat_vec B o = mat_vec Minv o.
Proof.
  intros Hk. destruct (heat_inverse_exists kappa Hk) as (B0 & HB0).
  destruct (linalg_inv_returns _ _ HB0) as (Minv & HM).
  pose proof (linalg_inv_spec _ _ HM) as Hinv.
  exists Minv. split; [exact HM | split; [exact Hinv|]].
  intros B o HB Ho. apply (inverses_agree kappa); assumption.
Qed.

Lemma propagator_exists_and_is_unique_witness :
  0 <= 1 /\
  exists Minv,
    linalg_inv (mat_heat_equation 1) = Ok Minv /\
    mat_vec (green_matrix (1 / db ^ 2) n_beliefs) (point_mass 0) = mat_vec Minv (point_mass 0).
Proof.
  split; [lra|].
  destruct (propagator_exists_and_is_unique 1 ltac:(lra)) as (Minv & HM & _ & Hu).
  exists Minv. split; [exact HM|].
  apply Hu; [apply green_inverse; lra | apply (point_mass_density 0); lia].
Defined.

(** X18.  Diffusion lets weight leave the opinion space at its two ends and
    nowhere else: for a diffusion constant that is not negative, the density
    after the propagator and before the normalisation has the integral 1
    minus [kappa / db ^ 2 * db] times the sum of its first and its last
    weight.  So the integral is positive and at most 1, and the normalisation
    that follows never lowers a weight. *)
Theorem diffusion_loses_mass_at_the_ends (kappa : R) (Minv : matrix) (o : vec) :
  0 <= kappa -> is_inverse (mat_heat_equation kappa) Minv -> density o ->
  let diffused := mat_vec Minv o in
  np_sum diffused * db
    + kappa / db ^ 2 * (nth 0 diffused 0 + nth (n_beliefs - 1) diffused 0) * db = 1 /\
  0 < np_sum diffused * db <= 1 /\
  forall k, nth k diffused 0 <= nth k (Agent.normalise diffused) 0.
Proof.
  intros Hk Hinv Ho diffused. pose proof Ho as (Hlo & Hno & Hso).
  pose proof (inverse_length kappa Minv o Hinv) as Hly. fold diffused in Hly.
  assert (Hsys : mat_vec (mat_heat_equation kappa) diffused = o).
  { destruct Hinv as (_ & _ & Hinv). apply Hinv.
    rewrite length_mat_heat_equation. exact Hlo. }
  pose proof (heat_solution_nonneg kappa diffused o Hk Hly Hsys Hno) as Hnn.
  assert (Hmass : 0 < np_sum diffused).
  { apply (heat_solution_mass kappa diffused o); try assumption.
    rewrite (density_sum o Ho). lra. }
  pose proof (heat_mass kappa diffused Hly) as Hbal. rewrite Hsys in Hbal.
  pose proof db_pos as Hdb.
  assert (Hb : 0 <= kappa / db ^ 2).
  { apply Rmult_le_pos; [assumption|]. left; apply Rinv_0_lt_compat. nra. }
  assert (Hends : 0 <= nth 0 diffused 0 + nth (n_beliefs - 1) diffused 0).
  { rewrite Forall_forall in Hnn.
    assert (0 <= nth 0 diffused 0) by (apply Hnn, nth_In; rewrite Hly; apply n_beliefs_pos).
    assert (0 <= nth (n_beliefs - 1) diffused 0)
      by (apply Hnn, nth_In; rewrite Hly; pose proof n_beliefs_pos; lia).
    lra. }
  assert (Hflux : 0 <= kappa / db ^ 2 * (nth 0 diffused 0 + nth (n_beliefs - 1) diffused 0))
    by (apply Rmult_le_pos; assumption).
  split; [|split].
  - rewrite <- Hso, Hbal. ring.
  - split; [apply Rmult_lt_0_compat; assumption|].
    rewrite <- Hso, Hbal. nra.
  - intros k. unfold Agent.normalise, vdiv. rewrite nth_map_zero by (unfold Rdiv; ring).
    assert (Hs1 : 0 < np_sum diffused * db <= 1).
    { split; [apply Rmult_lt_0_compat; assumption|]. rewrite <- Hso, Hbal. nra. }
    assert (Hk0 : 0 <= nth k diffused 0).
    { destruct (Nat.lt_ge_cases k (length diffused)) as [Hlt|Hge].
      - rewrite Forall_forall in Hnn. apply Hnn, nth_In. exact Hlt.
      - rewrite nth_overflow by exact Hge. lra. }
    apply (Rmult_le_reg_r (np_sum diffused * db)); [lra|].
    unfold Rdiv. rewrite Rmult_assoc, Rinv_l by lra. nra.
Qed.

Lemma diffusion_loses_mass_at_the_ends_witness :
  0 <= 1 /\ density (point_mass 0) /\
  let diffused := mat_vec (green_matrix (1 / db ^ 2) n_beliefs) (point_mass 0) in
  np_sum diffused * db
    + 1 / db ^ 2 * (nth 0 diffused 0 + nth (n_beliefs - 1) diffused 0) * db = 1 /\
  0 < np_sum diffused * db <= 1 /\
  nth 0 diffused 0 <= nth 0 (Agent.normalise diffused) 0.
Proof.
  split; [lra | split; [apply (point_mass_density 0); lia|]].
  pose proof (diffusion_loses_mass_at_the_ends 1
                (green_matrix (1 / db ^ 2) n_beliefs) (point_mass 0) ltac:(lra)
                (green_inverse 1 ltac:(lra)) (point_mass_density 0 ltac:(lia)))
    as (H1 & H2 & H3).
  split; [exact H1 | split; [exact H2 | exact (H3 0%nat)]].
Defined.

Lemma green_pos (c : R) (n a j : nat) :
  0 < c -> (1 <= a <= n)%nat -> (j < n)%nat -> 0 < green c n a j.
Proof.
  intros Hc Ha Hj. unfold green.
  replace (Nat.min a (S j)) with (S (Nat.min (a - 1) j)) by lia.
  replace (S n - Nat.max a (S j))%nat with (S (n - Nat.max a (S j))) by lia.
  pose proof (ramp_pos c Hc (Nat.min (a - 1) j)).
  pose proof (ramp_pos c Hc (n - Nat.max a (S j))).
  pose proof (ramp_pos c Hc n).
  apply Rdiv_lt_0_compat; apply Rmult_lt_0_compat; assumption.
Qed.

Lemma np_sum_pos_entry (v : vec) :
  0 < np_sum v -> exists j, (j < length v)%nat /\ 0 < nth j v 0.
Proof.
  induction v as [|x v IH]; cbn [np_sum fold_right]; [lra|].
  fold (np_sum v). intros H. destruct (Rlt_dec 0 x) as [Hx|Hx].
  - exists 0%nat. split; [cbn [length]; lia | exact Hx].
  - destruct IH as (j & Hj & Hp); [lra|].
    exists (S j). split; [cbn [length]; lia | exact Hp].
Qed.

Lemma np_sum_map_pos {A : Type} (f : A -> R) (l : list A) (a : A) :
  (forall b, In b l -> 0 <= f b) -> In a l -> 0 < f a -> 0 < np_sum (map f l).
Proof.
  induction l as [|b l IH]; intros Hnn Hin Hpos; [contradiction|].
  cbn [map np_sum fold_right]. fold (np_sum (map f l)).
  assert (Hb : 0 <= f b) by (apply Hnn; left; reflexivity).
  assert (Hl : 0 <= np_sum (map f l)).
  { apply np_sum_nonneg, Forall_map, Forall_forall. intros d Hd. apply Hnn. right. exact Hd. }
  destruct Hin as [->|Hin]; [lra|].
  assert (0 < np_sum (map f l)); [|lra].
  apply IH; [|exact Hin | exact Hpos]. intros d Hd. apply Hnn. right. exact Hd.
Qed.

(** For a positive diffusion constant the propagator gives every statement
    a positive weight. *)
Lemma diffused_positive (kappa : R) (Minv : matrix) (o : vec) (k : nat) :
  0 < kappa -> is_inverse (mat_heat_equation kappa) Minv -> density o ->
  (k < n_beliefs)%nat -> 0 < nth k (mat_vec Minv o) 0.
Proof.
  intros Hk Hinv Ho Hlt. pose proof Ho as (Hlo & Hno & _).
  assert (Hc : 0 < kappa / db ^ 2).
  { apply Rdiv_lt_0_compat; [exact Hk|]. pose proof db_pos. nra. }
  rewrite (inverses_agree kappa Minv (green_matrix (kappa / db ^ 2) n_beliefs) o);
    [|lra | exact Hinv | apply green_inverse; exact Hk | exact Hlo].
  rewrite (green_row (kappa / db ^ 2) n_beliefs o Hlo k Hlt).
  destruct (np_sum_pos_entry o) as (j & Hj & Hp).
  { rewrite (density_sum o Ho). lra. }
  rewrite Hlo in Hj. rewrite Forall_forall in Hno.
  apply (np_sum_map_pos _ _ j).
  - intros b Hb. apply in_seq in Hb. apply Rmult_le_pos.
    + left. apply green_pos; [exact Hc | lia | lia].
    + apply Hno, nth_In. lia.
  - apply in_seq. lia.
  - apply Rmult_lt_0_compat; [|exact Hp]. apply green_pos; [exact Hc | lia | lia].
Qed.

(** X19.  With a positive diffusion constant an agent that does not listen
    gives every statement a positive weight, wherever its density was
    positive before: the new opinion is a density without zeros. *)
Theorem idle_step_spreads_the_support (kappa : R) (Minv : matrix)
    (schedule : list Agent.t) (i : nat) (self : Agent.t) :
  0 < kappa -> is_inverse (mat_heat_equation kappa) Minv ->
  (i < length schedule)%nat -> density (Agent.op self) ->
  exists a,
    nth_error (Agent.update_opinion_in_non_interaction Minv schedule i self) i = Some a /\
    density (Agent.op a) /\
    forall k, (k < n_beliefs)%nat -> 0 < nth k (Agent.op a) 0.
Proof.
  intros Hk Hinv Hi Ho. unfold Agent.update_opinion_in_non_interaction.
  eexists. split; [apply nth_error_put; exact Hi|].
  change (Agent.op (Agent.set_op self ?v)) with v.
  split; [apply (diffusion_density kappa); [lra | exact Hinv | exact Ho]|].
  intros k Hlt. unfold Agent.normalise, vdiv. rewrite nth_map_zero by (unfold Rdiv; ring).
  pose proof (diffused_positive kappa Minv (Agent.op self) k Hk Hinv Ho Hlt) as Hp.
  pose proof Ho as (Hlo & Hno & _).
  assert (Hmass : 0 < np_sum (mat_vec Minv (Agent.op self))).
  { apply (heat_solution_mass kappa _ (Agent.op self)); try assumption; try lra.
    - eapply inverse_length; eassumption.
    - destruct Hinv as (_ & _ & Hinv). apply Hinv.
      rewrite length_mat_heat_equation. exact Hlo.
    - rewrite (density_sum _ Ho). lra. }
  apply Rdiv_lt_0_compat; [exact Hp|]. apply Rmult_lt_0_compat; [exact Hmass | apply db_pos].
Qed.

Lemma idle_step_spreads_the_support_witness :
  0 < 1 /\ density (Agent.op quiet_A) /\
  exists a,
    nth_error (Agent.update_opinion_in_non_interaction
                 (green_matrix (1 / db ^ 2) n_beliefs) [quiet_A; quiet_B] 0 quiet_A) 0
    = Some a /\
    density (Agent.op a) /\ 0 < nth 199 (Agent.op a) 0.
Proof.
  assert (Ho : density (Agent.op quiet_A)) by (apply (point_mass_density 0); lia).
  split; [lra | split; [exact Ho|]].
  destruct (idle_step_spreads_the_support 1 (green_matrix (1 / db ^ 2) n_beliefs)
              [quiet_A; quiet_B] 0 quiet_A ltac:(lra) (green_inverse 1 ltac:(lra))
              ltac:(cbn [length]; lia) Ho) as (a & Ha & Hd & Hp).
  exists a. split; [exact Ha | split; [exact Hd|]].
  apply Hp. unfold n_beliefs. lia.
Defined.
